(* ===== verification/_CoqProject ===== *)
-Q . S2P
Prelude.v
Buffers.v
VarInt.v
Utf8.v
Http3.v
Capsules.v
Huffman.v
Qpack.v
Connect.v
WsFrame.v
WsSession.v
WsStreams.v
WsClose.v
Coding.v
Setup.v
Data.v
Announces.v
Subscribes.v
Fetches.v
Messages.v
Errors.v
Streams.v
Watch.v
Session.v
Serve.v
Subgroup.v
Groups.v
StreamTrack.v
Objects.v
Tracks.v
Receiving.v
Serving.v
Transfer.v
Subscriptions.v
SubscriberHalf.v
Delivery.v
PublisherHalf.v
Answers.v
Announcing.v
Remotes.v
Relay.v
RelaySessions.v
Payloads.v
Listings.v
Directory.v
Catalog.v
Mp4.v
PubMedia.v
SubMedia.v
Origins.v
