(* ===== verification/Prelude.v ===== *)
(** * A verification library for Media over QUIC

    The repository is a Rust implementation of Media over QUIC, draft 07
    ([src/moq-transport]), with the crates around it. This library models the
    transport crate, the two crates that give it a WebTransport session
    ([src/internal_crates/web-transport-proto] and [web-transport-ws]), the relay
    ([src/moq-relay-ietf]) with the API it finds other relays by ([src/moq-api]), the
    directory of broadcasts ([src/moq-dir]), and the tools that publish and play
    fragmented MP4 ([src/moq-pub], [src/moq-sub], [src/moq-catalog]). It proves what the
    parts promise each other.

    ** How the program is put together

    Two peers share a connection. One bidirectional stream, the control stream,
    starts with a SETUP message each way and then carries control messages; the
    objects of the tracks travel on unidirectional streams and in datagrams. Per
    session there is a publisher half and a subscriber half. They put messages in
    one outgoing queue, from which a task writes them to the control stream, and
    another task reads the peer's messages and hands each to the half it concerns.
    Everything that tasks share sits in a [State], a value behind a mutex with
    notification.

    A relay has many sessions. What is announced on one is entered in a table all
    sessions share, and a subscription on another is served from there, from a
    further relay that the API names, or from the relay upstream; the track that
    travels between two sessions is one in the track cache. The directory is a
    publisher whose tracks list what is announced to it. The media tools cut a film
    into tracks of the cache and put them together again.

    ** The files

    - [Prelude]: bytes, big-endian integers, the state-and-error monad [M] with
      the outcomes [Ok], [Err] and [Panic], loops, transition sequences.
    - [Buffers] ([coding/decode.rs], [encode.rs]): errors, readable and writable
      buffers, the [Encode] and [Decode] classes and the laws the rest is proved
      against: [RoundTrip] (what was written is read back, nothing else
      consumed), [Streaming] (success and failure are final, [More n] means that
      [n] bytes really are missing, no panic) with its variant [streaming_on] for
      one input, and [MinSize] (bytes consumed by success). [Runtime] holds what
      the code leaves open: the room of a fresh [Vec] and the iteration order of
      hash maps, any permutation of the entries.
    - [VarInt] ([coding/varint.rs]), [Utf8] (the parts of Rust's strings the codec
      relies on), [Coding] ([coding/string.rs], [tuple.rs], [params.rs]).
    - WebTransport over HTTP/3 ([web-transport-proto/src]). [Http3] ([frame.rs],
      [stream.rs], [settings.rs], [error.rs]): frames, stream types, SETTINGS, the
      mapping of error codes. [Capsules] ([capsule.rs]): capsules and the close of a
      session. [Huffman] ([huffman.rs]): the HPACK code, from its table. [Qpack]
      ([qpack.rs]): prefix integers, strings, field lines and header blocks against
      the static table. [Connect] ([connect.rs]): the CONNECT request and its
      response.
    - WebTransport over a WebSocket ([web-transport-ws/src]). [WsFrame]
      ([frame.rs]): frames and stream identifiers. [WsSession] ([session.rs]): the
      task behind a session, one turn of its [select!] at a time, with a log of what
      it sent. [WsStreams] (the rest of [session.rs]): send streams, receive streams
      and the session's handle. [WsClose]: closing, over a [Watch] class that states
      what the watch channel promises.
    - [Setup] ([setup/]): roles, versions, CLIENT_SETUP and SERVER_SETUP.
    - [Data] ([data/]): stream headers, object headers, datagrams.
    - [Announces], [Subscribes], [Fetches] ([message/]): one module per message;
      [Messages] ([message/mod.rs], [publisher.rs], [subscriber.rs]): the
      [Message] enum, its framing and its two halves.
    - [Errors] ([error.rs], [serve/error.rs], [session/error.rs]).
    - [Streams] ([session/reader.rs], [writer.rs], the traits of [transport.rs]):
      a receive stream is the list of what its reads return, a send stream the
      list of how much its writes accept, so fragmentation and failure are
      arbitrary. A send stream also says what [finish] does on this transport and
      whether the FIN of a drop gets out; every task drops its [Writer] when it ends.
    - [Watch] ([watch/state.rs], [queue.rs]): one critical section is one step;
      [Tasks] and [History] are transition systems over all interleavings.
    - [Session] ([session/mod.rs]): the handshake and the loops of [run].
    - The track cache ([serve/]). [Serve]: heaps of states and handles into them,
      closing, the turn of a reader's loop. [Subgroup] and [Groups]
      ([serve/subgroup.rs]): objects, subgroups, the latest subgroup of a track.
      [StreamTrack] ([serve/stream.rs]): the same for a track on one stream.
      [Tracks] ([serve/datagram.rs], [track.rs], [tracks.rs]): datagrams, a
      track's mode, broadcasts and the requests for unknown tracks. A handle is a
      location with the half it belongs to; dropping the last handle of a state
      drops what its value owns. An [async] method is given by its turns, one
      critical section each; [read_all] runs them on a state nobody changes.
      [Fanout], [Publishing] and [History] are the systems of one object, one
      subgroup and one track among tasks. [Objects] ([serve/object.rs]): objects
      in priority order. All heaps together are a [Store.t].
    - The subscriber half. [Receiving] ([recv_track] and [recv_subgroup] of
      [session/subscriber.rs]): from a stream into the cache. [Subscriptions]
      ([session/subscribe.rs]): one subscription and its writer. [SubscriberHalf]
      (the rest of [subscriber.rs], [announced.rs]): the tables and the messages.
    - The publisher half. [Serving] (the loops of [session/subscribed.rs]): from the
      cache onto streams and datagrams, by await points. [PublisherHalf]
      ([publisher.rs], [announce.rs], the rest of [subscribed.rs],
      [track_status_requested.rs]): the tables and the messages.
    - Compositions. [Transfer]: a subgroup is served while it is written, and read
      by the peer. [Delivery]: the same from the subscription to the reader of the
      track. [Answers]: the publisher half among the application and the serving
      tasks, and who answers which SUBSCRIBE. [Announcing] ([Publisher::announce] of
      [publisher.rs], whole): the loop that collects subscriptions and runs their
      tasks, one branch of its [select!] at a time, within the system of [Answers].
    - The relay. [Remotes] ([remote.rs]): connections to other relays and the tracks
      shared over them, with the reference counts and the destructor of a track.
      [Relay] ([local.rs], [producer.rs], [consumer.rs]): the table of namespaces, who
      serves a subscription, what becomes of an announcement; [LocalsSys],
      [RemotesSys] and [TracksSys] are the tables among their users. [RelaySessions]
      ([relay.rs], [session.rs]): which session gets which parts. [Origins]
      ([moq-api/src/server.rs], [client.rs], and the relay's [api.rs]): the database of
      origins, one command of a handler at a time, and the relay's registration in it.
    - The directory. [Payloads]: what the objects of a group hold, for its users.
      [Listings] ([moq-dir/src/listing.rs], [listings.rs]): a listing as a track of
      snapshots and changes, its reader, the registrations. [Directory]
      ([session.rs]): the sessions that announce to it.
    - The media tools. [Catalog] ([moq-catalog/src/lib.rs]), [Mp4]: the boxes and what the
      readers of the mp4 crate are asked, as a class. [PubMedia]
      ([moq-pub/src/media.rs], the loop of [main.rs]): from bytes to groups. [SubMedia]
      ([moq-sub/src/media.rs]): from groups to the output.

    A module is named after the Rust type; its record or inductive type is [t],
    and [encode_x], [decode_x] are the bodies of the trait methods. [u64] and
    [usize] are [N] (64-bit target), [u8] is a byte, [String] a validated byte
    sequence, [HashMap] a finite map. Third-party code is an argument, with what the
    code relies on as the laws of a class: the URL parser and the HTTP names of
    [Connect], the watch channel of [WsClose], Redis and JSON in [Origins], the mp4 crate;
    the channels of [WsSession] are given by what their operations return, and so are the
    answers of an API and of connecting in [Relay] and [Remotes]. Arithmetic that can wrap is written with
    its modulus. [unwrap] and out-of-range indexing are [Panic].

    ** What is proved

    - Codecs: values written are read back (of the control messages all but a
      SUBSCRIBE or SUBSCRIBE_UPDATE whose positions the reader cannot agree on,
      [message_round_trip]), shortest varints, exact bounds
      and errors, duplicate and truncated input, no panic on any input; for whole
      messages, setup messages, data headers and datagrams.
    - WebTransport: settings, capsules, strings and header blocks come back as they
      were written, a CONNECT request is understood by the server it is sent to and
      the response by the client, the Huffman decoder inverts the table and ends, no
      input panics; over a WebSocket, frames come back, streams are only touched by the
      side allowed to, the bytes of a stream go through both backends to its reader in
      order ([ws_stream_transfer]), and a closed session is seen by whoever waits for it.
    - Streams: for a decoder that is [streaming_on] what will arrive, [Reader.decode]
      equals decoding the whole stream at once, however it was cut, and never waits
      for bytes it does not need (absolute positions in a SUBSCRIBE are outside); what a [Writer]
      sent is a prefix of what it was asked to send; sequences of values arrive
      in order.
    - Shared state: no lost wake-ups, closing is for good and happens exactly
      with the last handle of a half, queues are first in, first out in every
      interleaving.
    - Track cache: every reader of an object gets the chunks in order and never
      takes an unfinished object for a finished one; objects of a subgroup are
      numbered in order; the latest subgroup only moves forward and readers never
      miss the newest; requests for a track are deduplicated, and answered or
      refused when their handler goes away.
    - Sessions: the handshake ends with compatible roles on both sides or is
      refused on both, control messages are handled in order by the right half, in any fragmentation
      unless they have absolute positions,
      the receiving loop ends, the limit on failing streams is exact.
    - The halves: what is sent of a subgroup is always whole objects in order and a
      prefix of the next, and is finished with a FIN also when it is cut short
      ([serve_subgroup_in_order]); the peer stores the same objects, and this holds from the
      bytes up to the reader of the track ([subscription_delivery]); numbers of
      subscriptions are never shared; every accepted SUBSCRIBE is held by somebody or
      has been answered exactly once ([subscribes_answered]), also through the loop of
      an announce and however that ends ([announce_answers]); what each message does to
      the tables, and what it returns.
    - The relay: a subscription on any session becomes exactly one to the session that
      announced the namespace, and both read one track ([relay_forwards]); nobody takes
      over a namespace ([locals_owned]); one connection per origin and one live track
      per name, but for a race in a destructor ([remotes_once],
      [remote_tracks_shared]); who serves and what is told the peer on every branch;
      nothing goes round through the upstream session ([upstream_apart]).
    - The API: interleaved handlers act as if each ran on its own at its last
      command, with two exceptions ([api_linearizes]); an origin is never displaced
      ([origin_owned]); what one client sets another reads ([origin_round_trip]); the
      relay's registration lapses although it is refreshed ([refresh_lapses]).
    - The directory: replaying a listing's newest group gives its names, those with a
      newline apart ([listing_published]), a reader follows it ([reader_follows]), what is registered
      stays listed until its announcement ends ([registrations_listed],
      [directory_lists]).
    - The media tools: the groups of a track hold the fragments of the input from
      the keyframe on ([fragments_published]), however it is fed ([feed_pieces]); the
      player understands the init segment unless its [moov] has an extended size, and its output is whole objects, each
      group's in order ([init_understood], [objects_played]); the fields a catalog tells
      once come back for the tracks that share them ([common_fields_inherited]).
    - Where the code does less than it means to, a theorem says what it does:
      [subscribe_absolute_start_desync], [subscribe_fragment_rejected],
      [client_truncated_role_waits], [stream_group_next], [datagram_once],
      [announce_again], [subscription_ended], [listing_never_renews],
      [refresh_lapses], and the panic of GOAWAY in [dispatch_routes].

    ** Recursion

    Loops over what arrives recurse on the list of reads or writes, counted loops
    on the binary digits of their count ([for_range], since a count can be close
    to 2^62). The loops that read a stream have fuel, one more than its bytes, which
    suffices since every turn takes at least one: [Session.recv_loop]
    ([recv_loop_fuel]) and those of [Receiving] ([recv_terminates]). In
    [web-transport-proto] a prefix integer has ten bytes at most, the turns of
    [decode_rest] and [encode_rest] (the shift passes 64 bits at the tenth); a
    Huffman string and a header block have as many turns as bits or bytes, each turn
    taking one. The publisher's [parse_loop] has one turn more than the bytes that are
    left, a box being eight bytes at least.

    ** What is not modelled

    Logging, Debug and Display text (a parameter where it reaches the wire); timers and
    the task scheduler beyond the order of steps; the QUIC crate behind
    [transport.rs], whose part in sending and in the FIN is the answers of a send stream,
    and the adapter of the relay, which puts the WebSocket streams behind the same traits; certificates, sockets, the HTTP upgrade and the web server of the relay;
    parsing of command lines; the HTTP between the API's server and its clients, and
    the axum router; the clock ([src/moq-clock-ietf]), an example that prints the time. The
    traits of [web-transport-trait] have no bodies. [src/moq-transport/src/util] and
    [serve/broadcast.rs] are declared by no module and are not compiled. *)
From Stdlib Require Import NArith Lia Bool.
From Stdlib Require Export Init.Byte.
From stdpp Require Export base list gmap.
From stdpp Require Import option numbers.

#[global] Open Scope N_scope.

(** ** Arithmetic automation *)

Ltac Zify.zify_post_hook ::= Z.to_euclidean_division_equations.

(** ** Bytes and big-endian integers *)

Definition byte := Byte.byte.

#[export] Instance byte_eq_dec : EqDecision byte := Byte.byte_eq_dec.

(** The number a byte stands for, and the truncating cast [as u8]. *)
Definition nb (b : byte) : N := Byte.to_N b.

Definition bn (x : N) : byte := default x00 (Byte.of_N (x mod 256)).

Lemma nb_lt b : nb b < 256.
Proof. pose proof (Byte.to_N_bounded b). unfold nb. lia. Qed.

Lemma nb_bn x : nb (bn x) = x mod 256.
Proof.
  unfold nb, bn. destruct (Byte.of_N (x mod 256)) as [b|] eqn:E; simpl.
  - by apply Byte.to_of_N.
  - apply Byte.of_N_None_iff in E.
    pose proof (N.mod_lt x 256 ltac:(done)). lia.
Qed.

Lemma bn_nb b : bn (nb b) = b.
Proof.
  unfold bn, nb. rewrite N.mod_small by apply nb_lt.
  by rewrite Byte.of_to_N.
Qed.

#[export] Instance nb_inj : Inj (=) (=) nb.
Proof. intros a b H. by rewrite <- (bn_nb a), <- (bn_nb b), H. Qed.

Lemma bn_small x : x < 256 -> nb (bn x) = x.
Proof. intros. rewrite nb_bn. by apply N.mod_small. Qed.

(** A decidable fact about the values of a byte, by trying them all. *)
Definition below_256 : list N := (fun n => N.of_nat n) <$> seq 0 256.

Lemma byte_cases (P : N -> bool) x : forallb P below_256 = true -> x < 256 -> P x = true.
Proof.
  intros H Hx. rewrite forallb_forall in H. apply H, list_elem_of_In, list_elem_of_fmap.
  exists (N.to_nat x). split; [by rewrite N2Nat.id|]. apply (list_elem_of_lookup_2 _ (N.to_nat x)), lookup_seq. lia.
Qed.

(** Lengths are machine integers ([usize] of a 64-bit target), hence [N]. *)
Definition lenN {A} (l : list A) : N := N.of_nat (length l).

Lemma lenN_app {A} (l k : list A) : lenN (l ++ k) = lenN l + lenN k.
Proof. unfold lenN. rewrite length_app. lia. Qed.

Lemma lenN_cons {A} (x : A) l : lenN (x :: l) = 1 + lenN l.
Proof. unfold lenN. simpl. lia. Qed.

Lemma lenN_nil {A} : lenN (@nil A) = 0.
Proof. done. Qed.

(** [uN::from_be_bytes] and [put_u16]/[put_u32]/[put_u64]. *)
Definition from_be (bs : list byte) : N := fold_left (fun acc b => acc * 256 + nb b) bs 0.

Fixpoint to_be (k : nat) (x : N) : list byte :=
  match k with
  | O => []
  | S k => to_be k (x / 256) ++ [bn x]
  end.

Lemma length_to_be k x : length (to_be k x) = k.
Proof.
  revert x; induction k as [|k IH]; intros x; simpl; [done|].
  rewrite length_app, IH. simpl. lia.
Qed.

Lemma lenN_to_be k x : lenN (to_be k x) = N.of_nat k.
Proof. unfold lenN. by rewrite length_to_be. Qed.

Lemma from_be_snoc bs b : from_be (bs ++ [b]) = from_be bs * 256 + nb b.
Proof. unfold from_be. by rewrite fold_left_app. Qed.

Lemma from_be_to_be k x : from_be (to_be k x) = x mod 256 ^ N.of_nat k.
Proof.
  revert x; induction k as [|k IH]; intros x.
  - simpl. by rewrite N.mod_1_r.
  - cbn [to_be]. rewrite from_be_snoc, IH, nb_bn, Nat2N.inj_succ, N.pow_succ_r'.
    rewrite N.Div0.mod_mul_r. lia.
Qed.

Lemma from_be_cons b bs : from_be (b :: bs) = nb b * 256 ^ lenN bs + from_be bs.
Proof.
  induction bs as [|c bs IH] using rev_ind.
  - unfold from_be, lenN. simpl. lia.
  - rewrite app_comm_cons, !from_be_snoc, IH, lenN_app, N.pow_add_r.
    change (lenN [c]) with 1. rewrite N.pow_1_r. lia.
Qed.

Lemma from_be_lt bs : from_be bs < 256 ^ lenN bs.
Proof.
  induction bs as [|b bs IH] using rev_ind; [done|].
  rewrite from_be_snoc, lenN_app, N.pow_add_r.
  change (lenN [b]) with 1. rewrite N.pow_1_r. pose proof (nb_lt b). nia.
Qed.

(** Writing a tagged integer: the top byte carries the high part. *)
Lemma to_be_cons k x :
  to_be (S k) x = bn (x / 256 ^ N.of_nat k) :: to_be k x.
Proof.
  revert x; induction k as [|k IH]; intros x.
  - simpl. by rewrite N.div_1_r.
  - change (to_be (S (S k)) x) with (to_be (S k) (x / 256) ++ [bn x]).
    rewrite IH, Nat2N.inj_succ, N.pow_succ_r', <- N.Div0.div_div. done.
Qed.

(** ** Bit operations used by the wire formats *)

Lemma lor_shiftl_add a x k : x < 2 ^ k -> N.lor (N.shiftl a k) x = a * 2 ^ k + x.
Proof.
  intros Hx.
  assert (Hl : N.land (N.shiftl a k) x = 0).
  { apply N.bits_inj. intros n. rewrite N.land_spec, N.bits_0.
    destruct (N.lt_ge_cases n k) as [Hn|Hn].
    - by rewrite N.shiftl_spec_low.
    - replace (N.testbit x n) with false; [by rewrite andb_false_r|].
      symmetry. destruct (N.eq_dec x 0) as [->|Hx0]; [apply N.bits_0|].
      apply N.bits_above_log2. apply N.log2_lt_pow2; [lia|].
      eapply N.lt_le_trans; [done|]. by apply N.pow_le_mono_r. }
  by rewrite <- N.lxor_lor, <- N.add_nocarry_lxor, N.shiftl_mul_pow2 by done.
Qed.

Lemma land_mask x k : N.land x (2 ^ k - 1) = x mod 2 ^ k.
Proof. rewrite N.sub_1_r, <- N.ones_equiv. apply N.land_ones. Qed.

(** ** Outcomes and the state-and-error monad

    A Rust call either returns [Ok], returns [Err], or panics. The state is
    kept in all three cases: a caller that recovers from an error sees what
    the failed call did to the buffer. *)

Inductive outcome (E A : Type) : Type :=
  | Ok (a : A)
  | Err (e : E)
  | Panic.
Arguments Ok {E A} a.
Arguments Err {E A} e.
Arguments Panic {E A}.

Definition is_Ok {E A} (o : outcome E A) : Prop := match o with Ok _ => True | _ => False end.

Definition M (S E A : Type) : Type := S -> outcome E A * S.

Section Monad.
Context {S E : Type}.

Definition ret {A} (a : A) : M S E A := fun s => (Ok a, s).
Definition raise {A} (e : E) : M S E A := fun s => (Err e, s).
Definition panic {A} : M S E A := fun s => (Panic, s).

Definition bind {A B} (m : M S E A) (k : A -> M S E B) : M S E B := fun s =>
  match m s with
  | (Ok a, s') => k a s'
  | (Err e, s') => (Err e, s')
  | (Panic, s') => (Panic, s')
  end.

(** [option.ok_or(e)?] *)
Definition ok_or {A} (o : option A) (e : E) : M S E A :=
  match o with Some a => ret a | None => raise e end.
End Monad.

Declare Scope moq_scope.
Delimit Scope moq_scope with moq.
Notation "'let!' x ':=' m 'in' k" := (bind m (fun x => k))
  (at level 10, x binder, m at level 200, k at level 200,
   format "'[v' 'let!'  x  ':='  m  'in' '/' k ']'") : moq_scope.
Notation "'do!' m 'in' k" := (bind m (fun _ => k))
  (at level 10, m at level 200, k at level 200,
   format "'[v' 'do!'  m  'in' '/' k ']'") : moq_scope.
#[global] Open Scope moq_scope.

(** A call on some other mutable value [s], and [.unwrap()] of its result. *)
Definition sub {S T E A} (m : M S E A) (s : S) : M T E (A * S) := fun t =>
  match m s with
  | (Ok a, s') => (Ok (a, s'), t)
  | (Err e, _) => (Err e, t)
  | (Panic, _) => (Panic, t)
  end.

Definition unwrap {S E E' A} (m : M S E A) : M S E' A := fun s =>
  match m s with
  | (Ok a, s') => (Ok a, s')
  | (_, s') => (Panic, s')
  end.

(** Two computations are interchangeable when they agree from every state. *)
Definition meq {S E A} (m1 m2 : M S E A) : Prop := forall s, m1 s = m2 s.

#[export] Instance meq_equiv {S E A} : Equivalence (@meq S E A).
Proof.
  split.
  - by intros m s.
  - intros m1 m2 H s. by rewrite H.
  - intros m1 m2 m3 H1 H2 s. by rewrite H1, H2.
Qed.

#[export] Instance bind_proper {S E A B} :
  Proper (meq ==> pointwise_relation A meq ==> meq) (@bind S E A B).
Proof.
  intros m1 m2 Hm k1 k2 Hk s. unfold bind. rewrite (Hm s).
  destruct (m2 s) as [[a|e|] s']; [apply Hk|done|done].
Qed.

Section MonadLaws.
Context {S E : Type}.

Lemma bind_ret_l {A B} (a : A) (k : A -> M S E B) : meq (bind (ret a) k) (k a).
Proof. by intros s. Qed.

Lemma bind_ret_r {A} (m : M S E A) : meq (bind m ret) m.
Proof. intros s. unfold bind. by destruct (m s) as [[a|e|] s']. Qed.

Lemma bind_assoc {A B C} (m : M S E A) (k : A -> M S E B) (h : B -> M S E C) :
  meq (bind (bind m k) h) (bind m (fun a => bind (k a) h)).
Proof. intros s. unfold bind. by destruct (m s) as [[a|e|] s']. Qed.

Lemma bind_raise {A B} (e : E) (k : A -> M S E B) : meq (bind (raise e) k) (raise e).
Proof. by intros s. Qed.

Lemma bind_Ok {A B} (m : M S E A) (k : A -> M S E B) s b s' :
  bind m k s = (Ok b, s') -> exists a s1, m s = (Ok a, s1) /\ k a s1 = (Ok b, s').
Proof. unfold bind. destruct (m s) as [[a|e|] s1]; [eauto|done|done]. Qed.

Lemma bind_run {A B} (m : M S E A) (k : A -> M S E B) s a s1 :
  m s = (Ok a, s1) -> bind m k s = k a s1.
Proof. unfold bind. by intros ->. Qed.
End MonadLaws.

Lemma sub_Ok {S T E A} (m : M S E A) s (t : T) p t' :
  sub m s t = (Ok p, t') -> m s = (Ok p.1, p.2) /\ t' = t.
Proof. unfold sub. destruct (m s) as [[]]; intros; by simplify_eq. Qed.

Lemma unwrap_Ok {S E E' A} (m : M S E A) s a s' :
  (unwrap m : M S E' A) s = (Ok a, s') -> m s = (Ok a, s').
Proof. unfold unwrap. destruct (m s) as [[]]; intros; by simplify_eq. Qed.

(** ** Loops

    [for _ in 0..count]: the count comes off the wire and can be as large as
    [2^62 - 1], so the loop recurses on the binary digits of the count; an
    error or a panic of the body leaves the loop at once. *)
Section Loops.
Context {S E A : Type}.

Fixpoint iter_pos (p : positive) (body : A -> M S E A) (a : A) : M S E A :=
  match p with
  | xH => body a
  | xO p => let! a := iter_pos p body a in iter_pos p body a
  | xI p => let! a := body a in let! a := iter_pos p body a in iter_pos p body a
  end.

Definition for_range (count : N) (body : A -> M S E A) (a : A) : M S E A :=
  match count with
  | N0 => ret a
  | Npos p => iter_pos p body a
  end.

Lemma iter_pos_comm p body a :
  meq (let! a := iter_pos p body a in body a) (let! a := body a in iter_pos p body a).
Proof.
  revert a; induction p as [p IH|p IH|]; intros a; cbn [iter_pos].
  - rewrite !bind_assoc. f_equiv; intros b. rewrite !bind_assoc.
    setoid_rewrite IH. rewrite <- !bind_assoc. rewrite IH. rewrite !bind_assoc. done.
  - rewrite bind_assoc. setoid_rewrite IH. rewrite <- bind_assoc, IH, bind_assoc. done.
  - done.
Qed.

Lemma iter_pos_succ p body a :
  meq (iter_pos (Pos.succ p) body a) (let! a := body a in iter_pos p body a).
Proof.
  revert a; induction p as [p IH|p IH|]; intros a; [|done|done].
  change (Pos.succ (xI p)) with (xO (Pos.succ p)). cbn [iter_pos].
  rewrite IH, bind_assoc. f_equiv; intros b.
  transitivity (bind (iter_pos p body b) (fun c => bind (body c) (iter_pos p body))).
  - f_equiv; intros c; apply IH.
  - rewrite <- bind_assoc, iter_pos_comm, bind_assoc. done.
Qed.

Lemma for_range_succ n body a :
  meq (for_range (N.succ n) body a) (let! a := body a in for_range n body a).
Proof.
  destruct n as [|p]; simpl; [by rewrite bind_ret_r|apply iter_pos_succ].
Qed.
End Loops.

(** [for x in xs { body(x)?; }] over a slice. *)
Fixpoint for_each {S E A} (xs : list A) (body : A -> M S E unit) : M S E unit :=
  match xs with
  | [] => ret tt
  | x :: xs => do! body x in for_each xs body
  end.

(** Entries put into a map one after the other. *)
Lemma insert_all `{Countable K} {V} (l : list (K * V)) (m : gmap K V) :
  NoDup l.*1 -> (forall k, k ∈ l.*1 -> m !! k = None) ->
  fold_left (fun m p => <[p.1 := p.2]> m) l m = list_to_map l ∪ m.
Proof.
  revert m. induction l as [|[k v] l IH]; intros m Hl Hm; simpl; [by rewrite map_empty_union|].
  inversion_clear Hl as [|? ? Hk Hl']. rewrite IH.
  - rewrite <- insert_union_r by (by apply not_elem_of_list_to_map_1). by rewrite insert_union_l.
  - exact Hl'.
  - intros k' Hk'. rewrite lookup_insert_ne by (intros <-; done). apply Hm. by right.
Qed.

(** ** Transition sequences *)
Section Star.
Context {A : Type} (R : A -> A -> Prop).

Inductive star : A -> A -> Prop :=
  | star_refl a : star a a
  | star_step a b c : star a b -> R b c -> star a c.

(** An invariant of every step holds in every reachable state. *)
Lemma star_invariant (P : A -> Prop) a b :
  (forall x y, P x -> R x y -> P y) -> P a -> star a b -> P b.
Proof. intros Hstep Ha. induction 1; eauto. Qed.
End Star.

(** ** Tactics *)

Create HintDb codec.

(** Walk back through a successful sequence of [?] steps. *)
Ltac run_inv :=
  repeat match goal with
  | H : bind _ _ _ = (Ok _, _) |- _ =>
      let a := fresh "a" in let s := fresh "s" in let E := fresh "E" in
      apply bind_Ok in H as (a & s & E & H); cbv beta in H
  | H : ret _ _ = (Ok _, _) |- _ => unfold ret in H; simplify_eq
  | H : raise _ _ = (Ok _, _) |- _ => discriminate H
  | H : panic _ = (Ok _, _) |- _ => discriminate H
  end.
