(* ===== verification/Buffers.v ===== *)
(** * Buffers, codec traits and their laws

    [moq-transport/src/coding/decode.rs] and [encode.rs]: the two error enums,
    the [Decode] and [Encode] traits with their [decode_remaining] and
    [encode_remaining] helpers. A [bytes::Buf] is known to the code only by the
    bytes it still holds, a [bytes::BufMut] by the bytes written so far and the
    room left ([remaining_mut]); both are modelled by exactly that. *)
From Stdlib Require Import NArith Lia Bool.
From stdpp Require Import base list gmap option numbers.
From S2P Require Import Prelude.

(** ** Errors *)

Module DecodeErr.
Inductive DecodeError : Type :=
  | More (n : N)
  | InvalidLength (expected got : N)
  | InvalidString (bytes : list byte)
  | InvalidMessage (t : N)
  | InvalidRole (v : N)
  | InvalidSubscribeLocation
  | InvalidFilterType
  | InvalidGroupOrder
  | InvalidObjectStatus
  | InvalidTrackStatusCode
  | MissingField
  | InvalidValue
  | BoundsExceeded
  | DupliateParameter
  | MissingParameter
  | InvalidParameter
  | Io (kind : N).
End DecodeErr.
Export DecodeErr (DecodeError).

Module EncodeErr.
Inductive EncodeError : Type :=
  | More (n : N)
  | BoundsExceeded
  | InvalidValue
  | MissingField
  | Io (kind : N).
End EncodeErr.
Export EncodeErr (EncodeError).

(** ** Readable buffers ([bytes::Buf]) *)

Definition dec (A : Type) : Type := M (list byte) DecodeError A.

Definition remaining : dec N := fun r => (Ok (lenN r), r).

Definition get_u8 : dec byte := fun r =>
  match r with
  | [] => (Panic, r)
  | b :: r' => (Ok b, r')
  end.

Definition copy_to_slice (n : N) : dec (list byte) := fun r =>
  if lenN r <? n then (Panic, r)
  else (Ok (take (N.to_nat n) r), drop (N.to_nat n) r).

(** [Decode::decode_remaining]; [-] on [N] is [saturating_sub]. *)
Definition decode_remaining (required : N) : dec unit :=
  let! rem := remaining in
  let needed := required - rem in
  if 0 <? needed then raise (DecodeErr.More needed) else ret tt.

(** ** Writable buffers ([bytes::BufMut]) *)

Record wbuf := { wdata : list byte; wcap : N }.

Definition enc (A : Type) : Type := M wbuf EncodeError A.

Definition wapp (w : wbuf) (bs : list byte) : wbuf :=
  {| wdata := wdata w ++ bs; wcap := wcap w - lenN bs |}.

Definition remaining_mut : enc N := fun w => (Ok (wcap w), w).

Definition put_slice (bs : list byte) : enc unit := fun w =>
  if wcap w <? lenN bs then (Panic, w) else (Ok tt, wapp w bs).

Definition put_u8 (b : byte) : enc unit := put_slice [b].

(** [Encode::encode_remaining] *)
Definition encode_remaining (required : N) : enc unit :=
  let! rem := remaining_mut in
  let needed := required - rem in
  if 0 <? needed then raise (EncodeErr.More needed) else ret tt.

(** ** The traits *)

Class Encode (A : Type) := encode : A -> enc unit.
Class Decode (A : Type) := decode : dec A.

(** What the code takes from its runtime without fixing it: the room of a
    fresh [Vec::new()] used as a [BufMut], and the order in which a
    [HashMap<u64, _>] is iterated, which is some permutation of its entries. *)
Class Runtime := {
  vec_cap : N;
  hash_iter : forall {V : Type}, gmap N V -> list (N * V);
  hash_iter_perm : forall {V : Type} (m : gmap N V), hash_iter m ≡ₚ map_to_list m;
}.

Definition std_runtime : Runtime := {|
  vec_cap := 2 ^ 63 - 1;
  hash_iter := fun V m => map_to_list m;
  hash_iter_perm := fun V m => Permutation_refl _;
|}.

(** [Vec::new()] *)
Definition new_vec `{Runtime} : wbuf := {| wdata := []; wcap := vec_cap |}.

(** [let mut buf = Vec::new(); e.encode(&mut buf)]: the bytes written, or the
    failure. *)
Definition to_vec `{Runtime} (e : enc unit) : outcome EncodeError (list byte) :=
  match e new_vec with
  | (Ok _, w) => Ok (wdata w)
  | (Err e, _) => Err e
  | (Panic, _) => Panic
  end.

(** [m.encode(&mut buf)?] and [m.encode(&mut buf).unwrap()] on a fresh [Vec]. *)
Definition in_vec `{Runtime} (e : enc unit) : enc (list byte) :=
  match to_vec e with
  | Ok bs => ret bs
  | Err e => raise e
  | Panic => panic
  end.

Definition in_vec_unwrap `{Runtime} (e : enc unit) : enc (list byte) :=
  match to_vec e with
  | Ok bs => ret bs
  | _ => panic
  end.

Lemma in_vec_unwrap_Ok `{Runtime} e w bs w' :
  in_vec_unwrap e w = (Ok bs, w') ->
  w' = w /\ exists w1, e new_vec = (Ok tt, w1) /\ bs = wdata w1.
Proof.
  unfold in_vec_unwrap, to_vec. destruct (e new_vec) as [[[]|e'|] w1]; [|done|done].
  unfold ret. intros ?. simplify_eq. eauto.
Qed.

(** ** Laws *)

(** Whatever [e] writes, [d] reads back as [a], leaving the rest alone. *)
Definition agrees {A} (e : enc unit) (d : dec A) (a : A) : Prop :=
  forall w w', e w = (Ok tt, w') ->
    exists bs, w' = wapp w bs /\ forall rest, d (bs ++ rest) = (Ok a, rest).

(** [d] consumes at least [n] bytes whenever it succeeds. *)
Definition consumes {A} (n : N) (d : dec A) : Prop :=
  forall r a r', d r = (Ok a, r') -> n + lenN r' <= lenN r.

(** [d] works on a stream that arrives in pieces: success and failure are
    final, [More n] asks for bytes that are really needed, nothing panics. *)
Definition streaming_at {A} (d : dec A) (b : list byte) : Prop :=
  match d b with
  | (Ok a, r) => (exists p, b = p ++ r) /\ forall s, d (b ++ s) = (Ok a, r ++ s)
  | (Err (DecodeErr.More n), _) =>
      0 < n /\ forall s, lenN s < n -> fst (d (b ++ s)) = Err (DecodeErr.More (n - lenN s))
  | (Err e, _) => forall s, fst (d (b ++ s)) = Err e
  | (Panic, _) => False
  end.

Definition streaming {A} (d : dec A) : Prop := forall b, streaming_at d b.

(** The same for the prefixes of one input only. *)
Definition streaming_on {A} (d : dec A) (all : list byte) : Prop :=
  forall b s, b ++ s = all -> streaming_at d b.

Class RoundTrip (A : Type) `{Encode A, Decode A} : Prop :=
  round_trip : forall a : A, agrees (encode a) decode a.

Class Streaming (A : Type) `{Decode A} : Prop :=
  decode_streaming : streaming (decode : dec A).

Class MinSize (A : Type) `{Decode A} (n : N) : Prop :=
  decode_consumes : consumes n (decode : dec A).

Lemma wapp_nil w : wapp w [] = w.
Proof. destruct w. unfold wapp; simpl. by rewrite app_nil_r, N.sub_0_r. Qed.

Lemma wapp_app w bs cs : wapp (wapp w bs) cs = wapp w (bs ++ cs).
Proof.
  unfold wapp; simpl. rewrite lenN_app, app_assoc. f_equal. lia.
Qed.

Lemma wapp_inj w bs cs : wapp w bs = wapp w cs -> bs = cs.
Proof. intros E. apply (f_equal wdata) in E. by apply app_inv_head in E. Qed.

(** *** Composition of [agrees] *)

Lemma agrees_ret {A} (a : A) : agrees (ret tt) (ret a) a.
Proof.
  intros w w' H. unfold ret in H. simplify_eq.
  exists []. by rewrite wapp_nil.
Qed.

Lemma agrees_bind {A B} e1 e2 (d : dec A) (k : A -> dec B) a b :
  agrees e1 d a -> agrees e2 (k a) b ->
  agrees (do! e1 in e2) (let! x := d in k x) b.
Proof.
  intros H1 H2 w w' H. run_inv. destruct a0.
  apply H1 in E as (bs & -> & Hd). apply H2 in H as (cs & -> & Hk).
  exists (bs ++ cs). split; [apply wapp_app|].
  intros rest. rewrite <- app_assoc. erewrite bind_run by apply Hd. apply Hk.
Qed.

(** The last [encode] of a chain needs no trailing [Ok(())]. *)
Lemma agrees_bind_last {A B} e (d : dec A) (k : A -> dec B) a b :
  agrees e d a -> (forall r, k a r = (Ok b, r)) -> agrees e (let! x := d in k x) b.
Proof.
  intros H1 Hk w w' H. apply H1 in H as (bs & -> & Hd).
  exists bs. split; [done|]. intros rest. erewrite bind_run by apply Hd. apply Hk.
Qed.

#[export] Instance agrees_proper {A} : Proper (meq ==> meq ==> eq ==> iff) (@agrees A).
Proof.
  intros e1 e2 He d1 d2 Hd a ? <-. unfold agrees.
  split; intros H w w' Hw.
  - rewrite <- (He w) in Hw. destruct (H _ _ Hw) as (bs & -> & Hbs).
    exists bs. split; [done|]. intros. by rewrite <- (Hd _).
  - rewrite (He w) in Hw. destruct (H _ _ Hw) as (bs & -> & Hbs).
    exists bs. split; [done|]. intros. by rewrite (Hd _).
Qed.

Lemma put_slice_Ok bs w w' : put_slice bs w = (Ok tt, w') -> w' = wapp w bs.
Proof. unfold put_slice. destruct (_ <? _); intros; by simplify_eq. Qed.

Lemma encode_remaining_Ok n w w' u : encode_remaining n w = (Ok u, w') -> w' = w.
Proof.
  unfold encode_remaining. cbv [bind remaining_mut].
  destruct (_ <? _); unfold raise, ret; intros; by simplify_eq.
Qed.

(** A capacity check in front of an encoder does not change what it writes. *)
Lemma agrees_encode_remaining {A} n e (d : dec A) a :
  agrees e d a -> agrees (do! encode_remaining n in e) d a.
Proof.
  intros He w w' H. run_inv. apply encode_remaining_Ok in E as ->. by apply He.
Qed.

Lemma agrees_encode_unreachable {A} err (d : dec A) a : agrees (raise err) d a.
Proof. by intros w w' H. Qed.

(** A written slice is read back by any decoder that reads it back. *)
Lemma agrees_put_slice {A} bs (d : dec A) a :
  (forall rest, d (bs ++ rest) = (Ok a, rest)) -> agrees (put_slice bs) d a.
Proof. intros Hd w w' H. apply put_slice_Ok in H as ->. eauto. Qed.

(** *** Reading primitives *)

Lemma decode_remaining_run n r :
  decode_remaining n r =
    if n <=? lenN r then (Ok tt, r) else (Err (DecodeErr.More (n - lenN r)), r).
Proof.
  unfold decode_remaining. cbv [bind remaining].
  destruct (N.leb_spec n (lenN r)); destruct (N.ltb_spec 0 (n - lenN r)); [lia|done|done|lia].
Qed.

Lemma copy_to_slice_app bs rest :
  copy_to_slice (lenN bs) (bs ++ rest) = (Ok bs, rest).
Proof.
  unfold copy_to_slice. rewrite lenN_app.
  destruct (N.ltb_spec (lenN bs + lenN rest) (lenN bs)); [lia|].
  unfold lenN. by rewrite Nat2N.id, take_app_length, drop_app_length.
Qed.

(** [decode_remaining(n)?; copy_to_slice(n)] is one checked read. *)
Lemma checked_copy_run n r :
  (do! decode_remaining n in copy_to_slice n) r =
    if n <=? lenN r then (Ok (take (N.to_nat n) r), drop (N.to_nat n) r)
    else (Err (DecodeErr.More (n - lenN r)), r).
Proof.
  unfold bind. rewrite decode_remaining_run.
  destruct (N.leb_spec n (lenN r)); [|done].
  unfold copy_to_slice. destruct (N.ltb_spec (lenN r) n); [lia|done].
Qed.

Lemma checked_copy_app bs rest :
  (do! decode_remaining (lenN bs) in copy_to_slice (lenN bs)) (bs ++ rest) = (Ok bs, rest).
Proof.
  unfold bind. rewrite decode_remaining_run, lenN_app.
  destruct (N.leb_spec (lenN bs) (lenN bs + lenN rest)); [|lia]. apply copy_to_slice_app.
Qed.

Lemma checked_copy_Ok n r bs r' :
  (do! decode_remaining n in copy_to_slice n) r = (Ok bs, r') -> r = bs ++ r' /\ lenN bs = n.
Proof.
  rewrite checked_copy_run. destruct (N.leb_spec n (lenN r)); intros; simplify_eq.
  split; [by rewrite take_drop|]. unfold lenN in *. rewrite length_take. lia.
Qed.

Lemma checked_u8_run r :
  (do! decode_remaining 1 in get_u8) r =
    match r with
    | [] => (Err (DecodeErr.More 1), [])
    | b :: r' => (Ok b, r')
    end.
Proof.
  unfold bind. rewrite decode_remaining_run. destruct r as [|b r]; [done|].
  rewrite lenN_cons. destruct (N.leb_spec 1 (1 + lenN r)); [done|lia].
Qed.

(** *** Composition of [streaming] *)

Lemma streaming_ret {A} (a : A) : streaming (ret a).
Proof. intros b. split; [by exists []|done]. Qed.

Lemma streaming_raise {A} e : (forall n, e <> DecodeErr.More n) -> streaming (raise e : dec A).
Proof. intros He b. unfold streaming_at, raise. destruct e; try done. by edestruct He. Qed.

Lemma streaming_at_bind {A B} (d : dec A) (k : A -> dec B) b :
  streaming_at d b -> (forall a r, d b = (Ok a, r) -> streaming_at (k a) r) ->
  streaming_at (bind d k) b.
Proof.
  intros Hd Hk. unfold streaming_at, bind in *.
  destruct (d b) as [[a|e|] r]; [|destruct e|done].
  all: try (intros s; specialize (Hd s); destruct (d (b ++ s)) as [[]]; by simplify_eq/=).
  - destruct Hd as [[p ->] Hd]. specialize (Hk a r eq_refl).
    destruct (k a r) as [[c|e|] r']; [|destruct e|done].
    all: try (intros s; rewrite Hd; apply Hk).
    + destruct Hk as [[q ->] Hk]. split.
      * exists (p ++ q). by rewrite app_assoc.
      * intros s. by rewrite Hd, Hk.
    + destruct Hk as [Hn Hk]. split; [done|]. intros s Hs. rewrite Hd. by apply Hk.
  - destruct Hd as [Hn Hd]. split; [done|]. intros s Hs. specialize (Hd s Hs).
    destruct (d (b ++ s)) as [[]]; by simplify_eq/=.
Qed.

Lemma streaming_bind {A B} (d : dec A) (k : A -> dec B) :
  streaming d -> (forall a, streaming (k a)) -> streaming (bind d k).
Proof. intros Hd Hk b. apply streaming_at_bind; [apply Hd|]. intros a r _. apply Hk. Qed.

Lemma streaming_meq {A} (d1 d2 : dec A) : meq d1 d2 -> streaming d1 -> streaming d2.
Proof.
  intros Hd H b. specialize (H b). unfold streaming_at in *. rewrite (Hd b) in H.
  destruct (d2 b) as [[a|e|] r]; [|destruct e|done].
  all: setoid_rewrite (fun s => Hd (b ++ s)) in H; done.
Qed.

#[export] Instance streaming_proper {A} : Proper (meq ==> iff) (@streaming A).
Proof. intros d1 d2 Hd. split; apply streaming_meq; [done|by symmetry]. Qed.

Lemma streaming_copy n : streaming (do! decode_remaining n in copy_to_slice n).
Proof.
  intros b. unfold streaming_at. rewrite checked_copy_run.
  destruct (N.leb_spec n (lenN b)) as [Hn|Hn].
  - split.
    + exists (take (N.to_nat n) b). by rewrite take_drop.
    + intros s. rewrite checked_copy_run, lenN_app.
      destruct (N.leb_spec n (lenN b + lenN s)); [|lia]. unfold lenN in Hn.
      rewrite take_app_le, drop_app_le by lia. done.
  - split; [lia|]. intros s Hs. rewrite checked_copy_run, lenN_app.
    destruct (N.leb_spec n (lenN b + lenN s)); [lia|]. simpl. do 2 f_equal. lia.
Qed.

Lemma streaming_u8 : streaming (do! decode_remaining 1 in get_u8).
Proof.
  intros b. unfold streaming_at. rewrite checked_u8_run. destruct b as [|c b].
  - split; [done|]. intros s Hs. assert (s = []) as ->; [|done].
    destruct s; [done|]. rewrite lenN_cons in Hs. lia.
  - split; [by exists [c]|]. intros s. by rewrite checked_u8_run.
Qed.

(** The two checked reads in front of a continuation, as the code chains them. *)
Lemma streaming_checked_copy {A} n (k : list byte -> dec A) :
  (forall bs, streaming (k bs)) ->
  streaming (do! decode_remaining n in let! bs := copy_to_slice n in k bs).
Proof.
  intros Hk. rewrite <- (bind_assoc (decode_remaining n) (fun _ => copy_to_slice n) k).
  apply streaming_bind; [apply streaming_copy|done].
Qed.

Lemma streaming_checked_u8 {A} (k : byte -> dec A) :
  (forall b, streaming (k b)) ->
  streaming (do! decode_remaining 1 in let! b := get_u8 in k b).
Proof.
  intros Hk. rewrite <- (bind_assoc (decode_remaining 1) (fun _ => get_u8) k).
  apply streaming_bind; [apply streaming_u8|done].
Qed.

Lemma streaming_for_range {A} n (body : A -> dec A) a :
  (forall a, streaming (body a)) -> streaming (for_range n body a).
Proof.
  intros Hb. revert a. induction n as [|n IH] using N.peano_ind; intros a.
  - apply streaming_ret.
  - rewrite for_range_succ. by apply streaming_bind.
Qed.

Lemma streaming_ok_or {A} (o : option A) e :
  (forall n, e <> DecodeErr.More n) -> streaming (ok_or o e).
Proof. intros. destruct o; [apply streaming_ret|by apply streaming_raise]. Qed.

(** Composition along one input: the continuation need only behave on what the
    first step leaves of it. *)
Lemma streaming_on_bind {A B} (d : dec A) (k : A -> dec B) all a r :
  streaming d -> d all = (Ok a, r) -> streaming_on (k a) r -> streaming_on (bind d k) all.
Proof.
  intros Hd Ha Hk b s <-. apply streaming_at_bind; [apply Hd|]. intros a' r' E.
  pose proof (Hd b) as Hb. unfold streaming_at in Hb. rewrite E in Hb. destruct Hb as [_ Hb].
  rewrite Hb in Ha. simplify_eq. by apply (Hk r' s).
Qed.

Lemma streaming_on_bind_r {A B} (d : dec A) (k : A -> dec B) all :
  streaming_on d all -> (forall a, streaming (k a)) -> streaming_on (bind d k) all.
Proof. intros Hd Hk b s Hb. eapply streaming_at_bind; [by eapply Hd|]. intros a r _. apply Hk. Qed.

Lemma streaming_streaming_on {A} (d : dec A) all : streaming d -> streaming_on d all.
Proof. intros Hd b s _. apply Hd. Qed.

(** A streaming decoder only ever drops a prefix of its input. *)
Lemma streaming_consumes {A} (d : dec A) : streaming d -> consumes 0 d.
Proof.
  intros Hd r a r' E. specialize (Hd r). unfold streaming_at in Hd. rewrite E in Hd.
  destruct Hd as [[p ->] _]. rewrite lenN_app. lia.
Qed.

Lemma streaming_no_panic {A} (d : dec A) r : streaming d -> fst (d r) <> Panic.
Proof.
  intros Hd. specialize (Hd r). unfold streaming_at in Hd.
  by destruct (d r) as [[]].
Qed.

(** *** Composition of [consumes] *)

Lemma consumes_ret {A} (a : A) : consumes 0 (ret a : dec A).
Proof. intros r b r' E. unfold ret in E. simplify_eq. lia. Qed.

Lemma consumes_raise {A} n e : consumes n (raise e : dec A).
Proof. by intros r b r' E. Qed.

Lemma consumes_panic {A} n : consumes n (panic : dec A).
Proof. by intros r b r' E. Qed.

Lemma consumes_bind {A B} n m (d : dec A) (k : A -> dec B) :
  consumes n d -> (forall a, consumes m (k a)) -> consumes (n + m) (bind d k).
Proof.
  intros Hd Hk r b r' E. run_inv. apply Hd in E0. apply Hk in E. lia.
Qed.

Lemma consumes_weaken {A} n m (d : dec A) : m <= n -> consumes n d -> consumes m d.
Proof. intros Hle Hd r a r' E. apply Hd in E. lia. Qed.

(** Only the first step need consume anything. *)
Lemma consumes_bind_l {A B} n (d : dec A) (k : A -> dec B) :
  consumes n d -> (forall a, consumes 0 (k a)) -> consumes n (bind d k).
Proof. intros. replace n with (n + 0) by lia. by apply consumes_bind. Qed.

Lemma consumes_remaining n : consumes 0 (decode_remaining n).
Proof.
  intros r a r' E. rewrite decode_remaining_run in E.
  destruct (_ <=? _); simplify_eq. lia.
Qed.

Lemma consumes_get_u8 : consumes 1 get_u8.
Proof. intros r a r' E. destruct r; simplify_eq/=. rewrite lenN_cons. lia. Qed.

Lemma consumes_copy n : consumes n (copy_to_slice n).
Proof.
  intros r a r' E. unfold copy_to_slice in E.
  destruct (N.ltb_spec (lenN r) n); simplify_eq. unfold lenN in *.
  rewrite length_drop. lia.
Qed.

Lemma consumes_for_range {A} n m (body : A -> dec A) a :
  (forall a, consumes m (body a)) -> consumes (n * m) (for_range n body a).
Proof.
  intros Hb. revert a. induction n as [|n IH] using N.peano_ind; intros a.
  - apply consumes_ret.
  - intros r b r' E. rewrite (for_range_succ _ _ _ r) in E. run_inv.
    apply Hb in E0. apply IH in E. lia.
Qed.

#[export] Hint Resolve streaming_ret streaming_checked_copy streaming_checked_u8
  streaming_copy streaming_u8 consumes_ret consumes_raise consumes_panic
  consumes_remaining consumes_get_u8 consumes_copy agrees_ret : codec.

(** ** Proof automation for codecs *)

(** Prove [streaming] of a decoder written as a chain of [?] steps. *)
Ltac stream_step :=
  match goal with
  | |- streaming (ret _) => apply streaming_ret
  | |- streaming (raise _) => apply streaming_raise; by intros
  | |- streaming (ok_or _ _) => apply streaming_ok_or; by intros
  | |- streaming (bind (decode_remaining _) (fun _ => bind get_u8 _)) =>
      apply streaming_checked_u8; intro
  | |- streaming (bind (decode_remaining _) (fun _ => bind (copy_to_slice _) _)) =>
      apply streaming_checked_copy; intro
  | |- streaming (bind (decode_remaining _) (fun _ => get_u8)) => apply streaming_u8
  | |- streaming (bind (decode_remaining _) (fun _ => copy_to_slice _)) => apply streaming_copy
  | |- streaming decode => apply decode_streaming
  | |- streaming (bind _ _) => apply streaming_bind; [|intro]
  | |- streaming (for_range _ _ _) => apply streaming_for_range; intro
  | |- streaming (match ?x with _ => _ end) => destruct x
  end.
Ltac stream_tac := repeat (cbv beta; stream_step).

(** Prove [agrees] of an encoder and a decoder that visit the fields in the
    same order, each field by its own law. *)
Ltac agrees_field := solve [apply round_trip | eauto with codec nocore].
Ltac agrees_step :=
  match goal with
  | |- agrees (ret _) (ret _) _ => apply agrees_ret
  | |- agrees (bind (encode_remaining _) _) _ _ => apply agrees_encode_remaining
  | |- agrees (bind _ _) (bind _ _) _ => eapply agrees_bind; [agrees_field|]
  | |- agrees _ (bind _ _) _ =>
      eapply agrees_bind_last; [agrees_field|intros; reflexivity]
  | |- agrees _ _ _ => agrees_field
  end.
Ltac agrees_tac := repeat (cbv beta iota; agrees_step).

(** Replace each successful [encode] of a field by the bytes it wrote, and read
    such bytes back field by field. *)
Ltac fields_inv :=
  run_inv;
  repeat match goal with
  | u : unit |- _ => destruct u
  | H : encode_remaining _ _ = (Ok _, _) |- _ => apply encode_remaining_Ok in H as ->
  | H : put_slice _ _ = (Ok tt, _) |- _ => apply put_slice_Ok in H as ->
  | H : encode _ _ = (Ok tt, _) |- _ =>
      let bs := fresh "bs" in let Hbs := fresh "Hbs" in apply round_trip in H as (bs & -> & Hbs)
  end.

Ltac fields_run :=
  repeat match goal with H : forall rest, decode (?b ++ rest) = _ |- context [?b ++ _] =>
    erewrite bind_run by apply H; clear H end.
