(* ===== verification/VarInt.v ===== *)
(** * QUIC variable-length integers and the machine integers of the codec

    [moq-transport/src/coding/varint.rs]: [VarInt] and its checked conversions,
    [VarInt::decode]/[encode], and the [Encode]/[Decode] instances of [u64],
    [usize] and [u8]. An unsigned integer is an [N]; a [u8] field is a [byte];
    [usize] is the 64-bit one. *)
From Stdlib Require Import NArith Lia Bool.
From stdpp Require Import base list option numbers.
From S2P Require Import Prelude Buffers.

(** ** The type and its conversions *)

Record VarInt := MkVarInt { into_inner : N }.

#[export] Instance VarInt_eq_dec : EqDecision VarInt.
Proof. solve_decision. Defined.

Definition VarInt_MAX : VarInt := MkVarInt (N.shiftl 1 62 - 1).
Definition VarInt_ZERO : VarInt := MkVarInt 0.

Lemma VarInt_MAX_val : into_inner VarInt_MAX = 2 ^ 62 - 1.
Proof. done. Qed.

Definition u8_MAX : N := 2 ^ 8 - 1.
Definition u16_MAX : N := 2 ^ 16 - 1.
Definition u32_MAX : N := 2 ^ 32 - 1.

(** [from_u32], and the [From<u8>], [From<u16>], [From<u32>] conversions: the
    argument fits, so the value is stored as it is. *)
Definition from_u32 (x : N) : VarInt := MkVarInt x.

(** [TryFrom<u64>], shared by [TryFrom<usize>]; [None] is [Err(BoundsExceeded)]. *)
Definition try_from_u64 (x : N) : option VarInt :=
  let v := MkVarInt x in
  if into_inner v <=? into_inner VarInt_MAX then Some v else None.

Definition try_from_u128 (x : N) : option VarInt :=
  if x <=? into_inner VarInt_MAX then Some (MkVarInt (x mod 2 ^ 64)) else None.

Definition try_into_u32 (v : VarInt) : option N :=
  if into_inner v <=? u32_MAX then Some (into_inner v mod 2 ^ 32) else None.
Definition try_into_u16 (v : VarInt) : option N :=
  if into_inner v <=? u16_MAX then Some (into_inner v mod 2 ^ 16) else None.
Definition try_into_u8 (v : VarInt) : option N :=
  if into_inner v <=? u8_MAX then Some (into_inner v mod 2 ^ 8) else None.

(** ** Decoding *)

Definition decode_varint : dec VarInt :=
  do! decode_remaining 1 in
  let! b := get_u8 in
  let tag := N.shiftr (nb b) 6 in
  let b0 := bn (N.land (nb b) 63) in
  match tag with
  | 0 => ret (MkVarInt (nb b0))
  | 1 =>
      do! decode_remaining 1 in
      let! bs := copy_to_slice 1 in
      ret (MkVarInt (from_be (b0 :: bs)))
  | 2 =>
      do! decode_remaining 3 in
      let! bs := copy_to_slice 3 in
      ret (MkVarInt (from_be (b0 :: bs)))
  | 3 =>
      do! decode_remaining 7 in
      let! bs := copy_to_slice 7 in
      ret (MkVarInt (from_be (b0 :: bs)))
  | _ => panic
  end.

(** ** Encoding *)

Definition encode_varint (v : VarInt) : enc unit :=
  let x := into_inner v in
  if x <? 2 ^ 6 then
    do! encode_remaining 1 in
    put_u8 (bn x)
  else if x <? 2 ^ 14 then
    do! encode_remaining 2 in
    put_slice (to_be 2 (N.lor (N.shiftl 1 14) (x mod 2 ^ 16)))
  else if x <? 2 ^ 30 then
    do! encode_remaining 4 in
    put_slice (to_be 4 (N.lor (N.shiftl 2 30) (x mod 2 ^ 32)))
  else if x <? 2 ^ 62 then
    do! encode_remaining 8 in
    put_slice (to_be 8 (N.lor (N.shiftl 3 62) x))
  else raise EncodeErr.BoundsExceeded.

#[export] Instance Decode_VarInt : Decode VarInt := decode_varint.
#[export] Instance Encode_VarInt : Encode VarInt := encode_varint.

(** [impl Encode for u64] and [impl Encode for usize] *)
Definition encode_u64 (x : N) : enc unit :=
  match try_from_u64 x with
  | Some var => encode var
  | None => raise EncodeErr.BoundsExceeded
  end.
Definition encode_usize (x : N) : enc unit :=
  match try_from_u64 x with
  | Some var => encode var
  | None => raise EncodeErr.BoundsExceeded
  end.

Definition decode_u64 : dec N := let! v := (decode : dec VarInt) in ret (into_inner v).
Definition decode_usize : dec N := let! v := (decode : dec VarInt) in ret (into_inner v).

(** [u8] is a plain byte: no length prefix, and [put_u8] without a check. *)
Definition encode_u8 (x : byte) : enc unit := put_u8 x.
Definition decode_u8 : dec byte := do! decode_remaining 1 in get_u8.

#[export] Instance Encode_u64 : Encode N := encode_u64.
#[export] Instance Decode_u64 : Decode N := decode_u64.
#[export] Instance Encode_u8 : Encode byte := encode_u8.
#[export] Instance Decode_u8 : Decode byte := decode_u8.

(** ** The wire form *)

(** Specification: the number of bytes and the two tag bits of a value. *)
Definition varint_len (x : N) : nat :=
  if x <? 2 ^ 6 then 1 else if x <? 2 ^ 14 then 2 else if x <? 2 ^ 30 then 4 else 8.

Definition varint_tag (k : nat) : N :=
  match k with 1%nat => 0 | 2%nat => 1 | 4%nat => 2 | _ => 3 end.

Definition varint_bytes (x : N) : list byte :=
  let k := varint_len x in
  bn (varint_tag k * 64 + x / 256 ^ N.of_nat (k - 1)) :: to_be (k - 1) x.

Lemma length_varint_bytes x : length (varint_bytes x) = varint_len x.
Proof.
  unfold varint_bytes. cbn [length]. rewrite length_to_be.
  unfold varint_len. repeat case_match; done.
Qed.

(** A tagged big-endian integer, its first byte split off. *)
Lemma to_be_tagged k t x m :
  256 ^ N.of_nat k * 64 = m ->
  x < m -> to_be (S k) (t * m + x) =
    bn (t * 64 + x / 256 ^ N.of_nat k) :: to_be k x.
Proof.
  intros <- Hx. rewrite to_be_cons.
  assert (H0 : 256 ^ N.of_nat k <> 0) by (apply N.pow_nonzero; lia).
  f_equal.
  - f_equal. replace (t * (256 ^ N.of_nat k * 64) + x)
      with (t * 64 * 256 ^ N.of_nat k + x) by lia.
    by rewrite N.div_add_l.
  - clear. generalize (t * 64); intros a. replace (t * (256 ^ N.of_nat k * 64))
      with (t * 64 * 256 ^ N.of_nat k) by lia. generalize (t * 64) as c. clear.
    revert x. induction k as [|k IH]; intros x c; [done|].
    cbn [to_be]. rewrite Nat2N.inj_succ, N.pow_succ_r'.
    replace (c * (256 * 256 ^ N.of_nat k) + x)
      with (x + c * 256 ^ N.of_nat k * 256) by lia.
    rewrite N.div_add by lia. rewrite (N.add_comm (x / 256)), IH. do 2 f_equal.
    unfold bn. by rewrite N.Div0.mod_add.
Qed.

(** What a successful [VarInt::encode] wrote. *)
Lemma encode_varint_Ok v w w' :
  encode_varint v w = (Ok tt, w') ->
  into_inner v < 2 ^ 62 /\ w' = wapp w (varint_bytes (into_inner v)).
Proof.
  destruct v as [x]. unfold encode_varint, varint_bytes, varint_len. cbn [into_inner].
  intros H. destruct (N.ltb_spec x (2 ^ 6)); [|destruct (N.ltb_spec x (2 ^ 14));
    [|destruct (N.ltb_spec x (2 ^ 30)); [|destruct (N.ltb_spec x (2 ^ 62)); [|done]]]].
  all: run_inv; apply encode_remaining_Ok in E as ->.
  all: unfold put_u8 in *; apply put_slice_Ok in H as ->; split; [lia|].
  all: rewrite ?N.mod_small by lia; rewrite ?lor_shiftl_add by lia.
  - simpl. by rewrite N.div_1_r.
  - f_equal. by apply to_be_tagged.
  - f_equal. by apply to_be_tagged.
  - f_equal. by apply to_be_tagged.
Qed.

Lemma encode_varint_run x w :
  x < 2 ^ 62 -> lenN (varint_bytes x) <= wcap w ->
  encode_varint (MkVarInt x) w = (Ok tt, wapp w (varint_bytes x)).
Proof.
  intros Hx Hw. unfold lenN in Hw. rewrite length_varint_bytes in Hw.
  assert (exists w', encode_varint (MkVarInt x) w = (Ok tt, w')) as [w' E].
  { revert Hw. unfold encode_varint, varint_len. cbn [into_inner].
    destruct (N.ltb_spec x (2 ^ 6)); [|destruct (N.ltb_spec x (2 ^ 14));
      [|destruct (N.ltb_spec x (2 ^ 30)); [|destruct (N.ltb_spec x (2 ^ 62)); [|lia]]]].
    all: intros Hw.
    all: unfold encode_remaining, bind, remaining_mut, put_u8.
    all: match goal with |- context [0 <? ?n] => destruct (N.ltb_spec 0 n); [lia|] end.
    all: unfold ret, put_slice; rewrite ?lenN_to_be.
    all: match goal with |- context [if ?b then _ else _] => destruct b eqn:Hc; [|by eauto] end.
    all: apply N.ltb_lt in Hc; unfold lenN in Hc; cbn [length] in Hc; lia. }
  rewrite E. by apply encode_varint_Ok in E as [_ ->].
Qed.

(** Taking a first byte [t * 64 + h] apart, [h] below 64. *)
Lemma first_byte t h :
  t < 4 -> h < 64 ->
  N.shiftr (nb (bn (t * 64 + h))) 6 = t /\ bn (N.land (nb (bn (t * 64 + h))) 63) = bn h.
Proof.
  intros Ht Hh. rewrite bn_small by lia. split.
  - rewrite N.shiftr_div_pow2. change (2 ^ 6) with 64. lia.
  - change 63 with (2 ^ 6 - 1). rewrite land_mask. f_equal. change (2 ^ 6) with 64. lia.
Qed.

Lemma from_be_split k x :
  x < 256 ^ N.of_nat k * 64 -> from_be (bn (x / 256 ^ N.of_nat k) :: to_be k x) = x.
Proof.
  intros Hx. rewrite <- to_be_cons, from_be_to_be. apply N.mod_small.
  rewrite Nat2N.inj_succ, N.pow_succ_r'. lia.
Qed.

(** The number of bytes that follow a first byte with tag [t]. *)
Definition tail_len (t : N) : N :=
  match t with 0 => 0 | 1 => 1 | 2 => 3 | _ => 7 end.

Lemma decode_varint_branch t h bs rest :
  t < 4 -> h < 64 -> lenN bs = tail_len t ->
  decode_varint (bn (t * 64 + h) :: bs ++ rest) = (Ok (MkVarInt (from_be (bn h :: bs))), rest).
Proof.
  intros Ht Hh Hbs. destruct (first_byte t h Ht Hh) as [Htag Hlow].
  unfold decode_varint. unfold bind at 1. rewrite decode_remaining_run, lenN_cons.
  destruct (N.leb_spec 1 (1 + lenN (bs ++ rest))); [|lia].
  unfold bind at 1. cbn [get_u8]. cbv zeta. rewrite Htag, Hlow.
  assert (Hc := checked_copy_app bs rest). rewrite Hbs in Hc.
  assert (t = 0 \/ t = 1 \/ t = 2 \/ t = 3) as [->|[->|[->| ->]]] by lia.
  { destruct bs; [|rewrite lenN_cons in Hbs; cbn in Hbs; lia]. done. }
  all: match goal with |- bind (decode_remaining ?n) _ _ = _ =>
    rewrite <- (bind_assoc (decode_remaining n) (fun _ => copy_to_slice n) _ _) end.
  all: by erewrite bind_run by exact Hc.
Qed.

Lemma varint_bytes_shape x :
  x < 2 ^ 62 -> exists k t, varint_bytes x = bn (t * 64 + x / 256 ^ N.of_nat k) :: to_be k x /\
    x < 256 ^ N.of_nat k * 64 /\ t < 4 /\ N.of_nat k = tail_len t.
Proof.
  intros Hx. unfold varint_bytes, varint_len.
  destruct (N.ltb_spec x (2 ^ 6)); [exists 0%nat, 0|
    destruct (N.ltb_spec x (2 ^ 14)); [exists 1%nat, 1|
    destruct (N.ltb_spec x (2 ^ 30)); [exists 3%nat, 2|exists 7%nat, 3]]].
  all: split; [reflexivity|]; split; [|done].
  all: (eapply N.lt_le_trans; [eassumption|]; by vm_compute).
Qed.

Lemma decode_varint_bytes x rest :
  x < 2 ^ 62 -> decode_varint (varint_bytes x ++ rest) = (Ok (MkVarInt x), rest).
Proof.
  intros Hx. destruct (varint_bytes_shape x Hx) as (k & t & -> & Hk & Ht & Hl).
  rewrite <- app_comm_cons, decode_varint_branch; [by rewrite from_be_split|done| |].
  - apply N.Div0.div_lt_upper_bound. lia.
  - by rewrite lenN_to_be.
Qed.

(** A byte is its tag and its low six bits. *)
Lemma byte_split b : exists t h, b = bn (t * 64 + h) /\ t < 4 /\ h < 64.
Proof.
  exists (nb b / 64), (nb b mod 64). pose proof (nb_lt b). split; [|lia].
  apply (inj nb). rewrite bn_small; lia.
Qed.

(** ** Laws *)

#[export] Instance RoundTrip_VarInt : RoundTrip VarInt.
Proof.
  intros v w w' H. apply encode_varint_Ok in H as [Hv ->].
  exists (varint_bytes (into_inner v)). split; [done|]. intros rest.
  etransitivity; [by apply decode_varint_bytes|]. by destruct v.
Qed.

Lemma agrees_varint_map {A} (f : VarInt -> A) v :
  agrees (encode v) (let! v := decode in ret (f v)) (f v).
Proof. eapply agrees_bind_last; [apply round_trip|done]. Qed.

Lemma try_from_u64_Some x v : try_from_u64 x = Some v -> v = MkVarInt x.
Proof. unfold try_from_u64. case_match; by intros; simplify_eq. Qed.

#[export] Instance RoundTrip_u64 : RoundTrip N.
Proof.
  intros x. unfold encode, Encode_u64, encode_u64, decode, Decode_u64, decode_u64.
  destruct (try_from_u64 x) as [v|] eqn:E; [|apply agrees_encode_unreachable].
  apply try_from_u64_Some in E as ->. apply (agrees_varint_map into_inner).
Qed.

Lemma agrees_usize x : agrees (encode_usize x) decode_usize x.
Proof. apply (round_trip (A:=N)). Qed.

#[export] Instance RoundTrip_u8 : RoundTrip byte.
Proof. intros b. apply agrees_put_slice. intros rest. apply checked_u8_run. Qed.

#[export] Instance Streaming_VarInt : Streaming VarInt.
Proof.
  unfold Streaming, decode, Decode_VarInt, decode_varint.
  apply streaming_checked_u8. intros b. cbv zeta.
  destruct (byte_split b) as (t & h & -> & Ht & Hh).
  destruct (first_byte t h Ht Hh) as [-> _].
  assert (t = 0 \/ t = 1 \/ t = 2 \/ t = 3) as [->|[->|[->| ->]]] by lia; stream_tac.
Qed.

#[export] Instance Streaming_u64 : Streaming N.
Proof. unfold Streaming, decode, Decode_u64, decode_u64. stream_tac. Qed.

Lemma streaming_usize : streaming decode_usize.
Proof. apply (decode_streaming (A:=N)). Qed.

#[export] Instance Streaming_u8 : Streaming byte.
Proof. apply streaming_u8. Qed.

#[export] Instance MinSize_VarInt : MinSize VarInt 1.
Proof.
  intros r v r' E. unfold decode, Decode_VarInt in E. destruct r as [|b r]; [done|].
  unfold decode_varint in E. run_inv. apply consumes_remaining in E0.
  apply consumes_get_u8 in E1. cbv zeta in E.
  assert (lenN r' <= lenN s0); [|lia].
  repeat case_match; run_inv; try lia.
  all: repeat match goal with
    | H : decode_remaining _ _ = _ |- _ => apply consumes_remaining in H
    | H : copy_to_slice _ _ = _ |- _ => apply consumes_copy in H
    end; lia.
Qed.

#[export] Instance MinSize_u64 : MinSize N 1.
Proof.
  unfold MinSize, decode, Decode_u64, decode_u64.
  apply consumes_bind_l; [apply decode_consumes|intros; apply consumes_ret].
Qed.

Lemma consumes_usize : consumes 1 decode_usize.
Proof. apply (decode_consumes (A:=N)). Qed.

#[export] Instance MinSize_u8 : MinSize byte 1.
Proof.
  unfold MinSize, decode, Decode_u8, decode_u8. intros r a r' E.
  rewrite checked_u8_run in E. destruct r; simplify_eq. rewrite lenN_cons. lia.
Qed.

#[export] Hint Resolve agrees_usize streaming_usize consumes_usize : codec.

(** What a successful decode read. *)
Lemma decode_varint_inv r v r' :
  decode_varint r = (Ok v, r') ->
  exists t h bs, r = bn (t * 64 + h) :: bs ++ r' /\ t < 4 /\ h < 64 /\
    lenN bs = tail_len t /\ into_inner v = from_be (bn h :: bs).
Proof.
  intros E. destruct r as [|b r]; [done|].
  destruct (byte_split b) as (t & h & -> & Ht & Hh).
  destruct (first_byte t h Ht Hh) as [Htag Hlow].
  exists t, h. unfold decode_varint, bind at 1 in E.
  rewrite decode_remaining_run, lenN_cons in E.
  destruct (N.leb_spec 1 (1 + lenN r)); [|lia].
  unfold bind at 1 in E. cbn [get_u8] in E. cbv zeta in E. rewrite Htag, Hlow in E.
  assert (t = 0 \/ t = 1 \/ t = 2 \/ t = 3) as [->|[->|[->| ->]]] by lia.
  { exists []. run_inv. cbn [into_inner]. by rewrite from_be_cons, N.mul_1_r, N.add_0_r. }
  all: match type of E with bind (decode_remaining ?n) _ _ = _ =>
    rewrite <- (bind_assoc (decode_remaining n) (fun _ => copy_to_slice n) _ _) in E end.
  all: apply bind_Ok in E as (bs & s1 & Hc & E); unfold ret in E; simplify_eq.
  all: apply checked_copy_Ok in Hc as [-> Hl]; by exists bs.
Qed.

Lemma decode_u64_inv r x r' :
  decode_u64 r = (Ok x, r') -> decode_varint r = (Ok (MkVarInt x), r').
Proof.
  unfold decode_u64. intros E. run_inv. destruct a. by cbn.
Qed.

Lemma encode_u64_Ok x w w' :
  encode_u64 x w = (Ok tt, w') -> x < 2 ^ 62 /\ w' = wapp w (varint_bytes x).
Proof.
  unfold encode_u64. destruct (try_from_u64 x) eqn:E; [|done].
  apply try_from_u64_Some in E as ->. apply encode_varint_Ok.
Qed.

Lemma try_from_u64_small x : x < 2 ^ 62 -> try_from_u64 x = Some (MkVarInt x).
Proof.
  intros Hx. unfold try_from_u64. cbn [into_inner].
  destruct (N.leb_spec x (into_inner VarInt_MAX)) as [|H]; [done|].
  rewrite VarInt_MAX_val in H. lia.
Qed.

Lemma encode_u64_run x w :
  x < 2 ^ 62 -> N.of_nat (varint_len x) <= wcap w ->
  encode_u64 x w = (Ok tt, wapp w (varint_bytes x)).
Proof.
  intros Hx Hw. unfold encode_u64. rewrite try_from_u64_small by done.
  apply encode_varint_run; [done|]. unfold lenN. by rewrite length_varint_bytes.
Qed.

(** No encoding of [x] is shorter than [varint_len x]. *)
Lemma varint_len_minimal r x r' :
  decode_u64 r = (Ok x, r') -> N.of_nat (varint_len x) + lenN r' <= lenN r.
Proof.
  intros E. apply decode_u64_inv, decode_varint_inv in E as (t & h & bs & -> & Ht & Hh & Hl & Hx).
  cbn [into_inner] in Hx. rewrite from_be_cons, bn_small, Hl in Hx by lia.
  pose proof (from_be_lt bs) as Hb. rewrite Hl in Hb. rewrite lenN_cons, lenN_app, Hl.
  assert (t = 0 \/ t = 1 \/ t = 2 \/ t = 3) as [->|[->|[->| ->]]] by lia; cbn in Hx, Hb |- *.
  all: unfold varint_len; repeat case_match; try lia.
  all: repeat match goal with H : (_ <? _) = false |- _ => apply N.ltb_ge in H end; lia.
Qed.

Lemma decode_u64_lt r x r' : decode_u64 r = (Ok x, r') -> x < 2 ^ 62.
Proof.
  intros E. apply decode_u64_inv, decode_varint_inv in E as (t & h & bs & -> & Ht & Hh & Hl & Hx).
  cbn [into_inner] in Hx. rewrite from_be_cons, bn_small, Hl in Hx by lia.
  pose proof (from_be_lt bs) as Hb. rewrite Hl in Hb.
  assert (t = 0 \/ t = 1 \/ t = 2 \/ t = 3) as [->|[->|[->| ->]]] by lia; cbn in Hx, Hb; lia.
Qed.

(** ** Properties *)

(** A [u64] below [2^62] encodes into any buffer with room
    for it, decoding the written bytes gives it back and leaves what follows
    untouched, and no accepted input for that value is shorter than what the
    encoder writes. *)
Theorem varint_shortest_round_trip (x : N) (w : wbuf) :
  x <= into_inner VarInt_MAX -> N.of_nat (varint_len x) <= wcap w ->
  exists bs, encode_u64 x w = (Ok tt, wapp w bs) /\
    (forall rest, decode_u64 (bs ++ rest) = (Ok x, rest)) /\
    (forall bs', decode_u64 bs' = (Ok x, []) -> lenN bs <= lenN bs').
Proof.
  intros Hx Hw. assert (x < 2 ^ 62) by (rewrite VarInt_MAX_val in Hx; lia).
  exists (varint_bytes x). split; [by apply encode_u64_run|]. split.
  - intros rest. unfold decode_u64. erewrite bind_run; [|by apply decode_varint_bytes]. done.
  - intros bs' E. apply varint_len_minimal in E. rewrite lenN_nil in E.
    unfold lenN at 1. rewrite length_varint_bytes. lia.
Qed.

Lemma varint_shortest_round_trip_witness :
  exists bs, encode_u64 15293 {| wdata := []; wcap := 2 |} = (Ok tt, wapp {| wdata := []; wcap := 2 |} bs) /\
    (forall rest, decode_u64 (bs ++ rest) = (Ok 15293, rest)) /\
    (forall bs', decode_u64 bs' = (Ok 15293, []) -> lenN bs <= lenN bs').
Proof.
  apply (varint_shortest_round_trip 15293 {| wdata := []; wcap := 2 |});
    vm_compute; discriminate.
Defined.

(** Encoding fails on exactly the values and buffers it
    must: a value of [2^62] or more is [BoundsExceeded], a buffer without room
    is [More] with the number of missing bytes; in both cases nothing is
    written. *)
Theorem varint_encode_errors (x : N) (w : wbuf) :
  encode_u64 x w =
    if 2 ^ 62 <=? x then (Err EncodeErr.BoundsExceeded, w)
    else if wcap w <? N.of_nat (varint_len x) then
      (Err (EncodeErr.More (N.of_nat (varint_len x) - wcap w)), w)
    else (Ok tt, wapp w (varint_bytes x)).
Proof.
  destruct (N.leb_spec (2 ^ 62) x) as [Hx|Hx].
  { unfold encode_u64, try_from_u64. cbn [into_inner].
    destruct (N.leb_spec x (into_inner VarInt_MAX)) as [H|]; [rewrite VarInt_MAX_val in H; lia|done]. }
  destruct (N.ltb_spec (wcap w) (N.of_nat (varint_len x))) as [Hw|Hw];
    [|by apply encode_u64_run].
  unfold encode_u64. rewrite try_from_u64_small by done.
  unfold encode, Encode_VarInt, encode_varint, varint_len in *. cbn [into_inner].
  destruct (N.ltb_spec x (2 ^ 6)); [|destruct (N.ltb_spec x (2 ^ 14));
    [|destruct (N.ltb_spec x (2 ^ 30)); [|destruct (N.ltb_spec x (2 ^ 62)); [|lia]]]].
  all: cbn in Hw; unfold encode_remaining, bind, remaining_mut.
  all: match goal with |- context [0 <? ?n] => destruct (N.ltb_spec 0 n); [done|lia] end.
Qed.

(** Whatever the input, decoding never panics: it returns a value
    below [2^62] after consuming at least one byte, or asks for a positive
    number of further bytes; no other error exists. *)
Theorem varint_decode_total (r : list byte) :
  match decode_u64 r with
  | (Ok x, r') => x <= into_inner VarInt_MAX /\ lenN r' < lenN r
  | (Err (DecodeErr.More n), _) => 0 < n <= 7
  | _ => False
  end.
Proof.
  destruct (decode_u64 r) as [[x|e|] r'] eqn:E.
  - pose proof (decode_u64_lt _ _ _ E). apply (decode_consumes (A:=N)) in E.
    rewrite VarInt_MAX_val. split; lia.
  - revert E. unfold decode_u64, bind at 1. unfold decode, Decode_VarInt.
    destruct r as [|b r]; [intros; by simplify_eq/=|].
    destruct (byte_split b) as (t & h & -> & Ht & Hh).
    destruct (first_byte t h Ht Hh) as [Htag Hlow].
    unfold decode_varint, bind at 1. rewrite decode_remaining_run, lenN_cons.
    destruct (N.leb_spec 1 (1 + lenN r)); [|lia].
    unfold bind at 1. cbn [get_u8]. cbv zeta. rewrite Htag, Hlow.
    assert (t = 0 \/ t = 1 \/ t = 2 \/ t = 3) as [->|[->|[->| ->]]] by lia; [done|..].
    all: match goal with |- context [bind (decode_remaining ?n) _ _] =>
      rewrite <- (bind_assoc (decode_remaining n) (fun _ => copy_to_slice n) _ _) end.
    all: unfold bind at 1; rewrite checked_copy_run.
    all: match goal with |- context [?n <=? lenN ?q] => destruct (N.leb_spec n (lenN q)) end.
    all: unfold ret; intros; simplify_eq; lia.
  - pose proof (streaming_no_panic _ r (decode_streaming (A:=N))) as H.
    unfold decode, Decode_u64 in H. by rewrite E in H.
Qed.

(** The narrowing conversions [TryFrom<VarInt>] for [u32], [u16]
    and [u8], and the widening [TryFrom<u64>] and [TryFrom<u128>], succeed
    exactly on the values that fit and never change the value. *)
Theorem varint_conversions_exact (v : VarInt) (x : N) :
  try_into_u32 v = (if into_inner v <? 2 ^ 32 then Some (into_inner v) else None) /\
  try_into_u16 v = (if into_inner v <? 2 ^ 16 then Some (into_inner v) else None) /\
  try_into_u8 v = (if into_inner v <? 2 ^ 8 then Some (into_inner v) else None) /\
  try_from_u64 x = (if x <? 2 ^ 62 then Some (MkVarInt x) else None) /\
  try_from_u128 x = (if x <? 2 ^ 62 then Some (MkVarInt x) else None).
Proof.
  assert (Hle : forall a m : N, (a <=? m - 1) = (a <? m) \/ m = 0).
  { intros a m. destruct (N.leb_spec a (m - 1)), (N.ltb_spec a m);
      first [by left|right; lia|exfalso; lia]. }
  unfold try_into_u32, try_into_u16, try_into_u8, try_from_u64, try_from_u128,
    u32_MAX, u16_MAX, u8_MAX. cbn [into_inner].
  change (into_inner VarInt_MAX) with (2 ^ 62 - 1).
  repeat match goal with |- context [?a <=? ?m - 1] =>
    destruct (Hle a m) as [->|?]; [|done] end.
  repeat split; match goal with |- context [?a <? ?m] =>
    destruct (N.ltb_spec a m); [|done] end; f_equal.
  all: try done; try (f_equal); apply N.mod_small; lia.
Qed.
