(* ===== verification/Utf8.v ===== *)
(** * Rust strings

    The parts of [std::string] the codec relies on: UTF-8 validation
    ([String::from_utf8]), lossy conversion ([String::from_utf8_lossy]) and
    [str::split] on an ASCII separator. A [String] is a byte sequence that
    passed validation. *)
From Stdlib Require Import NArith Lia Bool Eqdep_dec.
From Stdlib Require Strings.String.
From stdpp Require Import base list option numbers.
From S2P Require Import Prelude.

(** The byte ranges a leading byte announces for the bytes after it; [None] if
    no well-formed sequence starts with it (the Unicode table of well-formed
    UTF-8 byte sequences). *)
Definition cont : N * N := (128, 191).

Definition utf8_lead (b : byte) : option (list (N * N)) :=
  let x := nb b in
  if x <? 128 then Some []
  else if x <? 194 then None
  else if x <? 224 then Some [cont]
  else if x =? 224 then Some [(160, 191); cont]
  else if x <? 237 then Some [cont; cont]
  else if x =? 237 then Some [(128, 159); cont]
  else if x <? 240 then Some [cont; cont]
  else if x =? 240 then Some [(144, 191); cont; cont]
  else if x <? 244 then Some [cont; cont; cont]
  else if x =? 244 then Some [(128, 143); cont; cont]
  else None.

Definition in_range (r : N * N) (b : byte) : bool := (r.1 <=? nb b) && (nb b <=? r.2).

Fixpoint utf8_run (expect : list (N * N)) (l : list byte) : bool :=
  match expect, l with
  | [], [] => true
  | _ :: _, [] => false
  | [], b :: l => match utf8_lead b with Some e => utf8_run e l | None => false end
  | r :: e, b :: l => in_range r b && utf8_run e l
  end.

Definition utf8_valid (l : list byte) : bool := utf8_run [] l.

Record String := mk_String {
  as_bytes : list byte;
  utf8_ok : utf8_valid as_bytes = true;
}.

Lemma String_eq (s t : String) : as_bytes s = as_bytes t -> s = t.
Proof.
  destruct s as [b Hb], t as [c Hc]; simpl. intros ->. f_equal.
  apply UIP_dec, bool_dec.
Qed.

#[export] Instance String_eq_dec : EqDecision String.
Proof.
  intros s t. destruct (decide (as_bytes s = as_bytes t)) as [H|H].
  - left. by apply String_eq.
  - right. intros ->. done.
Defined.

(** [String::from_utf8]; the error hands the bytes back. *)
Definition from_utf8 (l : list byte) : option String :=
  match utf8_valid l as v return utf8_valid l = v -> option String with
  | true => fun H => Some (mk_String l H)
  | false => fun _ => None
  end eq_refl.

Lemma from_utf8_spec l :
  match from_utf8 l with
  | Some s => as_bytes s = l
  | None => utf8_valid l = false
  end.
Proof.
  unfold from_utf8. generalize (@eq_refl _ (utf8_valid l)).
  generalize (utf8_valid l) at 2 3. intros [|] H; done.
Qed.

Lemma from_utf8_as_bytes s : from_utf8 (as_bytes s) = Some s.
Proof.
  pose proof (from_utf8_spec (as_bytes s)) as H.
  destruct (from_utf8 (as_bytes s)) as [t|].
  - f_equal. by apply String_eq.
  - by rewrite (utf8_ok s) in H.
Qed.

(** Strings are keys of hash maps. *)
#[export] Instance byte_countable : Countable byte.
Proof. refine (inj_countable' nb bn bn_nb). Defined.

#[export] Instance String_countable : Countable String.
Proof. refine (inj_countable as_bytes from_utf8 from_utf8_as_bytes). Defined.

(** [String::from_utf8_lossy]: every maximal prefix of a sequence that cannot be
    completed becomes one U+FFFD. [acc] holds the bytes of the open sequence. *)
Definition replacement : list byte := [xef; xbf; xbd].

Fixpoint lossy_run (expect : list (N * N)) (acc l : list byte) : list byte :=
  match l with
  | [] => match expect with [] => [] | _ :: _ => replacement end
  | b :: l =>
      let restart :=
        match utf8_lead b with
        | Some [] => b :: lossy_run [] [] l
        | Some e => lossy_run e [b] l
        | None => replacement ++ lossy_run [] [] l
        end in
      match expect with
      | [] => restart
      | [r] => if in_range r b then (acc ++ [b]) ++ lossy_run [] [] l else replacement ++ restart
      | r :: e => if in_range r b then lossy_run e (acc ++ [b]) l else replacement ++ restart
      end
  end.

Definition from_utf8_lossy (l : list byte) : list byte := lossy_run [] [] l.

Lemma lossy_run_valid e acc l :
  (e = [] -> acc = []) -> utf8_run e l = true -> lossy_run e acc l = acc ++ l.
Proof.
  revert e acc. induction l as [|b l IH]; intros e acc Hacc H.
  { destruct e; [|done]. by rewrite Hacc. }
  destruct e as [|r e].
  - rewrite Hacc by done. cbn in H |- *. destruct (utf8_lead b) as [[|r e]|]; [..|done].
    + by rewrite IH.
    + by rewrite IH.
  - simpl in H. apply andb_prop in H as [Hr H]. cbn [lossy_run]. rewrite Hr.
    destruct e as [|r' e]; rewrite IH by done; by rewrite <- app_assoc.
Qed.

Lemma from_utf8_lossy_valid l : utf8_valid l = true -> from_utf8_lossy l = l.
Proof. intros H. unfold from_utf8_lossy. by rewrite lossy_run_valid. Qed.

Lemma utf8_run_app e p q :
  utf8_run e p = true -> utf8_run e (p ++ q) = utf8_valid q.
Proof.
  revert e. induction p as [|b p IH]; intros e H; destruct e as [|r e]; try done.
  - simpl in *. destruct (utf8_lead b); [by apply IH|done].
  - simpl in *. apply andb_prop in H as [-> H]. by apply IH.
Qed.

Lemma utf8_valid_app p q : utf8_valid p = true -> utf8_valid q = true -> utf8_valid (p ++ q) = true.
Proof. intros Hp Hq. unfold utf8_valid at 1. by rewrite utf8_run_app. Qed.

(** [push_str] and the pieces of [format!]. *)
Definition push_str (s t : String) : String :=
  mk_String (as_bytes s ++ as_bytes t) (utf8_valid_app _ _ (utf8_ok s) (utf8_ok t)).

(** [acc] is an open sequence that still expects [e]. *)
Lemma lossy_run_utf8 e acc l :
  (forall t, utf8_run [] (acc ++ t) = utf8_run e t) -> utf8_valid (lossy_run e acc l) = true.
Proof.
  revert e acc. induction l as [|b l IH]; intros e acc Hacc; [by destruct e|].
  set (restart := match utf8_lead b with
        | Some [] => b :: lossy_run [] [] l
        | Some e => lossy_run e [b] l
        | None => replacement ++ lossy_run [] [] l
        end).
  assert (Hr : utf8_valid restart = true).
  { unfold restart. destruct (utf8_lead b) as [[|r e']|] eqn:Hb.
    - unfold utf8_valid. simpl. rewrite Hb. by apply IH.
    - apply IH. intros t. simpl. by rewrite Hb.
    - apply utf8_valid_app; [done|by apply IH]. }
  cbn [lossy_run]. fold restart. destruct e as [|r e]; [done|].
  destruct (in_range r b) eqn:Hin; destruct e as [|r' e];
    try (apply utf8_valid_app; done).
  - unfold utf8_valid. rewrite <- app_assoc, Hacc. simpl. rewrite Hin. by apply IH.
  - apply IH. intros t. rewrite <- app_assoc, Hacc. simpl. by rewrite Hin.
Qed.

Lemma from_utf8_lossy_utf8 l : utf8_valid (from_utf8_lossy l) = true.
Proof. by apply lossy_run_utf8. Qed.

Definition lossy (l : list byte) : String := mk_String (from_utf8_lossy l) (from_utf8_lossy_utf8 l).

Lemma lossy_string s : lossy (as_bytes s) = s.
Proof. apply String_eq, from_utf8_lossy_valid, utf8_ok. Qed.

(** String literals; all are ASCII. *)
Definition str (s : Strings.String.string) : String :=
  default (mk_String [] eq_refl) (from_utf8 (Strings.String.list_byte_of_string s)).
#[global] Arguments str s%_string_scope.

(** ** [str::split] on one byte *)

Fixpoint split_on (sep : byte) (l : list byte) : list (list byte) :=
  match l with
  | [] => [[]]
  | b :: l =>
      if decide (b = sep) then [] :: split_on sep l
      else match split_on sep l with
           | p :: ps => (b :: p) :: ps
           | [] => [[b]]
           end
  end.

Lemma split_on_ne sep l : split_on sep l <> [].
Proof. destruct l as [|b l]; simpl; repeat case_match; done. Qed.

Lemma split_on_concat sep l :
  concat (map (cons sep) (split_on sep l)) = sep :: l.
Proof.
  induction l as [|b l IH]; [done|]. simpl.
  destruct (decide (b = sep)) as [->|].
  - cbn. by rewrite IH.
  - pose proof (split_on_ne sep l). destruct (split_on sep l) as [|p ps]; [done|].
    cbn in *. by simplify_eq.
Qed.

(** Leading bytes only ask for continuation bytes, never for ASCII. *)
Lemma utf8_lead_high b e : utf8_lead b = Some e -> Forall (fun r => 128 <= r.1) e.
Proof.
  unfold utf8_lead. intros H. repeat case_match; simplify_eq; repeat constructor; simpl; lia.
Qed.

Lemma utf8_run_split sep e l :
  nb sep < 128 -> Forall (fun r => 128 <= r.1) e -> utf8_run e l = true ->
  exists p ps, split_on sep l = p :: ps /\ utf8_run e p = true /\ Forall (fun q => utf8_valid q = true) ps.
Proof.
  intros Hsep. revert e. induction l as [|b l IH]; intros e He H.
  { exists [], []. split; [done|]. by split. }
  assert (Hsl : utf8_lead sep = Some []).
  { unfold utf8_lead. by destruct (N.ltb_spec (nb sep) 128); [|lia]. }
  simpl. destruct (decide (b = sep)) as [->|Hb].
  - destruct e as [|r e]; simpl in H.
    + rewrite Hsl in H. destruct (IH [] ltac:(done) H) as (p & ps & Hs & Hp & Hps).
      exists [], (split_on sep l). split; [done|]. split; [done|]. rewrite Hs. by constructor.
    + exfalso. apply andb_prop in H as [H _]. unfold in_range in H.
      apply Forall_cons in He as [Hr _]. apply andb_prop in H as [H _].
      apply N.leb_le in H. lia.
  - destruct e as [|r e]; simpl in H.
    + destruct (utf8_lead b) as [e|] eqn:Hl; [|done].
      destruct (IH e (utf8_lead_high _ _ Hl) H) as (p & ps & -> & Hp & Hps).
      exists (b :: p), ps. split; [done|]. split; [|done]. simpl. by rewrite Hl.
    + apply andb_prop in H as [Hr H]. apply Forall_cons in He as [_ He].
      destruct (IH e He H) as (p & ps & -> & Hp & Hps).
      exists (b :: p), ps. split; [done|]. split; [|done]. simpl. by rewrite Hr.
Qed.

(** The parts of a valid string around an ASCII separator are valid. *)
Lemma split_on_valid sep l :
  nb sep < 128 -> utf8_valid l = true -> Forall (fun q => utf8_valid q = true) (split_on sep l).
Proof.
  intros Hs H. destruct (utf8_run_split sep [] l Hs (Forall_nil_2 _) H) as (p & ps & -> & Hp & Hps).
  by constructor.
Qed.
