(* ===== verification/Http3.v ===== *)
(** * HTTP/3 framing for WebTransport

    [internal_crates/web-transport-proto/src]: [varint.rs], [frame.rs],
    [stream.rs], [error.rs] and [settings.rs]. [VarInt] is its [u64], and the types that only wrap one ([Frame], [StreamUni], [Setting]) are
    the same integer. What is written goes to buffers that grow; what is read comes
    from a buffer, or from a stream that hands out chunks. *)
From Stdlib Require Import NArith Lia Bool.
From stdpp Require Import base list gmap option numbers.
From S2P Require Import Prelude Buffers VarInt Utf8.

#[local] Arguments N.modulo : simpl never.
#[local] Arguments N.pow : simpl never.

(** ** Buffers *)

(** [BufMut] that grows ([Vec<u8>], [BytesMut]): what has been written. *)
Definition put (A : Type) : Type := M (list byte) Empty_set A.

Definition put_bytes (bs : list byte) : put unit := fun w => (Ok tt, w ++ bs).

(** What a fresh buffer holds after [e]. *)
Definition written (e : put unit) : outcome Empty_set (list byte) :=
  match e [] with
  | (Ok _, w) => Ok w
  | (Err e, _) => Err e
  | (Panic, _) => Panic
  end.

(** [Buf], for any error type. *)
Section Buf.
Context {E : Type}.
#[local] Abbreviation get A := (M (list byte) E A).

Definition rem : get N := fun r => (Ok (lenN r), r).

Definition byte_of : get byte := fun r =>
  match r with [] => (Panic, r) | b :: r => (Ok b, r) end.

Definition bytes_of (n : N) : get (list byte) := fun r =>
  if lenN r <? n then (Panic, r) else (Ok (take (N.to_nat n) r), drop (N.to_nat n) r).

Lemma bytes_of_app p r : bytes_of (lenN p) (p ++ r) = (Ok p, r).
Proof.
  unfold bytes_of. rewrite lenN_app. destruct (N.ltb_spec (lenN p + lenN r) (lenN p)); [lia|].
  unfold lenN. by rewrite Nat2N.id, take_app_length, drop_app_length.
Qed.
End Buf.

(** [map_err(f)?] *)
Definition map_err {S E E' A} (f : E -> E') (m : M S E A) : M S E' A := fun s =>
  match m s with
  | (Ok a, s) => (Ok a, s)
  | (Err e, s) => (Err (f e), s)
  | (Panic, s) => (Panic, s)
  end.

Lemma map_err_run {S E E' A} (f : E -> E') (m : M S E A) s a s' :
  m s = (Ok a, s') -> map_err f m s = (Ok a, s').
Proof. unfold map_err. by intros ->. Qed.

(** An [AsyncRead]: what its reads return, then end of file. *)
Inductive read_event := Chunk (bs : list byte) | Fault.

(** ** [varint.rs] *)

Module QuicVarInt.
Inductive UnexpectedEnd := VarIntUnexpectedEnd.

Definition from_u64 (x : N) : option N := if x <? 2 ^ 62 then Some x else None.

(** [From<u8>], [From<u16>], [From<u32>] and [from_u32] *)
Definition from_u32 (x : N) : N := x.

Definition size (x : N) : outcome Empty_set N :=
  if x <? 2 ^ 6 then Ok 1 else if x <? 2 ^ 14 then Ok 2 else if x <? 2 ^ 30 then Ok 4
  else if x <? 2 ^ 62 then Ok 8 else Panic.

Definition decode_tail (b0 : byte) (n : N) : M (list byte) UnexpectedEnd N :=
  let! r := rem in
  if r <? n then raise VarIntUnexpectedEnd
  else let! bs := bytes_of n in ret (from_be (b0 :: bs)).

Definition decode : M (list byte) UnexpectedEnd N :=
  let! r := rem in
  if r =? 0 then raise VarIntUnexpectedEnd
  else
    let! b := byte_of in
    let tag := N.shiftr (nb b) 6 in
    let b0 := bn (N.land (nb b) 63) in
    match tag with
    | 0 => ret (nb b0)
    | 1 => decode_tail b0 1
    | 2 => decode_tail b0 3
    | 3 => decode_tail b0 7
    | _ => panic
    end.

Definition encode (x : N) : put unit :=
  if x <? 2 ^ 6 then put_bytes [bn x]
  else if x <? 2 ^ 14 then put_bytes (to_be 2 (N.lor (N.shiftl 1 14) (x mod 2 ^ 16)))
  else if x <? 2 ^ 30 then put_bytes (to_be 4 (N.lor (N.shiftl 2 30) (x mod 2 ^ 32)))
  else if x <? 2 ^ 62 then put_bytes (to_be 8 (N.lor (N.shiftl 3 62) x))
  else panic.
End QuicVarInt.
Import QuicVarInt(UnexpectedEnd, VarIntUnexpectedEnd).

(** *** It is the [VarInt] of [moq-transport] *)

Lemma quic_encode x w :
  QuicVarInt.encode x w =
  if x <? 2 ^ 62 then (Ok tt, w ++ varint_bytes x) else (Panic, w).
Proof.
  unfold QuicVarInt.encode, put_bytes, panic, varint_bytes, varint_len.
  destruct (N.ltb_spec x (2 ^ 6)); [|destruct (N.ltb_spec x (2 ^ 14)); [|destruct (N.ltb_spec x (2 ^ 30));
    [|destruct (N.ltb_spec x (2 ^ 62)); [|done]]]].
  all: destruct (N.ltb_spec x (2 ^ 62)); [|lia].
  all: rewrite ?N.mod_small by lia; rewrite ?lor_shiftl_add by lia.
  - simpl. by rewrite N.div_1_r.
  - do 2 f_equal. by apply to_be_tagged.
  - do 2 f_equal. by apply to_be_tagged.
  - do 2 f_equal. by apply to_be_tagged.
Qed.

Lemma quic_put x w : x < 2 ^ 62 -> QuicVarInt.encode x w = (Ok tt, w ++ varint_bytes x).
Proof. intros Hx. rewrite quic_encode. by destruct (N.ltb_spec x (2 ^ 62)); [|lia]. Qed.

Lemma decode_tail_same b0 n r :
  QuicVarInt.decode_tail b0 n r =
  match (do! decode_remaining n in let! bs := copy_to_slice n in ret (MkVarInt (from_be (b0 :: bs)))) r with
  | (Ok v, r) => (Ok (into_inner v), r)
  | (Err _, r) => (Err VarIntUnexpectedEnd, r)
  | (Panic, r) => (Panic, r)
  end.
Proof.
  unfold QuicVarInt.decode_tail, rem, bind, decode_remaining, bind, Buffers.remaining, bytes_of, copy_to_slice, ret, raise.
  destruct (N.ltb_spec (lenN r) n).
  - destruct (N.ltb_spec 0 (n - lenN r)); [done|lia].
  - destruct (N.ltb_spec 0 (n - lenN r)); [lia|]. destruct (N.ltb_spec (lenN r) n); [lia|]. done.
Qed.

Lemma quic_decode r :
  QuicVarInt.decode r =
  match decode_varint r with
  | (Ok v, r) => (Ok (into_inner v), r)
  | (Err _, r) => (Err VarIntUnexpectedEnd, r)
  | (Panic, r) => (Panic, r)
  end.
Proof.
  destruct r as [|b r]; [done|]. unfold QuicVarInt.decode, decode_varint.
  unfold bind at 1. cbn [rem]. destruct (N.eqb_spec (lenN (b :: r)) 0) as [E|E]; [rewrite lenN_cons in E; lia|].
  assert (Hd : decode_remaining 1 (b :: r) = (Ok tt, b :: r)).
  { rewrite decode_remaining_run, lenN_cons. destruct (N.leb_spec 1 (1 + lenN r)); [done|lia]. }
  unfold bind at 2. rewrite Hd. unfold bind at 1. unfold bind at 1. cbn [byte_of get_u8]. cbv zeta.
  destruct (byte_split b) as (t & h & -> & Ht & Hh). destruct (first_byte t h Ht Hh) as [-> _].
  assert (t = 0 \/ t = 1 \/ t = 2 \/ t = 3) as [->|[->|[->| ->]]] by lia; [done|apply decode_tail_same..].
Qed.

Lemma quic_round_trip x rest :
  x < 2 ^ 62 -> QuicVarInt.decode (varint_bytes x ++ rest) = (Ok x, rest).
Proof. intros Hx. rewrite quic_decode, decode_varint_bytes by done. done. Qed.

(** ** Loops *)

(** Every success of [m] takes at least one byte. *)
Definition shrinks {E A} (m : M (list byte) E A) : Prop :=
  forall r a r', m r = (Ok a, r') -> (length r' < length r)%nat.

Definition keeps {E A} (m : M (list byte) E A) : Prop :=
  forall r a r', m r = (Ok a, r') -> (length r' <= length r)%nat.

Lemma shrinks_keeps {E A} (m : M (list byte) E A) : shrinks m -> keeps m.
Proof. intros Hm r a r' E1. pose proof (Hm _ _ _ E1). lia. Qed.

Lemma shrinks_bind {E A B} (m : M (list byte) E A) (k : A -> M (list byte) E B) :
  shrinks m -> (forall a, keeps (k a)) -> shrinks (bind m k).
Proof.
  intros Hm Hk r b r' H. apply bind_Ok in H as (a & s & H1 & H2). pose proof (Hm _ _ _ H1).
  pose proof (Hk _ _ _ _ H2). lia.
Qed.

Lemma keeps_bind {E A B} (m : M (list byte) E A) (k : A -> M (list byte) E B) :
  keeps m -> (forall a, keeps (k a)) -> keeps (bind m k).
Proof.
  intros Hm Hk r b r' H. apply bind_Ok in H as (a & s & H1 & H2). pose proof (Hm _ _ _ H1).
  pose proof (Hk _ _ _ _ H2). lia.
Qed.

Lemma keeps_ret {E A} (a : A) : keeps (E:=E) (ret a).
Proof. intros r b r' H. unfold ret in H. by simplify_eq. Qed.

Lemma keeps_raise {E A} (e : E) : keeps (A:=A) (raise e).
Proof. by intros r b r' H. Qed.

Lemma keeps_rem {E} : keeps (rem (E:=E)).
Proof. intros r b r' H. unfold rem in H. by simplify_eq. Qed.

Lemma keeps_bytes_of {E} n : keeps (bytes_of (E:=E) n).
Proof. intros r b r' H. unfold bytes_of in H. case_match; [done|]. simplify_eq. rewrite length_drop. lia. Qed.

Lemma shrinks_map_err {E E' A} (f : E -> E') (m : M (list byte) E A) : shrinks m -> shrinks (map_err f m).
Proof. intros Hm r a r' H. unfold map_err in H. destruct (m r) as [[]] eqn:E1; simplify_eq. by eapply Hm. Qed.

Lemma keeps_map_err {E E' A} (f : E -> E') (m : M (list byte) E A) : keeps m -> keeps (map_err f m).
Proof. intros Hm r a r' H. unfold map_err in H. destruct (m r) as [[]] eqn:E1; simplify_eq. by eapply Hm. Qed.

Lemma shrinks_varint : shrinks QuicVarInt.decode.
Proof.
  intros r x r' H. rewrite quic_decode in H. destruct (decode_varint r) as [[v|e|] r1] eqn:E; simplify_eq.
  pose proof (MinSize_VarInt r v r' E) as Hs. unfold lenN in Hs. lia.
Qed.

Create HintDb shrink.
#[export] Hint Resolve shrinks_bind keeps_bind keeps_ret keeps_raise keeps_rem keeps_bytes_of shrinks_map_err
  keeps_map_err shrinks_varint shrinks_keeps : shrink.

Section While.
Context {E A : Type}.

(** [while buf.has_remaining() { body }]; every turn takes a byte, so as many turns
    as bytes are enough. *)
Fixpoint while_rem (fuel : nat) (body : A -> M (list byte) E A) (a : A) : M (list byte) E A := fun r =>
  match r, fuel with
  | [], _ => (Ok a, r)
  | _ :: _, O => (Panic, r)
  | _ :: _, S fuel => (let! a := body a in while_rem fuel body a) r
  end.

Definition consume (body : A -> M (list byte) E A) (a : A) : M (list byte) E A := fun r =>
  while_rem (length r) body a r.

Lemma while_rem_enough body fuel fuel' a r :
  (forall a, shrinks (body a)) -> (length r <= fuel)%nat -> (length r <= fuel')%nat ->
  while_rem fuel body a r = while_rem fuel' body a r.
Proof.
  intros Hb. revert fuel' a r. induction fuel as [|fuel IH]; intros [|fuel'] a [|b r] H1 H2; simpl in *; try done; try lia.
  unfold bind. destruct (body a (b :: r)) as [[a'|e|] r'] eqn:E1; [|done|done].
  pose proof (Hb _ _ _ _ E1). simpl in *. apply IH; lia.
Qed.

Lemma consume_eq body a r :
  (forall a, shrinks (body a)) ->
  consume body a r = match r with [] => (Ok a, []) | _ :: _ => (let! a := body a in consume body a) r end.
Proof.
  intros Hb. destruct r as [|b r]; [done|]. unfold consume at 1. cbn [length while_rem]. unfold bind.
  destruct (body a (b :: r)) as [[a'|e|] r'] eqn:E1; [|done|done].
  pose proof (Hb _ _ _ _ E1). simpl in *. unfold consume. apply while_rem_enough; [done|lia|lia].
Qed.

(** No turn panics on the inputs of [ok]. *)
Lemma consume_total_on (ok : list byte -> Prop) body a r :
  (forall a, shrinks (body a)) -> (forall r r', ok r -> (length r' <= length r)%nat -> ok r') ->
  (forall a b r, ok (b :: r) -> fst (body a (b :: r)) <> Panic) -> ok r -> fst (consume body a r) <> Panic.
Proof.
  intros Hb Hok Hp. revert a. induction r as [r IH] using (induction_ltof1 _ (@length byte)). intros a Hr. unfold ltof in IH.
  rewrite consume_eq by done. destruct r as [|b r]; [done|]. unfold bind. specialize (Hp a b r Hr).
  destruct (body a (b :: r)) as [[a'|e|] r'] eqn:E1; [|done|done].
  apply Hb in E1. apply IH; [done|]. eapply Hok; [exact Hr|lia].
Qed.

Lemma consume_total body a r :
  (forall a, shrinks (body a)) -> (forall a r, fst (body a r) <> Panic) -> fst (consume body a r) <> Panic.
Proof. intros Hb Hp. by apply (consume_total_on (fun _ => True)). Qed.

(** The loop on the bytes of a list of items. *)
Lemma consume_app {I} (body : A -> M (list byte) E A) (wire : I -> list byte) (f : I -> A -> A) items a rest :
  (forall a, shrinks (body a)) ->
  Forall (fun i => forall a rest, body a (wire i ++ rest) = (Ok (f i a), rest)) items ->
  consume body a (concat (wire <$> items) ++ rest) = consume body (fold_left (fun a i => f i a) items a) rest.
Proof.
  intros Hb Hi. revert a. induction Hi as [|i items Hx _ IH]; intros a; [done|].
  rewrite consume_eq by done. cbn [fmap list_fmap concat fold_left]. rewrite <- app_assoc.
  destruct (wire i ++ concat (wire <$> items) ++ rest) as [|b r] eqn:Ew.
  - pose proof (Hx a (concat (wire <$> items) ++ rest)) as H. rewrite Ew in H. pose proof (Hb _ _ _ _ H) as Hl. simpl in Hl. lia.
  - unfold bind. rewrite <- Ew, Hx. apply IH.
Qed.

Lemma consume_items {I} (body : A -> M (list byte) E A) (wire : I -> list byte) (f : I -> A -> A) items a :
  (forall a, shrinks (body a)) ->
  Forall (fun i => forall a rest, body a (wire i ++ rest) = (Ok (f i a), rest)) items ->
  consume body a (concat (wire <$> items)) = (Ok (fold_left (fun a i => f i a) items a), []).
Proof. intros Hb Hi. rewrite <- (app_nil_r (concat _)). by rewrite (consume_app _ _ f). Qed.
End While.

(** The loops of the [read] methods: append what a read returns, decode from the
    start, go on as long as the end is missing. *)
Section Accumulate.
Context {E A : Type} (decode : M (list byte) E A) (missing : E -> bool) (the_end io : E).

Fixpoint accumulate (buf : list byte) (s : list read_event) : outcome E A * list read_event :=
  match s with
  | [] => (Err the_end, [])
  | Fault :: s => (Err io, s)
  | Chunk [] :: s => (Err the_end, s)
  | Chunk bs :: s =>
      let buf := buf ++ bs in
      match fst (decode buf) with
      | Ok a => (Ok a, s)
      | Err e => if missing e then accumulate buf s else (Err e, s)
      | Panic => (Panic, s)
      end
  end.

(** A result other than a missing end does not change with more input, for the
    inputs of [ok]. *)
Definition settled_on (ok : list byte -> Prop) : Prop := forall p q, ok p ->
  match fst (decode p) with
  | Err e => missing e = false -> fst (decode (p ++ q)) = Err e
  | o => fst (decode (p ++ q)) = o
  end.

Lemma accumulate_whole (ok : list byte -> Prop) c chunks buf o :
  settled_on ok -> (forall p q, ok p -> ok (p ++ q)) -> ok (buf ++ c) ->
  c <> [] -> Forall (fun c => c <> []) chunks ->
  fst (decode (buf ++ c ++ concat chunks)) = o ->
  match o with Err e => missing e = false | _ => True end ->
  fst (accumulate buf (Chunk <$> c :: chunks)) = o.
Proof.
  intros Hs Hok Hb Hne Hc. revert buf c Hb Hne. induction Hc as [|c' chunks Hne' Hc IH]; intros buf c Hb Hne Hd Ho.
  - destruct c as [|b bs]; [done|]. simpl in Hd. rewrite app_nil_r in Hd. simpl. rewrite Hd.
    destruct o as [a|e|]; [done| |done]. by rewrite Ho.
  - destruct c as [|b bs]; [done|]. rewrite app_assoc in Hd. cbn [concat] in Hd.
    pose proof (Hs (buf ++ b :: bs) (c' ++ concat chunks) Hb) as Hset.
    change (fst (match fst (decode (buf ++ b :: bs)) with
      | Ok a => (Ok a, Chunk <$> c' :: chunks)
      | Err e => if missing e then accumulate (buf ++ b :: bs) (Chunk <$> c' :: chunks) else (Err e, Chunk <$> c' :: chunks)
      | Panic => (Panic, Chunk <$> c' :: chunks)
      end) = o).
    destruct (fst (decode (buf ++ b :: bs))) as [a|e|]; [by rewrite <- Hd, Hset| |by rewrite <- Hd, Hset].
    destruct (missing e) eqn:Em; [by apply IH; [apply Hok| | |]|]. by rewrite <- Hd, Hset.
Qed.
End Accumulate.

(** *** More input

    [growing]: with more bytes behind, a success leaves them alone, and an error that
    is no missing end stays. *)
Definition growing {E A} (missing : E -> bool) (m : M (list byte) E A) : Prop := forall p q,
  match m p with
  | (Ok a, r) => m (p ++ q) = (Ok a, r ++ q)
  | (Err e, _) => missing e = false -> fst (m (p ++ q)) = Err e
  | (Panic, _) => False
  end.

Section Growing.
Context {E : Type} (missing : E -> bool).

Lemma growing_ret {A} (a : A) : growing missing (ret a).
Proof. done. Qed.

Lemma growing_raise {A} (e : E) : growing (A:=A) missing (raise e).
Proof. done. Qed.

Lemma growing_bind {A B} (m : M (list byte) E A) (k : A -> M (list byte) E B) :
  growing missing m -> (forall a, growing missing (k a)) -> growing missing (bind m k).
Proof.
  intros Hm Hk p q. unfold bind. specialize (Hm p q). destruct (m p) as [[a|e|] r].
  - rewrite Hm. apply Hk.
  - intros He. specialize (Hm He). destruct (m (p ++ q)) as [[] ?]; simpl in *; by simplify_eq.
  - done.
Qed.

Lemma growing_map_err {E' A} (missing' : E' -> bool) (f : E -> E') (m : M (list byte) E A) :
  growing missing m -> (forall e, missing' (f e) = false -> missing e = false) -> growing missing' (map_err f m).
Proof.
  intros Hm Hf p q. unfold map_err. specialize (Hm p q). destruct (m p) as [[a|e|] r].
  - by rewrite Hm.
  - intros He. specialize (Hm (Hf _ He)). destruct (m (p ++ q)) as [[] ?]; simpl in *; by simplify_eq.
  - done.
Qed.

(** A call on a buffer of its own. *)
Lemma growing_sub {A} (m : M (list byte) E A) data : fst (m data) <> Panic -> growing missing (sub m data).
Proof. intros Hm p q. unfold sub. destruct (m data) as [[a|e|] r]; done. Qed.

Lemma growing_total {A} (m : M (list byte) E A) r : growing missing m -> fst (m r) <> Panic.
Proof. intros Hm H. specialize (Hm r []). by destruct (m r) as [[] ?]. Qed.

Lemma growing_settled {A} ok (m : M (list byte) E A) : growing missing m -> settled_on m missing ok.
Proof.
  intros Hm p q _. specialize (Hm p q). destruct (m p) as [[a|e|] r]; simpl; [by rewrite Hm|done|done].
Qed.

(** A computation whose result does not depend on the bytes. *)
Definition result_only {A} (m : M (list byte) E A) : Prop := forall r r', fst (m r) = fst (m r').

Lemma result_only_bind {A B} (m : M (list byte) E A) (k : A -> M (list byte) E B) :
  result_only m -> (forall a, result_only (k a)) -> result_only (bind m k).
Proof.
  intros Hm Hk r r'. unfold bind. specialize (Hm r r'). destruct (m r) as [[a|e|] ?], (m r') as [[] ?]; simplify_eq/=; done || apply Hk.
Qed.

Lemma settled_bind {A B} ok (m : M (list byte) E A) (k : A -> M (list byte) E B) :
  growing missing m -> (forall a, result_only (k a)) -> settled_on (bind m k) missing ok.
Proof.
  intros Hm Hk p q _. unfold bind. specialize (Hm p q). destruct (m p) as [[a|e|] r]; [|simpl|done].
  - rewrite Hm, (Hk a (r ++ q) r). by destruct (fst (k a r)).
  - intros He. specialize (Hm He). destruct (m (p ++ q)) as [[] ?]; simpl in *; by simplify_eq.
Qed.
End Growing.

Lemma growing_varint : growing (fun _ => true) QuicVarInt.decode.
Proof.
  intros p q. rewrite !quic_decode. pose proof (Streaming_VarInt p) as Hs.
  unfold streaming_at, decode, Decode_VarInt in Hs. destruct (decode_varint p) as [[v|e|] r]; [|done|done].
  destruct Hs as [_ Hs]. by rewrite Hs.
Qed.

(** ** [frame.rs] and [stream.rs] *)

Definition is_grease (val : N) : bool :=
  if val <? 0x21 then false else (val - 0x21) mod 0x1f =? 0.

Module Frame.
Definition DATA : N := 0x00.
Definition HEADERS : N := 0x01.
Definition SETTINGS : N := 0x04.
Definition WEBTRANSPORT : N := 0x41.

Definition decode : M (list byte) UnexpectedEnd N := QuicVarInt.decode.
Definition encode (self : N) : put unit := QuicVarInt.encode self.

(** One frame: its type and, as the [Take] that is returned, its payload. *)
Definition read_one : M (list byte) UnexpectedEnd (N * list byte) :=
  let! typ := decode in
  let! size := QuicVarInt.decode in
  let! r := rem in
  if r <? size then raise VarIntUnexpectedEnd
  else let! limit := bytes_of size in ret (typ, limit).

(** GREASE frames are skipped, by a call of itself. *)
Fixpoint read_loop (fuel : nat) : M (list byte) UnexpectedEnd (N * list byte) :=
  match fuel with
  | O => panic
  | S fuel => let! p := read_one in if is_grease p.1 then read_loop fuel else ret p
  end.

Definition read : M (list byte) UnexpectedEnd (N * list byte) := fun r => read_loop (S (length r)) r.

Lemma shrinks_read_one : shrinks read_one.
Proof.
  unfold read_one, decode. apply shrinks_bind; [apply shrinks_varint|intros typ].
  apply keeps_bind; [apply shrinks_keeps, shrinks_varint|intros size].
  apply keeps_bind; [apply keeps_rem|intros n]. destruct (n <? size); [apply keeps_raise|].
  apply keeps_bind; [apply keeps_bytes_of|intros; apply keeps_ret].
Qed.

Lemma read_loop_enough fuel fuel' r :
  (length r < fuel)%nat -> (length r < fuel')%nat -> read_loop fuel r = read_loop fuel' r.
Proof.
  revert fuel' r. induction fuel as [|fuel IH]; intros [|fuel'] r H1 H2; [lia..|]. cbn [read_loop]. unfold bind.
  destruct (read_one r) as [[p|e|] r'] eqn:E; [|done|done].
  pose proof (shrinks_read_one _ _ _ E). destruct (is_grease p.1); [apply IH; lia|done].
Qed.

Lemma read_eq r : read r = (let! p := read_one in if is_grease p.1 then read else ret p) r.
Proof.
  unfold read at 1. cbn [read_loop]. unfold bind. destruct (read_one r) as [[p|e|] r'] eqn:E; [|done|done].
  pose proof (shrinks_read_one _ _ _ E). destruct (is_grease p.1); [|done]. apply read_loop_enough; lia.
Qed.

Lemma shrinks_read : shrinks read.
Proof.
  assert (H : forall fuel, shrinks (read_loop fuel)).
  { induction fuel as [|fuel IH]; [done|]. cbn [read_loop]. apply shrinks_bind; [apply shrinks_read_one|].
    intros p. destruct (is_grease p.1); [by apply shrinks_keeps|apply keeps_ret]. }
  intros r. apply H.
Qed.

(** The bytes of a frame. *)
Definition wire (typ : N) (data : list byte) : list byte := varint_bytes typ ++ varint_bytes (lenN data) ++ data.

Lemma read_one_wire typ data rest :
  typ < 2 ^ 62 -> lenN data < 2 ^ 62 -> read_one (wire typ data ++ rest) = (Ok (typ, data), rest).
Proof.
  intros Ht Hl. unfold read_one, decode, wire, bind. rewrite <- !app_assoc, !quic_round_trip by done. cbn [rem].
  rewrite lenN_app. destruct (N.ltb_spec (lenN data + lenN rest) (lenN data)); [lia|]. by rewrite bytes_of_app.
Qed.

Lemma read_wire typ data rest :
  typ < 2 ^ 62 -> lenN data < 2 ^ 62 -> is_grease typ = false ->
  read (wire typ data ++ rest) = (Ok (typ, data), rest).
Proof. intros Ht Hl Hg. rewrite read_eq. unfold bind. rewrite read_one_wire by done. cbn [fst]. by rewrite Hg. Qed.

Lemma read_grease typ data rest :
  typ < 2 ^ 62 -> lenN data < 2 ^ 62 -> is_grease typ = true -> read (wire typ data ++ rest) = read rest.
Proof. intros Ht Hl Hg. rewrite read_eq. unfold bind. rewrite read_one_wire by done. cbn [fst]. by rewrite Hg. Qed.

Lemma growing_read_one : growing (fun _ => true) read_one.
Proof.
  unfold read_one, decode. apply growing_bind; [apply growing_varint|intros typ].
  apply growing_bind; [apply growing_varint|intros size]. intros p q. unfold bind, rem, bytes_of, raise, ret.
  rewrite !lenN_app. destruct (N.ltb_spec (lenN p) size) as [|Hp]; [done|].
  destruct (N.ltb_spec (lenN p + lenN q) size); [lia|].
  assert ((N.to_nat size <= length p)%nat) by (unfold lenN in Hp; lia).
  rewrite lenN_app. destruct (N.ltb_spec (lenN p) size); [lia|].
  destruct (N.ltb_spec (lenN p + lenN q) size); [lia|]. by rewrite take_app_le, drop_app_le by done.
Qed.

Lemma growing_read : growing (fun _ => true) read.
Proof.
  intros p. induction p as [p IH] using (induction_ltof1 _ (@length byte)). intros q. unfold ltof in IH.
  rewrite !read_eq. unfold bind. pose proof (growing_read_one p q) as H1.
  destruct (read_one p) as [[x|e|] r] eqn:E1; [|done|done]. rewrite H1.
  pose proof (shrinks_read_one _ _ _ E1). destruct (is_grease x.1); [by apply IH|done].
Qed.
End Frame.

Module StreamUni.
Definition CONTROL : N := 0x00.
Definition PUSH : N := 0x01.
Definition QPACK_ENCODER : N := 0x02.
Definition QPACK_DECODER : N := 0x03.
Definition WEBTRANSPORT : N := 0x54.

Definition decode : M (list byte) UnexpectedEnd N := QuicVarInt.decode.
Definition encode (self : N) : put unit := QuicVarInt.encode self.
Definition grease (self : N) : bool := is_grease self.
End StreamUni.

(** ** [error.rs] *)

Definition ERROR_FIRST : N := 0x52e4a40fa8db.
Definition ERROR_LAST : N := 0x52e5ac983162.

Definition error_from_http3 (code : N) : option N :=
  if (code <? ERROR_FIRST) || (ERROR_LAST <? code) then None
  else
    let code := code - ERROR_FIRST in
    let code := code - code / 0x1f in
    Some (code mod 2 ^ 32).

Definition error_to_http3 (code : N) : N := ERROR_FIRST + code + code / 0x1e.

(** ** [settings.rs] *)

Module Setting.
Definition QPACK_MAX_TABLE_CAPACITY : N := 0x1.
Definition MAX_FIELD_SECTION_SIZE : N := 0x6.
Definition QPACK_BLOCKED_STREAMS : N := 0x7.
Definition ENABLE_CONNECT_PROTOCOL : N := 0x8.
Definition ENABLE_DATAGRAM : N := 0x33.
Definition ENABLE_DATAGRAM_DEPRECATED : N := 0xFFD277.
Definition WEBTRANSPORT_ENABLE_DEPRECATED : N := 0x2b603742.
Definition WEBTRANSPORT_MAX_SESSIONS_DEPRECATED : N := 0x2b603743.
Definition WEBTRANSPORT_MAX_SESSIONS : N := 0xc671706a.

Definition decode : M (list byte) UnexpectedEnd N := QuicVarInt.decode.
Definition encode (self : N) : put unit := QuicVarInt.encode self.
Definition grease (self : N) : bool := is_grease self.
End Setting.

Module SettingsErr.
Inductive SettingsError :=
  | UnexpectedEnd
  | UnexpectedStreamType (t : N)
  | UnexpectedFrame (f : N)
  | InvalidSize
  | Io.
Definition missing (e : SettingsError) : bool := match e with UnexpectedEnd => true | _ => false end.
End SettingsErr.
Import SettingsErr(SettingsError).

Module Settings.
Abbreviation t := (gmap N N).

(** One turn of the loop; a setting that is repeated replaces the first. *)
Definition decode_setting (settings : t) : M (list byte) SettingsError t :=
  let! id := map_err (fun _ => SettingsErr.InvalidSize) Setting.decode in
  let! value := map_err (fun _ => SettingsErr.InvalidSize) QuicVarInt.decode in
  ret (if Setting.grease id then settings else <[id := value]> settings).

Definition decode : M (list byte) SettingsError t :=
  let! typ := map_err (fun _ => SettingsErr.UnexpectedEnd) StreamUni.decode in
  if negb (typ =? StreamUni.CONTROL) then raise (SettingsErr.UnexpectedStreamType typ)
  else
    let! p := map_err (fun _ => SettingsErr.UnexpectedEnd) Frame.read in
    let (typ, data) := p in
    if negb (typ =? Frame.SETTINGS) then raise (SettingsErr.UnexpectedFrame typ)
    else let! q := sub (consume decode_setting ∅) data in ret q.1.

Definition read (s : list read_event) : outcome SettingsError t * list read_event :=
  accumulate decode SettingsErr.missing SettingsErr.UnexpectedEnd SettingsErr.Io [] s.

Definition encode_setting (p : N * N) : put unit :=
  do! Setting.encode p.1 in QuicVarInt.encode p.2.

Definition encode `{Runtime} (self : t) : put unit :=
  do! StreamUni.encode StreamUni.CONTROL in
  do! Frame.encode Frame.SETTINGS in
  let! tmp := sub (for_each (hash_iter self) encode_setting) [] in
  do! QuicVarInt.encode (QuicVarInt.from_u32 (lenN tmp.2 mod 2 ^ 32)) in
  put_bytes tmp.2.

Definition enable_webtransport (max_sessions : N) (self : t) : t :=
  let max := QuicVarInt.from_u32 max_sessions in
  <[Setting.WEBTRANSPORT_ENABLE_DEPRECATED := 1]> (<[Setting.WEBTRANSPORT_MAX_SESSIONS_DEPRECATED := max]>
    (<[Setting.WEBTRANSPORT_MAX_SESSIONS := max]> (<[Setting.ENABLE_DATAGRAM_DEPRECATED := 1]>
      (<[Setting.ENABLE_DATAGRAM := 1]> (<[Setting.ENABLE_CONNECT_PROTOCOL := 1]> self))))).

Definition supports_webtransport (self : t) : N :=
  let datagram := match self !! Setting.ENABLE_DATAGRAM with
                  | Some v => Some v
                  | None => self !! Setting.ENABLE_DATAGRAM_DEPRECATED
                  end in
  if negb (bool_decide (datagram = Some 1)) then 0
  else match self !! Setting.WEBTRANSPORT_MAX_SESSIONS with
       | Some max => max
       | None =>
           if negb (bool_decide (self !! Setting.WEBTRANSPORT_ENABLE_DEPRECATED = Some 1)) then 0
           else default 1 (self !! Setting.WEBTRANSPORT_MAX_SESSIONS_DEPRECATED)
       end.
End Settings.

(** *** The settings on the wire *)

(** What can be sent and comes back: integers in range, and no GREASE. *)
Definition plain (id value : N) : Prop := id < 2 ^ 62 /\ value < 2 ^ 62 /\ is_grease id = false.

Definition setting_wire (p : N * N) : list byte := varint_bytes p.1 ++ varint_bytes p.2.

Definition settings_body `{Runtime} (s : gmap N N) : list byte := concat (setting_wire <$> hash_iter s).

Definition settings_wire `{Runtime} (s : gmap N N) : list byte :=
  varint_bytes StreamUni.CONTROL ++ Frame.wire Frame.SETTINGS (settings_body s).

Lemma written_settings l w :
  Forall (fun p => plain p.1 p.2) l ->
  for_each l Settings.encode_setting w = (Ok tt, w ++ concat (setting_wire <$> l)).
Proof.
  intros Hl. revert w. induction Hl as [|p l (Hk & Hv & _) _ IH]; intros w; [by rewrite app_nil_r|].
  cbn [for_each fmap list_fmap concat]. unfold Settings.encode_setting, Setting.encode, bind.
  rewrite !quic_put by done. rewrite IH. unfold setting_wire. by rewrite !app_assoc.
Qed.

Lemma plain_iter `{Runtime} (s : gmap N N) :
  map_Forall plain s -> Forall (fun p => plain p.1 p.2) (hash_iter s).
Proof. intros Hs. rewrite hash_iter_perm. apply map_Forall_to_list in Hs. by eapply Forall_impl; [exact Hs|intros []]. Qed.

Lemma length_varint x : lenN (varint_bytes x) <= 8.
Proof. unfold lenN. rewrite length_varint_bytes. unfold varint_len. repeat case_match; lia. Qed.

Lemma settings_body_length `{Runtime} (s : gmap N N) : lenN (settings_body s) <= 16 * N.of_nat (size s).
Proof.
  unfold settings_body. rewrite <- length_map_to_list, <- (hash_iter_perm s). generalize (hash_iter s). clear.
  induction l as [|p l IH]; [done|]. cbn [fmap list_fmap concat]. rewrite lenN_app. unfold setting_wire at 1.
  rewrite lenN_app. pose proof (length_varint p.1). pose proof (length_varint p.2). cbn [length]. lia.
Qed.

Lemma encode_settings `{Runtime} (s : gmap N N) :
  map_Forall plain s -> 16 * N.of_nat (size s) < 2 ^ 32 -> written (Settings.encode s) = Ok (settings_wire s).
Proof.
  intros Hs Hl. unfold written, Settings.encode, StreamUni.encode, Frame.encode, bind.
  rewrite !quic_put by done.
  unfold sub. rewrite written_settings by (by apply plain_iter). cbn [app fst snd].
  pose proof (settings_body_length s) as Hb. unfold settings_body in Hb.
  unfold QuicVarInt.from_u32. rewrite (N.mod_small (lenN _)) by lia. rewrite quic_put by lia.
  unfold put_bytes, settings_wire, Frame.wire, settings_body. by rewrite <- !app_assoc.
Qed.

Lemma shrinks_setting settings : shrinks (Settings.decode_setting settings).
Proof.
  unfold Settings.decode_setting, Setting.decode. apply shrinks_bind; [apply shrinks_map_err, shrinks_varint|intros id].
  apply keeps_bind; [apply keeps_map_err, shrinks_keeps, shrinks_varint|intros v; apply keeps_ret].
Qed.

Lemma decode_setting_wire p settings rest :
  plain p.1 p.2 -> Settings.decode_setting settings (setting_wire p ++ rest) = (Ok (<[p.1 := p.2]> settings), rest).
Proof.
  intros (Hk & Hv & Hg). unfold Settings.decode_setting, setting_wire, Setting.decode, bind, map_err.
  rewrite <- app_assoc, quic_round_trip, quic_round_trip by done. unfold Setting.grease, ret. by rewrite Hg.
Qed.

Lemma decode_settings `{Runtime} (s : gmap N N) rest :
  map_Forall plain s -> 16 * N.of_nat (size s) < 2 ^ 32 ->
  Settings.decode (settings_wire s ++ rest) = (Ok s, rest).
Proof.
  intros Hs Hl. unfold Settings.decode, settings_wire, StreamUni.decode. rewrite <- app_assoc. unfold bind at 1.
  unfold map_err at 1. rewrite quic_round_trip by done. cbn [N.eqb StreamUni.CONTROL negb]. unfold bind at 1, map_err.
  pose proof (settings_body_length s) as Hb. rewrite Frame.read_wire by (done || lia).
  cbn [N.eqb Frame.SETTINGS negb Pos.eqb]. unfold bind, sub, settings_body, ret.
  rewrite (consume_items _ _ (fun p m => <[p.1 := p.2]> m)); [|apply shrinks_setting|].
  - rewrite insert_all; [|rewrite hash_iter_perm; apply NoDup_fst_map_to_list|by intros; apply lookup_empty].
    rewrite map_union_empty. cbn [fst].
    assert (E : list_to_map (hash_iter s) = s); [|by rewrite E].
    transitivity (list_to_map (map_to_list s) : gmap N N); [|apply list_to_map_to_list].
    apply list_to_map_proper; [rewrite hash_iter_perm; apply NoDup_fst_map_to_list|apply hash_iter_perm].
  - eapply Forall_impl; [by apply plain_iter|]. intros p Hp a r. by apply decode_setting_wire.
Qed.

Lemma growing_setting settings : growing (fun _ => true) (Settings.decode_setting settings).
Proof.
  unfold Settings.decode_setting, Setting.decode.
  apply growing_bind; [eapply growing_map_err; [apply growing_varint|done]|intros id].
  apply growing_bind; [eapply growing_map_err; [apply growing_varint|done]|intros v; apply growing_ret].
Qed.

Lemma growing_settings : growing SettingsErr.missing Settings.decode.
Proof.
  unfold Settings.decode, StreamUni.decode. apply growing_bind.
  { by eapply growing_map_err; [apply growing_varint|]. }
  intros typ. destruct (negb (typ =? StreamUni.CONTROL)); [apply growing_raise|]. apply growing_bind.
  { by eapply growing_map_err; [apply Frame.growing_read|]. }
  intros [f data]. destruct (negb (f =? Frame.SETTINGS)); [apply growing_raise|].
  apply growing_bind; [|intros; apply growing_ret]. apply growing_sub. apply consume_total; [apply shrinks_setting|intros; by eapply growing_total, growing_setting].
Qed.

(** ** Properties of the settings *)

Lemma plain_enable n (s : gmap N N) :
  n < 2 ^ 32 -> map_Forall plain s -> map_Forall plain (Settings.enable_webtransport n s).
Proof.
  intros Hn Hs. unfold Settings.enable_webtransport, QuicVarInt.from_u32.
  repeat (apply map_Forall_insert_2; [split; [by vm_compute|split; [lia|by vm_compute]]|]). done.
Qed.

Lemma supports_enabled n s : Settings.supports_webtransport (Settings.enable_webtransport n s) = n.
Proof.
  unfold Settings.supports_webtransport, Settings.enable_webtransport, QuicVarInt.from_u32.
  assert (E1 : forall m : gmap N N, <[Setting.WEBTRANSPORT_ENABLE_DEPRECATED:=1]>
    (<[Setting.WEBTRANSPORT_MAX_SESSIONS_DEPRECATED:=n]> (<[Setting.WEBTRANSPORT_MAX_SESSIONS:=n]>
    (<[Setting.ENABLE_DATAGRAM_DEPRECATED:=1]> (<[Setting.ENABLE_DATAGRAM:=1]> m)))) !! Setting.ENABLE_DATAGRAM = Some 1).
  { intros m. do 4 (rewrite lookup_insert_ne by done). apply lookup_insert_eq. }
  rewrite E1. rewrite bool_decide_true by done. cbn [negb].
  do 2 (rewrite lookup_insert_ne by done). by rewrite lookup_insert_eq.
Qed.

(** A side that turns WebTransport on for [n] sessions and sends
    its settings, whatever else they hold: the peer's [Settings::read] gets exactly
    these settings, however the bytes are cut and whatever follows them, and finds
    [n] sessions supported. *)
Theorem settings_exchange `{Runtime} (n : N) (s : gmap N N) (bs rest : list byte) (chunks : list (list byte)) :
  n < 2 ^ 32 -> map_Forall plain s ->
  let sent := Settings.enable_webtransport n s in
  16 * N.of_nat (size (sent : gmap N N)) < 2 ^ 32 ->
  written (Settings.encode sent) = Ok bs ->
  Forall (fun c => c <> []) chunks -> concat chunks = bs ++ rest ->
  fst (Settings.read (Chunk <$> chunks)) = Ok sent /\ Settings.supports_webtransport sent = n.
Proof.
  intros Hn Hs sent Hl Hw Hc Hb. split; [|apply supports_enabled].
  assert (Hp : map_Forall plain sent) by (by apply plain_enable). rewrite encode_settings in Hw by done. simplify_eq.
  destruct Hc as [|c chunks Hc Hcs]; [by destruct (varint_bytes StreamUni.CONTROL)|].
  apply (accumulate_whole _ _ _ _ (fun _ => True)); try done; [apply growing_settled, growing_settings|].
  cbn [concat] in Hb. by rewrite app_nil_l, Hb, decode_settings.
Qed.

Definition demo_settings : Settings.t := Settings.enable_webtransport 1 ∅.

Definition demo_settings_bytes : list byte :=
  match written (Settings.encode (H := std_runtime) demo_settings) with Ok bs => bs | _ => [] end.

Lemma settings_exchange_witness :
  lenN demo_settings_bytes = 31 /\
  fst (Settings.read (Chunk <$> [take 2 demo_settings_bytes; drop 2 demo_settings_bytes])) = Ok demo_settings.
Proof.
  split; [vm_compute; reflexivity|].
  assert (Hs : map_Forall plain (∅ : gmap N N)) by apply map_Forall_empty.
  assert (Hl : 16 * N.of_nat (size demo_settings) < 2 ^ 32) by (vm_compute; reflexivity).
  assert (Hw : written (Settings.encode (H := std_runtime) demo_settings) = Ok demo_settings_bytes)
    by (vm_compute; reflexivity).
  assert (Hc : Forall (fun c => c <> []) [take 2 demo_settings_bytes; drop 2 demo_settings_bytes]).
  { constructor; [vm_compute; discriminate|]. constructor; [vm_compute; discriminate|constructor]. }
  assert (Hb : concat [take 2 demo_settings_bytes; drop 2 demo_settings_bytes] = demo_settings_bytes ++ [])
    by (vm_compute; reflexivity).
  exact (proj1 (@settings_exchange std_runtime 1 ∅ demo_settings_bytes [] _ eq_refl Hs Hl Hw Hc Hb)).
Defined.

(** ** Error codes *)

(** Every application code has an HTTP/3 code in the range set aside
    for WebTransport, the largest the last one; the map is increasing, avoids the
    codes HTTP/3 reserves, and [error_from_http3] takes it back. *)
Theorem error_codes (c : N) :
  c < 2 ^ 32 ->
  let h := error_to_http3 c in
  ERROR_FIRST <= h <= ERROR_LAST /\ error_from_http3 h = Some c /\ is_grease h = false /\
  (forall c', c < c' -> h < error_to_http3 c') /\ error_to_http3 (2 ^ 32 - 1) = ERROR_LAST.
Proof.
  intros Hc. cbv zeta.
  assert (H : ERROR_FIRST <= error_to_http3 c <= ERROR_LAST).
  { unfold error_to_http3, ERROR_FIRST, ERROR_LAST. change (2 ^ 32) with 4294967296 in Hc. lia. }
  split; [done|]. split; [|split; [|split; [|by vm_compute]]].
  - unfold error_from_http3. destruct (N.ltb_spec (error_to_http3 c) ERROR_FIRST); [lia|].
    destruct (N.ltb_spec ERROR_LAST (error_to_http3 c)); [lia|]. cbn [orb]. f_equal.
    rewrite N.mod_small; unfold error_to_http3, ERROR_FIRST; lia.
  - unfold is_grease. destruct (N.ltb_spec (error_to_http3 c) 33); [done|]. apply N.eqb_neq.
    unfold error_to_http3, ERROR_FIRST. lia.
  - intros c' Hc'. unfold error_to_http3. lia.
Qed.

Lemma error_codes_witness : 7 < 2 ^ 32 /\ error_from_http3 (error_to_http3 7) = Some 7.
Proof. assert (H : 7 < 2 ^ 32) by done. split; [exact H|]. exact (proj1 (proj2 (error_codes 7 H))). Defined.

(** ** [varint.rs] on streams *)

(** [read_exact]: no bytes are missing, or it fails. *)
Fixpoint read_exact (n : nat) (s : list read_event) : option (list byte) * list read_event :=
  match n, s with
  | O, _ => (Some [], s)
  | S _, [] | S _, Chunk [] :: _ => (None, tail s)
  | S _, Fault :: s => (None, s)
  | S _, Chunk bs :: s =>
      if (n <? length bs)%nat then (Some (take n bs), Chunk (drop n bs) :: s)
      else let (r, s) := read_exact (n - length bs) s in (app bs <$> r, s)
  end.

Definition read_varint (s : list read_event) : outcome UnexpectedEnd N * list read_event :=
  match read_exact 1 s with
  | (Some [b], s) =>
      let size := N.shiftl 1 (N.shiftr (nb b) 6) in
      match read_exact (N.to_nat (size - 1)) s with
      | (Some bs, s) => (match fst (QuicVarInt.decode (b :: bs)) with Ok x => Ok x | _ => Panic end, s)
      | (None, s) => (Err VarIntUnexpectedEnd, s)
      end
  | (_, s) => (Err VarIntUnexpectedEnd, s)
  end.

Definition full (chunks : list (list byte)) : Prop := Forall (fun c => c <> []) chunks.

Lemma read_exact_chunks n chunks :
  full chunks -> (n <= length (concat chunks))%nat ->
  exists chunks', read_exact n (Chunk <$> chunks) = (Some (take n (concat chunks)), Chunk <$> chunks') /\
    full chunks' /\ concat chunks' = drop n (concat chunks).
Proof.
  intros Hc. revert n. induction Hc as [|c chunks Hne Hc IH]; intros [|n] Hn.
  { exists []. split; [done|]. split; [constructor|done]. }
  { exfalso. simpl in Hn. lia. }
  { exists (c :: chunks). split; [done|]. split; [by constructor|done]. }
  destruct c as [|b bs]; [done|]. cbn [concat] in Hn |- *. rewrite length_app in Hn.
  cbn [fmap list_fmap read_exact]. destruct (Nat.ltb_spec (S n) (length (b :: bs))) as [Hlt|Hge].
  - exists (drop (S n) (b :: bs) :: chunks). rewrite take_app_le, drop_app_le by lia.
    split; [done|]. split; [|done]. constructor; [|done]. intros E. apply (f_equal length) in E. rewrite length_drop in E.
    simpl in E, Hlt. lia.
  - destruct (IH (S n - length (b :: bs))%nat) as (cs & -> & Hcs & Hd); [simpl in *; lia|].
    exists cs. rewrite take_app_ge, drop_app_ge by lia. done.
Qed.

Lemma read_varint_chunks x rest chunks :
  x < 2 ^ 62 -> full chunks -> concat chunks = varint_bytes x ++ rest ->
  exists chunks', read_varint (Chunk <$> chunks) = (Ok x, Chunk <$> chunks') /\ full chunks' /\ concat chunks' = rest.
Proof.
  intros Hx Hc Hb. destruct (varint_bytes_shape x Hx) as (k & t & E & Hk & Ht & Hl).
  assert (Hlen : length (varint_bytes x) = S k) by (rewrite E; simpl; by rewrite length_to_be).
  unfold read_varint.
  destruct (read_exact_chunks 1 chunks Hc) as (c1 & -> & Hc1 & Hd1); [rewrite Hb, length_app; lia|].
  rewrite Hb, E in Hd1 |- *. cbn [app take drop] in Hd1 |- *. unfold drop in Hd1. 
  destruct (first_byte t (x / 256 ^ N.of_nat k) Ht) as [Htag _]; [apply N.Div0.div_lt_upper_bound; lia|].
  rewrite Htag. replace (N.to_nat (N.shiftl 1 t - 1)) with k.
  - destruct (read_exact_chunks k c1 Hc1) as (c2 & -> & Hc2 & Hd2).
    { rewrite Hd1, length_app, length_to_be. lia. }
    rewrite Hd1 in Hd2 |- *. rewrite take_0, take_app_length' by (by rewrite length_to_be).
    pose proof (quic_round_trip x [] Hx) as Hr. rewrite app_nil_r, E in Hr. rewrite Hr. cbn [fst].
    exists c2. split; [done|]. split; [done|]. rewrite Hd2. by rewrite drop_app_length' by (by rewrite length_to_be).
  - assert (t = 0 \/ t = 1 \/ t = 2 \/ t = 3) as [->|[->|[->| ->]]] by lia;
      cbn [tail_len] in Hl; [change (N.shiftl 1 0) with 1|change (N.shiftl 1 1) with 2|change (N.shiftl 1 2) with 4|
      change (N.shiftl 1 3) with 8]; lia.
Qed.

(** The [VarInt] of WebTransport and the one of the transport
    crate are the same code on the wire: they write the same bytes, where one
    panics on 2^62 and above the other reports an error; they read the same value
    from any input and leave the same rest. Reading from a stream agrees too. *)
Theorem varint_implementations_agree (x cap : N) (w r : list byte) :
  8 <= cap ->
  QuicVarInt.encode x w =
    match encode_varint (MkVarInt x) {| wdata := w; wcap := cap |} with
    | (Ok _, w') => (Ok tt, wdata w')
    | (Err EncodeErr.BoundsExceeded, _) => (Panic, w)
    | (_, w') => (Ok tt, wdata w')
    end /\
  QuicVarInt.decode r =
    match decode_varint r with
    | (Ok v, r) => (Ok (into_inner v), r)
    | (Err _, r) => (Err VarIntUnexpectedEnd, r)
    | (Panic, r) => (Panic, r)
    end /\
  (forall chunks rest, x < 2 ^ 62 -> full chunks -> concat chunks = varint_bytes x ++ rest ->
    exists chunks', read_varint (Chunk <$> chunks) = (Ok x, Chunk <$> chunks') /\ concat chunks' = rest).
Proof.
  intros Hcap. split; [|split; [apply quic_decode|]].
  - rewrite quic_encode. destruct (N.ltb_spec x (2 ^ 62)).
    + rewrite encode_varint_run; [done|done|]. pose proof (length_varint x). cbn [wcap]. lia.
    + unfold encode_varint. cbn [into_inner].
      destruct (N.ltb_spec x (2 ^ 6)); [lia|]. destruct (N.ltb_spec x (2 ^ 14)); [lia|].
      destruct (N.ltb_spec x (2 ^ 30)); [lia|]. by destruct (N.ltb_spec x (2 ^ 62)); [lia|].
  - intros chunks rest Hx Hc Hb. destruct (read_varint_chunks x rest chunks Hx Hc Hb) as (c & ? & _ & ?). by exists c.
Qed.

Lemma varint_implementations_agree_witness :
  QuicVarInt.encode 300 [] = (Ok tt, [x41; x2c]) /\ QuicVarInt.decode [x41; x2c; x00] = (Ok 300, [x00]).
Proof.
  destruct (varint_implementations_agree 300 8 [] [x41; x2c; x00]) as (H1 & H2 & _); [done|].
  split; [rewrite H1; vm_compute; reflexivity|rewrite H2; vm_compute; reflexivity].
Defined.
