(* ===== verification/Capsules.v ===== *)
(** * Capsules on the CONNECT stream

    [internal_crates/web-transport-proto/src/capsule.rs]: the message that closes a
    WebTransport session, and capsules nobody knows. *)
From Stdlib Require Import NArith Lia Bool.
From stdpp Require Import base list option numbers.
From S2P Require Import Prelude Buffers VarInt Utf8 Http3.
Import QuicVarInt(UnexpectedEnd, VarIntUnexpectedEnd).

#[local] Arguments N.modulo : simpl never.
#[local] Arguments N.pow : simpl never.

Definition CLOSE_WEBTRANSPORT_SESSION_TYPE : N := 0x2843.
Definition MAX_MESSAGE_SIZE : N := 1024.

Module CapsuleErr.
Inductive CapsuleError := UnexpectedEnd | InvalidUtf8 | MessageTooLong | UnknownType (typ : N) | VarInt | Io.
Definition missing (e : CapsuleError) : bool := match e with UnexpectedEnd => true | _ => false end.
End CapsuleErr.
Import CapsuleErr(CapsuleError).

Module Capsule.
Inductive t :=
  | CloseWebTransportSession (code : N) (reason : String)
  | Unknown (typ : N) (payload : list byte).

(** What follows the header; [None] is the [continue] of a GREASE capsule, whose
    payload has not been read. *)
Definition read_payload (typ length remaining : N) : M (list byte) CapsuleError (option t) :=
  if MAX_MESSAGE_SIZE <? remaining then raise CapsuleErr.MessageTooLong
  else if remaining <? length then raise CapsuleErr.UnexpectedEnd
  else if typ =? CLOSE_WEBTRANSPORT_SESSION_TYPE then
    if remaining <? 4 then raise CapsuleErr.UnexpectedEnd
    else
      let! error_code := bytes_of 4 in
      let message_len := remaining - 4 in
      if MAX_MESSAGE_SIZE <? message_len then raise CapsuleErr.MessageTooLong
      else
        let! message_bytes := bytes_of message_len in
        match from_utf8 message_bytes with
        | Some error_message => ret (Some (CloseWebTransportSession (from_be error_code) error_message))
        | None => raise CapsuleErr.InvalidUtf8
        end
  else if is_grease typ then ret None
  else let! payload_bytes := bytes_of remaining in ret (Some (Unknown typ payload_bytes)).

(** [remaining] is that of [buf.take(length)]. *)
Definition decode_payload (typ length : N) : M (list byte) CapsuleError (option t) :=
  let! r := rem in read_payload typ length (N.min r length).

(** One turn of the loop. *)
Definition decode_one : M (list byte) CapsuleError (option t) :=
  let! typ := map_err (fun _ => CapsuleErr.VarInt) QuicVarInt.decode in
  let! length := map_err (fun _ => CapsuleErr.VarInt) QuicVarInt.decode in
  decode_payload typ length.

Fixpoint decode_loop (fuel : nat) : M (list byte) CapsuleError t :=
  match fuel with
  | O => panic
  | S fuel => let! c := decode_one in match c with Some c => ret c | None => decode_loop fuel end
  end.

Definition decode : M (list byte) CapsuleError t := fun r => decode_loop (S (length r)) r.

Definition read (s : list read_event) : outcome CapsuleError t * list read_event :=
  accumulate decode CapsuleErr.missing CapsuleErr.UnexpectedEnd CapsuleErr.Io [] s.

Definition encode (self : t) : put unit :=
  match self with
  | CloseWebTransportSession error_code error_message =>
      do! (match QuicVarInt.from_u64 CLOSE_WEBTRANSPORT_SESSION_TYPE with
           | Some typ => QuicVarInt.encode typ
           | None => panic
           end) in
      let length := 4 + lenN (as_bytes error_message) in
      do! QuicVarInt.encode (QuicVarInt.from_u32 (length mod 2 ^ 32)) in
      do! put_bytes (to_be 4 error_code) in
      put_bytes (as_bytes error_message)
  | Unknown typ payload =>
      do! QuicVarInt.encode typ in
      do! (match QuicVarInt.from_u64 (lenN payload) with
           | Some length => QuicVarInt.encode length
           | None => panic
           end) in
      put_bytes payload
  end.
End Capsule.
Import Capsule.

(** ** The loop *)

Lemma keeps_payload typ length : keeps (decode_payload typ length).
Proof.
  unfold decode_payload. apply keeps_bind; [apply keeps_rem|intros r]. unfold read_payload. cbv zeta.
  destruct (MAX_MESSAGE_SIZE <? _); [apply keeps_raise|]. destruct (N.min r length <? length); [apply keeps_raise|].
  destruct (typ =? CLOSE_WEBTRANSPORT_SESSION_TYPE).
  - destruct (N.min r length <? 4); [apply keeps_raise|]. apply keeps_bind; [apply keeps_bytes_of|intros c].
    destruct (MAX_MESSAGE_SIZE <? _); [apply keeps_raise|]. apply keeps_bind; [apply keeps_bytes_of|intros bs].
    destruct (from_utf8 bs); [apply keeps_ret|apply keeps_raise].
  - destruct (is_grease typ); [apply keeps_ret|].
    apply keeps_bind; [apply keeps_bytes_of|intros; apply keeps_ret].
Qed.

Lemma shrinks_one : shrinks decode_one.
Proof.
  unfold decode_one. apply shrinks_bind; [apply shrinks_map_err, shrinks_varint|intros typ].
  apply keeps_bind; [apply keeps_map_err, shrinks_keeps, shrinks_varint|intros length]. apply keeps_payload.
Qed.

Lemma decode_loop_enough fuel fuel' r :
  (length r < fuel)%nat -> (length r < fuel')%nat -> decode_loop fuel r = decode_loop fuel' r.
Proof.
  revert fuel' r. induction fuel as [|fuel IH]; intros [|fuel'] r H1 H2; [lia..|]. cbn [decode_loop]. unfold bind.
  destruct (decode_one r) as [[c|e|] r'] eqn:E; [|done|done].
  pose proof (shrinks_one _ _ _ E). destruct c; [done|apply IH; lia].
Qed.

(** The fuel of [decode] is enough: it obeys the equation of the source's loop. *)
Lemma decode_eq r :
  decode r = (let! c := decode_one in match c with Some c => ret c | None => decode end) r.
Proof.
  unfold decode at 1. cbn [decode_loop]. unfold bind. destruct (decode_one r) as [[c|e|] r'] eqn:E; [|done|done].
  pose proof (shrinks_one _ _ _ E). destruct c; [done|]. apply decode_loop_enough; lia.
Qed.

(** ** On the wire *)

Definition header (typ length : N) : list byte := varint_bytes typ ++ varint_bytes length.

Lemma decode_one_header typ length r :
  typ < 2 ^ 62 -> length < 2 ^ 62 -> decode_one (header typ length ++ r) = decode_payload typ length r.
Proof.
  intros Ht Hl. unfold decode_one, header, bind at 1, map_err at 1. rewrite <- app_assoc, quic_round_trip by done.
  unfold bind, map_err. by rewrite quic_round_trip.
Qed.

Lemma payload_grease typ length r r' : decode_payload typ length r = (Ok None, r') -> is_grease typ = true.
Proof.
  intros H. unfold decode_payload in H. run_inv. unfold read_payload in H. cbv zeta in H.
  destruct (MAX_MESSAGE_SIZE <? _); [done|]. destruct (N.min a length <? length); [done|].
  destruct (typ =? CLOSE_WEBTRANSPORT_SESSION_TYPE).
  - destruct (N.min a length <? 4); [done|]. run_inv. destruct (MAX_MESSAGE_SIZE <? _); [done|]. run_inv.
    by destruct (from_utf8 _).
  - destruct (is_grease typ); [done|]. by run_inv.
Qed.

Lemma decode_header typ length r :
  typ < 2 ^ 62 -> length < 2 ^ 62 -> is_grease typ = false ->
  decode (header typ length ++ r) =
  (let! c := decode_payload typ length in match c with Some c => ret c | None => panic end) r.
Proof.
  intros Ht Hl Hg. rewrite decode_eq. unfold bind. rewrite decode_one_header by done.
  destruct (decode_payload typ length r) as [[[c|]|e|] r'] eqn:E; [done| |done|done].
  apply payload_grease in E. congruence.
Qed.

Lemma growing_payload typ length : growing CapsuleErr.missing (decode_payload typ length).
Proof.
  intros p q.
  assert (E : forall r, decode_payload typ length r = read_payload typ length (N.min (lenN r) length) r) by done.
  rewrite !E, lenN_app. clear E. unfold read_payload at 1.
  destruct (N.ltb_spec MAX_MESSAGE_SIZE (N.min (lenN p) length)) as [H1|H1].
  { intros _. unfold read_payload.
    destruct (N.ltb_spec MAX_MESSAGE_SIZE (N.min (lenN p + lenN q) length)); [done|lia]. }
  destruct (N.ltb_spec (N.min (lenN p) length) length) as [H2|H2]; [done|]. unfold read_payload.
  rewrite !N.min_r by lia. destruct (N.ltb_spec MAX_MESSAGE_SIZE length); [lia|].
  destruct (N.ltb_spec length length); [lia|].
  assert (Hb : forall n r, n <= lenN r -> bytes_of (E:=CapsuleError) n r = (Ok (take (N.to_nat n) r), drop (N.to_nat n) r) /\
    bytes_of (E:=CapsuleError) n (r ++ q) = (Ok (take (N.to_nat n) r), drop (N.to_nat n) r ++ q)).
  { intros n r Hn. unfold bytes_of. rewrite lenN_app. destruct (N.ltb_spec (lenN r) n); [lia|].
    destruct (N.ltb_spec (lenN r + lenN q) n); [lia|]. unfold lenN in Hn.
    assert ((N.to_nat n <= Datatypes.length r)%nat) by lia. by rewrite take_app_le, drop_app_le. }
  destruct (typ =? CLOSE_WEBTRANSPORT_SESSION_TYPE).
  - destruct (N.ltb_spec length 4); [done|]. unfold bind at 1 3 5.
    destruct (Hb 4 p) as [-> ->]; [lia|]. destruct (MAX_MESSAGE_SIZE <? length - 4); [done|]. unfold bind.
    destruct (Hb (length - 4) (drop (N.to_nat 4) p)) as [-> ->]; [unfold lenN in *; rewrite length_drop; lia|].
    by destruct (from_utf8 _).
  - destruct (is_grease typ); [done|]. unfold bind. by destruct (Hb length p) as [-> ->]; [lia|].
Qed.

Definition typ_of (c : t) : N :=
  match c with CloseWebTransportSession _ _ => CLOSE_WEBTRANSPORT_SESSION_TYPE | Unknown typ _ => typ end.

Definition payload_of (c : t) : list byte :=
  match c with
  | CloseWebTransportSession code reason => to_be 4 code ++ as_bytes reason
  | Unknown _ payload => payload
  end.

Definition head (c : t) : list byte := header (typ_of c) (lenN (payload_of c)).

(** What [encode] is meant for: fields that fit, and no other meaning of the type. *)
Definition sendable (c : t) : Prop :=
  match c with
  | CloseWebTransportSession code reason => code < 2 ^ 32 /\ 4 + lenN (as_bytes reason) < 2 ^ 32
  | Unknown typ payload =>
      typ < 2 ^ 62 /\ typ <> CLOSE_WEBTRANSPORT_SESSION_TYPE /\ is_grease typ = false /\ lenN payload < 2 ^ 62
  end.

Lemma encode_capsule c : sendable c -> written (encode c) = Ok (head c ++ payload_of c).
Proof.
  destruct c as [code reason|typ payload]; cbn [sendable encode typ_of payload_of];
    unfold written, encode, head, header, bind; cbn [typ_of payload_of].
  - intros [Hc Hr]. change (QuicVarInt.from_u64 CLOSE_WEBTRANSPORT_SESSION_TYPE) with (Some CLOSE_WEBTRANSPORT_SESSION_TYPE).
    cbv iota. rewrite (quic_put CLOSE_WEBTRANSPORT_SESSION_TYPE) by (unfold CLOSE_WEBTRANSPORT_SESSION_TYPE; lia).
    cbn [app]. rewrite quic_put by (unfold QuicVarInt.from_u32; lia).
    unfold put_bytes, QuicVarInt.from_u32. rewrite (N.mod_small (4 + _)) by lia.
    rewrite (lenN_app (to_be 4 code)), lenN_to_be. by rewrite <- !app_assoc.
  - intros (Ht & Hn & Hg & Hl). rewrite quic_put by done. unfold QuicVarInt.from_u64.
    destruct (N.ltb_spec (lenN payload) (2 ^ 62)); [|lia]. rewrite quic_put by done. unfold put_bytes.
    by rewrite <- !app_assoc.
Qed.

Lemma sendable_head c :
  sendable c -> typ_of c < 2 ^ 62 /\ is_grease (typ_of c) = false /\ lenN (payload_of c) < 2 ^ 62.
Proof.
  destruct c as [code reason|typ payload]; cbn [sendable typ_of payload_of]; [|by intros (? & ? & ? & ?)].
  intros [Hc Hr]. split; [by unfold CLOSE_WEBTRANSPORT_SESSION_TYPE; lia|]. split; [by vm_compute|]. rewrite lenN_app, lenN_to_be. lia.
Qed.

Lemma decode_payload_long typ length r :
  MAX_MESSAGE_SIZE < N.min (lenN r) length -> fst (decode_payload typ length r) = Err CapsuleErr.MessageTooLong.
Proof.
  intros Hl. change (decode_payload typ length r) with (read_payload typ length (N.min (lenN r) length) r).
  unfold read_payload. by destruct (N.ltb_spec MAX_MESSAGE_SIZE (N.min (lenN r) length)); [|lia].
Qed.

Lemma decode_payload_of c rest :
  sendable c -> lenN (payload_of c) <= MAX_MESSAGE_SIZE ->
  decode_payload (typ_of c) (lenN (payload_of c)) (payload_of c ++ rest) = (Ok (Some c), rest).
Proof.
  intros Hs Hl. set (n := lenN (payload_of c)) in *.
  change (decode_payload (typ_of c) n (payload_of c ++ rest)) with
    (read_payload (typ_of c) n (N.min (lenN (payload_of c ++ rest)) n) (payload_of c ++ rest)).
  rewrite lenN_app, N.min_r by (unfold n; lia). unfold read_payload.
  destruct (N.ltb_spec MAX_MESSAGE_SIZE n); [lia|]. destruct (N.ltb_spec n n); [lia|].
  destruct c as [code reason|typ payload]; cbn [typ_of payload_of] in *.
  - rewrite N.eqb_refl. assert (En : n = 4 + lenN (as_bytes reason)) by (unfold n; cbn [payload_of]; by rewrite lenN_app, lenN_to_be).
    destruct (N.ltb_spec n 4); [lia|]. unfold bind. rewrite <- app_assoc.
    pose proof (bytes_of_app (E:=CapsuleError) (to_be 4 code) (as_bytes reason ++ rest)) as H4.
    rewrite lenN_to_be in H4. change (N.of_nat 4) with 4 in H4. rewrite H4.
    destruct (N.ltb_spec MAX_MESSAGE_SIZE (n - 4)); [lia|]. replace (n - 4) with (lenN (as_bytes reason)) by lia.
    rewrite bytes_of_app, from_utf8_as_bytes, from_be_to_be. unfold ret. rewrite N.mod_small; [done|]. apply Hs.
  - destruct Hs as (Ht & Hn & Hg & _). destruct (N.eqb_spec typ CLOSE_WEBTRANSPORT_SESSION_TYPE); [done|]. rewrite Hg.
    unfold bind, n. by rewrite bytes_of_app.
Qed.

Lemma decode_capsule c rest :
  sendable c -> lenN (payload_of c) <= MAX_MESSAGE_SIZE ->
  decode ((head c ++ payload_of c) ++ rest) = (Ok c, rest).
Proof.
  intros Hs Hl. destruct (sendable_head c Hs) as (Ht & Hg & Hn). rewrite <- app_assoc. unfold head.
  rewrite decode_header by done. unfold bind. by rewrite decode_payload_of.
Qed.

(** A cut inside an integer. *)
Lemma varint_cut x p q : x < 2 ^ 62 -> q <> [] -> p ++ q = varint_bytes x -> exists r, QuicVarInt.decode p = (Err VarIntUnexpectedEnd, r).
Proof.
  intros Hx Hq E. pose proof (growing_varint p q) as Hg. pose proof (quic_round_trip x [] Hx) as Hr.
  rewrite app_nil_r, <- E in Hr. destruct (QuicVarInt.decode p) as [[a|[]|] r]; [|by exists r|done].
  rewrite Hr in Hg. injection Hg as _ Hg. by destruct r.
Qed.

Lemma header_cut typ length p q :
  typ < 2 ^ 62 -> length < 2 ^ 62 -> q <> [] -> p ++ q = header typ length -> fst (decode p) = Err CapsuleErr.VarInt.
Proof.
  intros Ht Hl Hq E. rewrite decode_eq. unfold decode_one, bind at 1 2, map_err at 1. unfold header in E.
  apply app_eq_inv in E as [(k & -> & E)|(k & E & ->)].
  - rewrite quic_round_trip by done. destruct (varint_cut length k q Hl Hq) as [r Hr]; [done|].
    unfold bind, map_err. by rewrite Hr.
  - destruct k as [|b k]; [|by destruct (varint_cut typ p (b :: k) Ht) as [r ->]].
    rewrite app_nil_r in E. subst p. rewrite <- (app_nil_r (varint_bytes typ)), quic_round_trip by done.
    unfold bind, map_err. done.
Qed.

(** ** Properties *)

(** What [encode] writes for a capsule is read back by
    [decode], nothing else taken, exactly if its payload has at most 1024 bytes; a
    longer one, a close reason of more than 1020 bytes included, is sent all the
    same and refused by the peer. *)
Theorem capsule_round_trip (c : t) (bs rest : list byte) :
  sendable c -> written (encode c) = Ok bs ->
  if lenN (payload_of c) <=? MAX_MESSAGE_SIZE then decode (bs ++ rest) = (Ok c, rest)
  else fst (decode (bs ++ rest)) = Err CapsuleErr.MessageTooLong.
Proof.
  intros Hs Hw. rewrite encode_capsule in Hw by done.
  assert (bs = head c ++ payload_of c) as -> by congruence. clear Hw.
  destruct (N.leb_spec (lenN (payload_of c)) MAX_MESSAGE_SIZE); [by apply decode_capsule|].
  destruct (sendable_head c Hs) as (Ht & Hg & Hn). rewrite <- app_assoc. unfold head.
  rewrite decode_header by done. unfold bind.
  pose proof (decode_payload_long (typ_of c) (lenN (payload_of c)) (payload_of c ++ rest)) as Hd.
  destruct (decode_payload _ _ _) as [[] r]; simpl in Hd; rewrite lenN_app in Hd; rewrite N.min_r in Hd by lia;
    specialize (Hd H); by simplify_eq.
Qed.

Lemma capsule_round_trip_witness :
  decode (([x68; x43; x05; x00; x00; x01; xa4; x61] ++ [x00])) =
    (Ok (CloseWebTransportSession 420 (mk_String [x61] eq_refl)), [x00]).
Proof.
  exact (capsule_round_trip (CloseWebTransportSession 420 (mk_String [x61] eq_refl))
    [x68; x43; x05; x00; x00; x01; xa4; x61] [x00] (conj eq_refl eq_refl) eq_refl).
Defined.

(** Reading a capsule from a stream works exactly if the first chunk
    holds its type and its length: a cut inside these comes out as a final error,
    where a cut anywhere else is waited out. *)
Theorem capsule_fragments (c : t) (bs rest first : list byte) (chunks : list (list byte)) :
  sendable c -> lenN (payload_of c) <= MAX_MESSAGE_SIZE -> written (encode c) = Ok bs ->
  first <> [] -> full chunks -> first ++ concat chunks = bs ++ rest ->
  fst (read (Chunk <$> first :: chunks)) =
    if (length (head c) <=? length first)%nat then Ok c else Err CapsuleErr.VarInt.
Proof.
  intros Hs Hl Hw Hne Hc Hb. rewrite encode_capsule in Hw by done.
  assert (bs = head c ++ payload_of c) as -> by congruence. clear Hw.
  destruct (sendable_head c Hs) as (Ht & Hg & Hn). pose proof Hb as Hb'. rewrite <- app_assoc in Hb'.
  destruct (Nat.leb_spec (length (head c)) (length first)).
  - apply (accumulate_whole _ _ _ _ (fun p => exists tail, p = head c ++ tail)); try done.
    + intros p q [tail ->]. unfold head. rewrite <- app_assoc, !decode_header by done. unfold bind.
      pose proof (growing_payload (typ_of c) (lenN (payload_of c)) tail q) as Hp.
      destruct (decode_payload _ _ tail) as [[[x|]|e|] r]; simpl in *; [by rewrite Hp|by rewrite Hp| |done].
      intros He. specialize (Hp He). destruct (decode_payload _ _ (tail ++ q)) as [[] ?]; simpl in *; by simplify_eq.
    + intros p q [tail ->]. exists (tail ++ q). by rewrite app_assoc.
    + apply app_eq_inv in Hb' as [(k & -> & _)|(k & E & _)]; [by exists k|].
      exists []. rewrite E in H |- *. rewrite length_app in H. destruct k; [|simpl in H; lia]. by rewrite !app_nil_r.
    + by rewrite app_nil_l, Hb, decode_capsule.
  - apply app_eq_inv in Hb' as [(k & -> & _)|(k & E & _)]; [rewrite length_app in H; lia|].
    destruct first as [|b first]; [done|]. unfold read. cbn [fmap list_fmap accumulate]. rewrite app_nil_l.
    rewrite (header_cut _ _ (b :: first) k Ht Hn); [done| |done]. intros ->. rewrite app_nil_r in E. rewrite E in H. lia.
Qed.

Lemma capsule_fragments_witness :
  fst (read [Chunk [x68]; Chunk [x43; x04; x00; x00; x00; x00]]) = Err CapsuleErr.VarInt.
Proof.
  apply (capsule_fragments (CloseWebTransportSession 0 (mk_String [] eq_refl)) [x68; x43; x04; x00; x00; x00; x00] []
    [x68] [[x43; x04; x00; x00; x00; x00]]); try reflexivity; try discriminate; [split; reflexivity|].
  constructor; [discriminate|constructor].
Defined.

(** A capsule of a reserved type is meant to be skipped; only its
    header is, and its payload is read as the next capsule. *)
Theorem capsule_grease (typ : N) (payload rest : list byte) :
  typ < 2 ^ 62 -> is_grease typ = true -> lenN payload <= MAX_MESSAGE_SIZE ->
  decode (header typ (lenN payload) ++ payload ++ rest) = decode (payload ++ rest).
Proof.
  intros Ht Hg Hl. unfold MAX_MESSAGE_SIZE in Hl. rewrite decode_eq. unfold bind. rewrite decode_one_header by lia.
  change (decode_payload typ (lenN payload) (payload ++ rest)) with
    (read_payload typ (lenN payload) (N.min (lenN (payload ++ rest)) (lenN payload)) (payload ++ rest)).
  rewrite lenN_app, N.min_r by lia. unfold read_payload, MAX_MESSAGE_SIZE.
  destruct (N.ltb_spec 1024 (lenN payload)); [lia|]. destruct (N.ltb_spec (lenN payload) (lenN payload)); [lia|].
  destruct (N.eqb_spec typ CLOSE_WEBTRANSPORT_SESSION_TYPE) as [->|]; [by vm_compute in Hg|]. by rewrite Hg.
Qed.

Lemma capsule_grease_witness :
  fst (decode (header 0x21 7 ++ [x68; x43; x04; x00; x00; x00; x00] ++ [])) =
    Ok (CloseWebTransportSession 0 (mk_String [] eq_refl)).
Proof.
  refine (eq_trans (f_equal fst (capsule_grease 0x21 [x68; x43; x04; x00; x00; x00; x00] [] eq_refl eq_refl _)) _);
    [discriminate|vm_compute; reflexivity].
Defined.
