(* ===== verification/Huffman.v ===== *)
(** * Huffman decoding of header strings

    [internal_crates/web-transport-proto/src/huffman.rs]: a tree of tables, each of
    which looks up a few bits, and a window that moves over the input. Positions are
    [u32] and wrap.

    The specification is the code of RFC 7541, the canonical Huffman code of a list
    of lengths. *)
From Stdlib Require Import NArith Lia Bool.
From stdpp Require Import base list option numbers.
From S2P Require Import Prelude.

#[local] Arguments N.modulo : simpl never.
#[local] Arguments N.div : simpl never.
#[local] Arguments N.pow : simpl never.
#[local] Arguments N.mul : simpl never.

(** ** [BitWindow] *)

Definition u32 (x : N) : N := x mod 2 ^ 32.

Module BitWindow.
Record t := mk { byte : N; bit : N; count : N }.

Definition new : t := mk 0 0 0.

Definition forwards (step : N) (self : t) : t :=
  let b := u32 (bit self + count self) in
  mk (u32 (byte self + b / 8)) (b mod 8) step.

Definition opposite_bit_window (self : t) : t := mk (byte self) (bit self) (8 - bit self mod 8).
End BitWindow.

Module HuffmanErr.
Inductive Error := MissingBits (w : BitWindow.t) | Unhandled (w : BitWindow.t) (value : N).
End HuffmanErr.
Import HuffmanErr(Error).

(** ** Reading bits *)

(** Indexing panics out of range. *)
Definition index (src : list byte) (i : N) : outcome unit N :=
  match src !! N.to_nat i with Some b => Ok (nb b) | None => Panic end.

Definition read_bits (src : list byte) (byte_offset bit_offset len : N) : outcome unit N :=
  if (len =? 0) || (8 <? len) ||
     (u32 (u32 (lenN src) * 8) <? u32 (u32 (u32 (byte_offset * 8) + bit_offset) + len)) then Err tt
  else
    let byte_offset := u32 (byte_offset + bit_offset / 8) in
    let bit_offset := bit_offset - bit_offset / 8 * 8 in
    if bit_offset + len <=? 8 then
      match index src byte_offset with
      | Ok b => Ok (N.shiftr (N.shiftl b bit_offset mod 2 ^ 8) (8 - len))
      | r => r
      end
    else
      match index src byte_offset, index src (byte_offset + 1) with
      | Ok b, Ok c => Ok (N.shiftr (N.shiftl (N.lor (N.shiftl b 8) c) bit_offset mod 2 ^ 16) (16 - len) mod 2 ^ 8)
      | _, _ => Panic
      end.

(** ** The decoder *)

Inductive HuffmanDecoder := Decoder (lookup : N) (table : list DecodeValue)
with DecodeValue := Partial (d : HuffmanDecoder) | Sym (sym : N).

Definition check_eof (bit_pos : BitWindow.t) (input : list byte) : outcome Error (option N) :=
  match u32 (BitWindow.byte bit_pos + 1) ?= lenN input with
  | Gt => Ok None
  | Eq =>
      let side := BitWindow.opposite_bit_window bit_pos in
      match read_bits input (BitWindow.byte side) (BitWindow.bit side) (BitWindow.count side) with
      | Ok rest =>
          let eof_filler := (N.shiftl 2 (BitWindow.count side - 1) mod 2 ^ 16 - 1) mod 2 ^ 8 in
          if N.land rest eof_filler =? eof_filler then Ok None else Err (HuffmanErr.MissingBits bit_pos)
      | Err _ => Err (HuffmanErr.MissingBits side)
      | Panic => Panic
      end
  | Lt => Err (HuffmanErr.MissingBits bit_pos)
  end.

Definition fetch_value (bit_pos : BitWindow.t) (input : list byte) : outcome Error (option N) :=
  match read_bits input (BitWindow.byte bit_pos) (BitWindow.bit bit_pos) (BitWindow.count bit_pos) with
  | Ok value => Ok (Some value)
  | Err _ => check_eof bit_pos input
  | Panic => Panic
  end.

Fixpoint decode_next (self : HuffmanDecoder) (bit_pos : BitWindow.t) (input : list byte) :
    outcome Error (option byte) * BitWindow.t :=
  match self with
  | Decoder lookup table =>
      let bit_pos := BitWindow.forwards lookup bit_pos in
      match fetch_value bit_pos input with
      | Ok (Some value) =>
          (fix get (table : list DecodeValue) (i : nat) : outcome Error (option byte) * BitWindow.t :=
             match table, i with
             | [], _ => (Err (HuffmanErr.Unhandled bit_pos value), bit_pos)
             | Sym x :: _, O => (Ok (Some (bn x)), bit_pos)
             | Partial d :: _, O => decode_next d bit_pos input
             | _ :: table, S i => get table i
             end) table (N.to_nat value)
      | Ok None => (Ok None, bit_pos)
      | Err err => (Err err, bit_pos)
      | Panic => (Panic, bit_pos)
      end
  end.

(** The tables. *)
Definition END0_01010 : HuffmanDecoder := Decoder 1 [Sym 32; Sym 37].
Definition END0_01011 : HuffmanDecoder := Decoder 1 [Sym 45; Sym 46].
Definition END0_01100 : HuffmanDecoder := Decoder 1 [Sym 47; Sym 51].
Definition END0_01101 : HuffmanDecoder := Decoder 1 [Sym 52; Sym 53].
Definition END0_01110 : HuffmanDecoder := Decoder 1 [Sym 54; Sym 55].
Definition END0_01111 : HuffmanDecoder := Decoder 1 [Sym 56; Sym 57].
Definition END0_10000 : HuffmanDecoder := Decoder 1 [Sym 61; Sym 65].
Definition END0_10001 : HuffmanDecoder := Decoder 1 [Sym 95; Sym 98].
Definition END0_10010 : HuffmanDecoder := Decoder 1 [Sym 100; Sym 102].
Definition END0_10011 : HuffmanDecoder := Decoder 1 [Sym 103; Sym 104].
Definition END0_10100 : HuffmanDecoder := Decoder 1 [Sym 108; Sym 109].
Definition END0_10101 : HuffmanDecoder := Decoder 1 [Sym 110; Sym 112].
Definition END0_10110 : HuffmanDecoder := Decoder 1 [Sym 114; Sym 117].
Definition END0_10111 : HuffmanDecoder := Decoder 2 [Sym 58; Sym 66; Sym 67; Sym 68].
Definition END0_11000 : HuffmanDecoder := Decoder 2 [Sym 69; Sym 70; Sym 71; Sym 72].
Definition END0_11001 : HuffmanDecoder := Decoder 2 [Sym 73; Sym 74; Sym 75; Sym 76].
Definition END0_11010 : HuffmanDecoder := Decoder 2 [Sym 77; Sym 78; Sym 79; Sym 80].
Definition END0_11011 : HuffmanDecoder := Decoder 2 [Sym 81; Sym 82; Sym 83; Sym 84].
Definition END0_11100 : HuffmanDecoder := Decoder 2 [Sym 85; Sym 86; Sym 87; Sym 89].
Definition END0_11101 : HuffmanDecoder := Decoder 2 [Sym 106; Sym 107; Sym 113; Sym 118].
Definition END0_11110 : HuffmanDecoder := Decoder 2 [Sym 119; Sym 120; Sym 121; Sym 122].
Definition END5_00 : HuffmanDecoder := Decoder 1 [Sym 38; Sym 42].
Definition END5_01 : HuffmanDecoder := Decoder 1 [Sym 44; Sym 59].
Definition END5_10 : HuffmanDecoder := Decoder 1 [Sym 88; Sym 90].
Definition END7_0 : HuffmanDecoder := Decoder 2 [Sym 33; Sym 34; Sym 40; Sym 41].
Definition END9A_1 : HuffmanDecoder := Decoder 1 [Sym 39; Sym 43].
Definition END8_0 : HuffmanDecoder := Decoder 1 [Sym 63; Partial END9A_1].
Definition END9B_01 : HuffmanDecoder := Decoder 1 [Sym 35; Sym 62].
Definition END9B_10 : HuffmanDecoder := Decoder 2 [Sym 0; Sym 36; Sym 64; Sym 91].
Definition END13_10 : HuffmanDecoder := Decoder 1 [Sym 94; Sym 125].
Definition END14_0 : HuffmanDecoder := Decoder 1 [Sym 60; Sym 96].
Definition END19_0011 : HuffmanDecoder := Decoder 1 [Sym 128; Sym 130].
Definition END19_0100 : HuffmanDecoder := Decoder 1 [Sym 131; Sym 162].
Definition END19_0101 : HuffmanDecoder := Decoder 1 [Sym 184; Sym 194].
Definition END19_0110 : HuffmanDecoder := Decoder 1 [Sym 224; Sym 226].
Definition END19_0111 : HuffmanDecoder := Decoder 2 [Sym 153; Sym 161; Sym 167; Sym 172].
Definition END19_1000 : HuffmanDecoder := Decoder 2 [Sym 176; Sym 177; Sym 179; Sym 209].
Definition END19_1001 : HuffmanDecoder := Decoder 2 [Sym 216; Sym 217; Sym 227; Sym 229].
Definition END19_1010_01 : HuffmanDecoder := Decoder 1 [Sym 129; Sym 132].
Definition END19_1010_10 : HuffmanDecoder := Decoder 1 [Sym 133; Sym 134].
Definition END19_1010_11 : HuffmanDecoder := Decoder 1 [Sym 136; Sym 146].
Definition END19_1010 : HuffmanDecoder := Decoder 2 [Sym 230; Partial END19_1010_01; Partial END19_1010_10; Partial
  END19_1010_11].
Definition END19_1011 : HuffmanDecoder := Decoder 3 [Sym 154; Sym 156; Sym 160; Sym 163; Sym 164; Sym 169; Sym 170;
  Sym 173].
Definition END19_1100 : HuffmanDecoder := Decoder 3 [Sym 178; Sym 181; Sym 185; Sym 186; Sym 187; Sym 189; Sym 190;
  Sym 196].
Definition END23A_100 : HuffmanDecoder := Decoder 1 [Sym 1; Sym 135].
Definition END23A_101 : HuffmanDecoder := Decoder 1 [Sym 137; Sym 138].
Definition END23A_110 : HuffmanDecoder := Decoder 1 [Sym 139; Sym 140].
Definition END23A_111 : HuffmanDecoder := Decoder 1 [Sym 141; Sym 143].
Definition END19_1101 : HuffmanDecoder := Decoder 3 [Sym 198; Sym 228; Sym 232; Sym 233; Partial END23A_100; Partial
  END23A_101; Partial END23A_110; Partial END23A_111].
Definition END19_1110 : HuffmanDecoder := Decoder 4 [Sym 147; Sym 149; Sym 150; Sym 151; Sym 152; Sym 155; Sym 157;
  Sym 158; Sym 165; Sym 166; Sym 168; Sym 174; Sym 175; Sym 180; Sym 182; Sym 183].
Definition END23B_0101 : HuffmanDecoder := Decoder 1 [Sym 9; Sym 142].
Definition END23B_0110 : HuffmanDecoder := Decoder 1 [Sym 144; Sym 145].
Definition END23B_0111 : HuffmanDecoder := Decoder 1 [Sym 148; Sym 159].
Definition END23B_1000 : HuffmanDecoder := Decoder 1 [Sym 171; Sym 206].
Definition END23B_1001 : HuffmanDecoder := Decoder 1 [Sym 215; Sym 225].
Definition END23B_1010 : HuffmanDecoder := Decoder 1 [Sym 236; Sym 237].
Definition END23B_1011 : HuffmanDecoder := Decoder 2 [Sym 199; Sym 207; Sym 234; Sym 235].
Definition END23B_1100 : HuffmanDecoder := Decoder 3 [Sym 192; Sym 193; Sym 200; Sym 201; Sym 202; Sym 205; Sym 210;
  Sym 213].
Definition END27A_111 : HuffmanDecoder := Decoder 1 [Sym 203; Sym 204].
Definition END23B_1101 : HuffmanDecoder := Decoder 3 [Sym 218; Sym 219; Sym 238; Sym 240; Sym 242; Sym 243; Sym 255;
  Partial END27A_111].
Definition END23B_1110 : HuffmanDecoder := Decoder 4 [Sym 211; Sym 212; Sym 214; Sym 221; Sym 222; Sym 223; Sym 241;
  Sym 244; Sym 245; Sym 246; Sym 247; Sym 248; Sym 250; Sym 251; Sym 252; Sym 253].
Definition END27B_0001 : HuffmanDecoder := Decoder 1 [Sym 2; Sym 3].
Definition END27B_0010 : HuffmanDecoder := Decoder 1 [Sym 4; Sym 5].
Definition END27B_0011 : HuffmanDecoder := Decoder 1 [Sym 6; Sym 7].
Definition END27B_0100 : HuffmanDecoder := Decoder 1 [Sym 8; Sym 11].
Definition END27B_0101 : HuffmanDecoder := Decoder 1 [Sym 12; Sym 14].
Definition END27B_0110 : HuffmanDecoder := Decoder 1 [Sym 15; Sym 16].
Definition END27B_0111 : HuffmanDecoder := Decoder 1 [Sym 17; Sym 18].
Definition END27B_1000 : HuffmanDecoder := Decoder 1 [Sym 19; Sym 20].
Definition END27B_1001 : HuffmanDecoder := Decoder 1 [Sym 21; Sym 23].
Definition END27B_1010 : HuffmanDecoder := Decoder 1 [Sym 24; Sym 25].
Definition END27B_1011 : HuffmanDecoder := Decoder 1 [Sym 26; Sym 27].
Definition END27B_1100 : HuffmanDecoder := Decoder 1 [Sym 28; Sym 29].
Definition END27B_1101 : HuffmanDecoder := Decoder 1 [Sym 30; Sym 31].
Definition END27B_1110 : HuffmanDecoder := Decoder 1 [Sym 127; Sym 220].
Definition EOF : HuffmanDecoder := Decoder 8 [].
Definition END31_1 : HuffmanDecoder := Decoder 2 [Sym 10; Sym 13; Sym 22; Partial EOF].
Definition END27B_1111 : HuffmanDecoder := Decoder 1 [Sym 249; Partial END31_1].
Definition END23B_1111 : HuffmanDecoder := Decoder 4 [Sym 254; Partial END27B_0001; Partial END27B_0010; Partial
  END27B_0011; Partial END27B_0100; Partial END27B_0101; Partial END27B_0110; Partial END27B_0111; Partial
  END27B_1000; Partial END27B_1001; Partial END27B_1010; Partial END27B_1011; Partial END27B_1100; Partial
  END27B_1101; Partial END27B_1110; Partial END27B_1111].
Definition END19_1111 : HuffmanDecoder := Decoder 4 [Sym 188; Sym 191; Sym 197; Sym 231; Sym 239; Partial
  END23B_0101; Partial END23B_0110; Partial END23B_0111; Partial END23B_1000; Partial END23B_1001; Partial
  END23B_1010; Partial END23B_1011; Partial END23B_1100; Partial END23B_1101; Partial END23B_1110; Partial
  END23B_1111].
Definition END15_1 : HuffmanDecoder := Decoder 4 [Sym 92; Sym 195; Sym 208; Partial END19_0011; Partial END19_0100;
  Partial END19_0101; Partial END19_0110; Partial END19_0111; Partial END19_1000; Partial END19_1001; Partial
  END19_1010; Partial END19_1011; Partial END19_1100; Partial END19_1101; Partial END19_1110; Partial END19_1111].
Definition END14_1 : HuffmanDecoder := Decoder 1 [Sym 123; Partial END15_1].
Definition END13_11 : HuffmanDecoder := Decoder 1 [Partial END14_0; Partial END14_1].
Definition END9B_11 : HuffmanDecoder := Decoder 2 [Sym 93; Sym 126; Partial END13_10; Partial END13_11].
Definition END8_1 : HuffmanDecoder := Decoder 2 [Sym 124; Partial END9B_01; Partial END9B_10; Partial END9B_11].
Definition END7_1 : HuffmanDecoder := Decoder 1 [Partial END8_0; Partial END8_1].
Definition END5_11 : HuffmanDecoder := Decoder 1 [Partial END7_0; Partial END7_1].
Definition END0_11111 : HuffmanDecoder := Decoder 2 [Partial END5_00; Partial END5_01; Partial END5_10; Partial
  END5_11].
Definition HPACK_STRING : HuffmanDecoder := Decoder 5 [Sym 48; Sym 49; Sym 50; Sym 97; Sym 99; Sym 101; Sym 105; Sym
  111; Sym 115; Sym 116; Partial END0_01010; Partial END0_01011; Partial END0_01100; Partial END0_01101; Partial
  END0_01110; Partial END0_01111; Partial END0_10000; Partial END0_10001; Partial END0_10010; Partial END0_10011;
  Partial END0_10100; Partial END0_10101; Partial END0_10110; Partial END0_10111; Partial END0_11000; Partial
  END0_11001; Partial END0_11010; Partial END0_11011; Partial END0_11100; Partial END0_11101; Partial END0_11110;
  Partial END0_11111].

(** [for byte in content.hpack_decode() { decoded.push(byte?) }]. A symbol takes at
    least a bit, so the bits of the input bound the turns. *)
Fixpoint decode_iter (fuel : nat) (bit_pos : BitWindow.t) (content : list byte) : outcome Error (list byte) :=
  match fuel with
  | O => Panic
  | S fuel =>
      match decode_next HPACK_STRING bit_pos content with
      | (Ok (Some x), bit_pos) =>
          match decode_iter fuel bit_pos content with
          | Ok decoded => Ok (x :: decoded)
          | r => r
          end
      | (Ok None, _) => Ok []
      | (Err err, _) => Err err
      | (Panic, _) => Panic
      end
  end.

Definition hpack_decode (content : list byte) : outcome Error (list byte) :=
  decode_iter (S (8 * length content)) BitWindow.new content.

(** ** Specification *)

Fixpoint bits (k : nat) (x : N) : list bool :=
  match k with O => [] | S k => N.testbit x (N.of_nat k) :: bits k x end.

Definition value (l : list bool) : N := fold_left (fun a (b : bool) => a * 2 + N.b2n b) l 0.

Definition all_bits (input : list byte) : list bool := concat ((fun b => bits 8 (nb b)) <$> input).

(** The lengths of the codes in RFC 7541, appendix B. *)
Definition code_lengths : list nat :=
  [13; 23; 28; 28; 28; 28; 28; 28; 28; 24; 30; 28; 28; 30; 28; 28; 28; 28; 28; 28; 28; 28; 30; 28; 28; 28; 28;
   28; 28; 28; 28; 28; 6; 10; 10; 12; 13; 6; 8; 11; 10; 10; 8; 11; 8; 6; 6; 6; 5; 5; 5; 6; 6; 6; 6; 6; 6; 6; 7;
   8; 15; 6; 12; 10; 13; 6; 7; 7; 7; 7; 7; 7; 7; 7; 7; 7; 7; 7; 7; 7; 7; 7; 7; 7; 7; 7; 7; 7; 8; 7; 8; 13; 19;
   13; 14; 6; 15; 5; 6; 5; 6; 5; 6; 6; 6; 5; 7; 7; 6; 6; 6; 5; 6; 7; 6; 5; 5; 6; 7; 7; 7; 7; 7; 15; 11; 14; 13;
   28; 20; 22; 20; 20; 22; 22; 22; 23; 22; 23; 23; 23; 23; 23; 24; 23; 24; 24; 22; 23; 24; 23; 23; 23; 23; 21;
   22; 23; 22; 23; 23; 24; 22; 21; 20; 22; 22; 23; 23; 21; 23; 22; 22; 24; 21; 22; 23; 23; 21; 21; 22; 21; 23;
   22; 23; 23; 20; 22; 22; 22; 23; 22; 22; 23; 26; 26; 20; 19; 22; 23; 22; 25; 26; 26; 26; 27; 27; 26; 24; 25;
   19; 21; 26; 27; 27; 26; 27; 24; 21; 21; 26; 26; 28; 27; 27; 27; 20; 24; 20; 21; 22; 21; 21; 23; 22; 22; 25;
   25; 24; 24; 26; 23; 26; 27; 26; 26; 27; 27; 27; 27; 27; 28; 27; 27; 27; 27; 27; 26]%nat.

(** The canonical code: by length, then by symbol, codes are consecutive. *)
Definition symbols_of_length (k : nat) : list N :=
  omap (fun p => if decide (p.2 = k) then Some (N.of_nat p.1) else None) (imap pair code_lengths).

Fixpoint canonical (k fuel : nat) (first : N) : list (N * list bool) :=
  match fuel with
  | O => []
  | S fuel =>
      let syms := symbols_of_length k in
      imap (fun i x => (x, bits k (first + N.of_nat i))) syms ++
      canonical (S k) fuel ((first + lenN syms) * 2)
  end.

Definition code_table : list (N * list bool) := canonical 1 30 0.

Definition code (b : byte) : list bool :=
  match list_find (fun p => p.1 = nb b) code_table with Some (_, (_, c)) => c | None => [] end.

(** The tree, on bits. *)
Fixpoint walk (d : HuffmanDecoder) (l : list bool) : option (byte * list bool) :=
  match d with
  | Decoder lookup table =>
      let k := N.to_nat lookup in
      if (length l <? k)%nat then None
      else
        (fix get (table : list DecodeValue) (i : nat) : option (byte * list bool) :=
           match table, i with
           | [], _ => None
           | Sym x :: _, O => Some (bn x, drop k l)
           | Partial d :: _, O => walk d (drop k l)
           | _ :: table, S i => get table i
           end) table (N.to_nat (value (take k l)))
  end.

Definition is_walk (b : byte) (o : option (byte * list bool)) : bool :=
  match o with Some (b', []) => bool_decide (b' = b) | _ => false end.

Lemma is_walk_true b o : is_walk b o = true -> o = Some (b, []).
Proof. destruct o as [[b' [|]]|]; [|done|done]. simpl. intros H. apply bool_decide_eq_true in H. by subst. Qed.

Definition all_bytes : list byte := (fun n => bn (N.of_nat n)) <$> seq 0 256.

Lemma all_walk : forallb (fun b => is_walk b (walk HPACK_STRING (code b))) all_bytes = true.
Proof. vm_compute. reflexivity. Qed.

Lemma in_all_bytes b : List.In b all_bytes.
Proof.
  rewrite <- (bn_nb b). apply list_elem_of_In, list_elem_of_fmap. exists (N.to_nat (nb b)).
  rewrite N2Nat.id. split; [done|]. apply (list_elem_of_lookup_2 _ (N.to_nat (nb b))), lookup_seq.
  pose proof (nb_lt b). lia.
Qed.

Lemma codes_walk b : walk HPACK_STRING (code b) = Some (b, []).
Proof.
  apply is_walk_true.
  exact (proj1 (forallb_forall (fun b => is_walk b (walk HPACK_STRING (code b))) all_bytes) all_walk b (in_all_bytes b)).
Qed.

(** ** Bits *)

Lemma length_bits k x : length (bits k x) = k.
Proof. induction k; simpl; [done|by rewrite IHk]. Qed.

Lemma bits_add j k x : bits (j + k) x = bits j (x / 2 ^ N.of_nat k) ++ bits k x.
Proof.
  induction j as [|j IH]; [done|]. cbn [Nat.add bits app]. rewrite IH, N.div_pow2_bits. do 2 f_equal. lia.
Qed.

Lemma bits_low k x y : x mod 2 ^ N.of_nat k = y mod 2 ^ N.of_nat k -> bits k x = bits k y.
Proof.
  intros E. assert (H : forall i, (i < k)%nat -> N.testbit x (N.of_nat i) = N.testbit y (N.of_nat i)).
  { intros i Hi. rewrite <- (N.mod_pow2_bits_low x (N.of_nat k)), <- (N.mod_pow2_bits_low y (N.of_nat k)) by lia.
    by rewrite E. }
  clear E. induction k as [|k IH]; [done|]. simpl. rewrite H by lia. f_equal. apply IH. intros i Hi. apply H. lia.
Qed.

Lemma take_bits j k x : (j <= k)%nat -> take j (bits k x) = bits j (x / 2 ^ N.of_nat (k - j)).
Proof.
  intros H. replace k with (j + (k - j))%nat at 1 by lia. rewrite bits_add, take_app_length'; [done|].
  by rewrite length_bits.
Qed.

Lemma drop_bits j k x : (j <= k)%nat -> drop j (bits k x) = bits (k - j) x.
Proof.
  intros H. replace k with (j + (k - j))%nat at 1 by lia. rewrite bits_add, drop_app_length'; [done|].
  by rewrite length_bits.
Qed.

Lemma value_cons b l : value (b :: l) = N.b2n b * 2 ^ lenN l + value l.
Proof.
  induction l as [|c l IH] using rev_ind; [unfold value, lenN; simpl; lia|].
  unfold value in *. rewrite app_comm_cons, !fold_left_app, IH, lenN_app, N.pow_add_r. simpl.
  change (2 ^ lenN [c]) with 2. lia.
Qed.

Lemma value_bits k x : value (bits k x) = x mod 2 ^ N.of_nat k.
Proof.
  induction k as [|k IH]; [by rewrite N.mod_1_r|]. cbn [bits]. rewrite value_cons, IH. unfold lenN.
  rewrite length_bits, N.testbit_spec', Nat2N.inj_succ, N.pow_succ_r', (N.mul_comm 2), N.Div0.mod_mul_r. lia.
Qed.

Lemma length_all_bits input : length (all_bits input) = (8 * length input)%nat.
Proof.
  unfold all_bits. induction input as [|b input IH]; [done|]. cbn [fmap list_fmap concat].
  rewrite length_app, length_bits, IH. simpl. lia.
Qed.

Lemma drop_all_bits n input : drop (8 * n) (all_bits input) = all_bits (drop n input).
Proof.
  revert input. induction n as [|n IH]; intros input; [by rewrite !drop_0|]. destruct input as [|b input].
  { by rewrite !drop_nil. }
  unfold all_bits. cbn [fmap list_fmap concat drop]. replace (8 * S n)%nat with (8 + 8 * n)%nat by lia.
  rewrite <- drop_drop, drop_app_length' by (by rewrite length_bits). apply IH.
Qed.

(** ** Windows and bits *)

Section Window.
Context (input : list byte) (Hsize : 8 * lenN input + 16 < 2 ^ 32).

Definition pos (w : BitWindow.t) : N := 8 * BitWindow.byte w + BitWindow.bit w + BitWindow.count w.

Definition ahead (n : N) : list bool := drop (N.to_nat n) (all_bits input).

Lemma ahead_add n k : drop k (ahead n) = ahead (n + N.of_nat k).
Proof. clear Hsize. unfold ahead. rewrite drop_drop. f_equal. lia. Qed.

Lemma length_ahead n : N.of_nat (length (ahead n)) = 8 * lenN input - n.
Proof. clear Hsize. unfold ahead. rewrite length_drop, length_all_bits. unfold lenN. lia. Qed.

Lemma forwards_pos step w :
  pos w <= 8 * lenN input ->
  let w' := BitWindow.forwards step w in
  8 * BitWindow.byte w' + BitWindow.bit w' = pos w /\ BitWindow.bit w' < 8 /\ BitWindow.count w' = step.
Proof.
  unfold pos, BitWindow.forwards, u32. change (2 ^ 32) with 4294967296 in *. simpl. intros H. lia.
Qed.

Lemma read_bits_short byte_offset bit_offset len :
  8 * byte_offset + bit_offset <= 8 * lenN input -> len <= 8 ->
  8 * lenN input < 8 * byte_offset + bit_offset + len -> read_bits input byte_offset bit_offset len = Err tt.
Proof.
  intros H1 H2 H3. unfold read_bits, u32. change (2 ^ 32) with 4294967296 in *.
  destruct (N.ltb_spec ((lenN input mod 4294967296 * 8) mod 4294967296)
    ((((byte_offset * 8) mod 4294967296 + bit_offset) mod 4294967296 + len) mod 4294967296)); [by rewrite orb_true_r|].
  lia.
Qed.

Lemma index_head n : n < lenN input ->
  exists b rest, drop (N.to_nat n) input = b :: rest /\ index input n = Ok (nb b).
Proof.
  intros Hn. unfold index. destruct (input !! N.to_nat n) as [b|] eqn:E.
  - exists b. eexists. split; [by apply drop_S|done].
  - apply lookup_ge_None in E. unfold lenN in Hn. lia.
Qed.

(** A window of [len] bits, [bit] bits into [w]. *)
Lemma window w x bit len :
  bit + len <= w ->
  N.shiftr (N.shiftl x bit mod 2 ^ w) (w - len) = (x / 2 ^ (w - bit - len)) mod 2 ^ len.
Proof.
  intros Hw. apply N.bits_inj. intros i. rewrite N.shiftr_spec'. destruct (N.lt_ge_cases i len).
  - rewrite !N.mod_pow2_bits_low by lia. rewrite N.shiftl_spec_high', N.div_pow2_bits by lia. f_equal. lia.
  - by rewrite !N.mod_pow2_bits_high by lia.
Qed.

Lemma read_bits_spec byte_offset bit_offset len :
  bit_offset < 8 -> 0 < len -> len <= 8 -> 8 * byte_offset + bit_offset + len <= 8 * lenN input ->
  read_bits input byte_offset bit_offset len = Ok (value (take (N.to_nat len) (ahead (8 * byte_offset + bit_offset)))).
Proof.
  intros Hb Hl Hl8 Hin. unfold read_bits, u32. change (2 ^ 32) with 4294967296 in *.
  destruct (N.eqb_spec len 0); [lia|]. destruct (N.ltb_spec 8 len); [lia|].
  destruct (N.ltb_spec ((lenN input mod 4294967296 * 8) mod 4294967296)
    ((((byte_offset * 8) mod 4294967296 + bit_offset) mod 4294967296 + len) mod 4294967296)); [lia|]. cbn [orb].
  rewrite (N.div_small bit_offset) by done. rewrite N.mul_0_l, N.sub_0_r, N.add_0_r, N.mod_small by lia.
  destruct (index_head byte_offset) as (b & rest & Ed & ->); [lia|].
  assert (Ea : ahead (8 * byte_offset + bit_offset) = drop (N.to_nat bit_offset) (all_bits (b :: rest))).
  { rewrite <- Ed, <- drop_all_bits, drop_drop. unfold ahead. f_equal. lia. }
  rewrite Ea. clear Ea. unfold all_bits. cbn [fmap list_fmap concat].
  destruct (N.leb_spec (bit_offset + len) 8).
  - rewrite drop_app_le by (rewrite length_bits; lia). rewrite drop_bits by lia.
    rewrite take_app_le by (rewrite length_bits; lia). rewrite take_bits, value_bits by lia.
    f_equal. rewrite window by lia. do 3 f_equal; lia.
  - destruct (index_head (byte_offset + 1)) as (c & rest' & Ed' & ->); [lia|].
    replace (N.to_nat (byte_offset + 1)) with (N.to_nat byte_offset + 1)%nat in Ed' by lia.
    rewrite <- drop_drop, Ed in Ed'. simpl in Ed'. rewrite drop_0 in Ed'. subst rest.
    cbn [fmap list_fmap concat]. pose proof (nb_lt c).
    rewrite lor_shiftl_add by done. rewrite app_assoc.
    replace (bits 8 (nb b) ++ bits 8 (nb c)) with (bits 16 (nb b * 2 ^ 8 + nb c)).
    + rewrite drop_app_le by (rewrite length_bits; lia). rewrite drop_bits by lia.
      rewrite take_app_le by (rewrite length_bits; lia). rewrite take_bits, value_bits by lia. f_equal.
      rewrite window by lia. rewrite (N.mod_small _ (2 ^ 8)); [do 3 f_equal; lia|].
      eapply N.lt_le_trans; [apply N.mod_lt; lia|]. by apply N.pow_le_mono_r.
    + rewrite (bits_add 8 8). f_equal.
      * f_equal. change (2 ^ N.of_nat 8) with (2 ^ 8). rewrite N.div_add_l by done. rewrite N.div_small by done. lia.
      * apply bits_low. change (2 ^ N.of_nat 8) with (2 ^ 8). by rewrite N.add_comm, N.Div0.mod_add.
Qed.

(** *** The tables as functions of the index *)

Lemma decode_next_eq lookup table w :
  decode_next (Decoder lookup table) w input =
  let w := BitWindow.forwards lookup w in
  match fetch_value w input with
  | Ok (Some value) =>
      match table !! N.to_nat value with
      | Some (Sym x) => (Ok (Some (bn x)), w)
      | Some (Partial d) => decode_next d w input
      | None => (Err (HuffmanErr.Unhandled w value), w)
      end
  | Ok None => (Ok None, w)
  | Err err => (Err err, w)
  | Panic => (Panic, w)
  end.
Proof.
  cbn [decode_next]. cbv zeta. destruct (fetch_value _ _) as [[value|]| |]; [|done..].
  generalize (N.to_nat value) as i. induction table as [|[d|x] table IH]; intros [|i]; try done; apply IH.
Qed.

Lemma walk_eq lookup table l :
  walk (Decoder lookup table) l =
  let k := N.to_nat lookup in
  if (length l <? k)%nat then None
  else match table !! N.to_nat (value (take k l)) with
       | Some (Sym x) => Some (bn x, drop k l)
       | Some (Partial d) => walk d (drop k l)
       | None => None
       end.
Proof.
  cbn [walk]. cbv zeta. destruct (_ <? _)%nat; [done|].
  generalize (N.to_nat (value (take (N.to_nat lookup) l))) as i.
  induction table as [|[d|x] table IH]; intros [|i]; try done; apply IH.
Qed.
End Window.

(** Every table looks up between 1 and 8 bits. *)
Fixpoint sound (d : HuffmanDecoder) : bool :=
  match d with
  | Decoder lookup table =>
      (0 <? lookup) && (lookup <=? 8) &&
      (fix all (table : list DecodeValue) : bool :=
         match table with
         | [] => true
         | Sym _ :: table => all table
         | Partial d :: table => sound d && all table
         end) table
  end.

Lemma sound_eq lookup table :
  sound (Decoder lookup table) = true ->
  0 < lookup <= 8 /\ forall i d, table !! i = Some (Partial d) -> sound d = true.
Proof.
  cbn [sound]. intros [[H1 H2]%andb_prop H]%andb_prop. apply N.ltb_lt in H1. apply N.leb_le in H2. split; [done|].
  clear H1 H2. induction table as [|[d|x] table IH]; intros i d' Hi; [done| |].
  - apply andb_prop in H as [Hd H]. destruct i; [by simplify_eq/=|]. by apply (IH H i).
  - destruct i; [done|]. by apply (IH H i).
Qed.

Section Induction.
Context (P : HuffmanDecoder -> Prop)
  (step : forall lookup table, (forall i d, table !! i = Some (Partial d) -> P d) -> P (Decoder lookup table)).

Fixpoint decoder_rect (d : HuffmanDecoder) : P d :=
  match d with
  | Decoder lookup table =>
      step lookup table
        ((fix all (table : list DecodeValue) : forall i d, table !! i = Some (Partial d) -> P d :=
            match table with
            | [] => fun i d H => match eq_ind None (fun o => match o with None => True | Some _ => False end) I _ H with end
            | v :: table => fun i =>
                match i with
                | O => fun d H =>
                    match H in _ = o return match o with Some (Partial d) => P d | _ => True end with
                    | eq_refl => match v with Partial d => decoder_rect d | Sym _ => I end
                    end
                | S i => fun d H => all table i d H
                end
            end) table)
  end.
End Induction.

Lemma walk_app d l l' x r : walk d l = Some (x, r) -> walk d (l ++ l') = Some (x, r ++ l').
Proof.
  revert l x r. induction d as [lookup table IH] using decoder_rect. intros l x r. rewrite !walk_eq. cbv zeta.
  rewrite length_app. destruct (Nat.ltb_spec (length l) (N.to_nat lookup)); [done|].
  destruct (Nat.ltb_spec (length l + length l') (N.to_nat lookup)); [lia|].
  rewrite take_app_le, drop_app_le by done.
  destruct (table !! N.to_nat (value (take (N.to_nat lookup) l))) as [[d|y]|] eqn:Et; [|by intros; simplify_eq|done].
  by apply (IH _ _ Et).
Qed.

Lemma value_lt l : value l < 2 ^ lenN l.
Proof.
  induction l as [|b l IH]; [done|]. rewrite value_cons, lenN_cons, N.pow_add_r. change (2 ^ 1) with 2.
  destruct b; simpl N.b2n; lia.
Qed.

Lemma value_ones k : value (replicate k true) = 2 ^ N.of_nat k - 1.
Proof.
  induction k as [|k IH]; [done|]. cbn [replicate]. rewrite value_cons, IH. unfold lenN.
  rewrite length_replicate, Nat2N.inj_succ, N.pow_succ_r'. simpl N.b2n.
  assert (0 < 2 ^ N.of_nat k) by (apply N.neq_0_lt_0, N.pow_nonzero; lia). lia.
Qed.

(** ** The decoder and the tree *)

Section Decode.
Context (input : list byte) (Hsize : 8 * lenN input + 16 < 2 ^ 32).
#[local] Abbreviation ahead := (ahead input).

Lemma fetch_in w lookup :
  pos w <= 8 * lenN input -> 0 < lookup <= 8 -> pos w + lookup <= 8 * lenN input ->
  let w' := BitWindow.forwards lookup w in
  fetch_value w' input = Ok (Some (value (take (N.to_nat lookup) (ahead (pos w))))) /\ pos w' = pos w + lookup.
Proof.
  intros Hp Hl Hin. destruct (forwards_pos input Hsize lookup w Hp) as (E & Hb & Hc). cbv zeta.
  unfold fetch_value. rewrite Hc, read_bits_spec by (done || lia). rewrite E. split; [done|].
  unfold pos at 1. by rewrite E, Hc.
Qed.

Lemma fetch_out w lookup :
  pos w <= 8 * lenN input -> lookup <= 8 -> 8 * lenN input < pos w + lookup ->
  let w' := BitWindow.forwards lookup w in fetch_value w' input = check_eof w' input.
Proof.
  intros Hp Hl Hin. destruct (forwards_pos input Hsize lookup w Hp) as (E & Hb & Hc). cbv zeta.
  unfold fetch_value. rewrite Hc. by rewrite read_bits_short by (done || lia).
Qed.

(** At the end of the input. *)
Lemma check_eof_spec w lookup :
  pos w <= 8 * lenN input ->
  let w' := BitWindow.forwards lookup w in
  let r := 8 * lenN input - pos w in
  check_eof w' input =
  if r =? 0 then Ok None
  else if r <=? 8 then
    if value (ahead (pos w)) =? 2 ^ r - 1 then Ok None else Err (HuffmanErr.MissingBits w')
  else Err (HuffmanErr.MissingBits w').
Proof.
  intros Hp. destruct (forwards_pos input Hsize lookup w Hp) as (E & Hb & _). cbv zeta. unfold check_eof, u32.
  set (w' := BitWindow.forwards lookup w) in *. rewrite (N.mod_small (_ + 1)) by lia.
  destruct (N.compare_spec (BitWindow.byte w' + 1) (lenN input)) as [He|He|He].
  - destruct (N.eqb_spec (8 * lenN input - pos w) 0); [lia|].
    destruct (N.leb_spec (8 * lenN input - pos w) 8); [|lia].
    unfold BitWindow.opposite_bit_window. cbn [BitWindow.byte BitWindow.bit BitWindow.count].
    rewrite (N.mod_small (BitWindow.bit w')) by done.
    rewrite read_bits_spec by (done || lia). rewrite E.
    set (r := 8 * lenN input - pos w) in *. assert (Er : 8 - BitWindow.bit w' = r) by lia. rewrite Er.
    pose proof (length_ahead input (pos w)) as Hlen. fold r in Hlen. rewrite take_ge by lia.
    assert (Ef : (N.shiftl 2 (r - 1) mod 2 ^ 16 - 1) mod 2 ^ 8 = 2 ^ r - 1).
    { assert (r = 1 \/ r = 2 \/ r = 3 \/ r = 4 \/ r = 5 \/ r = 6 \/ r = 7 \/ r = 8) as Hr by lia.
      by destruct Hr as [->|[->|[->|[->|[->|[->|[->| ->]]]]]]]. }
    rewrite Ef, land_mask, N.mod_small; [done|]. pose proof (value_lt (ahead (pos w))) as Hv. unfold lenN in Hv.
    by rewrite Hlen in Hv.
  - destruct (N.eqb_spec (8 * lenN input - pos w) 0); [lia|].
    destruct (N.leb_spec (8 * lenN input - pos w) 8); [lia|done].
  - destruct (N.eqb_spec (8 * lenN input - pos w) 0); [done|lia].
Qed.

(** Where the tree finds a symbol the decoder does, and moves on by its code. *)
Lemma decode_next_walk d w x r :
  sound d = true -> pos w <= 8 * lenN input -> walk d (ahead (pos w)) = Some (x, r) ->
  exists w', decode_next d w input = (Ok (Some x), w') /\ pos w < pos w' <= 8 * lenN input /\ r = ahead (pos w').
Proof.
  revert w. induction d as [lookup table IH] using decoder_rect. intros w Hs Hp.
  apply sound_eq in Hs as [Hl Hs]. rewrite walk_eq, decode_next_eq. cbv zeta.
  pose proof (length_ahead input (pos w)) as Hlen.
  destruct (Nat.ltb_spec (length (ahead (pos w))) (N.to_nat lookup)); [done|].
  destruct (fetch_in w lookup Hp Hl) as [-> Ep]; [lia|].
  rewrite ahead_add. rewrite N2Nat.id.
  destruct (table !! N.to_nat (value (take (N.to_nat lookup) (ahead (pos w))))) as [[d|y]|] eqn:Et; [| |done].
  - intros Hw. destruct (IH _ _ Et (BitWindow.forwards lookup w)) as (w' & E & Hw' & Er).
    + by eapply Hs.
    + lia.
    + by rewrite Ep.
    + exists w'. split; [done|]. split; [lia|done].
  - intros Hw. simplify_eq. exists (BitWindow.forwards lookup w). split; [done|]. rewrite Ep. split; [lia|done].
Qed.

(** It never panics, and moves on with every symbol. *)
Lemma decode_next_total d w :
  sound d = true -> pos w <= 8 * lenN input ->
  match decode_next d w input with
  | (Ok (Some _), w') => pos w < pos w' <= 8 * lenN input
  | (Panic, _) => False
  | _ => True
  end.
Proof.
  revert w. induction d as [lookup table IH] using decoder_rect. intros w Hs Hp.
  apply sound_eq in Hs as [Hl Hs]. rewrite decode_next_eq. cbv zeta.
  destruct (N.le_gt_cases (pos w + lookup) (8 * lenN input)) as [Hin|Hin].
  - destruct (fetch_in w lookup Hp Hl Hin) as [-> Ep].
    destruct (table !! _) as [[d|y]|] eqn:Et; [|lia|done].
    pose proof (IH _ _ Et (BitWindow.forwards lookup w) (Hs _ _ Et)) as H. rewrite Ep in H.
    specialize (H Hin). destruct (decode_next d _ input) as [[[]| |] w']; [lia|done..].
  - rewrite fetch_out by (done || lia). pose proof (check_eof_spec w lookup Hp) as Hc. cbv zeta in Hc. rewrite Hc.
    destruct (_ =? 0); [done|]. destruct (_ <=? 8); [|done]. by destruct (_ =? _).
Qed.

(** Ones at the end, fewer than a table looks up. *)
Lemma decode_next_pad self lookup table w k :
  self = Decoder lookup table -> pos w <= 8 * lenN input -> lookup <= 8 -> ahead (pos w) = replicate k true -> (k < N.to_nat lookup)%nat ->
  fst (decode_next self w input) = Ok None.
Proof.
  intros -> Hp Hl Hk Hlt. pose proof (length_ahead input (pos w)) as Hlen. rewrite Hk, length_replicate in Hlen.
  rewrite decode_next_eq. cbv zeta. rewrite fetch_out by (done || lia).
  pose proof (check_eof_spec w lookup Hp) as Hc. cbv zeta in Hc. rewrite Hc, Hk, <- Hlen, value_ones.
  destruct (N.of_nat k =? 0); [done|]. destruct (N.leb_spec (N.of_nat k) 8); [|lia]. by rewrite N.eqb_refl.
Qed.

(** More ones than that. *)
Lemma decode_next_ones self lookup table w k d :
  self = Decoder lookup table -> pos w <= 8 * lenN input -> 0 < lookup <= 8 -> ahead (pos w) = replicate k true -> (N.to_nat lookup <= k)%nat ->
  table !! N.to_nat (2 ^ lookup - 1) = Some (Partial d) ->
  exists w', decode_next self w input = decode_next d w' input /\ pos w' <= 8 * lenN input /\
    ahead (pos w') = replicate (k - N.to_nat lookup) true.
Proof.
  intros -> Hp Hl Hk Hle Ht. pose proof (length_ahead input (pos w)) as Hlen. rewrite Hk, length_replicate in Hlen.
  exists (BitWindow.forwards lookup w). rewrite decode_next_eq. cbv zeta.
  destruct (fetch_in w lookup Hp Hl) as [-> Ep]; [lia|].
  rewrite Hk, take_replicate, Nat.min_l by done. rewrite value_ones, N2Nat.id, Ht. split; [done|]. split; [lia|].
  rewrite Ep. replace (pos w + lookup) with (pos w + N.of_nat (N.to_nat lookup)) by lia.
  by rewrite <- ahead_add, Hk, drop_replicate.
Qed.

Lemma decode_padding w k :
  pos w <= 8 * lenN input -> ahead (pos w) = replicate k true -> (k < 8)%nat ->
  fst (decode_next HPACK_STRING w input) = Ok None.
Proof.
  intros Hp Hk Hlt. destruct (Nat.lt_ge_cases k 5) as [H5|H5].
  { eapply decode_next_pad; [reflexivity|done|done|exact Hk|done]. }
  destruct (decode_next_ones HPACK_STRING _ _ w k END0_11111 eq_refl Hp) as (w1 & E1 & Hp1 & Hk1);
    [done|exact Hk|done|reflexivity|].
  rewrite E1. destruct (Nat.lt_ge_cases k 7) as [H7|H7].
  { eapply decode_next_pad; [reflexivity|done|done|exact Hk1|simpl; lia]. }
  destruct (decode_next_ones END0_11111 _ _ w1 (k - N.to_nat 5) END5_11 eq_refl Hp1) as (w2 & E2 & Hp2 & Hk2);
    [done|exact Hk1|simpl; lia|reflexivity|].
  rewrite E2. eapply decode_next_pad; [reflexivity|done|done|exact Hk2|simpl; lia].
Qed.

Lemma sound_tables : sound HPACK_STRING = true.
Proof. reflexivity. Qed.

#[local] Opaque HPACK_STRING code.

Lemma code_nonempty b : code b <> [].
Proof. intros E. pose proof (codes_walk b) as H. by rewrite E in H. Qed.

Lemma decode_iter_codes m fuel w k :
  pos w <= 8 * lenN input -> ahead (pos w) = concat (code <$> m) ++ replicate k true -> (k < 8)%nat ->
  (length m < fuel)%nat -> decode_iter fuel w input = Ok m.
Proof.
  revert fuel w. induction m as [|b m IH]; intros [|fuel] w Hp Hb Hk Hf; [lia|..|lia|]; cbn [decode_iter].
  - pose proof (decode_padding w k Hp Hb Hk) as H. by destruct (decode_next HPACK_STRING w input) as [[[]| |] ?]; simplify_eq/=.
  - cbn [fmap list_fmap concat] in Hb. rewrite <- app_assoc in Hb.
    pose proof (walk_app _ _ (concat (code <$> m) ++ replicate k true) _ _ (codes_walk b)) as Hw. rewrite <- Hb in Hw.
    destruct (decode_next_walk HPACK_STRING w b _ sound_tables Hp Hw) as (w' & -> & Hp' & Er).
    rewrite (IH fuel w'); [done|lia|done|done|simpl in Hf; lia].
Qed.

Lemma decode_iter_total fuel w :
  pos w <= 8 * lenN input -> 8 * lenN input - pos w < N.of_nat fuel -> decode_iter fuel w input <> Panic.
Proof.
  revert w. induction fuel as [|fuel IH]; intros w Hp Hf; [lia|]. cbn [decode_iter].
  pose proof (decode_next_total HPACK_STRING w sound_tables Hp) as H.
  destruct (decode_next HPACK_STRING w input) as [[[x|]| |] w']; [|done..].
  assert (decode_iter fuel w' input <> Panic) by (apply IH; lia). by destruct (decode_iter fuel w' input).
Qed.
End Decode.

(** ** Properties *)

Lemma hpack_decode_codes (input : list byte) m k :
  8 * lenN input + 16 < 2 ^ 32 ->
  all_bits input = concat (code <$> m) ++ replicate k true -> (k < 8)%nat -> hpack_decode input = Ok m.
Proof.
  intros Hs Hb Hk. unfold hpack_decode. apply (decode_iter_codes input Hs m _ _ k).
  - unfold pos. simpl. lia.
  - unfold ahead. by rewrite Hb.
  - done.
  - rewrite <- length_all_bits, Hb, length_app. clear. induction m as [|b m IH]; [simpl; lia|].
    cbn [fmap list_fmap concat length]. rewrite length_app. pose proof (code_nonempty b).
    destruct (code b); [done|]. simpl. simpl in IH. lia.
Qed.

Lemma hpack_decode_total (input : list byte) : 8 * lenN input + 16 < 2 ^ 32 -> hpack_decode input <> Panic.
Proof. intros Hs. apply decode_iter_total; [done|unfold pos; simpl; lia|unfold pos, lenN; simpl; lia]. Qed.

(** C24 (equivalence, termination). [hpack_decode] is the inverse of RFC 7541's Huffman code: bits
    that are the codes of a message, in order, and then fewer than eight ones are
    decoded as that message; and on any input at all, of less than 2^29 bytes, it
    returns without a panic. *)
Theorem huffman_decodes (input : list byte) :
  8 * lenN input + 16 < 2 ^ 32 ->
  (forall m k, all_bits input = concat (code <$> m) ++ replicate k true -> (k < 8)%nat -> hpack_decode input = Ok m) /\
  hpack_decode input <> Panic.
Proof.
  intros Hs. split; [|by apply hpack_decode_total]. intros m k Hb Hk. by apply (hpack_decode_codes input m k).
Qed.

(** ["www.example.com"], the example of the RFC. *)
Definition demo_text : list byte :=
  [x77; x77; x77; x2e; x65; x78; x61; x6d; x70; x6c; x65; x2e; x63; x6f; x6d].
Definition demo_huffman : list byte :=
  [xf1; xe3; xc2; xe5; xf2; x3a; x6b; xa0; xab; x90; xf4; xff].

Lemma huffman_decodes_witness : hpack_decode demo_huffman = Ok demo_text.
Proof.
  assert (Hs : 8 * lenN demo_huffman + 16 < 2 ^ 32) by (vm_compute; reflexivity).
  assert (Hb : all_bits demo_huffman = concat (code <$> demo_text) ++ replicate 7 true) by (vm_compute; reflexivity).
  apply (proj1 (huffman_decodes demo_huffman Hs) demo_text 7%nat Hb). lia.
Defined.
