(* ===== verification/Qpack.v ===== *)
(** * QPACK header blocks

    [internal_crates/web-transport-proto/src/qpack.rs]: prefix integers, strings,
    the static table and the lines of a header block. There is no dynamic table. *)
From Stdlib Require Import Strings.String NArith Lia Bool.
From stdpp Require Import base list gmap option numbers.
From S2P Require Import Prelude Utf8 Http3 Huffman.

#[local] Arguments N.modulo : simpl never.
#[local] Arguments N.div : simpl never.
#[local] Arguments N.pow : simpl never.

Module QpackErr.
Inductive DecodeError :=
  | UnexpectedEnd
  | BoundsExceeded
  | DynamicEntry
  | UnknownEntry
  | HuffmanError (e : HuffmanErr.Error)
  | Utf8Error.
End QpackErr.
Import QpackErr(DecodeError).

#[local] Abbreviation dec A := (M (list byte) DecodeError A).

(** [10 * 7] on 64-bit targets *)
Definition MAX_POWER : N := 70.

(** ** Prefix integers *)

(** The bytes after the first. [+=] wraps in release builds; the bound on [power]
    ends the loop after ten bytes. *)
Fixpoint decode_rest (turns : nat) (value power : N) : dec N :=
  match turns with
  | O => panic
  | S turns =>
      let! r := rem in
      if r =? 0 then raise QpackErr.UnexpectedEnd
      else
        let! b := byte_of in
        let value := (value + N.shiftl (N.land (nb b) 127) power mod 2 ^ 64) mod 2 ^ 64 in
        let power := power + 7 in
        if N.land (nb b) 128 =? 0 then ret value
        else if MAX_POWER <=? power then raise QpackErr.BoundsExceeded
        else decode_rest turns value power
  end.

(** [assert!(size <= 8)]; the shift by a whole byte, for [size] zero, wraps. *)
Definition decode_prefix (size : N) : dec (N * N) :=
  if 8 <? size then panic
  else
  let! r := rem in
  if r =? 0 then raise QpackErr.UnexpectedEnd
  else
    let! b := byte_of in
    let flags := N.shiftr (nb b) size mod 2 ^ 8 in
    let mask := N.shiftr 0xFF ((8 - size) mod 8) in
    let first := N.land (nb b) mask in
    if first <? mask then ret (flags, first)
    else let! value := decode_rest 10 mask 0 in ret (flags, value).

(** What follows the first byte. [usize] has 64 bits: ten turns are enough. *)
Fixpoint encode_rest (turns : nat) (remaining : N) : list byte :=
  match turns with
  | O => []
  | S turns =>
      if 128 <=? remaining then bn (remaining mod 128 + 128) :: encode_rest turns (remaining / 128)
      else [bn remaining]
  end.

Definition prefix_bytes (size flags value : N) : list byte :=
  let mask := N.lxor 0xFF (N.shiftl 0xFF size mod 2 ^ 8) in
  let flags := N.shiftl flags size mod 2 ^ 8 in
  if value <? mask then [bn (N.lor flags (value mod 2 ^ 8))]
  else bn (N.lor mask flags) :: encode_rest 10 (value - mask).

Definition encode_prefix (size flags value : N) : put unit :=
  if (0 <? size) && (size <=? 8) then put_bytes (prefix_bytes size flags value) else panic.

(** ** Strings *)

Definition decode_string (size : N) : dec (list byte) :=
  let! r := rem in
  if r =? 0 then raise QpackErr.UnexpectedEnd
  else
    let! p := decode_prefix ((size + 255) mod 256) in
    let (flags, len) := p in
    let! r := rem in
    if r <? len then raise QpackErr.UnexpectedEnd
    else
      let! payload := bytes_of len in
      if N.land flags 1 =? 0 then ret payload
      else match hpack_decode payload with
           | Ok decoded => ret decoded
           | Err e => raise (QpackErr.HuffmanError e)
           | Panic => panic
           end.

(** [std::str::from_utf8(..)?] *)
Definition utf8 (l : list byte) : dec String := ok_or (from_utf8 l) QpackErr.Utf8Error.

(** ** The static table *)

(** The arms of [find]. *)
Definition find_arms : list ((String * String) * N) := [
  ((str ":authority", str ""), 0);
  ((str ":path", str "/"), 1);
  ((str "age", str "0"), 2);
  ((str "content-disposition", str ""), 3);
  ((str "content-length", str "0"), 4);
  ((str "cookie", str ""), 5);
  ((str "date", str ""), 6);
  ((str "etag", str ""), 7);
  ((str "if-modified-since", str ""), 8);
  ((str "if-none-match", str ""), 9);
  ((str "last-modified", str ""), 10);
  ((str "link", str ""), 11);
  ((str "location", str ""), 12);
  ((str "referer", str ""), 13);
  ((str "set-cookie", str ""), 14);
  ((str ":method", str "CONNECT"), 15);
  ((str ":method", str "DELETE"), 16);
  ((str ":method", str "GET"), 17);
  ((str ":method", str "HEAD"), 18);
  ((str ":method", str "OPTIONS"), 19);
  ((str ":method", str "POST"), 20);
  ((str ":method", str "PUT"), 21);
  ((str ":scheme", str "http"), 22);
  ((str ":scheme", str "https"), 23);
  ((str ":status", str "103"), 24);
  ((str ":status", str "200"), 25);
  ((str ":status", str "304"), 26);
  ((str ":status", str "404"), 27);
  ((str ":status", str "503"), 28);
  ((str "accept", str "*/*"), 29);
  ((str "accept", str "application/dns-message"), 30);
  ((str "accept-encoding", str "gzip, deflate, br"), 31);
  ((str "accept-ranges", str "bytes"), 32);
  ((str "access-control-allow-headers", str "cache-control"), 33);
  ((str "access-control-allow-headers", str "content-type"), 34);
  ((str "access-control-allow-origin", str "*"), 35);
  ((str "cache-control", str "max-age=0"), 36);
  ((str "cache-control", str "max-age=2592000"), 37);
  ((str "cache-control", str "max-age=604800"), 38);
  ((str "cache-control", str "no-cache"), 39);
  ((str "cache-control", str "no-store"), 40);
  ((str "cache-control", str "public, max-age=31536000"), 41);
  ((str "content-encoding", str "br"), 42);
  ((str "content-encoding", str "gzip"), 43);
  ((str "content-type", str "application/dns-message"), 44);
  ((str "content-type", str "application/javascript"), 45);
  ((str "content-type", str "application/json"), 46);
  ((str "content-type", str "application/x-www-form-urlencoded"), 47);
  ((str "content-type", str "image/gif"), 48);
  ((str "content-type", str "image/jpeg"), 49);
  ((str "content-type", str "image/png"), 50);
  ((str "content-type", str "text/css"), 51);
  ((str "content-type", str "text/html; charset=utf-8"), 52);
  ((str "content-type", str "text/plain"), 53);
  ((str "content-type", str "text/plain;charset=utf-8"), 54);
  ((str "range", str "bytes=0-"), 55);
  ((str "strict-transport-security", str "max-age=31536000"), 56);
  ((str "strict-transport-security", str "max-age=31536000; includesubdomains"), 57);
  ((str "strict-transport-security", str "max-age=31536000; includesubdomains; preload"), 58);
  ((str "vary", str "accept-encoding"), 59);
  ((str "vary", str "origin"), 60);
  ((str "x-content-type-options", str "nosniff"), 61);
  ((str "x-xss-protection", str "1; mode=block"), 62);
  ((str ":status", str "100"), 63);
  ((str ":status", str "204"), 64);
  ((str ":status", str "206"), 65);
  ((str ":status", str "302"), 66);
  ((str ":status", str "400"), 67);
  ((str ":status", str "403"), 68);
  ((str ":status", str "421"), 69);
  ((str ":status", str "425"), 70);
  ((str ":status", str "500"), 71);
  ((str "accept-language", str ""), 72);
  ((str "access-control-allow-credentials", str "FALSE"), 73);
  ((str "access-control-allow-credentials", str "TRUE"), 74);
  ((str "access-control-allow-headers", str "*"), 75);
  ((str "access-control-allow-methods", str "get"), 76);
  ((str "access-control-allow-methods", str "get, post, options"), 77);
  ((str "access-control-allow-methods", str "options"), 78);
  ((str "access-control-expose-headers", str "content-length"), 79);
  ((str "access-control-request-headers", str "content-type"), 80);
  ((str "access-control-request-method", str "get"), 81);
  ((str "access-control-request-method", str "post"), 82);
  ((str "alt-svc", str "clear"), 83);
  ((str "authorization", str ""), 84);
  ((str "content-security-policy", str "script-src 'none'; object-src 'none'; base-uri 'none'"), 85);
  ((str "early-data", str "1"), 86);
  ((str "expect-ct", str ""), 87);
  ((str "forwarded", str ""), 88);
  ((str "if-range", str ""), 89);
  ((str "origin", str ""), 90);
  ((str "purpose", str "prefetch"), 91);
  ((str "server", str ""), 92);
  ((str "timing-allow-origin", str "*"), 93);
  ((str "upgrade-insecure-requests", str "1"), 94);
  ((str "user-agent", str ""), 95);
  ((str "x-forwarded-for", str ""), 96);
  ((str "x-frame-options", str "deny"), 97);
  ((str "x-frame-options", str "sameorigin"), 98)].

(** The arms of [find_name]. *)
Definition find_name_arms : list (String * N) := [
  (str ":authority", 0);
  (str ":path", 1);
  (str "age", 2);
  (str "content-disposition", 3);
  (str "content-length", 4);
  (str "cookie", 5);
  (str "date", 6);
  (str "etag", 7);
  (str "if-modified-since", 8);
  (str "if-none-match", 9);
  (str "last-modified", 10);
  (str "link", 11);
  (str "location", 12);
  (str "referer", 13);
  (str "set-cookie", 14);
  (str ":method", 15);
  (str ":scheme", 22);
  (str ":status", 24);
  (str "accept", 29);
  (str "accept-encoding", 31);
  (str "accept-ranges", 32);
  (str "access-control-allow-headers", 33);
  (str "access-control-allow-origin", 35);
  (str "cache-control", 36);
  (str "content-encoding", 42);
  (str "content-type", 44);
  (str "range", 55);
  (str "strict-transport-security", 56);
  (str "vary", 59);
  (str "x-content-type-options", 61);
  (str "x-xss-protection", 62);
  (str "accept-language", 72);
  (str "access-control-allow-credentials", 73);
  (str "access-control-allow-methods", 76);
  (str "access-control-expose-headers", 79);
  (str "access-control-request-headers", 80);
  (str "access-control-request-method", 81);
  (str "alt-svc", 83);
  (str "authorization", 84);
  (str "content-security-policy", 85);
  (str "early-data", 86);
  (str "expect-ct", 87);
  (str "forwarded", 88);
  (str "if-range", 89);
  (str "origin", 90);
  (str "purpose", 91);
  (str "server", 92);
  (str "timing-allow-origin", 93);
  (str "upgrade-insecure-requests", 94);
  (str "user-agent", 95);
  (str "x-forwarded-for", 96);
  (str "x-frame-options", 97)].

Definition PREDEFINED_HEADERS : list (String * String) := [
  (str ":authority", str "");
  (str ":path", str "/");
  (str "age", str "0");
  (str "content-disposition", str "");
  (str "content-length", str "0");
  (str "cookie", str "");
  (str "date", str "");
  (str "etag", str "");
  (str "if-modified-since", str "");
  (str "if-none-match", str "");
  (str "last-modified", str "");
  (str "link", str "");
  (str "location", str "");
  (str "referer", str "");
  (str "set-cookie", str "");
  (str ":method", str "CONNECT");
  (str ":method", str "DELETE");
  (str ":method", str "GET");
  (str ":method", str "HEAD");
  (str ":method", str "OPTIONS");
  (str ":method", str "POST");
  (str ":method", str "PUT");
  (str ":scheme", str "http");
  (str ":scheme", str "https");
  (str ":status", str "103");
  (str ":status", str "200");
  (str ":status", str "304");
  (str ":status", str "404");
  (str ":status", str "503");
  (str "accept", str "*/*");
  (str "accept", str "application/dns-message");
  (str "accept-encoding", str "gzip, deflate, br");
  (str "accept-ranges", str "bytes");
  (str "access-control-allow-headers", str "cache-control");
  (str "access-control-allow-headers", str "content-type");
  (str "access-control-allow-origin", str "*");
  (str "cache-control", str "max-age=0");
  (str "cache-control", str "max-age=2592000");
  (str "cache-control", str "max-age=604800");
  (str "cache-control", str "no-cache");
  (str "cache-control", str "no-store");
  (str "cache-control", str "public, max-age=31536000");
  (str "content-encoding", str "br");
  (str "content-encoding", str "gzip");
  (str "content-type", str "application/dns-message");
  (str "content-type", str "application/javascript");
  (str "content-type", str "application/json");
  (str "content-type", str "application/x-www-form-urlencoded");
  (str "content-type", str "image/gif");
  (str "content-type", str "image/jpeg");
  (str "content-type", str "image/png");
  (str "content-type", str "text/css");
  (str "content-type", str "text/html; charset=utf-8");
  (str "content-type", str "text/plain");
  (str "content-type", str "text/plain;charset=utf-8");
  (str "range", str "bytes=0-");
  (str "strict-transport-security", str "max-age=31536000");
  (str "strict-transport-security", str "max-age=31536000; includesubdomains");
  (str "strict-transport-security", str "max-age=31536000; includesubdomains; preload");
  (str "vary", str "accept-encoding");
  (str "vary", str "origin");
  (str "x-content-type-options", str "nosniff");
  (str "x-xss-protection", str "1; mode=block");
  (str ":status", str "100");
  (str ":status", str "204");
  (str ":status", str "206");
  (str ":status", str "302");
  (str ":status", str "400");
  (str ":status", str "403");
  (str ":status", str "421");
  (str ":status", str "425");
  (str ":status", str "500");
  (str "accept-language", str "");
  (str "access-control-allow-credentials", str "FALSE");
  (str "access-control-allow-credentials", str "TRUE");
  (str "access-control-allow-headers", str "*");
  (str "access-control-allow-methods", str "get");
  (str "access-control-allow-methods", str "get, post, options");
  (str "access-control-allow-methods", str "options");
  (str "access-control-expose-headers", str "content-length");
  (str "access-control-request-headers", str "content-type");
  (str "access-control-request-method", str "get");
  (str "access-control-request-method", str "post");
  (str "alt-svc", str "clear");
  (str "authorization", str "");
  (str "content-security-policy", str "script-src 'none'; object-src 'none'; base-uri 'none'");
  (str "early-data", str "1");
  (str "expect-ct", str "");
  (str "forwarded", str "");
  (str "if-range", str "");
  (str "origin", str "");
  (str "purpose", str "prefetch");
  (str "server", str "");
  (str "timing-allow-origin", str "*");
  (str "upgrade-insecure-requests", str "1");
  (str "user-agent", str "");
  (str "x-forwarded-for", str "");
  (str "x-frame-options", str "deny");
  (str "x-frame-options", str "sameorigin")].

Module StaticTable.
Definition get (index : N) : dec (String * String) :=
  match PREDEFINED_HEADERS !! N.to_nat index with
  | Some v => ret v
  | None => raise QpackErr.UnknownEntry
  end.

(** A [match] on literals takes the first arm that fits. *)
Definition find (name value : String) : option N :=
  snd ∘ snd <$> list_find (fun a => a.1 = (name, value)) find_arms.

Definition find_name (name : String) : option N :=
  snd ∘ snd <$> list_find (fun a => a.1 = name) find_name_arms.
End StaticTable.

(** ** Header blocks *)

(** The order in which a map of headers is iterated. *)
Class HeaderOrder := {
  header_iter : gmap String String -> list (String * String);
  header_iter_perm : forall m, header_iter m ≡ₚ map_to_list m;
}.

Module Headers.
Abbreviation t := (gmap String String).

Definition get (name : String) (self : t) : option String := self !! name.
Definition set (name value : String) (self : t) : t := <[name := value]> self.

Definition decode_index : dec (String * String) :=
  let! p := decode_prefix 6 in StaticTable.get p.2.

Definition decode_literal_value : dec (String * String) :=
  let! p := decode_prefix 4 in
  let! name := StaticTable.get p.2 in
  let! value := decode_string 8 in
  let! value := utf8 value in
  ret (name.1, value).

Definition decode_literal : dec (String * String) :=
  let! name := decode_string 4 in
  let! name := utf8 name in
  let! value := decode_string 8 in
  let! value := utf8 value in
  ret (name, value).

(** A line, by its first byte [peek], which is read again with the rest. *)
Definition decode_line (peek : N) : dec (String * String) :=
  let top := N.land peek 0xC0 in
  if top =? 0xC0 then decode_index
  else if top =? 0x80 then raise QpackErr.DynamicEntry
  else if N.land peek 0xD0 =? 0x50 then decode_literal_value
  else if N.land peek 0xD0 =? 0x40 then raise QpackErr.DynamicEntry
  else if N.land peek 0xE0 =? 0x20 then decode_literal
  else if N.land peek 0xF0 =? 0x10 then raise QpackErr.DynamicEntry
  else if N.land peek 0xF0 =? 0x00 then raise QpackErr.DynamicEntry
  else raise QpackErr.UnknownEntry.

(** One turn of the loop. The loop runs only when a byte is left. *)
Definition decode_field (fields : t) : dec t := fun r =>
  match r with
  | [] => (Panic, r)
  | b :: _ => (let! p := decode_line (nb b) in ret (<[p.1 := p.2]> fields)) r
  end.

Definition decode : dec t :=
  let! _ := decode_prefix 8 in
  let! _ := decode_prefix 7 in
  consume decode_field ∅.

Definition encode_index (index : N) : put unit := encode_prefix 6 0x3 index.

Definition encode_literal_value (name : N) (value : String) : put unit :=
  do! encode_prefix 4 0x5 name in
  do! encode_prefix 7 0x0 (lenN (as_bytes value)) in
  put_bytes (as_bytes value).

Definition encode_literal (name value : String) : put unit :=
  do! encode_prefix 3 0x4 (lenN (as_bytes name)) in
  do! put_bytes (as_bytes name) in
  do! encode_prefix 7 0x0 (lenN (as_bytes value)) in
  put_bytes (as_bytes value).

Definition encode_field (p : String * String) : put unit :=
  match StaticTable.find p.1 p.2 with
  | Some index => encode_index index
  | None =>
      match StaticTable.find_name p.1 with
      | Some index => encode_literal_value index p.2
      | None => encode_literal p.1 p.2
      end
  end.

(** [starts_with(':')] *)
Definition pseudo (p : String * String) : bool :=
  match as_bytes p.1 with b :: _ => bool_decide (b = x3a) | [] => false end.

(** [sort_by_key], which is stable, by whether a header is no pseudo-header. *)
Definition sorted (l : list (String * String)) : list (String * String) :=
  List.filter pseudo l ++ List.filter (fun p => negb (pseudo p)) l.

Definition encode `{HeaderOrder} (self : t) : put unit :=
  do! encode_prefix 8 0 0 in
  do! encode_prefix 7 0 0 in
  for_each (sorted (header_iter self)) encode_field.
End Headers.

(** ** Prefix integers on the wire *)

Lemma byte_range : forall x, x < 256 -> (N.land x 128 =? 0) = (x <? 128).
Proof.
  intros x Hx. apply (byte_cases (fun x => Bool.eqb (N.land x 128 =? 0) (x <? 128))) in Hx; [|vm_compute; reflexivity].
  by apply eqb_prop in Hx.
Qed.

Lemma decode_rest_encode n turns r value power rest :
  (n <= turns)%nat -> r < 128 ^ N.of_nat n -> (1 <= n)%nat -> power + 7 * N.of_nat n <= 70 ->
  value + r * 2 ^ power < 2 ^ 64 ->
  decode_rest turns value power (encode_rest n r ++ rest) = (Ok (value + r * 2 ^ power), rest).
Proof.
  revert turns r value power. induction n as [|n IH]; intros [|turns] r value power Hn Hr H1 Hp Hv; [lia..|].
  assert (Hpos : 2 ^ power <> 0) by (apply N.pow_nonzero; lia).
  cbn [encode_rest decode_rest]. unfold bind at 1. cbn [rem].
  assert (Hstep : forall b l, b < 256 -> b mod 128 * 2 ^ power <= r * 2 ^ power ->
    (if lenN (bn b :: l) =? 0 then raise QpackErr.UnexpectedEnd
     else let! b := byte_of in
          let value := (value + N.shiftl (N.land (nb b) 127) power mod 2 ^ 64) mod 2 ^ 64 in
          let power := power + 7 in
          if N.land (nb b) 128 =? 0 then ret value
          else if MAX_POWER <=? power then raise QpackErr.BoundsExceeded else decode_rest turns value power) (bn b :: l) =
    (if b <? 128 then (Ok (value + b mod 128 * 2 ^ power), l)
     else if MAX_POWER <=? power + 7 then (Err QpackErr.BoundsExceeded, l)
     else decode_rest turns (value + b mod 128 * 2 ^ power) (power + 7) l)).
  { intros b l Hb Hle. rewrite lenN_cons. destruct (N.eqb_spec (1 + lenN l) 0); [lia|]. unfold bind. cbn [byte_of]. cbv zeta.
    rewrite bn_small, byte_range by done. change 127 with (2 ^ 7 - 1). rewrite land_mask, N.shiftl_mul_pow2.
    change (2 ^ 7) with 128. rewrite (N.mod_small (_ * _)), (N.mod_small (_ + _)) by lia.
    destruct (b <? 128); [done|]. by destruct (MAX_POWER <=? power + 7). }
  destruct (N.leb_spec 128 r) as [Hge|Hlt]; cbn [app].
  - rewrite Hstep by (first [lia|apply N.mul_le_mono_r; lia]).
    destruct (N.ltb_spec (r mod 128 + 128) 128); [lia|].
    destruct n as [|n]; [simpl in Hr; change (128 ^ N.of_nat 1) with 128 in Hr; lia|].
    unfold MAX_POWER. destruct (N.leb_spec 70 (power + 7)); [lia|].
    assert (Em : (r mod 128 + 128) mod 128 = r mod 128) by lia. rewrite Em.
    assert (Ed : r = r mod 128 + 128 * (r / 128)) by lia.
    rewrite Nat2N.inj_succ, N.pow_succ_r' in Hr.
    rewrite IH; [|lia|lia|lia|lia|].
    + rewrite N.pow_add_r. change (2 ^ 7) with 128. do 2 f_equal. rewrite Ed at 3. lia.
    + rewrite N.pow_add_r. change (2 ^ 7) with 128. rewrite Ed in Hv at 1. lia.
  - rewrite Hstep by (first [lia|apply N.mul_le_mono_r; lia]).
    destruct (N.ltb_spec r 128); [|lia]. by rewrite N.mod_small.
Qed.

(** The masks of either side: the low [size] bits of the first byte. *)
Lemma prefix_mask size x : 1 <= size -> size <= 8 -> x < 256 ->
  N.shiftr 0xFF ((8 - size) mod 8) = 2 ^ size - 1 /\ N.lxor 0xFF (N.shiftl 0xFF size mod 2 ^ 8) = 2 ^ size - 1 /\
  N.shiftr x size mod 2 ^ 8 = x / 2 ^ size /\ N.land x (2 ^ size - 1) = x mod 2 ^ size.
Proof.
  intros H1 H8 Hx. rewrite land_mask, (N.shiftr_div_pow2 x).
  assert (Hd : x / 2 ^ size < 256) by (pose proof (N.Div0.div_le_upper_bound x (2 ^ size) x); nia).
  rewrite (N.mod_small (x / 2 ^ size)) by done.
  assert (size = 1 \/ size = 2 \/ size = 3 \/ size = 4 \/ size = 5 \/ size = 6 \/ size = 7 \/ size = 8) as Hs by lia.
  by repeat destruct Hs as [->|Hs]; [..|subst size].
Qed.

Lemma prefix_split size flags low : low < 2 ^ size -> flags < 2 ^ (8 - size) -> size <= 8 ->
  let x := flags * 2 ^ size + low in x < 256 /\ x / 2 ^ size = flags /\ x mod 2 ^ size = low.
Proof.
  intros Hl Hf Hs x. assert (Hp : 2 ^ (8 - size) * 2 ^ size = 256) by (rewrite <- N.pow_add_r; by replace (8 - size + size) with 8 by lia).
  assert (2 ^ size <> 0) by (apply N.pow_nonzero; lia).
  subst x. rewrite N.div_add_l, N.div_small by done. rewrite N.add_comm, N.Div0.mod_add, N.mod_small by done. split; [nia|lia].
Qed.

(** The first byte, read back. *)
Lemma decode_prefix_first size flags low l : 1 <= size -> size <= 8 -> low < 2 ^ size -> flags < 2 ^ (8 - size) ->
  decode_prefix size (bn (flags * 2 ^ size + low) :: l) =
  if low <? 2 ^ size - 1 then (Ok (flags, low), l)
  else (let! value := decode_rest 10 (2 ^ size - 1) 0 in ret (flags, value)) l.
Proof.
  intros H1 H8 Hl Hf. destruct (prefix_split size flags low Hl Hf H8) as (Hx & Hd & Hm).
  destruct (prefix_mask size _ H1 H8 Hx) as (Ea & _ & Ec & Ed).
  unfold decode_prefix. destruct (N.ltb_spec 8 size); [lia|]. unfold bind at 1. cbn [rem].
  rewrite lenN_cons. destruct (N.eqb_spec (1 + lenN l) 0); [lia|]. unfold bind at 1. cbn [byte_of]. cbv zeta.
  rewrite bn_small, Ea, Ec, Ed, Hd, Hm by done. by destruct (low <? 2 ^ size - 1).
Qed.

Lemma prefix_bytes_eq size flags value : 1 <= size -> size <= 8 -> flags < 2 ^ (8 - size) ->
  prefix_bytes size flags value =
  if value <? 2 ^ size - 1 then [bn (flags * 2 ^ size + value)]
  else bn (flags * 2 ^ size + (2 ^ size - 1)) :: encode_rest 10 (value - (2 ^ size - 1)).
Proof.
  intros H1 H8 Hf. assert (Hp : 2 ^ size <> 0) by (apply N.pow_nonzero; lia).
  assert (Hs : 2 ^ size <= 256) by (change 256 with (2 ^ 8); by apply N.pow_le_mono_r).
  destruct (prefix_split size flags 0) as (Hx & _ & _); [lia|done|done|]. cbn zeta in Hx. rewrite N.add_0_r in Hx.
  unfold prefix_bytes. destruct (prefix_mask size 0 H1 H8) as (_ & -> & _ & _); [lia|]. cbv zeta.
  rewrite (N.mod_small (N.shiftl flags size)) by (rewrite N.shiftl_mul_pow2; done).
  destruct (N.ltb_spec value (2 ^ size - 1)).
  - rewrite N.mod_small, lor_shiftl_add by lia. done.
  - rewrite N.lor_comm, lor_shiftl_add by lia. done.
Qed.

Lemma decode_prefix_bytes size flags value rest :
  1 <= size -> size <= 8 -> flags < 2 ^ (8 - size) -> value < 2 ^ 64 ->
  decode_prefix size (prefix_bytes size flags value ++ rest) = (Ok (flags, value), rest).
Proof.
  intros H1 H8 Hf Hv. assert (Hp : 2 ^ size <> 0) by (apply N.pow_nonzero; lia).
  rewrite prefix_bytes_eq by done. destruct (N.ltb_spec value (2 ^ size - 1)) as [Hs|Hs]; cbn [app].
  - rewrite decode_prefix_first by (done || lia). by destruct (N.ltb_spec value (2 ^ size - 1)); [|lia].
  - rewrite decode_prefix_first by (done || lia). destruct (N.ltb_spec (2 ^ size - 1) (2 ^ size - 1)); [lia|].
    unfold bind. rewrite (decode_rest_encode 10); [|lia..].
    rewrite N.pow_0_r, N.mul_1_r. unfold ret. do 3 f_equal. lia.
Qed.

(** ** Strings and lines on the wire *)

(** What [decode_string] accepts for [s]: its bytes as they are, or a Huffman payload. *)
Inductive string_wire (size base : N) (s : String) : list byte -> Prop :=
  | string_plain :
      lenN (as_bytes s) < 2 ^ 64 ->
      string_wire size base s (prefix_bytes size (2 * base) (lenN (as_bytes s)) ++ as_bytes s)
  | string_huffman payload :
      lenN payload < 2 ^ 64 -> hpack_decode payload = Ok (as_bytes s) ->
      string_wire size base s (prefix_bytes size (2 * base + 1) (lenN payload) ++ payload).

(** What [Headers::decode] accepts for a header. *)
Inductive line_wire : String * String -> list byte -> Prop :=
  | line_index i name value :
      PREDEFINED_HEADERS !! N.to_nat i = Some (name, value) ->
      line_wire (name, value) (prefix_bytes 6 3 i)
  | line_literal_value flags i name value other w :
      flags = 5 \/ flags = 7 -> PREDEFINED_HEADERS !! N.to_nat i = Some (name, other) ->
      string_wire 7 0 value w -> line_wire (name, value) (prefix_bytes 4 flags i ++ w)
  | line_literal base name value w w' :
      base = 2 \/ base = 3 -> string_wire 3 base name w -> string_wire 7 0 value w' ->
      line_wire (name, value) (w ++ w').

Lemma decode_string_bytes size base odd payload rest :
  1 <= size -> size <= 7 -> 2 * base + N.b2n odd < 2 ^ (8 - size) -> lenN payload < 2 ^ 64 ->
  decode_string (size + 1) (prefix_bytes size (2 * base + N.b2n odd) (lenN payload) ++ payload ++ rest) =
  (if odd then
     match hpack_decode payload with
     | Ok decoded => (Ok decoded, rest)
     | Err e => (Err (QpackErr.HuffmanError e), rest)
     | Panic => (Panic, rest)
     end
   else (Ok payload, rest)).
Proof.
  intros H1 H7 Hf Hl. unfold decode_string. unfold bind at 1. cbn [rem].
  replace ((size + 1 + 255) mod 256) with size by lia.
  destruct (N.eqb_spec (lenN (prefix_bytes size (2 * base + N.b2n odd) (lenN payload) ++ payload ++ rest)) 0) as [E|_].
  { rewrite prefix_bytes_eq in E by (done || lia). destruct (_ <? _) in E; cbn [app] in E; rewrite lenN_cons in E; lia. }
  unfold bind at 1. rewrite decode_prefix_bytes by (done || lia). unfold bind at 1. cbn [rem]. rewrite lenN_app.
  destruct (N.ltb_spec (lenN payload + lenN rest) (lenN payload)); [lia|].
  assert (Hodd : N.land (2 * base + N.b2n odd) 1 = N.b2n odd).
  { pose proof (land_mask (2 * base + N.b2n odd) 1) as E. change (2 ^ 1 - 1) with 1 in E. change (2 ^ 1) with 2 in E.
    rewrite E. destruct odd; simpl N.b2n; lia. }
  unfold bind at 1. rewrite bytes_of_app, Hodd.
  destruct odd; simpl; [by destruct (hpack_decode payload)|done].
Qed.

Lemma decode_string_wire size base s w rest :
  1 <= size -> size <= 7 -> 2 * base + 1 < 2 ^ (8 - size) -> string_wire size base s w ->
  decode_string (size + 1) (w ++ rest) = (Ok (as_bytes s), rest).
Proof.
  intros H1 H7 Hf Hw. destruct Hw as [Hl|payload Hl He]; rewrite <- app_assoc.
  - pose proof (decode_string_bytes size base false (as_bytes s) rest) as H. cbn [N.b2n] in H.
    rewrite N.add_0_r in H. apply H; lia || done.
  - pose proof (decode_string_bytes size base true payload rest) as H. cbn [N.b2n] in H. rewrite He in H. apply H; lia || done.
Qed.

(** ** Lines *)

Lemma utf8_bytes s r : utf8 (as_bytes s) r = (Ok s, r).
Proof. unfold utf8. by rewrite from_utf8_as_bytes. Qed.

(** The kind of a line is in the high half of its first byte; no byte is left for
    [UnknownEntry]. *)
Lemma decode_line_tag x : x < 256 ->
  Headers.decode_line x =
  match x / 16 with
  | 2 | 3 => Headers.decode_literal
  | 5 | 7 => Headers.decode_literal_value
  | 12 | 13 | 14 | 15 => Headers.decode_index
  | _ => raise QpackErr.DynamicEntry
  end.
Proof.
  intros Hx. pose proof (byte_cases (fun x => let t := x / 16 in
    Bool.eqb (N.land x 0xC0 =? 0xC0) (12 <=? t) && Bool.eqb (N.land x 0xC0 =? 0x80) ((8 <=? t) && (t <=? 11)) &&
    Bool.eqb (N.land x 0xD0 =? 0x50) ((t =? 5) || (t =? 7)) && Bool.eqb (N.land x 0xD0 =? 0x40) ((t =? 4) || (t =? 6)) &&
    Bool.eqb (N.land x 0xE0 =? 0x20) ((t =? 2) || (t =? 3)) && Bool.eqb (N.land x 0xF0 =? 0x10) (t =? 1) &&
    Bool.eqb (N.land x 0xF0 =? 0x00) (t =? 0)) x eq_refl Hx) as H. cbv zeta in H.
  rewrite !andb_true_iff, !eqb_true_iff in H. destruct H as ((((((E1 & E2) & E3) & E4) & E5) & E6) & E7).
  unfold Headers.decode_line. cbv zeta. rewrite E1, E2, E3, E4, E5, E6, E7.
  assert (Ht : x / 16 < 16) by lia. revert Ht. generalize (x / 16). intros t Ht. clear - Ht.
  destruct t as [|t]; [done|]. do 4 (destruct t as [t|t|]; try done; try lia).
Qed.

Lemma prefix_bytes_first size flags value : 1 <= size -> size <= 8 -> flags < 2 ^ (8 - size) ->
  exists low l, prefix_bytes size flags value = bn (flags * 2 ^ size + low) :: l /\ low < 2 ^ size /\
    flags * 2 ^ size + low < 256.
Proof.
  intros H1 H8 Hf. assert (2 ^ size <> 0) by (apply N.pow_nonzero; lia). rewrite prefix_bytes_eq by done.
  destruct (N.ltb_spec value (2 ^ size - 1)); eexists _, _; (split; [done|split; [lia|]]);
    eapply prefix_split; done || lia.
Qed.

(** A line is dispatched on the tag its first byte has. *)
Lemma decode_field_tag size flags value w fields p rest :
  1 <= size -> size <= 8 -> flags < 2 ^ (8 - size) ->
  (forall low, low < 2 ^ size -> flags * 2 ^ size + low < 256 ->
     Headers.decode_line (flags * 2 ^ size + low) (prefix_bytes size flags value ++ w ++ rest) = (Ok p, rest)) ->
  Headers.decode_field fields (prefix_bytes size flags value ++ w ++ rest) = (Ok (<[p.1 := p.2]> fields), rest).
Proof.
  intros H1 H8 Hf Hd. destruct (prefix_bytes_first size flags value H1 H8 Hf) as (low & l & E & Hl & Hb).
  pose proof (Hd low Hl Hb) as H. rewrite E in H |- *. cbn [app Headers.decode_field] in *.
  unfold bind. rewrite bn_small by done. by rewrite H.
Qed.

Lemma static_index_bound i p : PREDEFINED_HEADERS !! N.to_nat i = Some p -> i < 99.
Proof.
  intros H. apply lookup_lt_Some in H. change (length PREDEFINED_HEADERS) with 99%nat in H. lia.
Qed.

Lemma static_get i p r : PREDEFINED_HEADERS !! N.to_nat i = Some p -> StaticTable.get i r = (Ok p, r).
Proof. unfold StaticTable.get. by intros ->. Qed.

#[local] Opaque PREDEFINED_HEADERS find_arms find_name_arms.

Lemma decode_index_wire i p rest :
  PREDEFINED_HEADERS !! N.to_nat i = Some p ->
  Headers.decode_index (prefix_bytes 6 3 i ++ rest) = (Ok p, rest).
Proof.
  intros Hi. pose proof (static_index_bound i p Hi). unfold Headers.decode_index, bind.
  rewrite decode_prefix_bytes by (done || lia). by apply static_get.
Qed.

Lemma decode_literal_value_wire flags i name value other w rest :
  flags = 5 \/ flags = 7 -> PREDEFINED_HEADERS !! N.to_nat i = Some (name, other) -> string_wire 7 0 value w ->
  Headers.decode_literal_value (prefix_bytes 4 flags i ++ w ++ rest) = (Ok (name, value), rest).
Proof.
  intros Hf Hi Hw. pose proof (static_index_bound i _ Hi). unfold Headers.decode_literal_value.
  unfold bind at 1. rewrite decode_prefix_bytes by (try (change (2 ^ (8 - 4)) with 16); lia).
  unfold bind at 1. rewrite (static_get i _ _ Hi). unfold bind at 1.
  rewrite (decode_string_wire 7 0 value) by done. unfold bind. by rewrite utf8_bytes.
Qed.

Lemma decode_literal_wire base name value w w' rest :
  base = 2 \/ base = 3 -> string_wire 3 base name w -> string_wire 7 0 value w' ->
  Headers.decode_literal (w ++ w' ++ rest) = (Ok (name, value), rest).
Proof.
  intros Hb Hw Hw'. unfold Headers.decode_literal. unfold bind at 1.
  rewrite (decode_string_wire 3 base name) by (try (change (2 ^ (8 - 3)) with 32); done || lia).
  unfold bind at 1. rewrite utf8_bytes. unfold bind at 1. rewrite (decode_string_wire 7 0 value) by done.
  unfold bind. by rewrite utf8_bytes.
Qed.

Lemma decode_field_line p w fields rest :
  line_wire p w -> Headers.decode_field fields (w ++ rest) = (Ok (<[p.1 := p.2]> fields), rest).
Proof.
  destruct 1 as [i name value Hi|flags i name value other w Hf Hi Hw|base name value w w' Hb Hw Hw'].
  - apply (decode_field_tag 6 3 i [] fields (name, value)); [done..|]. intros low Hl Hx.
    rewrite decode_line_tag by done. change (2 ^ 6) with 64 in *.
    assert (Ht : (3 * 64 + low) / 16 = 12 \/ (3 * 64 + low) / 16 = 13 \/ (3 * 64 + low) / 16 = 14 \/ (3 * 64 + low) / 16 = 15) by lia.
    rewrite app_nil_l. destruct Ht as [->|[->|[->| ->]]]; by apply decode_index_wire.
  - rewrite <- app_assoc. apply (decode_field_tag 4 flags i w fields (name, value)); [done..|change (2 ^ (8 - 4)) with 16; lia|].
    intros low Hl Hx. rewrite decode_line_tag by done. change (2 ^ 4) with 16 in *.
    replace ((flags * 16 + low) / 16) with flags by lia.
    destruct Hf as [-> | ->]; eapply decode_literal_value_wire; eauto.
  - rewrite <- app_assoc. pose proof (decode_literal_wire base name value w w' rest Hb Hw Hw') as Hd.
    assert (Hw3 : exists flags len payload, w = prefix_bytes 3 flags len ++ payload /\ 4 <= flags /\ flags < 8).
    { destruct Hw; eexists _, _, _; (split; [done|lia]). }
    destruct Hw3 as (flags & len & payload & -> & H4 & H8). rewrite <- app_assoc in Hd |- *. rewrite app_assoc in Hd |- *.
    rewrite <- app_assoc in Hd |- *. rewrite (app_assoc payload) in Hd |- *.
    apply (decode_field_tag 3 flags len (payload ++ w') fields (name, value)); [done..|change (2 ^ (8 - 3)) with 32; lia|].
    intros low Hl Hx. rewrite decode_line_tag by done. change (2 ^ 3) with 8 in *.
    assert (Ht : (flags * 8 + low) / 16 = 2 \/ (flags * 8 + low) / 16 = 3) by lia. by destruct Ht as [-> | ->].
Qed.

(** ** The static table, three ways *)

#[local] Transparent PREDEFINED_HEADERS find_arms find_name_arms.

Lemma find_arms_table : find_arms = imap (fun i p => (p, N.of_nat i)) PREDEFINED_HEADERS.
Proof. vm_compute. reflexivity. Qed.

Lemma static_table_nodup : NoDup PREDEFINED_HEADERS.
Proof. apply (bool_decide_eq_true_1 _). vm_compute. reflexivity. Qed.

(** Every arm of [find_name] names the first entry with its name, and every name of
    the table has an arm. *)
Lemma find_name_arms_first : Forall (fun a : String * N =>
  fst <$> list_find (fun p : String * String => p.1 = a.1) PREDEFINED_HEADERS = Some (N.to_nat a.2)) find_name_arms.
Proof. apply (bool_decide_eq_true_1 _). vm_compute. reflexivity. Qed.

Lemma find_name_arms_all : Forall (fun p : String * String => p.1 ∈ find_name_arms.*1) PREDEFINED_HEADERS.
Proof. apply (bool_decide_eq_true_1 _). vm_compute. reflexivity. Qed.

#[local] Opaque PREDEFINED_HEADERS find_arms find_name_arms.

Lemma static_find name value i :
  StaticTable.find name value = Some i <-> PREDEFINED_HEADERS !! N.to_nat i = Some (name, value).
Proof.
  unfold StaticTable.find. rewrite find_arms_table, fmap_Some. split.
  - intros ((j & p & k) & Hf & ->). apply list_find_Some in Hf as (Hj & Hp & _). simpl in *.
    rewrite list_lookup_imap in Hj. apply fmap_Some in Hj as (q & Hq & Hj). simplify_eq/=. by rewrite Nat2N.id.
  - intros Hi. exists (N.to_nat i, ((name, value), i)). split; [|done]. apply list_find_Some.
    rewrite list_lookup_imap, Hi. simpl. rewrite N2Nat.id. split; [done|split; [done|]].
    intros j [p k] Hj Hlt Hp. rewrite list_lookup_imap in Hj. apply fmap_Some in Hj as (q & Hq & Hj). simplify_eq/=.
    pose proof (NoDup_lookup _ _ _ _ static_table_nodup Hq Hi). lia.
Qed.

Lemma static_find_name name :
  StaticTable.find_name name = N.of_nat ∘ fst <$> list_find (fun p => p.1 = name) PREDEFINED_HEADERS.
Proof.
  unfold StaticTable.find_name. destruct (list_find _ find_name_arms) as [[j [n k]]|] eqn:Ef; simpl.
  - apply list_find_Some in Ef as (Hj & <- & _). pose proof find_name_arms_first as Ha.
    rewrite Forall_lookup in Ha. specialize (Ha _ _ Hj). simpl in *.
    destruct (list_find (fun p => p.1 = n) PREDEFINED_HEADERS) as [[j' p]|]; simplify_eq/=. by rewrite N2Nat.id.
  - apply list_find_None in Ef. rewrite Forall_forall in Ef. destruct (list_find _ PREDEFINED_HEADERS) as [[j p]|] eqn:Eg; [|done].
    apply list_find_Some in Eg as (Hj & <- & _). pose proof find_name_arms_all as Ha.
    rewrite Forall_lookup in Ha. specialize (Ha _ _ Hj). simpl in Ha.
    apply list_elem_of_fmap in Ha as (a & Hn & Ha). by destruct (Ef a Ha).
Qed.

(** C33 (equivalence): the two lookups by contents and the lookup by index describe
    one table: [find] gives the index of exactly that entry, and [find_name] the least
    index of an entry of that name. *)
Theorem static_table_agrees name value i :
  (StaticTable.find name value = Some i <-> StaticTable.get i [] = (Ok (name, value), [])) /\
  (StaticTable.find_name name = Some i <->
   (exists value, StaticTable.get i [] = (Ok (name, value), [])) /\
   forall j value, StaticTable.get j [] = (Ok (name, value), []) -> i <= j).
Proof.
  assert (Hget : forall j p, StaticTable.get j [] = (Ok p, []) <-> PREDEFINED_HEADERS !! N.to_nat j = Some p).
  { intros j p. unfold StaticTable.get. destruct (PREDEFINED_HEADERS !! N.to_nat j); split; intros H; try done.
    - f_equal. by injection H.
    - by injection H as ->. }
  split; [rewrite Hget; apply static_find|].
  rewrite static_find_name, fmap_Some. split.
  - intros ((j & [n v]) & Hf & ->). apply list_find_Some in Hf as (Hj & Hn & Hmin). simpl in Hn. subst n. split.
    + exists v. rewrite Hget. simpl. by rewrite Nat2N.id.
    + intros k v' Hk. apply Hget in Hk. simpl. destruct (decide (N.to_nat k < j)%nat) as [Hlt|]; [|lia].
      by destruct (Hmin _ _ Hk Hlt).
  - intros [(v & Hv) Hmin]. apply Hget in Hv. exists (N.to_nat i, (name, v)). split; [|simpl; by rewrite N2Nat.id].
    apply list_find_Some. split; [done|split; [done|]]. intros k [n v'] Hk Hlt Hn. simpl in Hn. subst n.
    rewrite <- (Nat2N.id k) in Hk. apply Hget, Hmin in Hk. lia.
Qed.

(** ** Blocks *)

Lemma shrinks_rem {E A} (k : N -> M (list byte) E A) : (forall n, shrinks (k n)) -> shrinks (bind rem k).
Proof. intros Hk r b r' H. exact (Hk (lenN r) _ _ _ H). Qed.

Lemma shrinks_byte_of {E} : shrinks (byte_of (E:=E)).
Proof. intros [|b r] a r' H; [done|]. cbn [byte_of] in H. simplify_eq. simpl. lia. Qed.

Lemma shrinks_raise {E A} (e : E) : shrinks (A:=A) (raise e).
Proof. by intros r b r' H. Qed.

Lemma shrinks_panic {E A} : shrinks (E:=E) (A:=A) panic.
Proof. by intros r b r' H. Qed.

Lemma keeps_ok_or {E A} (o : option A) (e : E) : keeps (ok_or o e).
Proof. intros r b r' H. destruct o; unfold ok_or, ret, raise in H; by simplify_eq. Qed.

#[export] Hint Resolve shrinks_rem shrinks_byte_of shrinks_raise shrinks_panic keeps_ok_or : shrink.

Lemma keeps_decode_rest turns value power : keeps (decode_rest turns value power).
Proof.
  revert value power. induction turns as [|turns IH]; intros value power; cbn [decode_rest]; [auto with shrink|].
  apply keeps_bind; [auto with shrink|intros n]. case_match; [auto with shrink|].
  apply keeps_bind; [auto with shrink|intros b]. cbv zeta. repeat case_match; auto with shrink.
Qed.

Lemma shrinks_decode_prefix size : shrinks (decode_prefix size).
Proof.
  unfold decode_prefix. case_match; [auto with shrink|]. apply shrinks_rem; intros n. case_match; [auto with shrink|].
  apply shrinks_bind; [auto with shrink|intros b]. cbv zeta. case_match; [auto with shrink|].
  apply keeps_bind; [apply keeps_decode_rest|auto with shrink].
Qed.

Lemma shrinks_decode_string size : shrinks (decode_string size).
Proof.
  unfold decode_string. apply shrinks_rem; intros n. case_match; [auto with shrink|].
  apply shrinks_bind; [apply shrinks_decode_prefix|intros [flags len]]. apply keeps_bind; [auto with shrink|intros k].
  case_match; [auto with shrink|]. apply keeps_bind; [auto with shrink|intros payload].
  repeat case_match; auto with shrink.
Qed.

Lemma keeps_static_get i : keeps (StaticTable.get i).
Proof. unfold StaticTable.get. case_match; auto with shrink. Qed.

#[export] Hint Resolve shrinks_decode_prefix shrinks_decode_string keeps_static_get : shrink.

Lemma shrinks_decode_line x : shrinks (Headers.decode_line x).
Proof.
  unfold Headers.decode_line, Headers.decode_index, Headers.decode_literal_value, Headers.decode_literal, utf8. cbv zeta.
  repeat case_match; auto 10 with shrink.
Qed.

Lemma shrinks_decode_field fields : shrinks (Headers.decode_field fields).
Proof.
  intros [|b r] m r' H; [done|]. cbn [Headers.decode_field] in H.
  assert (Hs : shrinks (let! p := Headers.decode_line (nb b) in ret (E:=DecodeError) (<[p.1 := p.2]> fields)))
    by (apply shrinks_bind; [apply shrinks_decode_line|auto with shrink]).
  by apply Hs in H.
Qed.

Lemma decode_block count sign delta (lines : list ((String * String) * list byte)) rest :
  count < 2 ^ 64 -> sign < 2 -> delta < 2 ^ 64 -> Forall (fun l => line_wire l.1 l.2) lines ->
  Headers.decode (prefix_bytes 8 0 count ++ prefix_bytes 7 sign delta ++ concat lines.*2 ++ rest) =
  consume Headers.decode_field (fold_left (fun m p => <[p.1 := p.2]> m) lines.*1 ∅) rest.
Proof.
  intros Hc Hs Hd Hl. unfold Headers.decode.
  unfold bind at 1. rewrite decode_prefix_bytes by done. unfold bind. rewrite decode_prefix_bytes by done.
  rewrite (consume_app Headers.decode_field (fun l => l.2) (fun l m => <[l.1.1 := l.1.2]> m) lines);
    [|apply shrinks_decode_field|].
  - f_equal. clear. generalize (∅ : Headers.t). induction lines as [|[p w] lines IH]; intros m; [done|]. apply IH.
  - eapply Forall_impl; [exact Hl|]. intros [p w] Hp m r. by apply decode_field_line.
Qed.

(** *** Totality *)

(** Ten turns reach [MAX_POWER]. *)
Lemma decode_rest_total turns value power r :
  power + 7 * N.of_nat turns = 70 -> (1 <= turns)%nat -> fst (decode_rest turns value power r) <> Panic.
Proof.
  revert value power r. induction turns as [|turns IH]; intros value power r Hp Ht; [lia|].
  destruct r as [|b r]; [done|]. cbn [decode_rest]. unfold bind at 1. cbn [rem]. rewrite lenN_cons.
  destruct (N.eqb_spec (1 + lenN r) 0); [done|]. unfold bind at 1. cbn [byte_of]. cbv zeta.
  destruct (_ =? 0); [done|]. unfold MAX_POWER. destruct (N.leb_spec 70 (power + 7)); [done|].
  apply IH; lia.
Qed.

Lemma decode_prefix_total size r : size <= 8 -> fst (decode_prefix size r) <> Panic.
Proof.
  intros Hs. unfold decode_prefix. destruct (N.ltb_spec 8 size); [lia|]. destruct r as [|b r]; [done|].
  unfold bind at 1. cbn [rem]. rewrite lenN_cons. destruct (N.eqb_spec (1 + lenN r) 0); [done|].
  unfold bind at 1. cbn [byte_of]. cbv zeta. destruct (_ <? _); [done|]. unfold bind.
  set (mask := N.shiftr 255 ((8 - size) mod 8)). pose proof (decode_rest_total 10 mask 0 r) as Hrest.
  destruct (decode_rest 10 mask 0 r) as [[]]; [done..|]. exfalso. by apply Hrest; [|lia|].
Qed.

(** Inputs whose Huffman strings cannot overflow the 32-bit positions. *)
Definition fits_bits (r : list byte) : Prop := 8 * lenN r + 16 < 2 ^ 32.

Lemma fits_keeps {A} (m : dec A) r a r' : keeps m -> fits_bits r -> m r = (Ok a, r') -> fits_bits r'.
Proof. unfold fits_bits, lenN. intros Hm Hr H. apply Hm in H. lia. Qed.

Lemma bind_total {A B} (m : dec A) (k : A -> dec B) r :
  fst (m r) <> Panic -> (forall a r', m r = (Ok a, r') -> fst (k a r') <> Panic) -> fst (bind m k r) <> Panic.
Proof. unfold bind. destruct (m r) as [[a|e|] r'] eqn:E; intros H1 H2; [by apply H2|done|done]. Qed.

Lemma decode_string_total size r :
  1 <= size -> size <= 8 -> fits_bits r -> fst (decode_string size r) <> Panic.
Proof.
  intros H1 H8 Hr. unfold decode_string. apply bind_total; [done|]. intros n r0 E0. unfold rem in E0. simplify_eq.
  case_match; [done|]. apply bind_total; [apply decode_prefix_total; lia|]. intros [flags len] r1 E1.
  apply (fits_keeps _ _ _ _ (shrinks_keeps _ (shrinks_decode_prefix _)) Hr) in E1.
  unfold bind at 1. cbn [rem]. case_match eqn:El; [done|]. apply bind_total; unfold bytes_of; rewrite El; [done|].
  intros payload r2 E2. assert (Hp : fits_bits payload).
  { unfold fits_bits, lenN in *. injection E2 as <- _. rewrite length_take. lia. }
  case_match; [done|]. pose proof (hpack_decode_total payload Hp). by destruct (hpack_decode payload).
Qed.

Lemma static_get_total i r : fst (StaticTable.get i r) <> Panic.
Proof. unfold StaticTable.get. by case_match. Qed.

Lemma utf8_total l r : fst (utf8 l r) <> Panic.
Proof. unfold utf8. by destruct (from_utf8 l). Qed.

Lemma value_total (name : String) r :
  fits_bits r -> fst ((let! value := decode_string 8 in let! value := utf8 value in ret (E:=DecodeError) (name, value)) r) <> Panic.
Proof.
  intros Hr. apply bind_total; [by apply decode_string_total|]. intros v r2 _. apply bind_total; [apply utf8_total|done].
Qed.

Lemma decode_line_total x r : fits_bits r -> fst (Headers.decode_line x r) <> Panic.
Proof.
  intros Hr. unfold Headers.decode_line. cbv zeta. repeat case_match; try done.
  - apply bind_total; [by apply decode_prefix_total|intros; apply static_get_total].
  - apply bind_total; [by apply decode_prefix_total|]. intros p r1 E1.
    apply (fits_keeps _ _ _ _ (shrinks_keeps _ (shrinks_decode_prefix _)) Hr) in E1.
    apply bind_total; [apply static_get_total|]. intros n r2 E2.
    apply (fits_keeps _ _ _ _ (keeps_static_get _) E1) in E2. by apply value_total.
  - apply bind_total; [by apply decode_string_total|]. intros l r1 E1.
    apply (fits_keeps _ _ _ _ (shrinks_keeps _ (shrinks_decode_string _)) Hr) in E1.
    apply bind_total; [apply utf8_total|]. intros n r2 E2.
    apply (fits_keeps _ _ _ _ (keeps_ok_or _ _) E1) in E2. by apply value_total.
Qed.

Lemma decode_field_total fields b r : fits_bits (b :: r) -> fst (Headers.decode_field fields (b :: r)) <> Panic.
Proof. intros Hr. cbn [Headers.decode_field]. apply bind_total; [by apply decode_line_total|done]. Qed.

(** *** Encoding *)

Definition short (s : String) : Prop := lenN (as_bytes s) < 2 ^ 64.

Lemma encode_prefix_run size flags value w :
  0 < size -> size <= 8 -> encode_prefix size flags value w = (Ok tt, w ++ prefix_bytes size flags value).
Proof.
  intros H0 H8. unfold encode_prefix. destruct (N.ltb_spec 0 size); [|lia]. by destruct (N.leb_spec size 8); [|lia].
Qed.

Lemma encode_field_line p :
  short p.1 -> short p.2 ->
  exists line, line_wire p line /\ forall w, Headers.encode_field p w = (Ok tt, w ++ line).
Proof.
  destruct p as [name value]. cbn [fst snd]. intros Hn Hv. unfold Headers.encode_field. cbn [fst snd].
  assert (Hplain : string_wire 7 0 value (prefix_bytes 7 0 (lenN (as_bytes value)) ++ as_bytes value)) by (by apply (string_plain 7 0)).
  destruct (StaticTable.find name value) as [i|] eqn:Ef.
  - apply static_find in Ef. exists (prefix_bytes 6 3 i). split; [by apply line_index|]. intros w. by apply encode_prefix_run.
  - rewrite static_find_name. destruct (list_find _ PREDEFINED_HEADERS) as [[j [n v]]|] eqn:Eg; cbn [fmap option_fmap option_map].
    + apply list_find_Some in Eg as (Hj & Hname & _). simpl in Hname. subst n.
      eexists. split; [apply (line_literal_value 5 (N.of_nat j) name value v); [by left|by rewrite Nat2N.id|exact Hplain]|].
      intros w. unfold Headers.encode_literal_value, bind. rewrite !encode_prefix_run by done.
      unfold put_bytes. by rewrite <- !app_assoc.
    + eexists. split; [apply (line_literal 2 name value); [by left|by apply string_plain|exact Hplain]|].
      intros w. unfold Headers.encode_literal, bind. rewrite !encode_prefix_run by done.
      unfold put_bytes. rewrite !encode_prefix_run by done. by rewrite <- !app_assoc.
Qed.

Lemma encode_fields l :
  Forall (fun p => short p.1 /\ short p.2) l ->
  exists lines, lines.*1 = l /\ Forall (fun l => line_wire l.1 l.2) lines /\
    forall w, for_each l Headers.encode_field w = (Ok tt, w ++ concat lines.*2).
Proof.
  induction 1 as [|p l [Hn Hv] _ (lines & <- & Hl & IH)].
  - exists []. split; [done|]. split; [constructor|]. intros w. simpl. by rewrite app_nil_r.
  - destruct (encode_field_line p Hn Hv) as (line & Hp & He). exists ((p, line) :: lines). split; [done|].
    split; [by constructor|]. intros w. cbn [for_each]. unfold bind. rewrite He, IH. cbn [fmap list_fmap concat].
    by rewrite app_assoc.
Qed.

Lemma sorted_perm l : Headers.sorted l ≡ₚ l.
Proof.
  unfold Headers.sorted. induction l as [|p l IH]; [done|]. cbn [List.filter].
  destruct (Headers.pseudo p); cbn [negb app]; [by rewrite IH|]. rewrite <- Permutation_middle. by rewrite IH.
Qed.

(** The pseudo-headers come first. *)
Lemma sorted_pseudo l i j p q :
  Headers.sorted l !! i = Some p -> Headers.sorted l !! j = Some q ->
  Headers.pseudo p = false -> Headers.pseudo q = true -> (j < i)%nat.
Proof.
  unfold Headers.sorted. intros Hi Hj Hp Hq. set (n := length (List.filter Headers.pseudo l)).
  destruct (decide (i < n)%nat) as [Hlt|Hge].
  - rewrite lookup_app_l in Hi by done. apply list_elem_of_lookup_2, list_elem_of_In, filter_In in Hi as [_ Hi]. congruence.
  - destruct (decide (j < n)%nat); [lia|]. rewrite lookup_app_r in Hj by (unfold n in *; lia).
    apply list_elem_of_lookup_2, list_elem_of_In, filter_In in Hj as [_ Hj]. by rewrite Hq in Hj.
Qed.

(** The lines that refer to the dynamic table: indexed, by name, and both forms
    relative to the post-base. *)
Definition dynamic (b : byte) : Prop := nb b / 16 ∈ [0; 1; 4; 6; 8; 9; 10; 11].

(** ** Properties *)

(** What [Headers::decode] accepts and refuses. Whatever the required insert count and
    the base of a block are, and however each line is written (from the static table,
    with its name from there, or literally; strings plain or in Huffman code; with or
    without the N bit), the headers are those of the lines, of two with one name the
    later. A reference to the dynamic table behind any such lines is refused as such.
    On any input the call returns: it never panics. *)
Theorem headers_decode count sign delta (lines : list ((String * String) * list byte)) :
  count < 2 ^ 64 -> sign < 2 -> delta < 2 ^ 64 -> Forall (fun l => line_wire l.1 l.2) lines ->
  let block := prefix_bytes 8 0 count ++ prefix_bytes 7 sign delta ++ concat lines.*2 in
  Headers.decode block = (Ok (fold_left (fun m p => Headers.set p.1 p.2 m) lines.*1 ∅), []) /\
  (forall b rest, dynamic b -> fst (Headers.decode (block ++ b :: rest)) = Err QpackErr.DynamicEntry) /\
  (forall input, fits_bits input -> fst (Headers.decode input) <> Panic).
Proof.
  intros Hc Hs Hd Hl block. split; [|split].
  - pose proof (decode_block count sign delta lines [] Hc Hs Hd Hl) as H. rewrite app_nil_r in H. exact H.
  - intros b rest Hb. unfold block. rewrite <- !app_assoc, decode_block by done.
    rewrite consume_eq by apply shrinks_decode_field. unfold bind. cbn [Headers.decode_field].
    unfold bind. rewrite decode_line_tag by apply nb_lt. unfold dynamic in Hb. revert Hb. generalize (nb b / 16). intros t Ht.
    set_unfold in Ht. repeat (destruct Ht as [->|Ht]; [done|]). done.
  - intros input Hi. unfold Headers.decode. apply bind_total; [by apply decode_prefix_total|]. intros p r1 E1.
    apply (fits_keeps _ _ _ _ (shrinks_keeps _ (shrinks_decode_prefix _)) Hi) in E1.
    apply bind_total; [by apply decode_prefix_total|]. intros p' r2 E2.
    apply (fits_keeps _ _ _ _ (shrinks_keeps _ (shrinks_decode_prefix _)) E1) in E2.
    apply (consume_total_on fits_bits); [apply shrinks_decode_field| |apply decode_field_total|done].
    unfold fits_bits, lenN. lia.
Qed.

Lemma encode_headers `{HeaderOrder} (h : Headers.t) :
  map_Forall (fun name value => short name /\ short value) h ->
  exists lines,
    written (Headers.encode h) = Ok (prefix_bytes 8 0 0 ++ prefix_bytes 7 0 0 ++ concat lines.*2) /\
    lines.*1 ≡ₚ map_to_list h /\ Forall (fun l => line_wire l.1 l.2) lines /\
    (forall i j p q, lines.*1 !! i = Some p -> lines.*1 !! j = Some q ->
       Headers.pseudo p = false -> Headers.pseudo q = true -> (j < i)%nat) /\
    Headers.decode (prefix_bytes 8 0 0 ++ prefix_bytes 7 0 0 ++ concat lines.*2) = (Ok h, []).
Proof.
  intros Hh. set (l := Headers.sorted (header_iter h)).
  assert (Hl : l ≡ₚ map_to_list h) by (unfold l; by rewrite sorted_perm, header_iter_perm).
  destruct (encode_fields l) as (lines & El & Hw & He).
  { rewrite Hl. rewrite map_Forall_to_list in Hh. eapply Forall_impl; [exact Hh|]. by intros [? ?]. }
  exists lines. rewrite El. split; [|split; [done|split; [done|split]]].
  - unfold written, Headers.encode, bind. rewrite !encode_prefix_run by done. fold l. rewrite He.
    by rewrite app_nil_l, <- app_assoc.
  - intros i j p q. apply sorted_pseudo.
  - pose proof (decode_block 0 0 0 lines [] eq_refl eq_refl eq_refl Hw) as Hd. rewrite app_nil_r in Hd. rewrite Hd, El.
    unfold consume. cbn [length while_rem]. do 2 f_equal. rewrite insert_all; [|rewrite Hl; apply NoDup_fst_map_to_list|by intros; apply lookup_empty].
    rewrite (right_id_L ∅ (∪)). rewrite (list_to_map_proper l (map_to_list h)); [apply list_to_map_to_list| |done].
    rewrite Hl. apply NoDup_fst_map_to_list.
Qed.

(** C22 (roundtrip). Headers of any size are read back as they were, whatever the
    order in which the map is iterated: the block of [Headers::encode] holds one line
    per header, all pseudo-headers before the others, and [Headers::decode] of it is the same map. *)
Theorem headers_round_trip `{HeaderOrder} (h : Headers.t) :
  map_Forall (fun name value => short name /\ short value) h ->
  exists lines,
    written (Headers.encode h) = Ok (prefix_bytes 8 0 0 ++ prefix_bytes 7 0 0 ++ concat lines.*2) /\
    lines.*1 ≡ₚ map_to_list h /\ Forall (fun l => line_wire l.1 l.2) lines /\
    (forall i j p q, lines.*1 !! i = Some p -> lines.*1 !! j = Some q ->
       Headers.pseudo p = false -> Headers.pseudo q = true -> (j < i)%nat) /\
    Headers.decode (prefix_bytes 8 0 0 ++ prefix_bytes 7 0 0 ++ concat lines.*2) = (Ok h, []).
Proof. apply encode_headers. Qed.

(** A request: its method from the table, its authority in Huffman code, and a header
    the table does not know. *)
Definition demo_lines : list ((String * String) * list byte) := [
  ((str ":method", str "CONNECT"), [xcf]);
  ((str ":authority", str "www.example.com"), [x50; x8c] ++ demo_huffman);
  ((str "x-a", str "b"), [x23; x78; x2d; x61; x01; x62])].

Lemma demo_lines_wire : Forall (fun l => line_wire l.1 l.2) demo_lines.
Proof.
  repeat constructor; cbn [fst snd].
  - apply (line_index 15). vm_compute. reflexivity.
  - apply (line_literal_value 5 0 _ _ (str "") (x8c :: demo_huffman)); [by left|vm_compute; reflexivity|].
    apply (string_huffman 7 0 _ demo_huffman); vm_compute; reflexivity.
  - apply (line_literal 2 _ _ [x23; x78; x2d; x61] [x01; x62]); [by left| |].
    + apply (string_plain 3 2 (str "x-a")). vm_compute. reflexivity.
    + apply (string_plain 7 0 (str "b")). vm_compute. reflexivity.
Qed.

Lemma headers_decode_witness :
  Headers.decode ([x00; x00] ++ concat demo_lines.*2) =
  (Ok (<[str "x-a" := str "b"]> (<[str ":authority" := str "www.example.com"]> {[str ":method" := str "CONNECT"]})), []).
Proof. exact (proj1 (headers_decode 0 0 0 demo_lines eq_refl eq_refl eq_refl demo_lines_wire)). Defined.

#[export] Instance list_order : HeaderOrder := {
  header_iter := map_to_list;
  header_iter_perm m := reflexivity _;
}.

Definition demo_headers : Headers.t :=
  <[str "x-a" := str "b"]> (<[str ":authority" := str "www.example.com"]> {[str ":method" := str "CONNECT"]}).

Lemma demo_headers_short : map_Forall (fun name value => short name /\ short value) demo_headers.
Proof. unfold demo_headers. repeat apply map_Forall_insert_2; try apply map_Forall_empty; by vm_compute. Qed.

Lemma headers_round_trip_witness :
  exists w, written (Headers.encode demo_headers) = Ok w /\ Headers.decode w = (Ok demo_headers, []).
Proof.
  destruct (headers_round_trip demo_headers demo_headers_short) as (lines & Hw & _ & _ & _ & Hd).
  eexists. split; [exact Hw|exact Hd].
Defined.
