(* ===== verification/Connect.v ===== *)
(** * The CONNECT request and its response

    [internal_crates/web-transport-proto/src/connect.rs]. URLs ([url]) and HTTP
    methods and status codes ([http]) are third-party types: the classes below hold
    what the code uses of them. *)
From Stdlib Require Import Strings.String NArith Lia Bool.
From stdpp Require Import base list gmap option numbers.
From S2P Require Import Prelude Buffers VarInt Utf8 Http3 Huffman Qpack.
Import QuicVarInt(UnexpectedEnd, VarIntUnexpectedEnd).

#[local] Arguments N.modulo : simpl never.
#[local] Arguments N.pow : simpl never.

(** [url::Url] and [url::ParseError] *)
Class UrlCrate := {
  Url : Type;
  ParseError : Type;
  url_parse : String -> Url + ParseError;
  url_scheme : Url -> String;
  url_authority : Url -> String;
  url_path : Url -> String;
  url_query : Url -> option String;
}.

(** [http::Method] and [http::StatusCode] *)
Class HttpCrate := {
  Method : Type;
  StatusCode : Type;
  method_try_from : String -> option Method;
  is_CONNECT : Method -> bool;
  status_from_str : String -> option StatusCode;
  is_success : StatusCode -> bool;
  status_as_str : StatusCode -> String;
}.

(** What the crates document of the two values the code depends on. *)
Class HttpLaws `{HttpCrate} := {
  connect_method : exists m, method_try_from (str "CONNECT") = Some m /\ is_CONNECT m = true;
  status_round_trip : forall s, status_from_str (status_as_str s) = Some s;
}.

Create HintDb result_only.

Section Connect.
Context `{UrlCrate} `{HttpCrate} `{HeaderOrder}.

Inductive ConnectError :=
  | UnexpectedEnd
  | QpackError (e : QpackErr.DecodeError)
  | UnexpectedFrame (typ : N)
  | InvalidMethod
  | InvalidUrl (e : ParseError)
  | InvalidStatus
  | WrongStatus (s : option StatusCode)
  | WrongMethod (m : option Method)
  | WrongScheme (s : option String)
  | WrongAuthority
  | WrongProtocol (p : option String)
  | WrongPath
  | Io.

Definition missing (e : ConnectError) : bool := match e with UnexpectedEnd => true | _ => false end.

#[local] Abbreviation dec A := (M (list byte) ConnectError A).

(** [opt.map(f).transpose()?] *)
Definition transpose {A B} (f : A -> option B) (e : ConnectError) (o : option A) : dec (option B) :=
  match o with
  | None => ret None
  | Some a => match f a with Some b => ret (Some b) | None => raise e end
  end.

(** The start of both [decode]s: the header block of a HEADERS frame. *)
Definition read_headers : dec Headers.t :=
  let! p := map_err (fun _ => UnexpectedEnd) Frame.read in
  let (typ, data) := p in
  if negb (typ =? Frame.HEADERS) then raise (UnexpectedFrame typ)
  else let! q := sub (map_err QpackError Headers.decode) data in ret q.1.

(** The end of both [encode]s: a HEADERS frame. *)
Definition write_headers (headers : Headers.t) : put unit :=
  let! tmp := sub (Headers.encode headers) [] in
  let size := QuicVarInt.from_u32 (lenN tmp.2 mod 2 ^ 32) in
  do! Frame.encode Frame.HEADERS in
  do! QuicVarInt.encode size in
  put_bytes tmp.2.

(** *** [ConnectRequest] *)

Record ConnectRequest := { url : Url }.

(** What [decode] does with the headers. *)
Definition check_request (headers : Headers.t) : dec ConnectRequest :=
  let! scheme :=
    match Headers.get (str ":scheme") headers with
    | Some scheme => if decide (scheme = str "https") then ret (str "https") else raise (WrongScheme (Some scheme))
    | None => raise (WrongScheme None)
    end in
  let! authority := ok_or (Headers.get (str ":authority") headers) WrongAuthority in
  let! path_and_query := ok_or (Headers.get (str ":path") headers) WrongPath in
  let! method := transpose method_try_from InvalidMethod (Headers.get (str ":method") headers) in
  do! match method with
      | Some m => if is_CONNECT m then ret tt else raise (WrongMethod method)
      | None => raise (WrongMethod method)
      end in
  let protocol := Headers.get (str ":protocol") headers in
  if negb (bool_decide (protocol = Some (str "webtransport"))) then raise (WrongProtocol protocol)
  else
    match url_parse (push_str (push_str (push_str scheme (str "://")) authority) path_and_query) with
    | inl url => ret {| url := url |}
    | inr e => raise (InvalidUrl e)
    end.

Definition decode_request : dec ConnectRequest := let! headers := read_headers in check_request headers.

Definition read_request (s : list read_event) : outcome ConnectError ConnectRequest * list read_event :=
  accumulate decode_request missing UnexpectedEnd Io [] s.

Definition path_and_query (u : Url) : String :=
  match url_query u with
  | Some query => push_str (push_str (url_path u) (str "?")) query
  | None => url_path u
  end.

Definition request_headers (self : ConnectRequest) : Headers.t :=
  let headers := Headers.set (str ":method") (str "CONNECT") ∅ in
  let headers := Headers.set (str ":scheme") (url_scheme (url self)) headers in
  let headers := Headers.set (str ":authority") (url_authority (url self)) headers in
  let headers := Headers.set (str ":path") (path_and_query (url self)) headers in
  Headers.set (str ":protocol") (str "webtransport") headers.

Definition encode_request (self : ConnectRequest) : put unit := write_headers (request_headers self).

(** *** [ConnectResponse] *)

Record ConnectResponse := { status : StatusCode }.

Definition check_response (headers : Headers.t) : dec ConnectResponse :=
  let! status := transpose status_from_str InvalidStatus (Headers.get (str ":status") headers) in
  match status with
  | Some s => if is_success s then ret {| status := s |} else raise (WrongStatus status)
  | None => raise (WrongStatus status)
  end.

Definition decode_response : dec ConnectResponse := let! headers := read_headers in check_response headers.

Definition read_response (s : list read_event) : outcome ConnectError ConnectResponse * list read_event :=
  accumulate decode_response missing UnexpectedEnd Io [] s.

Definition response_headers (self : ConnectResponse) : Headers.t :=
  let headers := Headers.set (str ":status") (status_as_str (status self)) ∅ in
  Headers.set (str "sec-webtransport-http3-draft") (str "draft02") headers.

Definition encode_response (self : ConnectResponse) : put unit := write_headers (response_headers self).

(** ** More input *)

Lemma result_only_ret {A} (a : A) : result_only (ret (E:=ConnectError) a).
Proof. done. Qed.

Lemma result_only_raise {A} (e : ConnectError) : result_only (A:=A) (raise e).
Proof. done. Qed.

Lemma result_only_ok_or {A} (o : option A) (e : ConnectError) : result_only (ok_or o e).
Proof. by destruct o. Qed.

Lemma result_only_transpose {A B} (f : A -> option B) e o : result_only (transpose f e o).
Proof. unfold transpose. by repeat case_match. Qed.

Hint Resolve result_only_ret result_only_raise result_only_ok_or result_only_transpose result_only_bind : result_only.

Lemma result_only_check_request h : result_only (check_request h).
Proof.
  unfold check_request. apply result_only_bind; [repeat case_match; auto with result_only|intros scheme].
  do 3 (apply result_only_bind; [auto with result_only|intros ?]). apply result_only_bind; [repeat case_match; auto with result_only|intros _].
  cbv zeta. repeat case_match; auto with result_only.
Qed.

Lemma result_only_check_response h : result_only (check_response h).
Proof. unfold check_response. apply result_only_bind; [auto with result_only|intros s]. repeat case_match; auto with result_only. Qed.

Definition headers_of (p : N * list byte) : dec Headers.t :=
  let (typ, data) := p in
  if negb (typ =? Frame.HEADERS) then raise (UnexpectedFrame typ)
  else let! q := sub (map_err QpackError Headers.decode) data in ret q.1.

Lemma result_only_headers_of p : result_only (headers_of p).
Proof.
  destruct p as [typ data]. unfold headers_of. case_match; [done|]. intros r r'. unfold bind, sub.
  by destruct (map_err QpackError Headers.decode data) as [[] ?].
Qed.

(** A missing end is the only result that more bytes can change. *)
Lemma settled_headers {A} (check : Headers.t -> dec A) ok :
  (forall h, result_only (check h)) -> settled_on (let! h := read_headers in check h) missing ok.
Proof.
  intros Hc. assert (Hg : growing missing (map_err (fun _ => UnexpectedEnd) Frame.read))
    by (by eapply growing_map_err; [apply Frame.growing_read|]).
  pose proof (settled_bind missing ok _ (fun p => let! h := headers_of p in check h) Hg) as Hs.
  intros p q Hp. specialize (Hs (fun a => result_only_bind _ _ (result_only_headers_of a) Hc) p q Hp).
  assert (Hb : forall r, (let! h := read_headers in check h) r =
    (let! p := map_err (fun _ => UnexpectedEnd) Frame.read in let! h := headers_of p in check h) r).
  { intros r. unfold read_headers, bind. by destruct (map_err (fun _ => UnexpectedEnd) Frame.read r) as [[[]| |] ?]. }
  by rewrite !Hb.
Qed.

(** ** A HEADERS frame on the wire *)

Lemma read_headers_wire data h r' rest :
  lenN data < 2 ^ 62 -> Headers.decode data = (Ok h, r') ->
  read_headers (Frame.wire Frame.HEADERS data ++ rest) = (Ok h, rest).
Proof.
  intros Hl Hd. unfold read_headers, bind, map_err. rewrite Frame.read_wire by done.
  cbn [N.eqb Frame.HEADERS negb Pos.eqb]. unfold sub. by rewrite Hd.
Qed.

Lemma write_headers_wire h bs :
  map_Forall (fun name value => short name /\ short value) h ->
  written (write_headers h) = Ok bs -> lenN bs < 2 ^ 32 ->
  exists data, bs = Frame.wire Frame.HEADERS data /\ lenN data < 2 ^ 62 /\ Headers.decode data = (Ok h, []).
Proof.
  intros Hh Hw Hl. destruct (encode_headers h Hh) as (lines & He & _ & _ & _ & Hd).
  set (data := prefix_bytes 8 0 0 ++ prefix_bytes 7 0 0 ++ concat lines.*2) in *. exists data.
  assert (Hen : Headers.encode h [] = (Ok tt, data)).
  { unfold written in He. destruct (Headers.encode h []) as [[[]| |] ?]; by simplify_eq. }
  unfold written, write_headers, sub, bind, Frame.encode, QuicVarInt.from_u32 in Hw. rewrite Hen in Hw. cbn [fst snd] in Hw.
  rewrite quic_put in Hw by done. rewrite quic_put in Hw by lia. unfold put_bytes in Hw.
  assert (bs = (([] ++ varint_bytes Frame.HEADERS) ++ varint_bytes (lenN data mod 2 ^ 32)) ++ data) as -> by congruence.
  rewrite !lenN_app in Hl. rewrite N.mod_small by lia. split; [|split; [lia|done]].
  unfold Frame.wire. by rewrite <- !app_assoc.
Qed.

(** A [read] loop, on any cut of a frame that was written, and whatever follows. *)
Lemma read_written {A} (check : Headers.t -> dec A) o h bs rest (chunks : list (list byte)) :
  map_Forall (fun name value => short name /\ short value) h ->
  written (write_headers h) = Ok bs -> lenN bs < 2 ^ 32 ->
  (forall h, result_only (check h)) -> (forall r, fst (check h r) = o) ->
  match o with Err e => missing e = false | _ => True end ->
  Forall (fun c => c <> []) chunks -> concat chunks = bs ++ rest ->
  fst (accumulate (let! h := read_headers in check h) missing UnexpectedEnd Io [] (Chunk <$> chunks)) = o.
Proof.
  intros Hh Hw Hl Hr Hc Ho Hn Hb. destruct (write_headers_wire h bs Hh Hw Hl) as (data & -> & Hdl & Hd).
  destruct Hn as [|c chunks Hn Hns]; [by destruct (varint_bytes Frame.HEADERS)|].
  apply (accumulate_whole _ _ _ _ (fun _ => True)); try done; [by apply settled_headers|].
  cbn [concat] in Hb. rewrite app_nil_l, Hb. unfold bind. rewrite (read_headers_wire data h [] rest) by done. apply Hc.
Qed.

Lemma check_request_ok (h : Headers.t) authority path m method u r :
  h !! str ":scheme" = Some (str "https") -> h !! str ":authority" = Some authority -> h !! str ":path" = Some path ->
  h !! str ":method" = Some m -> method_try_from m = Some method -> is_CONNECT method = true ->
  h !! str ":protocol" = Some (str "webtransport") ->
  url_parse (push_str (push_str (push_str (str "https") (str "://")) authority) path) = inl u ->
  check_request h r = (Ok {| url := u |}, r).
Proof.
  intros E1 E2 E3 E4 Em Ec E5 Eu. unfold check_request, Headers.get. rewrite E1, E2, E3, E4, E5.
  unfold bind, ok_or, ret, transpose. rewrite decide_True by done. rewrite Em. unfold ret. cbv beta iota. rewrite Ec.
  cbv beta iota zeta. rewrite bool_decide_true by done. cbn [negb]. by rewrite Eu.
Qed.

(** ** Properties *)

(** When a request is accepted: exactly when its headers ask for [https] and
    WebTransport with the CONNECT method and have an authority and a path, and scheme,
    authority and path form a URL, which is then the request's. *)
Theorem connect_request_accepts (data rest : list byte) (h : Headers.t) (u : Url) :
  lenN data < 2 ^ 62 -> fst (Headers.decode data) = Ok h ->
  fst (decode_request (Frame.wire Frame.HEADERS data ++ rest)) = Ok {| url := u |} <->
  exists authority path m method,
    h !! str ":scheme" = Some (str "https") /\ h !! str ":authority" = Some authority /\ h !! str ":path" = Some path /\
    h !! str ":method" = Some m /\ method_try_from m = Some method /\ is_CONNECT method = true /\
    h !! str ":protocol" = Some (str "webtransport") /\
    url_parse (push_str (push_str (push_str (str "https") (str "://")) authority) path) = inl u.
Proof.
  intros Hl Hd. destruct (Headers.decode data) as [o r'] eqn:Ed. cbn [fst] in Hd. subst o.
  unfold decode_request, bind at 1. rewrite (read_headers_wire data h r' rest) by done.
  unfold check_request, Headers.get. split.
  - intros Hc. destruct (h !! str ":scheme") as [sch|]; [|done]. unfold bind at 1 in Hc. case_decide; [|done]. subst sch.
    cbn [ret] in Hc. destruct (h !! str ":authority") as [a|]; [|done]. destruct (h !! str ":path") as [p|]; [|done].
    destruct (h !! str ":method") as [m|]; [|done]. cbn [transpose] in Hc.
    unfold bind, ok_or, ret, transpose in Hc. destruct (method_try_from m) as [me|] eqn:Em; [|done].
    destruct (is_CONNECT me) eqn:Ec; [|done]. destruct (h !! str ":protocol") as [pr|]; [|done].
    cbv zeta in Hc. case_bool_decide as Hp; [|done]. cbn [negb] in Hc. injection Hp as ->.
    destruct (url_parse _) as [u'|] eqn:Eu; [|done]. cbn [fst] in Hc. injection Hc as ->. by exists a, p, m, me.
  - intros (a & p & m & me & E1 & E2 & E3 & E4 & Em & Ec & E5 & Eu).
    pose proof (check_request_ok h a p m me u rest E1 E2 E3 E4 Em Ec E5 Eu) as E. unfold check_request, Headers.get in E. by rewrite E.
Qed.

Lemma list_byte_length s : length (list_byte_of_string s) = String.length s.
Proof. unfold list_byte_of_string. rewrite length_map. induction s; simpl; congruence. Qed.

Lemma short_str s : (N.of_nat (String.length s) <? 2 ^ 32) = true -> short (str s).
Proof.
  intros Hs. apply N.ltb_lt in Hs. unfold short, str. pose proof (from_utf8_spec (list_byte_of_string s)) as H2.
  destruct (from_utf8 (list_byte_of_string s)); cbn [default id from_option].
  - rewrite H2. unfold lenN. rewrite list_byte_length. lia.
  - by vm_compute.
Qed.

Lemma written_response (r : ConnectResponse) rest :
  HttpLaws -> short (status_as_str (status r)) ->
  map_Forall (fun name value => short name /\ short value) (response_headers r) /\
  check_response (response_headers r) rest =
    (if is_success (status r) then Ok r else Err (WrongStatus (Some (status r))), rest).
Proof.
  intros Hh Hs. split.
  - unfold response_headers, Headers.set. repeat apply map_Forall_insert_2; try apply map_Forall_empty; split;
      try (by apply short_str); done.
  - unfold check_response, response_headers, Headers.get, Headers.set, bind.
    rewrite lookup_insert_ne by (vm_compute; discriminate). rewrite lookup_insert_eq. unfold transpose. rewrite status_round_trip.
    destruct r as [s]. unfold ret. cbn [status]. by destruct (is_success s).
Qed.

(** C23 (roundtrip). A client asks for a URL: the server reads a request for that
    URL, however the stream cuts the bytes and whatever it already carries behind
    them, provided the parts of the URL make it up again. *)
Theorem connect_request_exchange `{!HttpLaws} (u : Url) (bs rest : list byte) (chunks : list (list byte)) :
  url_scheme u = str "https" -> short (url_authority u) -> short (path_and_query u) ->
  url_parse (push_str (push_str (push_str (url_scheme u) (str "://")) (url_authority u)) (path_and_query u)) = inl u ->
  written (encode_request {| url := u |}) = Ok bs -> lenN bs < 2 ^ 32 ->
  Forall (fun c => c <> []) chunks -> concat chunks = bs ++ rest ->
  fst (read_request (Chunk <$> chunks)) = Ok {| url := u |}.
Proof.
  intros Hs Ha Hp Hu Hw Hl Hn Hb. eapply read_written; try done; [|apply result_only_check_request|].
  - unfold request_headers, Headers.set. cbn [url]. rewrite Hs.
    repeat apply map_Forall_insert_2; try apply map_Forall_empty; split; first [done|by apply short_str].
  - intros r. destruct connect_method as (m & Em & Ec). rewrite Hs in Hu.
    rewrite (check_request_ok _ (url_authority u) (path_and_query u) (str "CONNECT") m u r); try done;
      unfold request_headers, Headers.set; cbn [url]; rewrite ?Hs;
      repeat first [rewrite lookup_insert_eq|rewrite (lookup_insert_ne (M:=gmap String)) by (vm_compute; discriminate)]; done.
Qed.

(** A server answers with a status: the client reads a
    response with that status if it is a success (any 2xx, not only 200), and refuses
    it as a wrong status otherwise, however the bytes are cut. *)
Theorem connect_response_exchange `{!HttpLaws} (s : StatusCode) (bs rest : list byte) (chunks : list (list byte)) :
  short (status_as_str s) -> written (encode_response {| status := s |}) = Ok bs -> lenN bs < 2 ^ 32 ->
  Forall (fun c => c <> []) chunks -> concat chunks = bs ++ rest ->
  fst (read_response (Chunk <$> chunks)) =
  if is_success s then Ok {| status := s |} else Err (WrongStatus (Some s)).
Proof.
  intros Hs Hw Hl Hn Hb. pose proof (fun r => written_response {| status := s |} r _ Hs) as Hr.
  eapply read_written; try done; [apply (Hr [])|apply result_only_check_response| |].
  - intros r. by rewrite (proj2 (Hr r)).
  - cbn [status]. by destruct (is_success s).
Qed.
End Connect.

(** ** Witnesses *)

(** URLs of one scheme, as authority and path; methods and statuses as they are
    spelled. *)
Fixpoint strip (p l : list byte) : option (list byte) :=
  match p, l with
  | [], l => Some l
  | a :: p, b :: l => if decide (a = b) then strip p l else None
  | _ :: _, [] => None
  end.

Fixpoint until_slash (l : list byte) : list byte * list byte :=
  match l with
  | [] => ([], [])
  | b :: r => if decide (b = Byte.x2f) then ([], l) else let (a, p) := until_slash r in (b :: a, p)
  end.

Definition demo_parse (s : String) : (String * String) + unit :=
  match strip (as_bytes (str "https://")) (as_bytes s) with
  | Some r =>
      let (a, p) := until_slash r in
      match from_utf8 a, from_utf8 p with Some a, Some p => inl (a, p) | _, _ => inr tt end
  | None => inr tt
  end.

Definition demo_url : UrlCrate := {|
  Url := String * String;
  ParseError := unit;
  url_parse := demo_parse;
  url_scheme _ := str "https";
  url_authority := fst;
  url_path := snd;
  url_query _ := None;
|}.

Definition demo_http : HttpCrate := {|
  Method := String;
  StatusCode := String;
  method_try_from := Some;
  is_CONNECT m := bool_decide (m = str "CONNECT");
  status_from_str := Some;
  is_success s := match as_bytes s with Byte.x32 :: _ => true | _ => false end;
  status_as_str s := s;
|}.

Lemma demo_laws : @HttpLaws demo_http.
Proof. split; [by exists (str "CONNECT")|done]. Qed.

Section Demo.
#[local] Existing Instances demo_url demo_http list_order demo_laws.

Definition demo_u : Url := (str "example.org", str "/room").

Definition demo_request : list byte :=
  match written (encode_request {| url := demo_u |}) with Ok bs => bs | _ => [] end.

Definition demo_answer (s : String) : list byte :=
  match written (encode_response {| status := s : StatusCode |}) with Ok bs => bs | _ => [] end.

Lemma connect_request_exchange_witness :
  lenN demo_request = 50 /\
  fst (read_request (Chunk <$> [take 9 demo_request; drop 9 demo_request])) = Ok {| url := demo_u |}.
Proof.
  split; [vm_compute; reflexivity|].
  assert (Hw : written (encode_request {| url := demo_u |}) = Ok demo_request) by (vm_compute; reflexivity).
  assert (Hl : lenN demo_request < 2 ^ 32) by (vm_compute; reflexivity).
  assert (Hn : Forall (fun c => c <> []) [take 9 demo_request; drop 9 demo_request]).
  { constructor; [vm_compute; discriminate|]. constructor; [vm_compute; discriminate|constructor]. }
  assert (Hb : concat [take 9 demo_request; drop 9 demo_request] = demo_request ++ []) by (vm_compute; reflexivity).
  assert (Ha : short (url_authority demo_u)) by (vm_compute; reflexivity).
  assert (Hp : short (path_and_query demo_u)) by (vm_compute; reflexivity).
  assert (Hu : url_parse (push_str (push_str (push_str (url_scheme demo_u) (str "://")) (url_authority demo_u))
    (path_and_query demo_u)) = inl demo_u) by (vm_compute; reflexivity).
  exact (connect_request_exchange demo_u demo_request [] _ eq_refl Ha Hp Hu Hw Hl Hn Hb).
Defined.

Lemma connect_response_exchange_witness :
  fst (read_response [Chunk (demo_answer (str "204"))]) = Ok {| status := str "204" : StatusCode |} /\
  fst (read_response [Chunk (demo_answer (str "404"))]) = Err (WrongStatus (Some (str "404" : StatusCode))).
Proof.
  split.
  - assert (Hs : short (str "204")) by (vm_compute; reflexivity).
    assert (Hw : written (encode_response {| status := str "204" : StatusCode |}) = Ok (demo_answer (str "204"))) by (vm_compute; reflexivity).
    assert (Hl : lenN (demo_answer (str "204")) < 2 ^ 32) by (vm_compute; reflexivity).
    assert (Hn : Forall (fun c => c <> []) [demo_answer (str "204")]) by (constructor; [vm_compute; discriminate|constructor]).
    exact (connect_response_exchange (str "204") _ [] _ Hs Hw Hl Hn eq_refl).
  - assert (Hs : short (str "404")) by (vm_compute; reflexivity).
    assert (Hw : written (encode_response {| status := str "404" : StatusCode |}) = Ok (demo_answer (str "404"))) by (vm_compute; reflexivity).
    assert (Hl : lenN (demo_answer (str "404")) < 2 ^ 32) by (vm_compute; reflexivity).
    assert (Hn : Forall (fun c => c <> []) [demo_answer (str "404")]) by (constructor; [vm_compute; discriminate|constructor]).
    exact (connect_response_exchange (str "404") _ [] _ Hs Hw Hl Hn eq_refl).
Defined.

Definition demo_block : list byte := drop 2 demo_request.

Definition demo_block_headers : Headers.t :=
  match fst (Headers.decode demo_block) with Ok h => h | _ => ∅ end.

Lemma demo_block_decodes : fst (Headers.decode demo_block) = Ok demo_block_headers.
Proof.
  assert (Hd : match fst (Headers.decode demo_block) with Ok _ => true | _ => false end = true) by (vm_compute; reflexivity).
  unfold demo_block_headers. by destruct (fst (Headers.decode demo_block)).
Qed.

Lemma connect_request_accepts_witness :
  fst (decode_request (Frame.wire Frame.HEADERS demo_block ++ [])) = Ok {| url := demo_u |}.
Proof.
  assert (Hl : lenN demo_block < 2 ^ 62) by (vm_compute; reflexivity).
  apply (connect_request_accepts demo_block [] _ demo_u Hl demo_block_decodes).
  exists (str "example.org"), (str "/room"), (str "CONNECT"), (str "CONNECT").
  repeat split; vm_compute; reflexivity.
Defined.
End Demo.
