(* ===== verification/WsFrame.v ===== *)
(** * Frames of the WebSocket transport

    [internal_crates/web-transport-ws/src]: [stream.rs] (stream numbers), [error.rs]
    and [frame.rs]. One WebSocket message is one frame. [StreamId] and [VarInt] are
    their [u64]. *)
From Stdlib Require Import NArith Lia Bool.
From stdpp Require Import base list option numbers.
From S2P Require Import Prelude Buffers VarInt Utf8 Http3.
Import QuicVarInt(UnexpectedEnd, VarIntUnexpectedEnd).

#[local] Arguments N.modulo : simpl never.
#[local] Arguments N.pow : simpl never.

(** ** [stream.rs] *)

Inductive StreamDir := Bi | Uni.

#[export] Instance StreamDir_eq_dec : EqDecision StreamDir.
Proof. solve_decision. Defined.

Module StreamId.
(** [id << 2] loses the high bits; the [expect] is the panic. *)
Definition new (id : N) (dir : StreamDir) (is_server : bool) : outcome Empty_set N :=
  let stream_id := N.shiftl id 2 mod 2 ^ 64 in
  let stream_id := match dir with Uni => N.lor stream_id 0x02 | Bi => stream_id end in
  let stream_id := if is_server then N.lor stream_id 0x01 else stream_id in
  match QuicVarInt.from_u64 stream_id with Some v => Ok v | None => Panic end.

Definition dir (self : N) : StreamDir := if N.land self 0x02 =? 0 then Bi else Uni.

Definition server_initiated (self : N) : bool := negb (N.land self 0x01 =? 0).

Definition can_recv (is_server : bool) (self : N) : bool :=
  match dir self with
  | Uni => negb (Bool.eqb (server_initiated self) is_server)
  | Bi => true
  end.

Definition can_send (is_server : bool) (self : N) : bool :=
  match dir self with
  | Uni => Bool.eqb (server_initiated self) is_server
  | Bi => true
  end.
End StreamId.

(** ** [error.rs] *)

Module WsErr.
Inductive Error :=
  | InvalidFrameType (t : N)
  | NoText
  | NoPong
  | NoGenericFrames
  | InvalidStreamId
  | StreamClosed
  | ConnectionClosed (code : N) (reason : String)
  | StreamReset (code : N)
  | StreamStop (code : N)
  | Short
  | Closed.

(** [u32::try_from] *)
Definition to_u32 (code : N) : option N := if code <? 2 ^ 32 then Some code else None.

Definition session_error (self : Error) : option (N * String) :=
  match self with
  | ConnectionClosed code reason => (fun c => (c, reason)) <$> to_u32 code
  | _ => None
  end.

Definition stream_error (self : Error) : option N :=
  match self with
  | StreamReset code | StreamStop code => to_u32 code
  | _ => None
  end.
End WsErr.
Import WsErr(Error).

(** ** [frame.rs] *)

Definition RESET_STREAM : N := 0x04.
Definition STOP_SENDING : N := 0x05.
Definition STREAM : N := 0x08.
Definition STREAM_FIN : N := 0x09.
Definition APPLICATION_CLOSE : N := 0x1d.

#[local] Abbreviation dec A := (M (list byte) Error A).

Definition varint : dec N := map_err (fun _ => WsErr.Short) QuicVarInt.decode.

(** All that is left: what the handle [data] still covers. *)
Definition remainder : dec (list byte) := let! n := rem in bytes_of n.

Module Stream.
Record t := mk { id : N; data : list byte; fin : bool }.

Definition encode (self : t) : put unit :=
  do! put_bytes [bn (if fin self then STREAM_FIN else STREAM)] in
  do! QuicVarInt.encode (id self) in
  put_bytes (data self).

Definition decode (fin : bool) : dec t :=
  let! id := varint in let! data := remainder in ret (mk id data fin).
End Stream.

Module ResetStream.
Record t := mk { id : N; code : N }.

Definition encode (self : t) : put unit :=
  do! put_bytes [bn RESET_STREAM] in do! QuicVarInt.encode (id self) in QuicVarInt.encode (code self).

Definition decode : dec t := let! id := varint in let! code := varint in ret (mk id code).
End ResetStream.

Module StopSending.
Record t := mk { id : N; code : N }.

Definition encode (self : t) : put unit :=
  do! put_bytes [bn STOP_SENDING] in do! QuicVarInt.encode (id self) in QuicVarInt.encode (code self).

Definition decode : dec t := let! id := varint in let! code := varint in ret (mk id code).
End StopSending.

Module ConnectionClose.
Record t := mk { code : N; reason : String }.

Definition encode (self : t) : put unit :=
  do! put_bytes [bn APPLICATION_CLOSE] in do! QuicVarInt.encode (code self) in put_bytes (as_bytes (reason self)).

Definition decode : dec t := let! code := varint in let! data := remainder in ret (mk code (lossy data)).
End ConnectionClose.

Module WsFrame.
Inductive t :=
  | ResetStream (f : ResetStream.t)
  | StopSending (f : StopSending.t)
  | ConnectionClose (f : ConnectionClose.t)
  | Stream (f : Stream.t).

Definition encode (self : t) : outcome Empty_set (list byte) :=
  written match self with
          | ResetStream f => ResetStream.encode f
          | StopSending f => StopSending.encode f
          | Stream f => Stream.encode f
          | ConnectionClose f => ConnectionClose.encode f
          end.

(** The body, by the type. *)
Definition decode_body (frame_type : N) : dec t :=
  if frame_type =? RESET_STREAM then let! f := ResetStream.decode in ret (ResetStream f)
  else if frame_type =? STOP_SENDING then let! f := StopSending.decode in ret (StopSending f)
  else if frame_type =? STREAM then let! f := Stream.decode false in ret (Stream f)
  else if frame_type =? STREAM_FIN then let! f := Stream.decode true in ret (Stream f)
  else if frame_type =? APPLICATION_CLOSE then let! f := ConnectionClose.decode in ret (ConnectionClose f)
  else raise (WsErr.InvalidFrameType frame_type).

Definition decode (data : list byte) : outcome Error t :=
  match data with
  | [] => Err WsErr.Short
  | b :: data => fst (decode_body (nb b) data)
  end.
End WsFrame.

(** ** Stream numbers *)

Lemma stream_id_low (id : N) (dir : StreamDir) (is_server : bool) :
  id < 2 ^ 62 ->
  let bits := (match dir with Uni => 2 | Bi => 0 end) + N.b2n is_server in
  StreamId.new id dir is_server = if id <? 2 ^ 60 then Ok (4 * id + bits) else Panic.
Proof.
  intros Hid bits. assert (Hb : bits < 4) by (subst bits; destruct dir, is_server; simpl; lia).
  assert (E : StreamId.new id dir is_server =
    match QuicVarInt.from_u64 (4 * id + bits) with Some v => Ok v | None => Panic end).
  { unfold StreamId.new. rewrite N.shiftl_mul_pow2, N.mod_small by lia. rewrite <- N.shiftl_mul_pow2.
    replace (4 * id + bits) with (id * 2 ^ 2 + bits) by lia. rewrite <- lor_shiftl_add by done.
    subst bits. destruct dir, is_server; cbn [N.b2n N.add Pos.add]; rewrite ?N.lor_0_r, <- ?N.lor_assoc; done. }
  rewrite E. unfold QuicVarInt.from_u64.
  destruct (N.ltb_spec id (2 ^ 60)), (N.ltb_spec (4 * id + bits) (2 ^ 62)); done || lia.
Qed.

Lemma stream_id_read (id : N) (dir : StreamDir) (is_server : bool) :
  let x := 4 * id + ((match dir with Uni => 2 | Bi => 0 end) + N.b2n is_server) in
  StreamId.dir x = dir /\ StreamId.server_initiated x = is_server.
Proof.
  intros x. assert (H2 : N.land x 2 = N.land (x mod 4) 2).
  { change 4 with (2 ^ 2). by rewrite <- N.land_ones, <- N.land_assoc. }
  assert (H1 : N.land x 1 = N.land (x mod 4) 1).
  { change 4 with (2 ^ 2). by rewrite <- N.land_ones, <- N.land_assoc. }
  assert (Hm : x mod 4 = (match dir with Uni => 2 | Bi => 0 end) + N.b2n is_server).
  { subst x. rewrite N.add_comm, N.mul_comm, N.Div0.mod_add. apply N.mod_small. destruct dir, is_server; simpl; lia. }
  unfold StreamId.dir, StreamId.server_initiated. rewrite H1, H2, Hm. by destruct dir, is_server.
Qed.

(** The numbers of streams: up to 2^60 of either kind and side have a
    number each, all different, from which direction and side are read back; the side
    that opened a stream can always send on it and receives only if it is
    bidirectional, its peer the other way round. From 2^60 on, opening a stream
    panics. *)
Theorem stream_ids (id : N) (d : StreamDir) (is_server : bool) :
  id < 2 ^ 60 ->
  (exists x, StreamId.new id d is_server = Ok x /\ x < 2 ^ 62 /\
    StreamId.dir x = d /\ StreamId.server_initiated x = is_server /\
    StreamId.can_send is_server x = true /\ StreamId.can_recv is_server x = bool_decide (d = Bi) /\
    StreamId.can_recv (negb is_server) x = true /\ StreamId.can_send (negb is_server) x = bool_decide (d = Bi) /\
    forall id' d' s', id' < 2 ^ 60 -> StreamId.new id' d' s' = Ok x -> id' = id /\ d' = d /\ s' = is_server) /\
  StreamId.new (2 ^ 60 + id) d is_server = Panic.
Proof.
  intros Hid. split.
  - rewrite stream_id_low by lia. destruct (N.ltb_spec id (2 ^ 60)); [|lia]. eexists. split; [done|].
    pose proof (stream_id_read id d is_server) as [Hd Hs]. split; [destruct d, is_server; simpl; lia|].
    split; [done|]. split; [done|]. unfold StreamId.can_send, StreamId.can_recv. rewrite Hd, Hs.
    do 4 (split; [by destruct d, is_server|]). intros id' d' s' Hid' E. rewrite stream_id_low in E by lia.
    destruct (N.ltb_spec id' (2 ^ 60)); [|done]. pose proof (stream_id_read id' d' s') as [Hd' Hs'].
    assert (E' : 4 * id' + ((match d' with Uni => 2 | Bi => 0 end) + N.b2n s') =
      4 * id + ((match d with Uni => 2 | Bi => 0 end) + N.b2n is_server)) by congruence.
    rewrite E' in Hd', Hs'. rewrite Hd in Hd'. rewrite Hs in Hs'. subst d' s'. split; [lia|done].
  - rewrite stream_id_low by lia. by destruct (N.ltb_spec (2 ^ 60 + id) (2 ^ 60)); [lia|].
Qed.

Lemma stream_ids_witness :
  StreamId.new 1 Uni true = Ok 7 /\
  exists x, StreamId.new 1 Uni true = Ok x /\ x < 2 ^ 62 /\ StreamId.dir x = Uni.
Proof.
  split; [reflexivity|]. assert (H : 1 < 2 ^ 60) by done.
  destruct (proj1 (stream_ids 1 Uni true H)) as (x & E & Hx & Hd & _). exists x. split; [exact E|]. split; [exact Hx|exact Hd].
Defined.

(** ** Frames *)

Module Frames.
(** Numbers and codes are [VarInt]s. *)
Definition in_range (f : WsFrame.t) : Prop :=
  match f with
  | WsFrame.ResetStream f => ResetStream.id f < 2 ^ 62 /\ ResetStream.code f < 2 ^ 62
  | WsFrame.StopSending f => StopSending.id f < 2 ^ 62 /\ StopSending.code f < 2 ^ 62
  | WsFrame.ConnectionClose f => ConnectionClose.code f < 2 ^ 62
  | WsFrame.Stream f => Stream.id f < 2 ^ 62
  end.

(** The bytes of a frame. *)
Definition wire (f : WsFrame.t) : list byte :=
  match f with
  | WsFrame.ResetStream f =>
      bn RESET_STREAM :: varint_bytes (ResetStream.id f) ++ varint_bytes (ResetStream.code f)
  | WsFrame.StopSending f =>
      bn STOP_SENDING :: varint_bytes (StopSending.id f) ++ varint_bytes (StopSending.code f)
  | WsFrame.ConnectionClose f =>
      bn APPLICATION_CLOSE :: varint_bytes (ConnectionClose.code f) ++ as_bytes (ConnectionClose.reason f)
  | WsFrame.Stream f =>
      bn (if Stream.fin f then STREAM_FIN else STREAM) :: varint_bytes (Stream.id f) ++ Stream.data f
  end.

Lemma encode_wire f : in_range f -> WsFrame.encode f = Ok (wire f).
Proof.
  destruct f as [f|f|f|f]; cbn [in_range]; intros Hr; unfold WsFrame.encode, written;
    [unfold ResetStream.encode|unfold StopSending.encode|unfold ConnectionClose.encode|unfold Stream.encode];
    unfold bind, put_bytes; rewrite !quic_put by tauto; by rewrite ?app_nil_l, <- ?app_assoc.
Qed.

Lemma varint_wire x rest : x < 2 ^ 62 -> varint (varint_bytes x ++ rest) = (Ok x, rest).
Proof. intros Hx. unfold varint, map_err. by rewrite quic_round_trip. Qed.

Lemma remainder_all l : remainder l = (Ok l, []).
Proof. unfold remainder, bind. cbn [rem]. pose proof (bytes_of_app (E:=Error) l []) as H. by rewrite app_nil_r in H. Qed.

Lemma decode_wire f : in_range f -> WsFrame.decode (wire f) = Ok f.
Proof.
  destruct f as [[id code]|[id code]|[code reason]|[id data fin]]; cbn [in_range wire WsFrame.decode]; cbn -[WsFrame.decode_body nb bn varint_bytes app N.pow];
    intros Hr.
  - unfold WsFrame.decode_body. rewrite bn_small by done. cbn [N.eqb Pos.eqb RESET_STREAM]. unfold ResetStream.decode, bind.
    rewrite varint_wire by tauto. rewrite <- (app_nil_r (varint_bytes code)). by rewrite varint_wire by tauto.
  - unfold WsFrame.decode_body. rewrite bn_small by done. cbn [N.eqb Pos.eqb RESET_STREAM STOP_SENDING]. unfold StopSending.decode, bind.
    rewrite varint_wire by tauto. rewrite <- (app_nil_r (varint_bytes code)). by rewrite varint_wire by tauto.
  - unfold WsFrame.decode_body. rewrite bn_small by done. cbn [N.eqb Pos.eqb RESET_STREAM STOP_SENDING STREAM STREAM_FIN APPLICATION_CLOSE].
    unfold ConnectionClose.decode, bind. rewrite varint_wire, remainder_all by done. unfold ret. by rewrite lossy_string.
  - unfold WsFrame.decode_body. destruct fin; rewrite bn_small by done; cbn [N.eqb Pos.eqb RESET_STREAM STOP_SENDING STREAM STREAM_FIN];
      unfold Stream.decode, bind; by rewrite varint_wire, remainder_all.
Qed.
End Frames.

Lemma varint_lt r x r' : varint r = (Ok x, r') -> x < 2 ^ 62.
Proof.
  unfold varint, map_err. rewrite quic_decode. pose proof (decode_u64_lt r) as Hl. unfold decode_u64, bind, decode, Decode_VarInt in Hl.
  destruct (decode_varint r) as [[v|e|] s]; intros H; simplify_eq. by eapply Hl.
Qed.

Lemma varint_outcome r :
  match varint r with (Ok x, _) => x < 2 ^ 62 | (Err e, _) => e = WsErr.Short | (Panic, _) => False end.
Proof.
  destruct (varint r) as [[x|e|] r'] eqn:E; [by eapply varint_lt| |].
  - unfold varint, map_err in E. destruct (QuicVarInt.decode r) as [[]]; by simplify_eq.
  - unfold varint, map_err in E. pose proof (growing_varint r []) as H. by destruct (QuicVarInt.decode r) as [[]].
Qed.

Lemma two_varints {A} (f : N -> N -> A) (g : A -> WsFrame.t) r :
  match fst ((let! a := let! id := varint in let! code := varint in ret (f id code) in ret (g a)) r) with
  | Ok b => exists x y, x < 2 ^ 62 /\ y < 2 ^ 62 /\ b = g (f x y)
  | Err e => e = WsErr.Short
  | Panic => False
  end.
Proof.
  unfold bind. pose proof (varint_outcome r) as H1. destruct (varint r) as [[x|e|] r1]; [|done|done].
  pose proof (varint_outcome r1) as H2. destruct (varint r1) as [[y|e|] r2]; [|done|done]. by exists x, y.
Qed.

Lemma varint_and_rest {A} (f : N -> list byte -> A) (g : A -> WsFrame.t) r :
  match fst ((let! a := let! id := varint in let! data := remainder in ret (f id data) in ret (g a)) r) with
  | Ok b => exists x d, x < 2 ^ 62 /\ b = g (f x d)
  | Err e => e = WsErr.Short
  | Panic => False
  end.
Proof.
  unfold bind. pose proof (varint_outcome r) as H1. destruct (varint r) as [[x|e|] r1]; [|done|done].
  rewrite Frames.remainder_all. by exists x, r1.
Qed.

(** Every frame whose numbers are varints is one message,
    from which it is read back. Of the messages a peer may send, each is a frame with
    numbers in range, or is refused: as short, or, if it has a first byte that is none
    of the five types, with this byte. *)
Theorem ws_frames (f : WsFrame.t) (message : list byte) :
  (Frames.in_range f -> exists bs, WsFrame.encode f = Ok bs /\ WsFrame.decode bs = Ok f) /\
  match WsFrame.decode message with
  | Ok f => Frames.in_range f
  | Err (WsErr.InvalidFrameType t) =>
      (exists b rest, message = b :: rest /\ t = nb b) /\ t ∉ [RESET_STREAM; STOP_SENDING; STREAM; STREAM_FIN; APPLICATION_CLOSE]
  | Err e => e = WsErr.Short
  | Panic => False
  end.
Proof.
  split.
  { intros Hr. exists (Frames.wire f). by rewrite Frames.encode_wire, Frames.decode_wire. }
  destruct message as [|b message]; [done|]. cbn [WsFrame.decode]. unfold WsFrame.decode_body.
  destruct (N.eqb_spec (nb b) RESET_STREAM) as [|H1].
  { pose proof (two_varints ResetStream.mk WsFrame.ResetStream message) as H. revert H. unfold ResetStream.decode.
    destruct (fst _) as [a|er|]; intros H; [|by subst er|done]. by destruct H as (x & y & Hx & Hy & ->). }
  destruct (N.eqb_spec (nb b) STOP_SENDING) as [|H2].
  { pose proof (two_varints StopSending.mk WsFrame.StopSending message) as H. revert H. unfold StopSending.decode.
    destruct (fst _) as [a|er|]; intros H; [|by subst er|done]. by destruct H as (x & y & Hx & Hy & ->). }
  destruct (N.eqb_spec (nb b) STREAM) as [|H3].
  { pose proof (varint_and_rest (fun id data => Stream.mk id data false) WsFrame.Stream message) as H. revert H. unfold Stream.decode.
    destruct (fst _) as [a|er|]; intros H; [|by subst er|done]. by destruct H as (x & y & Hx & ->). }
  destruct (N.eqb_spec (nb b) STREAM_FIN) as [|H4].
  { pose proof (varint_and_rest (fun id data => Stream.mk id data true) WsFrame.Stream message) as H. revert H. unfold Stream.decode.
    destruct (fst _) as [a|er|]; intros H; [|by subst er|done]. by destruct H as (x & y & Hx & ->). }
  destruct (N.eqb_spec (nb b) APPLICATION_CLOSE) as [|H5].
  { pose proof (varint_and_rest (fun code data => ConnectionClose.mk code (lossy data)) WsFrame.ConnectionClose message) as H. revert H. unfold ConnectionClose.decode.
    destruct (fst _) as [a|er|]; intros H; [|by subst er|done]. by destruct H as (x & y & Hx & ->). }
  cbn [fst raise]. split; [by exists b, message|].
  rewrite !not_elem_of_cons. repeat split; try done. apply not_elem_of_nil.
Qed.

Lemma ws_frames_witness :
  WsFrame.encode (WsFrame.Stream (Stream.mk 2 [x61; x62] true)) = Ok [x09; x02; x61; x62] /\
  exists bs, WsFrame.encode (WsFrame.Stream (Stream.mk 2 [x61; x62] true)) = Ok bs /\
    WsFrame.decode bs = Ok (WsFrame.Stream (Stream.mk 2 [x61; x62] true)).
Proof.
  split; [vm_compute; reflexivity|].
  assert (H : Frames.in_range (WsFrame.Stream (Stream.mk 2 [x61; x62] true))) by (vm_compute; reflexivity).
  exact (proj1 (ws_frames _ []) H).
Defined.
