(* ===== verification/WsSession.v ===== *)
(** * Sessions over WebSocket

    [internal_crates/web-transport-ws/src/session.rs]: the backend task
    ([SessionState]), which multiplexes the streams of a session over one WebSocket,
    and the handles of the application ([Session], [SendStream], [RecvStream]).

    The channels between the two are [tokio]'s. What is sent into a channel is an
    [effect], recorded in order with the name of the channel; what a channel, a
    [select!] or the WebSocket answers is an argument. *)
From Stdlib Require Import NArith Lia Bool.
From stdpp Require Import base list gmap option numbers.
From S2P Require Import Prelude Buffers VarInt Utf8 Http3 WsFrame.
Import WsErr(Error).

#[local] Arguments N.modulo : simpl never.
#[local] Arguments N.pow : simpl never.

(** The channels of a stream, by the stream a session opened itself, or by count of
    those made for streams of the peer. A stream has three, one name serves them. *)
Inductive chan := Opened (id : N) | Accepted (n : nat).

#[export] Instance chan_eq_dec : EqDecision chan.
Proof. solve_decision. Defined.

Record SendState := { inbound_stopped : chan }.
Record RecvState := { inbound_data : chan; inbound_reset : chan }.

(** What the backend does to the outside. *)
Inductive effect :=
  | ToData (c : chan) (s : Stream.t)
  | ToReset (c : chan) (r : ResetStream.t)
  | ToStop (c : chan) (s : StopSending.t)
  | AcceptUni (id : N) (c : chan)
  | AcceptBi (id : N) (c : chan)
  | WsBinary (bs : list byte)
  | WsPong (data : list byte)
  | SetClosed (e : Error).

(** [tungstenite::Message], and an item of the WebSocket as a stream. *)
Inductive Message := Binary (bs : list byte) | Text | Ping (data : list byte) | Pong | Close | RawFrame.
Inductive ws_item := Item (m : Message) | WsFault | WsEnd.

(** ** The backend *)

Module Backend.
Record t := mk {
  is_server : bool;
  send_streams : gmap N SendState;
  recv_streams : gmap N RecvState;
  channels : nat;
  log : list effect;
}.

#[local] Abbreviation run A := (M t Error A).

Definition new (is_server : bool) : t := mk is_server ∅ ∅ 0 [].

Definition with_send f s := mk (is_server s) (f (send_streams s)) (recv_streams s) (channels s) (log s).
Definition with_recv f s := mk (is_server s) (send_streams s) (f (recv_streams s)) (channels s) (log s).

Definition get : run t := fun s => (Ok s, s).
Definition modify (f : t -> t) : run unit := fun s => (Ok tt, f s).

Definition emit (e : effect) : run unit :=
  modify (fun s => mk (is_server s) (send_streams s) (recv_streams s) (channels s) (log s ++ [e])).

(** [mpsc::unbounded_channel()] *)
Definition channel : run chan := fun s =>
  (Ok (Accepted (channels s)), mk (is_server s) (send_streams s) (recv_streams s) (S (channels s)) (log s)).

(** A [send().await.map_err(|_| Error::Closed)?] that succeeds if [ok]. *)
Definition send (ok : bool) (e : effect) : run unit := if ok then emit e else raise WsErr.Closed.

Definition recv_stream (ok : bool) (stream : Stream.t) : run unit :=
  let! self := get in
  let id := Stream.id stream in
  if negb (StreamId.can_recv (is_server self) id) then raise WsErr.InvalidStreamId
  else
    match recv_streams self !! id with
    | None =>
        if Bool.eqb (is_server self) (StreamId.server_initiated id) then ret tt
        else
          let! c := channel in
          do! match StreamId.dir id with
              | Uni => send ok (AcceptUni id c)
              | Bi =>
                  do! modify (with_send <[id := {| inbound_stopped := c |}]>) in
                  send ok (AcceptBi id c)
              end in
          do! emit (ToData c stream) in
          if Stream.fin stream then ret tt
          else modify (with_recv <[id := {| inbound_data := c; inbound_reset := c |}]>)
    | Some e =>
        do! emit (ToData (inbound_data e) stream) in
        if Stream.fin stream then modify (with_recv (delete id)) else ret tt
    end.

Definition recv_reset (reset : ResetStream.t) : run unit :=
  let! self := get in
  let id := ResetStream.id reset in
  if negb (StreamId.can_recv (is_server self) id) then raise WsErr.InvalidStreamId
  else
    match recv_streams self !! id with
    | Some e => do! emit (ToReset (inbound_reset e) reset) in modify (with_recv (delete id))
    | None => ret tt
    end.

Definition recv_stop (stop : StopSending.t) : run unit :=
  let! self := get in
  let id := StopSending.id stop in
  if negb (StreamId.can_send (is_server self) id) then raise WsErr.InvalidStreamId
  else
    match send_streams self !! id with
    | Some stream => emit (ToStop (inbound_stopped stream) stop)
    | None => ret tt
    end.

Definition recv_frame (ok : bool) (frame : WsFrame.t) : run unit :=
  match frame with
  | WsFrame.Stream stream => recv_stream ok stream
  | WsFrame.ResetStream reset => recv_reset reset
  | WsFrame.StopSending stop => recv_stop stop
  | WsFrame.ConnectionClose close =>
      emit (SetClosed (WsErr.ConnectionClosed (ConnectionClose.code close) (ConnectionClose.reason close)))
  end.

Definition send_frame (ok : bool) (frame : WsFrame.t) : run unit :=
  do! match frame with
      | WsFrame.ResetStream reset => modify (with_send (delete (ResetStream.id reset)))
      | WsFrame.Stream stream =>
          if Stream.fin stream then modify (with_send (delete (Stream.id stream))) else ret tt
      | WsFrame.StopSending stop => modify (with_recv (delete (StopSending.id stop)))
      | WsFrame.ConnectionClose _ => ret tt
      end in
  match WsFrame.encode frame with
  | Ok data => send ok (WsBinary data)
  | _ => panic
  end.

(** What is ready when the [select!] is polled. *)
Record ready := {
  message : option ws_item;
  create_uni : option (N * SendState);
  create_bi : option (N * SendState * RecvState);
  outbound_priority : option (option WsFrame.t);
  outbound : option (option WsFrame.t);
  closed : option Error;
}.

Definition send_next (ok : bool) (frame : option WsFrame.t) : run bool :=
  match frame with
  | Some frame => do! send_frame ok frame in ret true
  | None => raise WsErr.Closed
  end.

Definition recv_item (ok : bool) (i : ws_item) : run bool :=
  match i with
  | WsEnd | WsFault => raise WsErr.Closed
  | Item (Binary data) =>
      match WsFrame.decode data with
      | Ok frame => do! recv_frame ok frame in ret true
      | Err e => raise e
      | Panic => panic
      end
  | Item Close => do! emit (SetClosed WsErr.Closed) in ret false
  | Item Text => raise WsErr.NoText
  | Item (Ping data) => do! send ok (WsPong data) in ret true
  | Item Pong => raise WsErr.NoPong
  | Item RawFrame => raise WsErr.NoGenericFrames
  end.

(** One turn of [run]: [biased], so the first branch that is ready; [false] is the
    [return Ok(())]. Nothing ready leaves the loop where it is. *)
Definition turn (r : ready) (ok : bool) : run bool :=
  match message r, create_uni r, create_bi r, outbound_priority r, outbound r, closed r with
  | Some i, _, _, _, _, _ => recv_item ok i
  | None, Some (id, send), _, _, _, _ => do! modify (with_send <[id := send]>) in ret true
  | None, None, Some (id, send, recv), _, _, _ =>
      do! modify (with_send <[id := send]>) in
      do! modify (with_recv <[id := recv]>) in ret true
  | None, None, None, Some frame, _, _ => send_next ok frame
  | None, None, None, None, Some frame, _ => send_next ok frame
  | None, None, None, None, None, Some e => raise e
  | None, None, None, None, None, None => ret true
  end.

(** [run] over any number of polls; [None] is still running. *)
Fixpoint run_turns (l : list (ready * bool)) (s : t) : option (outcome Error unit) * t :=
  match l with
  | [] => (None, s)
  | (r, ok) :: l =>
      match turn r ok s with
      | (Ok true, s) => run_turns l s
      | (Ok false, s) => (Some (Ok tt), s)
      | (Err e, s) => (Some (Err e), s)
      | (Panic, s) => (Some Panic, s)
      end
  end.

(** The task that [Session::new] spawns: [run], then the reason. *)
Definition task (l : list (ready * bool)) (s : t) : option Error * t :=
  match run_turns l s with
  | (None, s) | (Some Panic, s) => (None, s)
  | (Some (Ok _), s) => (Some WsErr.Closed, snd (emit (SetClosed WsErr.Closed) s))
  | (Some (Err e), s) => (Some e, snd (emit (SetClosed e) s))
  end.
End Backend.

(** ** Whose channel is whose *)

(** The streams handed to the application, with the channel of each. *)
Definition accepts (log : list effect) : list (chan * N) :=
  omap (fun e => match e with AcceptUni id c | AcceptBi id c => Some (c, id) | _ => None end) log.

(** The handle that reads from [c] is that of the stream [id]. *)
Definition belongs (log : list effect) (c : chan) (id : N) : Prop := c = Opened id \/ (c, id) ∈ accepts log.

(** What an effect must be like on the side [srv]. *)
Definition effect_ok (srv : bool) (log : list effect) (e : effect) : Prop :=
  match e with
  | ToData c s => belongs log c (Stream.id s) /\ StreamId.can_recv srv (Stream.id s) = true
  | ToReset c r => belongs log c (ResetStream.id r) /\ StreamId.can_recv srv (ResetStream.id r) = true
  | ToStop c s => belongs log c (StopSending.id s) /\ StreamId.can_send srv (StopSending.id s) = true
  | AcceptUni id _ => StreamId.dir id = Uni /\ StreamId.server_initiated id = negb srv
  | AcceptBi id _ => StreamId.dir id = Bi /\ StreamId.server_initiated id = negb srv
  | _ => True
  end.

Definition log_ok (s : Backend.t) : Prop :=
  Forall (effect_ok (Backend.is_server s) (Backend.log s)) (Backend.log s) /\
  NoDup (accepts (Backend.log s)).*1 /\
  Forall (fun c => exists n, c = Accepted n /\ (n < Backend.channels s)%nat) (accepts (Backend.log s)).*1.

(** The state is well typed: streams are in the table of a direction they have, with
    channels of their own. *)
Definition well_typed (s : Backend.t) : Prop :=
  log_ok s /\
  map_Forall (fun id e => StreamId.can_recv (Backend.is_server s) id = true /\
    belongs (Backend.log s) (inbound_data e) id /\ belongs (Backend.log s) (inbound_reset e) id) (Backend.recv_streams s) /\
  map_Forall (fun id e => StreamId.can_send (Backend.is_server s) id = true /\
    belongs (Backend.log s) (inbound_stopped e) id) (Backend.send_streams s).

(** What [open_uni] and [open_bi] send to the backend. *)
Definition opened (srv : bool) (d : StreamDir) (id : N) : Prop :=
  exists n, n < 2 ^ 60 /\ StreamId.new n d srv = Ok id.

Definition ready_ok (srv : bool) (r : Backend.ready) : Prop :=
  match Backend.create_uni r with
  | Some (id, send) => opened srv Uni id /\ inbound_stopped send = Opened id
  | None => True
  end /\
  match Backend.create_bi r with
  | Some (id, send, recv) => opened srv Bi id /\ inbound_stopped send = Opened id /\
      inbound_data recv = Opened id /\ inbound_reset recv = Opened id
  | None => True
  end.

Lemma opened_sends srv d id : opened srv d id -> StreamId.can_send srv id = true /\ StreamId.dir id = d.
Proof.
  intros (n & Hn & E). rewrite stream_id_low in E by lia. destruct (N.ltb_spec n (2 ^ 60)); [|done].
  injection E as <-. unfold StreamId.can_send. destruct (stream_id_read n d srv) as [-> ->]. by destruct d, srv.
Qed.

Lemma opened_bi_recv srv id : opened srv Bi id -> StreamId.can_recv srv id = true.
Proof. intros H. apply opened_sends in H as [_ Hd]. unfold StreamId.can_recv. by rewrite Hd. Qed.

Lemma accepts_app l k : accepts (l ++ k) = accepts l ++ accepts k.
Proof. apply omap_app. Qed.

Lemma belongs_app l k c id : belongs l c id -> belongs (l ++ k) c id.
Proof. intros [->|H]; [by left|right]. rewrite accepts_app. set_solver. Qed.

Lemma effect_ok_app srv l k e : effect_ok srv l e -> effect_ok srv (l ++ k) e.
Proof. destruct e; simpl; intuition auto using belongs_app. Qed.

(** No accept among the new effects. *)
Lemma log_ok_app s s' k :
  Backend.is_server s' = Backend.is_server s -> Backend.log s' = Backend.log s ++ k ->
  (Backend.channels s <= Backend.channels s')%nat -> accepts k = [] ->
  Forall (effect_ok (Backend.is_server s) (Backend.log s)) k -> log_ok s -> log_ok s'.
Proof.
  intros E1 E2 Hc Ha Hk (H1 & H2 & H3). unfold log_ok. rewrite E1, E2, accepts_app, Ha, app_nil_r. split; [|split].
  - apply Forall_app. split; eapply Forall_impl; try done; intros; by apply effect_ok_app.
  - done.
  - eapply Forall_impl; [done|]. intros c (n & -> & Hn). exists n. split; [done|lia].
Qed.

Lemma well_typed_app s s' k :
  Backend.is_server s' = Backend.is_server s -> Backend.log s' = Backend.log s ++ k ->
  Backend.recv_streams s' = Backend.recv_streams s -> Backend.send_streams s' = Backend.send_streams s ->
  (Backend.channels s <= Backend.channels s')%nat -> accepts k = [] ->
  Forall (effect_ok (Backend.is_server s) (Backend.log s)) k -> well_typed s -> well_typed s'.
Proof.
  intros E1 E2 E3 E4 Hc Ha Hk (H1 & H2 & H3). split; [by eapply log_ok_app|]. rewrite E1, E2, E3, E4. split.
  - eapply map_Forall_impl; [done|]. intros id e (? & ? & ?). split; [done|]. split; by apply belongs_app.
  - eapply map_Forall_impl; [done|]. intros id e (? & ?). split; [done|]. by apply belongs_app.
Qed.

Lemma well_typed_emit e s s' :
  effect_ok (Backend.is_server s) (Backend.log s) e -> accepts [e] = [] -> well_typed s ->
  s' = snd (Backend.emit e s) -> well_typed s'.
Proof. intros He Ha Hs ->. apply (well_typed_app s _ [e]); try done. by constructor. Qed.

Lemma well_typed_with_recv f s :
  well_typed s -> (forall id e, f (Backend.recv_streams s) !! id = Some e -> Backend.recv_streams s !! id = Some e \/
    StreamId.can_recv (Backend.is_server s) id = true /\ belongs (Backend.log s) (inbound_data e) id /\
    belongs (Backend.log s) (inbound_reset e) id) ->
  well_typed (Backend.with_recv f s).
Proof. intros (H1 & H2 & H3) Hf. split; [done|]. split; [|done]. intros id e He. destruct (Hf id e He) as [H|H]; [by apply H2|done]. Qed.

Lemma well_typed_with_send f s :
  well_typed s -> (forall id e, f (Backend.send_streams s) !! id = Some e -> Backend.send_streams s !! id = Some e \/
    StreamId.can_send (Backend.is_server s) id = true /\ belongs (Backend.log s) (inbound_stopped e) id) ->
  well_typed (Backend.with_send f s).
Proof. intros (H1 & H2 & H3) Hf. split; [done|]. split; [done|]. intros id e He. destruct (Hf id e He) as [H|H]; [by apply H3|done]. Qed.

Lemma well_typed_delete_recv id s : well_typed s -> well_typed (Backend.with_recv (delete id) s).
Proof. intros H. apply well_typed_with_recv; [done|]. intros id' e He. left. by apply lookup_delete_Some in He as [_ He]. Qed.

Lemma well_typed_delete_send id s : well_typed s -> well_typed (Backend.with_send (delete id) s).
Proof. intros H. apply well_typed_with_send; [done|]. intros id' e He. left. by apply lookup_delete_Some in He as [_ He]. Qed.

(** A stream of the peer that is not in the table is handed to the application. *)
Definition accept_effect (id : N) (c : chan) : effect :=
  match StreamId.dir id with Uni => AcceptUni id c | Bi => AcceptBi id c end.

Definition accepted (stream : Stream.t) (s : Backend.t) : Backend.t :=
  let id := Stream.id stream in
  let c := Accepted (Backend.channels s) in
  Backend.mk (Backend.is_server s)
    (match StreamId.dir id with
     | Bi => <[id := {| inbound_stopped := c |}]> (Backend.send_streams s)
     | Uni => Backend.send_streams s
     end)
    (if Stream.fin stream then Backend.recv_streams s
     else <[id := {| inbound_data := c; inbound_reset := c |}]> (Backend.recv_streams s))
    (S (Backend.channels s))
    (Backend.log s ++ [accept_effect id c; ToData c stream]).

Lemma recv_stream_new stream s :
  StreamId.server_initiated (Stream.id stream) = negb (Backend.is_server s) ->
  Backend.recv_streams s !! Stream.id stream = None ->
  Backend.recv_stream true stream s = (Ok tt, accepted stream s).
Proof.
  intros Hs Hn. unfold Backend.recv_stream. unfold bind at 1. cbn [Backend.get].
  assert (Hc : StreamId.can_recv (Backend.is_server s) (Stream.id stream) = true).
  { unfold StreamId.can_recv. rewrite Hs. by destruct (StreamId.dir _), (Backend.is_server s). }
  rewrite Hc, Hn, Hs. cbn [negb]. replace (Bool.eqb _ _) with false by (by destruct (Backend.is_server s)).
  unfold accepted, accept_effect. unfold bind, Backend.channel, Backend.send, Backend.emit, Backend.modify, Backend.with_send, Backend.with_recv, ret.
  destruct (StreamId.dir (Stream.id stream)), (Stream.fin stream); cbn; by rewrite <- app_assoc.
Qed.

Lemma well_typed_accepted stream s :
  StreamId.server_initiated (Stream.id stream) = negb (Backend.is_server s) ->
  well_typed s -> well_typed (accepted stream s).
Proof.
  intros Hs Hw. pose proof Hw as [(H1 & H2 & H3) _]. set (id := Stream.id stream) in *. set (c := Accepted (Backend.channels s)).
  assert (Hc : StreamId.can_recv (Backend.is_server s) id = true).
  { unfold StreamId.can_recv. rewrite Hs. by destruct (StreamId.dir _), (Backend.is_server s). }
  assert (Ha : accepts (Backend.log s ++ [accept_effect id c; ToData c stream]) = accepts (Backend.log s) ++ [(c, id)]).
  { rewrite accepts_app. unfold accept_effect. by destruct (StreamId.dir id). }
  set (l' := Backend.log s ++ [accept_effect id c; ToData c stream]) in *.
  assert (Hb : belongs l' c id) by (right; rewrite Ha; set_solver).
  assert (Hfresh : c ∉ (accepts (Backend.log s)).*1).
  { intros Hin. rewrite Forall_forall in H3. destruct (H3 _ Hin) as (n & E & Hn). subst c. simplify_eq. lia. }
  assert (Hbase : well_typed (Backend.mk (Backend.is_server s) (Backend.send_streams s) (Backend.recv_streams s) (S (Backend.channels s)) l')).
  { destruct Hw as (_ & H4 & H5). split; [split; [|split]|split]; cbn [Backend.log Backend.is_server Backend.channels Backend.recv_streams Backend.send_streams].
    - apply Forall_app. split; [eapply Forall_impl; [done|]; intros; by apply effect_ok_app|].
      constructor; [|constructor; [done|constructor]]. unfold accept_effect. by destruct (StreamId.dir id) eqn:Ed.
    - rewrite Ha, fmap_app. apply NoDup_app. split; [done|]. split; [|apply NoDup_singleton]. intros x Hx Hx'.
      apply list_elem_of_singleton in Hx' as ->. by apply Hfresh.
    - rewrite Ha, fmap_app, Forall_app. split; [|repeat constructor; simpl; exists (Backend.channels s); split; [done|lia]].
      eapply Forall_impl; [done|]. intros x (n & -> & Hn). exists n. split; [done|lia].
    - eapply map_Forall_impl; [done|]. intros i e (? & ? & ?). split; [done|]. split; by apply belongs_app.
    - eapply map_Forall_impl; [done|]. intros i e (? & ?). split; [done|]. by apply belongs_app. }
  assert (Hrecv : well_typed (Backend.with_recv (fun m => if Stream.fin stream then m
    else <[id := {| inbound_data := c; inbound_reset := c |}]> m) (Backend.mk (Backend.is_server s) (Backend.send_streams s) (Backend.recv_streams s) (S (Backend.channels s)) l'))).
  { apply well_typed_with_recv; [done|]. cbn [Backend.recv_streams Backend.is_server Backend.log]. intros i e He.
    destruct (Stream.fin stream); [by left|]. apply lookup_insert_Some in He as [[<- <-]|[_ He]]; [by right|by left]. }
  apply (well_typed_with_send (fun m => match StreamId.dir id with Bi => <[id := {| inbound_stopped := c |}]> m | Uni => m end)) in Hrecv.
  - exact Hrecv.
  - cbn [Backend.send_streams Backend.with_recv Backend.is_server Backend.log]. intros i e He. destruct (StreamId.dir id) eqn:Ed; [|by left].
    apply lookup_insert_Some in He as [[<- <-]|[_ He]]; [right|by left]. split; [|done]. unfold StreamId.can_send. by rewrite Ed.
Qed.

(** A result of an operation of the backend: well typed if it goes on, and nothing
    wrong was sent in any case. *)
Definition keeps_typed {A} (m : Backend.t -> outcome Error A * Backend.t) : Prop := forall s,
  well_typed s ->
  match m s with (Ok _, s') => well_typed s' | (_, s') => log_ok s' end /\ Backend.is_server (snd (m s)) = Backend.is_server s.

Lemma keeps_typed_bind {A B} (m : M Backend.t Error A) (k : A -> M Backend.t Error B) :
  keeps_typed m -> (forall a, keeps_typed (k a)) -> keeps_typed (bind m k).
Proof.
  intros Hm Hk s Hs. destruct (Hm s Hs) as [H E]. unfold bind. destruct (m s) as [[a|e|] s'] eqn:Em; [|done|done].
  destruct (Hk a s' H) as [H' E']. split; [done|]. rewrite E'. done.
Qed.

Lemma keeps_typed_ret {A} (a : A) : keeps_typed (ret a).
Proof. done. Qed.

Lemma keeps_typed_raise {A} (e : Error) : keeps_typed (A:=A) (raise e).
Proof. intros s Hs. split; [apply Hs|done]. Qed.

Lemma keeps_typed_panic {A} : keeps_typed (A:=A) panic.
Proof. intros s Hs. split; [apply Hs|done]. Qed.

(** Effects that name no channel. *)
Lemma keeps_typed_emit e : accepts [e] = [] -> (forall srv l, effect_ok srv l e) -> keeps_typed (Backend.emit e).
Proof. intros Ha He s Hs. split; [|done]. by eapply well_typed_emit. Qed.

Lemma keeps_typed_send ok e : accepts [e] = [] -> (forall srv l, effect_ok srv l e) -> keeps_typed (Backend.send ok e).
Proof. intros Ha He. destruct ok; [by apply keeps_typed_emit|apply keeps_typed_raise]. Qed.

Lemma keeps_typed_recv_stream ok stream : keeps_typed (Backend.recv_stream ok stream).
Proof.
  intros s Hs. set (id := Stream.id stream).
  destruct (StreamId.can_recv (Backend.is_server s) id) eqn:Hc.
  2: { unfold Backend.recv_stream, bind. cbn [Backend.get]. fold id. rewrite Hc. split; [apply Hs|done]. }
  destruct (Backend.recv_streams s !! id) as [e|] eqn:He.
  { unfold Backend.recv_stream, bind. cbn [Backend.get]. fold id. rewrite Hc, He. cbn [negb Backend.emit Backend.modify].
    assert (Hw : well_typed (snd (Backend.emit (ToData (inbound_data e) stream) s))).
    { apply (well_typed_emit (ToData (inbound_data e) stream) s); [|done|done|done]. split; [|done]. destruct Hs as (_ & H2 & _). by apply (H2 id e). }
    destruct (Stream.fin stream); (split; [|done]); [|exact Hw]. exact (well_typed_delete_recv id _ Hw). }
  destruct (Bool.eqb (Backend.is_server s) (StreamId.server_initiated id)) eqn:Ei.
  { unfold Backend.recv_stream, bind. cbn [Backend.get]. fold id. by rewrite Hc, He, Ei. }
  assert (Hi : StreamId.server_initiated id = negb (Backend.is_server s)) by (by destruct (Backend.is_server s), (StreamId.server_initiated id)).
  destruct ok.
  { rewrite recv_stream_new by done. split; [by apply well_typed_accepted|done]. }
  unfold Backend.recv_stream, bind. cbn [Backend.get]. fold id. rewrite Hc, He, Ei. cbn [negb Backend.channel Backend.send].
  destruct (StreamId.dir id); cbn [Backend.modify Backend.with_send raise]; (split; [|done]); apply (log_ok_app s _ []);
    try done; simpl; rewrite ?app_nil_r; try done; try lia; apply Hs.
Qed.

Lemma keeps_typed_recv_frame ok frame : keeps_typed (Backend.recv_frame ok frame).
Proof.
  destruct frame as [reset|stop|close|stream]; cbn [Backend.recv_frame].
  - intros s Hs. unfold Backend.recv_reset, bind. cbn [Backend.get].
    destruct (StreamId.can_recv _ _) eqn:Hc; cbn [negb]; [|split; [apply Hs|done]].
    destruct (Backend.recv_streams s !! _) as [e|] eqn:He; [|done]. split; [|done].
    apply (well_typed_delete_recv (ResetStream.id reset) (snd (Backend.emit (ToReset (inbound_reset e) reset) s))).
    apply (well_typed_emit (ToReset (inbound_reset e) reset) s); [|done|done|done]. split; [|done]. destruct Hs as (_ & H2 & _). by apply (H2 _ e).
  - intros s Hs. unfold Backend.recv_stop, bind. cbn [Backend.get].
    destruct (StreamId.can_send _ _) eqn:Hc; cbn [negb]; [|split; [apply Hs|done]].
    destruct (Backend.send_streams s !! _) as [e|] eqn:He; [|done]. split; [|done].
    apply (well_typed_emit (ToStop (inbound_stopped e) stop) s); [|done|done|done]. split; [|done]. destruct Hs as (_ & _ & H3). by apply (H3 _ e).
  - by apply keeps_typed_emit.
  - apply keeps_typed_recv_stream.
Qed.

Lemma keeps_typed_send_frame ok frame : keeps_typed (Backend.send_frame ok frame).
Proof.
  unfold Backend.send_frame. apply keeps_typed_bind.
  - destruct frame as [reset|stop|close|stream].
    + intros s Hs. split; [by apply well_typed_delete_send|done].
    + intros s Hs. split; [by apply well_typed_delete_recv|done].
    + apply keeps_typed_ret.
    + destruct (Stream.fin stream); [|apply keeps_typed_ret]. intros s Hs. split; [by apply well_typed_delete_send|done].
  - intros _. destruct (WsFrame.encode frame); [by apply keeps_typed_send|apply keeps_typed_panic..].
Qed.

Lemma turn_typed r ok s :
  ready_ok (Backend.is_server s) r -> well_typed s ->
  match Backend.turn r ok s with (Ok _, s') => well_typed s' | (_, s') => log_ok s' end /\
  Backend.is_server (snd (Backend.turn r ok s)) = Backend.is_server s.
Proof.
  intros [Hu Hb] Hs. unfold Backend.turn.
  destruct (Backend.message r) as [i|].
  { revert s Hu Hb Hs. assert (H : keeps_typed (Backend.recv_item ok i)); [|intros; by apply H].
    destruct i as [[bs| |d| | |]| |]; cbn [Backend.recv_item]; try apply keeps_typed_raise.
    - destruct (WsFrame.decode bs); [|apply keeps_typed_raise|apply keeps_typed_panic].
      apply keeps_typed_bind; [apply keeps_typed_recv_frame|intros; apply keeps_typed_ret].
    - apply keeps_typed_bind; [by apply keeps_typed_send|intros; apply keeps_typed_ret].
    - apply keeps_typed_bind; [by apply keeps_typed_emit|intros; apply keeps_typed_ret]. }
  assert (Hins : forall id x s, StreamId.can_send (Backend.is_server s) id = true -> inbound_stopped x = Opened id ->
    well_typed s -> well_typed (Backend.with_send <[id := x]> s)).
  { intros id x s0 Hc Hx H. apply well_typed_with_send; [done|]. intros i e He.
    apply lookup_insert_Some in He as [[<- <-]|[_ He]]; [right; split; [done|by left]|by left]. }
  destruct (Backend.create_uni r) as [[id x]|].
  { destruct Hu as [Ho Hx]. split; [|done]. apply Hins; [|done|done]. by apply (opened_sends _ Uni). }
  destruct (Backend.create_bi r) as [[[id x] y]|].
  { destruct Hb as (Ho & Hx & Hy & Hz). split; [|done].
    apply (well_typed_with_recv <[id := y]> (Backend.with_send <[id := x]> s)); [apply Hins; [by apply (opened_sends _ Bi)|done|done]|].
    intros i e He. apply lookup_insert_Some in He as [[<- <-]|[_ He]]; [right|by left].
    split; [by apply opened_bi_recv|]. split; by left. }
  assert (Hn : forall f, keeps_typed (Backend.send_next ok f)).
  { intros [f|]; [|apply keeps_typed_raise]. apply keeps_typed_bind; [apply keeps_typed_send_frame|intros; apply keeps_typed_ret]. }
  destruct (Backend.outbound_priority r); [by apply Hn|]. destruct (Backend.outbound r); [by apply Hn|].
  destruct (Backend.closed r); [by apply keeps_typed_raise|by apply keeps_typed_ret].
Qed.

Lemma run_typed l s :
  Forall (fun p => ready_ok (Backend.is_server s) p.1) l -> well_typed s ->
  log_ok (snd (Backend.run_turns l s)) /\ (fst (Backend.run_turns l s) = None -> well_typed (snd (Backend.run_turns l s))).
Proof.
  revert s. induction l as [|[r ok] l IH]; intros s Hl Hs; [split; [apply Hs|done]|]. inversion_clear Hl as [|? ? Hr Hl'].
  cbn [Backend.run_turns]. pose proof (turn_typed r ok s Hr Hs) as [H E].
  destruct (Backend.turn r ok s) as [[[]|e|] s']; [apply IH; [by rewrite <- E in Hl'|done]|split; [apply H|done]|by split|by split].
Qed.

Lemma belongs_fun s c id id' :
  log_ok s -> belongs (Backend.log s) c id -> belongs (Backend.log s) c id' -> id = id'.
Proof.
  intros (_ & Hn & Hf).
  assert (Ho : forall i j, (Opened i, j) ∈ accepts (Backend.log s) -> False).
  { intros i j Hin. rewrite Forall_forall in Hf. destruct (Hf (Opened i)) as (n & E & _); [|done].
    apply list_elem_of_fmap. by exists (Opened i, j). }
  intros [->|H1] [E|H2].
  - by injection E.
  - by apply Ho in H2.
  - subst c. by apply Ho in H1.
  - revert Hn H1 H2. generalize (accepts (Backend.log s)). induction l as [|[d j] l IH]; intros Hn H1 H2; [by apply not_elem_of_nil in H1|].
    inversion_clear Hn as [|? ? Hd Hn'].
    assert (Hx : forall i, (d, i) ∈ l -> False) by (intros i Hi; apply Hd, list_elem_of_fmap; by exists (d, i)).
    apply elem_of_cons in H1 as [E1|H1], H2 as [E2|H2]; simplify_eq; try done; [by apply Hx in H2|by apply Hx in H1|by apply IH].
Qed.

Lemma well_typed_new srv : well_typed (Backend.new srv).
Proof. split; [split; [constructor|split; constructor]|]. split; apply map_Forall_empty. Qed.

Lemma task_log l s :
  log_ok (snd (Backend.run_turns l s)) -> log_ok (snd (Backend.task l s)).
Proof.
  unfold Backend.task. destruct (Backend.run_turns l s) as [[[[]|e|]|] s']; intros H; try exact H;
    (eapply (log_ok_app s' _ [SetClosed _]); [done|done|apply le_n|done| |exact H]; by constructor).
Qed.

(** C26 (type). In every run of the backend, of whatever the peer and the handles
    send and however long: the data, resets and stops sent into a channel are those of
    the stream whose handle reads from it, so that the assertion of [read_chunk] cannot
    fail; they are of a direction the stream has on this side; every stream handed to
    the application is one the peer opened, of the kind it is handed out as, over a
    channel of its own; and as long as the backend runs its tables are well typed. *)
Theorem ws_streams_typed (srv : bool) (l : list (Backend.ready * bool)) :
  Forall (fun p => ready_ok srv p.1) l ->
  let s := snd (Backend.task l (Backend.new srv)) in
  (forall c f id, ToData c f ∈ Backend.log s -> belongs (Backend.log s) c id -> Stream.id f = id) /\
  (forall c f id, ToReset c f ∈ Backend.log s -> belongs (Backend.log s) c id -> ResetStream.id f = id) /\
  (forall c f id, ToStop c f ∈ Backend.log s -> belongs (Backend.log s) c id -> StopSending.id f = id) /\
  Forall (effect_ok (Backend.is_server s) (Backend.log s)) (Backend.log s) /\ NoDup (accepts (Backend.log s)).*1 /\
  (fst (Backend.task l (Backend.new srv)) = None -> fst (Backend.run_turns l (Backend.new srv)) <> Some Panic -> well_typed s).
Proof.
  intros Hl s. destruct (run_typed l (Backend.new srv) Hl (well_typed_new srv)) as [Hlog Hrun].
  apply task_log in Hlog. fold s in Hlog. pose proof Hlog as (Hok & Hn & _). rewrite Forall_forall in Hok.
  split; [intros c f id Hin Hb; destruct (Hok _ Hin) as [Hf _]; by apply (belongs_fun s c)|].
  split; [intros c f id Hin Hb; destruct (Hok _ Hin) as [Hf _]; by apply (belongs_fun s c)|].
  split; [intros c f id Hin Hb; destruct (Hok _ Hin) as [Hf _]; by apply (belongs_fun s c)|].
  split; [by apply Forall_forall|]. split; [done|].
  subst s. unfold Backend.task. destruct (Backend.run_turns l (Backend.new srv)) as [[[[]|e|]|] s']; try done.
  intros _ _. by apply Hrun.
Qed.

(** ** One stream among the others *)

(** The frames that went into a channel. *)
Definition data_of (c : chan) (log : list effect) : list Stream.t :=
  omap (fun e => match e with ToData d f => if decide (d = c) then Some f else None | _ => None end) log.

(** The channels over which a stream was handed to the application. *)
Definition handles_of (id : N) (log : list effect) : list chan :=
  omap (fun p => if decide (p.2 = id) then Some p.1 else None) (accepts log).

(** What a turn receives. *)
Definition received (r : Backend.ready) : option WsFrame.t :=
  match Backend.message r with
  | Some (Item (Binary bs)) => match WsFrame.decode bs with Ok f => Some f | _ => None end
  | _ => None
  end.

Definition frame_for (id : N) (r : Backend.ready) : option Stream.t :=
  match received r with
  | Some (WsFrame.Stream f) => if decide (Stream.id f = id) then Some f else None
  | _ => None
  end.

Definition frames_for (id : N) (l : list (Backend.ready * bool)) : list Stream.t := omap (fun p => frame_for id p.1) l.

(** Neither side ends the stream early in this turn. *)
Definition quiet (id : N) (r : Backend.ready) : Prop :=
  (forall f, received r = Some (WsFrame.ResetStream f) -> ResetStream.id f <> id) /\
  (forall f, Backend.outbound_priority r = Some (Some (WsFrame.StopSending f)) -> StopSending.id f <> id) /\
  (forall f, Backend.outbound r = Some (Some (WsFrame.StopSending f)) -> StopSending.id f <> id).

Lemma data_of_app c l k : data_of c (l ++ k) = data_of c l ++ data_of c k.
Proof. apply omap_app. Qed.

Lemma handles_of_app id l k : handles_of id (l ++ k) = handles_of id l ++ handles_of id k.
Proof. unfold handles_of. by rewrite accepts_app, omap_app. Qed.

(** A frame for a stream of the table. *)
Definition forwarded (e : RecvState) (stream : Stream.t) (s : Backend.t) : Backend.t :=
  Backend.mk (Backend.is_server s) (Backend.send_streams s)
    (if Stream.fin stream then delete (Stream.id stream) (Backend.recv_streams s) else Backend.recv_streams s)
    (Backend.channels s) (Backend.log s ++ [ToData (inbound_data e) stream]).

Lemma recv_stream_known ok stream e s :
  StreamId.can_recv (Backend.is_server s) (Stream.id stream) = true ->
  Backend.recv_streams s !! Stream.id stream = Some e ->
  Backend.recv_stream ok stream s = (Ok tt, forwarded e stream s).
Proof.
  intros Hc He. unfold Backend.recv_stream, bind. cbn [Backend.get]. rewrite Hc, He. cbn [negb Backend.emit Backend.modify].
  unfold forwarded. by destruct (Stream.fin stream).
Qed.

Lemma recv_stream_cases ok stream s s' :
  Backend.recv_stream ok stream s = (Ok tt, s') ->
  StreamId.can_recv (Backend.is_server s) (Stream.id stream) = true /\
  match Backend.recv_streams s !! Stream.id stream with
  | Some e => s' = forwarded e stream s
  | None =>
      if Bool.eqb (Backend.is_server s) (StreamId.server_initiated (Stream.id stream)) then s' = s
      else s' = accepted stream s
  end.
Proof.
  intros H. destruct (StreamId.can_recv (Backend.is_server s) (Stream.id stream)) eqn:Hc.
  2: { unfold Backend.recv_stream, bind in H. cbn [Backend.get] in H. by rewrite Hc in H. }
  split; [done|]. destruct (Backend.recv_streams s !! Stream.id stream) as [e|] eqn:He.
  { rewrite (recv_stream_known _ _ e) in H by done. congruence. }
  destruct (Bool.eqb (Backend.is_server s) _) eqn:Ei.
  { unfold Backend.recv_stream, bind in H. cbn [Backend.get] in H. rewrite Hc, He, Ei in H.
    cbn [negb ret] in H. unfold ret in H. by injection H. }
  destruct ok.
  { rewrite recv_stream_new in H; [congruence| |done].
    by destruct (Backend.is_server s), (StreamId.server_initiated (Stream.id stream)). }
  unfold Backend.recv_stream, bind in H. cbn [Backend.get] in H. rewrite Hc, He, Ei in H. cbn [negb Backend.channel Backend.send] in H.
  by destruct (StreamId.dir (Stream.id stream)).
Qed.

(** What a turn that is about other streams leaves alone. *)
Definition untouched (id : N) (s s' : Backend.t) : Prop :=
  (exists k, Backend.log s' = Backend.log s ++ k) /\
  Backend.recv_streams s' !! id = Backend.recv_streams s !! id /\
  (forall c, belongs (Backend.log s) c id -> data_of c (Backend.log s') = data_of c (Backend.log s)) /\
  handles_of id (Backend.log s') = handles_of id (Backend.log s).

Lemma untouched_log id s s' e :
  Backend.recv_streams s' !! id = Backend.recv_streams s !! id -> Backend.log s' = Backend.log s ++ [e] ->
  handles_of id [e] = [] -> (forall c f, e = ToData c f -> belongs (Backend.log s) c id -> False) -> untouched id s s'.
Proof.
  intros Hr El Hh Hd. split; [by exists [e]|]. split; [done|]. rewrite El. split.
  - intros c Hc. rewrite data_of_app. destruct e as [d f| | | | | | |]; simpl; rewrite ?app_nil_r; try done.
    case_decide as E; [|by rewrite app_nil_r]. subst d. by apply (Hd c f) in Hc.
  - by rewrite handles_of_app, Hh, app_nil_r.
Qed.

Lemma untouched_same id s s' :
  Backend.recv_streams s' !! id = Backend.recv_streams s !! id -> Backend.log s' = Backend.log s -> untouched id s s'.
Proof. intros Hr El. split; [exists []; by rewrite app_nil_r|]. by rewrite El. Qed.

Lemma other_stream ok stream id s s' :
  well_typed s -> Stream.id stream <> id -> Backend.recv_stream ok stream s = (Ok tt, s') -> untouched id s s'.
Proof.
  intros Hw Hne H. apply recv_stream_cases in H as [Hc H].
  destruct (Backend.recv_streams s !! Stream.id stream) as [e|] eqn:He.
  - subst s'. eapply untouched_log; [|done|done|].
    + cbn [forwarded Backend.recv_streams]. destruct (Stream.fin stream); [by rewrite lookup_delete_ne|done].
    + intros c f [= <- <-] Hb. destruct Hw as (Hl & H2 & _). destruct (H2 _ _ He) as (_ & Hb' & _).
      by apply Hne, (belongs_fun s (inbound_data e)).
  - destruct (Bool.eqb _ _); subst s'; [by apply untouched_same|]. split; [by eexists|]. split; [|split].
    + cbn [accepted Backend.recv_streams]. destruct (Stream.fin stream); [done|by rewrite lookup_insert_ne].
    + intros c Hb. cbn [accepted Backend.log]. rewrite data_of_app. unfold accept_effect.
      assert (Hx : Accepted (Backend.channels s) <> c).
      { intros <-. destruct Hb as [Hb|Hb]; [done|]. destruct Hw as ((_ & _ & Hf) & _). rewrite Forall_forall in Hf.
        destruct (Hf (Accepted (Backend.channels s))) as (n & E & Hn); [|simplify_eq; lia].
        apply list_elem_of_fmap. by eexists (_, id). }
      destruct (StreamId.dir (Stream.id stream)); simpl; rewrite decide_False by done; by rewrite app_nil_r.
    + cbn [accepted Backend.log]. rewrite handles_of_app. unfold handles_of at 2, accept_effect.
      destruct (StreamId.dir (Stream.id stream)); simpl; rewrite decide_False by done; by rewrite app_nil_r.
Qed.

Lemma opened_other srv d id i :
  StreamId.server_initiated id = negb srv -> opened srv d i -> i <> id.
Proof.
  intros Hi (n & Hn & E) ->. rewrite stream_id_low in E by lia. destruct (N.ltb_spec n (2 ^ 60)); [|done].
  assert (E' : id = 4 * n + ((match d with Uni => 2 | Bi => 0 end) + N.b2n srv)) by congruence.
  destruct (stream_id_read n d srv) as [_ Hs]. rewrite <- E', Hi in Hs. by destruct srv.
Qed.

Lemma send_frame_untouched ok f id s s' :
  (forall g, f = WsFrame.StopSending g -> StopSending.id g <> id) ->
  Backend.send_frame ok f s = (Ok tt, s') -> untouched id s s'.
Proof.
  intros Hq H. unfold Backend.send_frame in H. apply bind_Ok in H as (u & s1 & H1 & H2).
  assert (Hs1 : Backend.recv_streams s1 !! id = Backend.recv_streams s !! id /\ Backend.log s1 = Backend.log s).
  { destruct f as [g|g|g|g]; unfold Backend.modify, ret in H1; simplify_eq; try done.
    - cbn. by rewrite lookup_delete_ne by (by apply Hq).
    - destruct (Stream.fin g); by simplify_eq. }
  destruct (WsFrame.encode f) as [bs|e|]; [|done|done]. destruct ok; [|done].
  unfold Backend.send, Backend.emit, Backend.modify in H2. injection H2 as <-.
  eapply untouched_log; [apply Hs1|cbn [Backend.log]; by rewrite (proj2 Hs1)|done|done].
Qed.

Lemma recv_frame_untouched ok f id s s' :
  well_typed s -> (forall g, f = WsFrame.Stream g -> Stream.id g <> id) -> (forall g, f = WsFrame.ResetStream g -> ResetStream.id g <> id) ->
  Backend.recv_frame ok f s = (Ok tt, s') -> untouched id s s'.
Proof.
  intros Hw Hs Hr H. destruct f as [g|g|g|g]; cbn [Backend.recv_frame] in H.
  - unfold Backend.recv_reset, bind in H. cbn [Backend.get] in H.
    destruct (negb _); [done|]. destruct (Backend.recv_streams s !! ResetStream.id g) as [e|]; [|unfold ret in H; injection H as <-; by apply untouched_same].
    cbn [Backend.emit Backend.modify] in H. unfold Backend.modify in H. injection H as <-.
    eapply untouched_log; [|done|done|done]. cbn. by rewrite lookup_delete_ne by (by apply Hr).
  - unfold Backend.recv_stop, bind in H. cbn [Backend.get] in H.
    destruct (negb _); [done|]. destruct (Backend.send_streams s !! _) as [e|]; [|unfold ret in H; injection H as <-; by apply untouched_same].
    unfold Backend.emit, Backend.modify in H. injection H as <-. by eapply untouched_log.
  - unfold Backend.emit, Backend.modify in H. injection H as <-. by eapply untouched_log.
  - eapply other_stream; [done|by apply Hs|done].
Qed.

(** A turn without a frame for the stream. *)
Lemma turn_untouched r ok id s s' :
  well_typed s -> ready_ok (Backend.is_server s) r -> StreamId.server_initiated id = negb (Backend.is_server s) ->
  quiet id r -> frame_for id r = None -> Backend.turn r ok s = (Ok true, s') -> untouched id s s'.
Proof.
  intros Hw [Hu Hb] Hi (Q1 & Q2 & Q3) Hf H. unfold Backend.turn in H. unfold frame_for, received in *.
  destruct (Backend.message r) as [[[bs| |d| | |]| |]|]; try done.
  - cbn [Backend.recv_item] in H. destruct (WsFrame.decode bs) as [f|e|] eqn:Ed; [|done|done].
    apply bind_Ok in H as ([] & s1 & H & H2). unfold ret in H2. injection H2 as <-.
    eapply recv_frame_untouched; [done| | |exact H].
    + intros g ->. by case_decide.
    + intros g ->. by apply Q1.
  - cbn [Backend.recv_item] in H. destruct ok; [|done]. unfold bind, Backend.send, Backend.emit, Backend.modify, ret in H.
    injection H as <-. by eapply untouched_log.
  - destruct (Backend.create_uni r) as [[i x]|]; [unfold bind, Backend.modify, ret in H; injection H as <-; by apply untouched_same|].
    destruct (Backend.create_bi r) as [[[i x] y]|].
    { unfold bind, Backend.modify, ret in H. injection H as <-. apply untouched_same; [|done]. cbn.
      rewrite lookup_insert_ne; [done|]. destruct Hb as [Ho _]. by apply (opened_other (Backend.is_server s) Bi). }
    destruct (Backend.outbound_priority r) as [[f|]|].
    { apply bind_Ok in H as ([] & s1 & H & H2). unfold ret in H2. injection H2 as <-.
      eapply send_frame_untouched; [|exact H]. intros g ->. by apply Q2. }
    { done. }
    destruct (Backend.outbound r) as [[f|]|].
    { apply bind_Ok in H as ([] & s1 & H & H2). unfold ret in H2. injection H2 as <-.
      eapply send_frame_untouched; [|exact H]. intros g ->. by apply Q3. }
    { done. }
    destruct (Backend.closed r); [done|]. unfold ret in H. injection H as <-. by apply untouched_same.
Qed.

(** A turn with a frame for it. *)
Lemma turn_frame r ok id f s s' :
  frame_for id r = Some f -> Backend.turn r ok s = (Ok true, s') ->
  Stream.id f = id /\ Backend.recv_stream ok f s = (Ok tt, s').
Proof.
  unfold frame_for, received, Backend.turn. destruct (Backend.message r) as [[[bs| |d| | |]| |]|]; try done.
  cbn [Backend.recv_item]. destruct (WsFrame.decode bs) as [[g|g|g|g]|e|]; try done. case_decide as Ei; [|done].
  intros [= <-] H. split; [done|]. apply bind_Ok in H as ([] & s1 & H & H2). unfold ret in H2. by injection H2 as <-.
Qed.

Lemma fresh_data s : log_ok s -> data_of (Accepted (Backend.channels s)) (Backend.log s) = [].
Proof.
  intros (Ho & _ & Hf). unfold data_of. assert (H : forall l, (forall e, e ∈ l -> e ∈ Backend.log s) ->
    omap (fun e => match e with ToData d f => if decide (d = Accepted (Backend.channels s)) then Some f else None | _ => None end) l = []).
  { induction l as [|e l IH]; intros Hl; [done|]. cbn [omap list_omap]. rewrite IH by set_solver.
    destruct e as [d f| | | | | | |]; try done. case_decide as E; [|done]. subst d. exfalso.
    rewrite Forall_forall in Ho. destruct (Ho (ToData (Accepted (Backend.channels s)) f)) as [[Hb|Hb] _]; [set_solver|done|].
    rewrite Forall_forall in Hf. destruct (Hf (Accepted (Backend.channels s))) as (n & E & Hn); [|simplify_eq; lia].
    apply list_elem_of_fmap. by eexists (_, _). }
  by apply H.
Qed.

(** Still open: no frame was the last. *)
Definition unfinished (fs : list Stream.t) : bool := forallb (fun f => negb (Stream.fin f)) fs.

(** Where a stream of the peer stands after the frames [seen]. *)
Definition stage (id : N) (base : list chan) (seen : list Stream.t) (s : Backend.t) : Prop :=
  match seen with
  | [] => Backend.recv_streams s !! id = None /\ handles_of id (Backend.log s) = base
  | _ => exists c, handles_of id (Backend.log s) = base ++ [c] /\ belongs (Backend.log s) c id /\
      data_of c (Backend.log s) = seen /\
      Backend.recv_streams s !! id =
        if unfinished seen then Some {| inbound_data := c; inbound_reset := c |} else None
  end.

Lemma stage_untouched id base seen s s' :
  untouched id s s' -> stage id base seen s -> stage id base seen s'.
Proof.
  intros ((k & Hk) & Hr & Hd & Hh). unfold stage. destruct seen; rewrite Hr, Hh; [done|].
  intros (c & ? & Hc & <- & ?). exists c. rewrite Hd by done. repeat split; try done. rewrite Hk. by apply belongs_app.
Qed.

Lemma stage_frame ok id base seen f s s' :
  well_typed s -> StreamId.server_initiated id = negb (Backend.is_server s) -> Stream.id f = id ->
  unfinished seen = true -> stage id base seen s -> Backend.recv_stream ok f s = (Ok tt, s') ->
  stage id base (seen ++ [f]) s'.
Proof.
  intros Hw Hi Hf Hu Hst H. apply recv_stream_cases in H as [Hc H]. rewrite Hf in H.
  assert (Hx : unfinished (seen ++ [f]) = negb (Stream.fin f)).
  { unfold unfinished in *. rewrite forallb_app, Hu. simpl. by rewrite andb_true_r. }
  destruct seen as [|g seen].
  - destruct Hst as [Hn Hh]. rewrite Hn, Hi in H.
    replace (Bool.eqb _ _) with false in H by (by destruct (Backend.is_server s)). subst s'.
    exists (Accepted (Backend.channels s)). cbn [accepted Backend.log Backend.recv_streams]. rewrite handles_of_app, Hh, Hf, data_of_app.
    rewrite fresh_data by apply Hw.
    assert (Ha : accepts [accept_effect id (Accepted (Backend.channels s)); ToData (Accepted (Backend.channels s)) f] = [(Accepted (Backend.channels s), id)]).
    { unfold accept_effect. by destruct (StreamId.dir id). }
    split; [|split; [|split]].
    + f_equal. unfold handles_of. rewrite Ha. simpl. by rewrite decide_True.
    + right. rewrite accepts_app, Ha. set_solver.
    + unfold accept_effect. destruct (StreamId.dir id); simpl; by rewrite decide_True.
    + cbn [app] in Hx |- *. rewrite Hx. destruct (Stream.fin f); [done|]. by rewrite lookup_insert_eq.
  - destruct Hst as (c & Hh & Hb & Hd & Hr). rewrite Hu in Hr. rewrite Hr in H. subst s'.
    exists c. cbn [forwarded Backend.log Backend.recv_streams inbound_data]. rewrite handles_of_app, data_of_app, Hd, Hf. split; [by rewrite app_nil_r|].
    split; [by apply belongs_app|]. split; [simpl; by rewrite decide_True|].
    change ((g :: seen) ++ [f]) with (g :: (seen ++ [f])) in Hx |- *. rewrite Hx. destruct (Stream.fin f); [by rewrite lookup_delete_eq|done].
Qed.

Lemma ws_stream_frames (l : list (Backend.ready * bool)) (id : N) (s s' : Backend.t) :
  well_typed s -> StreamId.server_initiated id = negb (Backend.is_server s) -> Backend.recv_streams s !! id = None ->
  Forall (fun p => ready_ok (Backend.is_server s) p.1 /\ quiet id p.1) l ->
  (forall p q, frames_for id l = p ++ q -> q <> [] -> unfinished p = true) ->
  Backend.run_turns l s = (None, s') ->
  match frames_for id l with
  | [] => handles_of id (Backend.log s') = handles_of id (Backend.log s)
  | _ => exists c, handles_of id (Backend.log s') = handles_of id (Backend.log s) ++ [c] /\
      data_of c (Backend.log s') = frames_for id l
  end /\
  (unfinished (frames_for id l) = false -> Backend.recv_streams s' !! id = None).
Proof.
  intros Hw Hi Hn Hl Hp Hrun.
  assert (Hstage : forall seen s0, well_typed s0 -> Backend.is_server s0 = Backend.is_server s -> stage id (handles_of id (Backend.log s)) seen s0 ->
    (forall p q, seen ++ frames_for id l = p ++ q -> q <> [] -> unfinished p = true) ->
    Backend.run_turns l s0 = (None, s') -> stage id (handles_of id (Backend.log s)) (seen ++ frames_for id l) s').
  { clear Hp Hrun. revert Hl. generalize (handles_of id (Backend.log s)). intros base. clear Hw Hn.
    induction l as [|[r ok] l IH]; intros Hl seen s0 Hw0 Es Hst Hp Hrun.
    - cbn in Hrun. injection Hrun as ->. unfold frames_for. cbn. by rewrite app_nil_r.
    - inversion_clear Hl as [|? ? [Hr Hq] Hl']. cbn [fst] in Hr, Hq. cbn [Backend.run_turns] in Hrun.
      rewrite <- Es in Hr. pose proof (turn_typed r ok s0 Hr Hw0) as [Hw1 E1].
      destruct (Backend.turn r ok s0) as [[[]|e|] s1] eqn:Et; [|done..]. cbn [snd] in E1.
      unfold frames_for in *. cbn [omap list_omap fst] in Hp |- *. destruct (frame_for id r) as [f|] eqn:Ef.
      + destruct (turn_frame r ok id f s0 s1 Ef Et) as [Hf Hrecv].
        replace (seen ++ f :: omap (fun p => frame_for id p.1) l) with ((seen ++ [f]) ++ omap (fun p => frame_for id p.1) l) in Hp |- *
          by (by rewrite <- app_assoc).
        apply (IH Hl' (seen ++ [f]) s1); [done|congruence| |done|done].
        eapply stage_frame; [exact Hw0|by rewrite Es|done| |done|exact Hrecv].
        apply (Hp seen (f :: omap (fun p => frame_for id p.1) l)); [by rewrite <- app_assoc|done].
      + apply (IH Hl' seen s1); [done|congruence| |done|done]. eapply stage_untouched; [|done].
        eapply turn_untouched; [exact Hw0|exact Hr|by rewrite Es|done|done|exact Et]. }
  specialize (Hstage [] s Hw eq_refl (conj Hn eq_refl) Hp Hrun). cbn [app] in Hstage.
  destruct (frames_for id l) as [|f fs]; [split; [apply Hstage|done]|].
  destruct Hstage as (c & Hh & _ & Hd & Hr). split; [by exists c|]. intros Hu. by rewrite Hu in Hr.
Qed.

(** A stream of the peer among any others. While the backend runs,
    the frames of the stream, the last with the FIN bit if any, come out of exactly one
    handle of the application, the right one, in order and complete, whatever else
    the peer and this side send and open in between; without a frame there is no
    handle. The stream leaves the table with its FIN. *)
Theorem ws_stream_delivered (l : list (Backend.ready * bool)) (id : N) (s s' : Backend.t) :
  well_typed s -> StreamId.server_initiated id = negb (Backend.is_server s) -> Backend.recv_streams s !! id = None ->
  Forall (fun p => ready_ok (Backend.is_server s) p.1 /\ quiet id p.1) l ->
  (forall p q, frames_for id l = p ++ q -> q <> [] -> unfinished p = true) ->
  Backend.run_turns l s = (None, s') ->
  match frames_for id l with
  | [] => handles_of id (Backend.log s') = handles_of id (Backend.log s)
  | _ => exists c, handles_of id (Backend.log s') = handles_of id (Backend.log s) ++ [c] /\
      data_of c (Backend.log s') = frames_for id l
  end /\
  (unfinished (frames_for id l) = false -> Backend.recv_streams s' !! id = None).
Proof. apply ws_stream_frames. Qed.

(** ** Witnesses *)

(** A WebSocket message is ready, and nothing else. *)
Definition demo_message (bs : list byte) : Backend.ready * bool :=
  ({| Backend.message := Some (Item (Binary bs)); Backend.create_uni := None; Backend.create_bi := None;
      Backend.outbound_priority := None; Backend.outbound := None; Backend.closed := None |}, true).

(** A client's streams 2 and 6, interleaved. *)
Definition demo_turns : list (Backend.ready * bool) :=
  demo_message <$> [[x08; x02; x61]; [x08; x06; x7a]; [x08; x02; x62; x63]; [x09; x02]].

Lemma demo_turns_ready srv : Forall (fun p => ready_ok srv p.1) demo_turns.
Proof. repeat constructor. Qed.

Lemma demo_turns_quiet srv : Forall (fun p => ready_ok srv p.1 /\ quiet 2 p.1) demo_turns.
Proof.
  repeat (constructor; [split; [by split|split; [intros f E; vm_compute in E; discriminate|by split]]|]). constructor.
Qed.

Lemma ws_streams_typed_witness :
  well_typed (snd (Backend.task demo_turns (Backend.new true))).
Proof.
  destruct (ws_streams_typed true demo_turns (demo_turns_ready true)) as (_ & _ & _ & _ & _ & H).
  apply H; vm_compute; [reflexivity|discriminate].
Defined.

Definition demo_end : Backend.t := snd (Backend.run_turns demo_turns (Backend.new true)).

Lemma demo_fin_last p q : frames_for 2 demo_turns = p ++ q -> q <> [] -> unfinished p = true.
Proof.
  vm_compute frames_for. destruct p as [|? [|? [|? [|? p]]]]; intros E Hq; simpl in E; simplify_eq; try done.
Qed.

Lemma ws_stream_delivered_witness :
  exists c, handles_of 2 (Backend.log demo_end) = [c] /\
    data_of c (Backend.log demo_end) = [Stream.mk 2 [x61] false; Stream.mk 2 [x62; x63] false; Stream.mk 2 [] true].
Proof.
  exact (proj1 (ws_stream_delivered demo_turns 2 (Backend.new true) demo_end (well_typed_new true) eq_refl eq_refl
    (demo_turns_quiet true) demo_fin_last eq_refl)).
Defined.
