(* ===== verification/WsStreams.v ===== *)
(** * The streams of a WebSocket session, as the application holds them

    [internal_crates/web-transport-ws/src/session.rs]: [SendStream], [RecvStream] and
    the methods of [Session] that make them, and a stream from end to end. *)
From Stdlib Require Import NArith Lia Bool.
From stdpp Require Import base list gmap option numbers.
From S2P Require Import Prelude Buffers VarInt Utf8 Http3 WsFrame WsSession.
Import WsErr(Error).

#[local] Arguments N.modulo : simpl never.
#[local] Arguments N.pow : simpl never.

(** Frames on their way to the backend: through the bounded channel, past it through
    the priority channel, or by a task that waits for room in the bounded one. *)
Inductive outgoing := Outbound (f : WsFrame.t) | Priority (f : WsFrame.t) | Spawned (f : WsFrame.t).

(** ** [SendStream] *)

(** The [select!] of a write, and what it found: the frame was sent, the channel was
    gone, or the peer's STOP_SENDING came first. *)
Inductive write_answer := Sent | Gone | Stopped (code : N).

Module SendStream.
Record t := mk {
  id : N;
  offset : N;
  closed : option Error;
  fin : bool;
  out : list outgoing;
}.

#[local] Abbreviation run A := (M t Error A).

Definition new (id : N) : t := mk id 0 None false [].

Definition get : run t := fun s => (Ok s, s).
Definition emit (o : outgoing) : run unit := fun s => (Ok tt, mk (id s) (offset s) (closed s) (fin s) (out s ++ [o])).
Definition set_closed (e : Error) : run unit := fun s => (Ok tt, mk (id s) (offset s) (Some e) (fin s) (out s)).
Definition set_fin : run unit := fun s => (Ok tt, mk (id s) (offset s) (closed s) true (out s)).
Definition add_offset (n : N) : run unit := fun s =>
  (Ok tt, mk (id s) ((offset s + n) mod 2 ^ 64) (closed s) (fin s) (out s)).

Definition recv_stop (code : N) : run Error :=
  let! self := get in
  match closed self with
  | Some error => ret error
  | None =>
      do! emit (Priority (WsFrame.ResetStream (ResetStream.mk (id self) code))) in
      do! set_closed (WsErr.StreamStop code) in
      ret (WsErr.StreamStop code)
  end.

(** [chunk] is the first chunk of the buffer; it is taken off the buffer whatever
    the answer. *)
Definition write_buf (chunk : list byte) (a : write_answer) : run N :=
  let! self := get in
  match closed self with
  | Some error => raise error
  | None =>
      if fin self then raise WsErr.StreamClosed
      else
        match a with
        | Sent =>
            do! emit (Outbound (WsFrame.Stream (Stream.mk (id self) chunk false))) in
            do! add_offset (lenN chunk) in
            ret (lenN chunk)
        | Gone => raise WsErr.Closed
        | Stopped code => let! e := recv_stop code in raise e
        end
  end.

(** A slice has one chunk: all of it. *)
Definition write (buf : list byte) (a : write_answer) : run N :=
  do! write_buf buf a in ret (lenN buf - 0).

Definition reset (code : N) : run unit :=
  let! self := get in
  if fin self || bool_decide (closed self <> None) then ret tt
  else
    do! emit (Priority (WsFrame.ResetStream (ResetStream.mk (id self) code))) in
    set_closed (WsErr.StreamReset code).

(** [room] is whether [try_send] succeeds. *)
Definition finish (room : bool) : run unit :=
  let! self := get in
  match closed self with
  | Some error => raise error
  | None =>
      let frame := WsFrame.Stream (Stream.mk (id self) [] true) in
      do! emit (if room then Outbound frame else Spawned frame) in
      set_fin
  end.

Definition closed_turn (stop : option N) : run unit :=
  let! self := get in
  match closed self with
  | Some error => raise error
  | None =>
      match stop with
      | Some code => let! e := recv_stop code in raise e
      | None => raise WsErr.Closed
      end
  end.

(** [Drop]: without room the end of the stream is lost. *)
Definition drop (room : bool) : run unit :=
  let! self := get in
  if negb (fin self) && bool_decide (closed self = None) then
    do! (if room then emit (Outbound (WsFrame.Stream (Stream.mk (id self) [] true))) else ret tt) in
    set_fin
  else ret tt.
End SendStream.

(** ** [RecvStream] *)

(** What the [select!] of a read finds. *)
Inductive read_answer := Data (s : Stream.t) | Reset (code : N) | Neither.

Module RecvStream.
Record t := mk {
  id : N;
  buffer : list byte;
  closed : option Error;
  fin : bool;
  out : list outgoing;
}.

Definition new (id : N) : t := mk id [] None false [].

Definition recv_reset (code : N) (self : t) : Error * t :=
  match closed self with
  | Some error => (error, self)
  | None => (WsErr.StreamReset code, mk (id self) (buffer self) (Some (WsErr.StreamReset code)) (fin self) (out self))
  end.

(** [assert_eq!(stream.id, self.id)], then the two fields. *)
Definition take_frame (s : Stream.t) (self : t) : option t :=
  if Stream.id s =? id self then Some (mk (id self) (Stream.data s) (closed self) (Stream.fin s) (out self)) else None.

(** [self.buffer.split_to(n)] *)
Definition split_to (n : N) (self : t) : list byte * t :=
  (take (N.to_nat n) (buffer self), mk (id self) (drop (N.to_nat n) (buffer self)) (closed self) (fin self) (out self)).

(** The loop of [read_chunk], on what its [select!]s find; [None] still waits. *)
Fixpoint read_chunk (max : N) (answers : list read_answer) (self : t) :
    option (outcome Error (option (list byte))) * t * list read_answer :=
  if negb (bool_decide (buffer self = [])) then
    let (bs, self) := split_to (N.min max (lenN (buffer self))) self in (Some (Ok (Some bs)), self, answers)
  else if fin self then (Some (Ok None), self, answers)
  else
    match closed self with
    | Some error => (Some (Err error), self, answers)
    | None =>
        match answers with
        | [] => (None, self, [])
        | Data s :: answers =>
            match take_frame s self with
            | Some self => read_chunk max answers self
            | None => (Some Panic, self, answers)
            end
        | Reset code :: answers => let (e, self) := recv_reset code self in (Some (Err e), self, answers)
        | Neither :: answers => (Some (Err WsErr.Closed), self, answers)
        end
    end.

(** [read_buf] into a buffer with room for [max] bytes. *)
Definition read_buf (max : N) (answers : list read_answer) (self : t) :
    option (outcome Error (option (list byte))) * t * list read_answer :=
  if negb (bool_decide (buffer self = [])) then
    let (bs, self) := split_to (N.min max (lenN (buffer self))) self in (Some (Ok (Some bs)), self, answers)
  else read_chunk max answers self.

Definition stop (code : N) (self : t) : t :=
  mk (id self) (buffer self) (Some (WsErr.StreamStop code)) (fin self)
    (out self ++ [Priority (WsFrame.StopSending (StopSending.mk (id self) code))]).

(** [self.inbound_reset.recv()] alone: data that arrives stays in its channel. *)
Fixpoint await_reset (answers : list read_answer) : option (option N) * list read_answer :=
  match answers with
  | [] => (None, [])
  | Reset code :: answers => (Some (Some code), answers)
  | Neither :: answers => (Some None, answers)
  | Data s :: answers => let (r, rest) := await_reset answers in (r, Data s :: rest)
  end.

(** The loop of [closed]. With data buffered only a reset is awaited. *)
Fixpoint closed_loop (answers : list read_answer) (self : t) : option (outcome Error unit) * t * list read_answer :=
  if fin self then (Some (Ok tt), self, answers)
  else if negb (bool_decide (buffer self = [])) then
    match await_reset answers with
    | (None, answers) => (None, self, answers)
    | (Some (Some code), answers) => let (e, self) := recv_reset code self in (Some (Err e), self, answers)
    | (Some None, answers) => (Some (Err WsErr.Closed), self, answers)
    end
  else
    match answers with
    | [] => (None, self, [])
    | Reset code :: answers => let (e, self) := recv_reset code self in (Some (Err e), self, answers)
    | Data s :: answers =>
        match take_frame s self with
        | Some self => closed_loop answers self
        | None => (Some Panic, self, answers)
        end
    | Neither :: answers => (Some (Err WsErr.Closed), self, answers)
    end.

Definition closed_turn (answers : list read_answer) (self : t) : option (outcome Error unit) * t * list read_answer :=
  match closed self with
  | Some error => (Some (Err error), self, answers)
  | None => closed_loop answers self
  end.
End RecvStream.

(** ** [Session] *)

Module Session.
Record t := mk { is_server : bool; create_uni_id : N; create_bi_id : N }.

Definition new (is_server : bool) : t := mk is_server 0 0.

(** [send(..).await.map_err(|_| Error::Closed)?] succeeds if [ok]. What is sent to the
    backend comes with the handle. *)
Definition open_uni (ok : bool) : M t Error (SendStream.t * (N * SendState)) := fun self =>
  let n := create_uni_id self in
  let self := mk (is_server self) ((n + 1) mod 2 ^ 64) (create_bi_id self) in
  match StreamId.new n Uni (is_server self) with
  | Ok id =>
      if ok then (Ok (SendStream.new id, (id, {| inbound_stopped := Opened id |})), self)
      else (Err WsErr.Closed, self)
  | _ => (Panic, self)
  end.

Definition open_bi (ok : bool) : M t Error (SendStream.t * RecvStream.t * (N * SendState * RecvState)) := fun self =>
  let n := create_bi_id self in
  let self := mk (is_server self) (create_uni_id self) ((n + 1) mod 2 ^ 64) in
  match StreamId.new n Bi (is_server self) with
  | Ok id =>
      if ok then
        (Ok (SendStream.new id, RecvStream.new id,
             (id, {| inbound_stopped := Opened id |}, {| inbound_data := Opened id; inbound_reset := Opened id |})), self)
      else (Err WsErr.Closed, self)
  | _ => (Panic, self)
  end.

(** [close]: a frame for the peer, and the error everybody sees from now on. *)
Definition close (code : N) (reason : String) : outgoing * Error :=
  (Priority (WsFrame.ConnectionClose (ConnectionClose.mk code reason)), WsErr.ConnectionClosed code reason).
End Session.

(** ** Sending *)

(** What is written and finished, as the session sends it. *)
Definition frames_of (id : N) (chunks : list (list byte)) : list Stream.t :=
  (fun c => Stream.mk id c false) <$> chunks.

Definition fin_frame (id : N) : Stream.t := Stream.mk id [] true.

(** The STREAM frames a handle has let go, in the order the bounded channel gets them. *)
Definition streamed (o : list outgoing) : list Stream.t :=
  omap (fun o => match o with Outbound (WsFrame.Stream f) | Spawned (WsFrame.Stream f) => Some f | _ => None end) o.

Lemma streamed_app o p : streamed (o ++ p) = streamed o ++ streamed p.
Proof. apply omap_app. Qed.

(** All frames a handle has let go. *)
Definition let_go (o : list outgoing) : list WsFrame.t :=
  (fun o => match o with Outbound f | Priority f | Spawned f => f end) <$> o.

Lemma let_go_app o p : let_go (o ++ p) = let_go o ++ let_go p.
Proof. apply fmap_app. Qed.

(** Writes that all succeed. *)
Definition write_all (chunks : list (list byte)) : M SendStream.t Error unit :=
  for_each chunks (fun c => do! SendStream.write c Sent in ret tt).

Lemma write_sent c s :
  SendStream.closed s = None -> SendStream.fin s = false ->
  SendStream.write c Sent s = (Ok (lenN c), SendStream.mk (SendStream.id s) ((SendStream.offset s + lenN c) mod 2 ^ 64)
    None false (SendStream.out s ++ [Outbound (WsFrame.Stream (Stream.mk (SendStream.id s) c false))])).
Proof.
  intros Hc Hf. unfold SendStream.write, SendStream.write_buf, bind. cbn [SendStream.get]. rewrite Hc, Hf.
  cbn [SendStream.emit SendStream.add_offset]. unfold ret. by rewrite N.sub_0_r, Hc, Hf.
Qed.

Lemma write_all_sent chunks s :
  SendStream.closed s = None -> SendStream.fin s = false ->
  exists s', write_all chunks s = (Ok tt, s') /\ SendStream.id s' = SendStream.id s /\
    SendStream.closed s' = None /\ SendStream.fin s' = false /\
    let_go (SendStream.out s') = let_go (SendStream.out s) ++ (WsFrame.Stream <$> frames_of (SendStream.id s) chunks).
Proof.
  revert s. induction chunks as [|c chunks IH]; intros s Hc Hf.
  { exists s. split; [done|]. repeat split; try done. by rewrite app_nil_r. }
  unfold write_all in *. cbn [for_each]. unfold bind at 1. unfold bind at 1. rewrite write_sent by done.
  cbn [ret]. match goal with |- context [for_each chunks _ ?t] => destruct (IH t eq_refl eq_refl) as (s' & E & Hi & Hc' & Hf' & Ho) end.
  unfold ret at 1. exists s'. split; [exact E|]. repeat split; try done. rewrite Ho. cbn [SendStream.out SendStream.id].
  rewrite let_go_app, <- app_assoc. done.
Qed.

(** ** Receiving *)

Definition all_data (fs : list Stream.t) : list byte := concat (Stream.data <$> fs).

(** Only the last frame may carry the FIN bit. *)
Definition fin_last (fs : list Stream.t) : Prop := forall p q, fs = p ++ q -> q <> [] -> unfinished p = true.

Lemma fin_last_cons f fs : fin_last (f :: fs) -> (Stream.fin f = true -> fs = []) /\ fin_last fs.
Proof.
  intros H. split.
  - intros Hf. destruct fs as [|g fs]; [done|]. specialize (H [f] (g :: fs) eq_refl ltac:(done)).
    unfold unfinished in H. simpl in H. by rewrite Hf in H.
  - intros p q -> Hq. specialize (H (f :: p) q eq_refl Hq). unfold unfinished in *. simpl in H. by apply andb_true_iff in H as [_ H].
Qed.

(** What a handle still has to give, when only data comes. *)
Definition pending (self : RecvStream.t) (fs : list Stream.t) : list byte := RecvStream.buffer self ++ all_data fs.

(** A handle whose frames to come are [fs]. *)
Definition receiving (self : RecvStream.t) (fs : list Stream.t) : Prop :=
  RecvStream.closed self = None /\ Forall (fun f => Stream.id f = RecvStream.id self) fs /\ fin_last fs /\
  (RecvStream.fin self = true -> fs = []).

Lemma read_chunk_data max fs self :
  0 < max -> receiving self fs ->
  exists fs', let '(r, self', rest) := RecvStream.read_chunk max (Data <$> fs) self in
    rest = Data <$> fs' /\ receiving self' fs' /\
    (RecvStream.fin self' || existsb Stream.fin fs' = RecvStream.fin self || existsb Stream.fin fs) /\
    match r with
    | Some (Ok (Some bs)) => pending self fs = bs ++ pending self' fs' /\ bs <> [] /\ lenN bs <= max
    | Some (Ok None) => pending self fs = [] /\ fs' = [] /\ RecvStream.fin self' = true
    | None => pending self fs = [] /\ fs' = [] /\ RecvStream.fin self' = false
    | _ => False
    end.
Proof.
  intros Hm. revert self.
  assert (Hbuf : forall fs self, receiving self fs -> RecvStream.buffer self <> [] ->
    let (bs, self') := RecvStream.split_to (N.min max (lenN (RecvStream.buffer self))) self in
    receiving self' fs /\ pending self fs = bs ++ pending self' fs /\ bs <> [] /\ lenN bs <= max).
  { intros gs self Hr Hb. cbn [RecvStream.split_to]. split; [exact Hr|]. unfold pending. cbn [RecvStream.buffer].
    rewrite app_assoc, take_drop. split; [done|]. destruct (RecvStream.buffer self) as [|b l]; [done|]. split.
    - rewrite lenN_cons. intros E. apply (f_equal length) in E. rewrite length_take in E. simpl in E. lia.
    - unfold lenN. rewrite length_take. lia. }
  induction fs as [|f fs IH]; intros self Hr; pose proof Hr as (Hc & Hid & Hl & Hf); cbn [fmap list_fmap RecvStream.read_chunk];
    case_bool_decide as Hb; cbn [negb].
  - exists []. destruct (RecvStream.fin self) eqn:Ef; [|rewrite Hc]; (split; [done|split; [exact Hr|split; [by rewrite Ef|]]]);
      unfold pending, all_data; by rewrite Hb.
  - exists []. specialize (Hbuf [] self Hr Hb). destruct (RecvStream.split_to _ self) as [bs self'] eqn:Es.
    destruct Hbuf as (H1 & H2 & H3 & H4). split; [done|]. split; [done|]. split; [|done]. unfold RecvStream.split_to in Es. by injection Es as <- <-.
  - destruct (RecvStream.fin self) eqn:Ef; [by specialize (Hf eq_refl)|]. rewrite Hc.
    inversion_clear Hid as [|? ? Hi Hid']. apply fin_last_cons in Hl as [Hlf Hl].
    unfold RecvStream.take_frame. rewrite Hi, N.eqb_refl.
    destruct (IH (RecvStream.mk (RecvStream.id self) (Stream.data f) (RecvStream.closed self) (Stream.fin f) (RecvStream.out self))) as (fs' & H).
    { split; [done|]. split; [done|]. by split. }
    exists fs'. destruct (RecvStream.read_chunk max (Data <$> fs) _) as [[r self'] rest].
    unfold pending, all_data in *. cbn [RecvStream.buffer RecvStream.fin fmap list_fmap concat existsb] in *. rewrite Hb, app_nil_l. exact H.
  - exists (f :: fs). specialize (Hbuf (f :: fs) self Hr Hb). destruct (RecvStream.split_to _ self) as [bs self'] eqn:Es.
    destruct Hbuf as (H1 & H2 & H3 & H4). split; [done|]. split; [done|]. split; [|done]. unfold RecvStream.split_to in Es. by injection Es as <- <-.
Qed.

(** Reading with buffers of the given sizes, until the end of the stream. *)
Fixpoint read_all (maxes : list N) (answers : list read_answer) (self : RecvStream.t) : list byte * bool :=
  match maxes with
  | [] => ([], false)
  | max :: maxes =>
      match RecvStream.read_chunk max answers self with
      | (Some (Ok (Some bs)), self, answers) => let (l, e) := read_all maxes answers self in (bs ++ l, e)
      | (Some (Ok None), _, _) => ([], true)
      | _ => ([], false)
      end
  end.

Lemma read_all_data maxes fs self :
  receiving self fs -> RecvStream.fin self || existsb Stream.fin fs = true ->
  Forall (fun m => 0 < m) maxes -> (length (pending self fs) < length maxes)%nat ->
  read_all maxes (Data <$> fs) self = (pending self fs, true).
Proof.
  intros Hr He Hm. revert fs self Hr He. induction Hm as [|max maxes Hm Hms IH]; intros fs self Hr He Hlen; [simpl in Hlen; lia|].
  destruct (read_chunk_data max fs self Hm Hr) as (fs' & H). cbn [read_all].
  destruct (RecvStream.read_chunk max (Data <$> fs) self) as [[r self'] rest]. destruct H as (-> & Hr' & Ef & H).
  destruct r as [[[bs|]|e|]|]; [|by destruct H as (-> & -> & _)|done|done|].
  - destruct H as (E & Hb & _). rewrite E in Hlen |- *. rewrite length_app in Hlen. simpl in Hlen.
    rewrite IH; [done|done|by rewrite Ef|]. destruct bs; [done|]. simpl in Hlen. lia.
  - destruct H as (_ & -> & Hf). exfalso. rewrite Hf in Ef. simpl in Ef. by rewrite <- Ef in He.
Qed.

Lemma unfinished_frames id chunks : unfinished (frames_of id chunks) = true.
Proof. unfold unfinished, frames_of. induction chunks; [done|]. simpl. done. Qed.

Lemma fin_last_snoc fs f : unfinished fs = true -> fin_last (fs ++ [f]).
Proof.
  intros Hu p q E Hq. destruct (exists_last Hq) as (q' & x & ->). rewrite app_assoc in E.
  apply app_inj_2 in E as [-> _]; [|done]. unfold unfinished in *. rewrite forallb_app in Hu. by apply andb_true_iff in Hu as [-> _].
Qed.

Lemma all_data_frames id chunks : all_data (frames_of id chunks ++ [fin_frame id]) = concat chunks.
Proof.
  unfold all_data. rewrite fmap_app, concat_app. simpl. rewrite !app_nil_r. f_equal. unfold frames_of.
  rewrite <- list_fmap_compose. induction chunks; [done|]. simpl. by f_equal.
Qed.

Lemma write_finish chunks room h :
  SendStream.closed h = None -> SendStream.fin h = false ->
  exists h', (do! write_all chunks in SendStream.finish room) h = (Ok tt, h') /\ SendStream.id h' = SendStream.id h /\
    let_go (SendStream.out h') = let_go (SendStream.out h) ++
      (WsFrame.Stream <$> (frames_of (SendStream.id h) chunks ++ [fin_frame (SendStream.id h)])).
Proof.
  intros Hc Hf. destruct (write_all_sent chunks h Hc Hf) as (h1 & E & Hi & Hc1 & Hf1 & Ho).
  eexists. unfold bind. rewrite E. unfold SendStream.finish, bind. cbn [SendStream.get]. rewrite Hc1.
  split; [done|]. cbn [SendStream.id SendStream.out]. split; [done|]. rewrite let_go_app, Ho, Hi, fmap_app, <- app_assoc. by destruct room.
Qed.

(** Reading at any time: so far a beginning of what was sent, and the end only after
    all of it. *)
Lemma read_all_prefix maxes fs self :
  receiving self fs -> Forall (fun m => 0 < m) maxes ->
  let (bytes, ended) := read_all maxes (Data <$> fs) self in
  bytes `prefix_of` pending self fs /\
  (ended = true -> bytes = pending self fs /\ RecvStream.fin self || existsb Stream.fin fs = true).
Proof.
  intros Hr Hm. revert fs self Hr. induction Hm as [|max maxes Hm Hms IH]; intros fs self Hr; cbn [read_all].
  { split; [apply prefix_nil|done]. }
  destruct (read_chunk_data max fs self Hm Hr) as (fs' & H).
  destruct (RecvStream.read_chunk max (Data <$> fs) self) as [[r self'] rest]. destruct H as (-> & Hr' & Ef & H).
  destruct r as [[[bs|]|e|]|]; [|by destruct H as (-> & -> & Hf); rewrite <- Ef, Hf|done|done|by split; [apply prefix_nil|]].
  destruct H as (-> & _). specialize (IH fs' self' Hr').
  destruct (read_all maxes (Data <$> fs') self') as [l e]. destruct IH as [[k Hk] He]. split.
  - exists k. by rewrite Hk, app_assoc.
  - intros Ee. destruct (He Ee) as [-> Hf]. by rewrite <- Ef, Hf.
Qed.

Lemma fin_last_prefix fs gs : fs `prefix_of` gs -> fin_last gs -> fin_last fs.
Proof.
  intros [k ->] Hg p q -> Hq. apply (Hg p (q ++ k)); [by rewrite <- app_assoc|]. by destruct q.
Qed.

(** ** What a backend says and hears *)

(** The frame a turn takes from a channel. *)
Definition taken_by (r : Backend.ready) : option WsFrame.t :=
  match Backend.message r, Backend.create_uni r, Backend.create_bi r, Backend.outbound_priority r, Backend.outbound r with
  | None, None, None, Some frame, _ => frame
  | None, None, None, None, Some frame => frame
  | _, _, _, _, _ => None
  end.

Definition taken (l : list (Backend.ready * bool)) : list WsFrame.t := omap (fun p => taken_by p.1) l.

(** The binary messages put into the WebSocket, and those that come out of it. *)
Definition said (log : list effect) : list (list byte) :=
  omap (fun e => match e with WsBinary bs => Some bs | _ => None end) log.

Definition heard_by (r : Backend.ready) : option (list byte) :=
  match Backend.message r with Some (Item (Binary bs)) => Some bs | _ => None end.

Definition heard (l : list (Backend.ready * bool)) : list (list byte) := omap (fun p => heard_by p.1) l.

Section Saying.
#[local] Abbreviation run A := (M Backend.t Error A).

Definition silent {A} (m : run A) : Prop :=
  forall s, said (Backend.log (snd (m s))) = said (Backend.log s).

Lemma silent_bind {A B} (m : run A) (f : A -> run B) :
  silent m -> (forall a, silent (f a)) -> silent (bind m f).
Proof.
  intros Hm Hf s. unfold bind. specialize (Hm s). destruct (m s) as [[a|e|] s1]; simpl in Hm; [|done|done].
  by rewrite (Hf a s1).
Qed.

Lemma silent_emit e : (forall bs, e <> WsBinary bs) -> silent (Backend.emit e).
Proof.
  intros He s. cbn. unfold said. rewrite omap_app. cbn. destruct e; rewrite ?app_nil_r; try done. by destruct (He bs).
Qed.

Lemma silent_send ok e : (forall bs, e <> WsBinary bs) -> silent (Backend.send ok e).
Proof. intros He. destruct ok; [by apply silent_emit|done]. Qed.

Ltac silent_tac :=
  repeat first
    [ apply silent_bind; [|intros ?]
    | apply silent_emit; done
    | apply silent_send; done
    | progress case_match
    | (intros ?; reflexivity) ].

Lemma silent_recv_frame ok f : silent (Backend.recv_frame ok f).
Proof.
  destruct f; cbn [Backend.recv_frame]; unfold Backend.recv_reset, Backend.recv_stop, Backend.recv_stream; silent_tac.
Qed.

Lemma silent_recv_item ok i : silent (Backend.recv_item ok i).
Proof.
  destruct i as [[]| |]; cbn [Backend.recv_item]; silent_tac. apply silent_recv_frame.
Qed.

Lemma quic_encode_lt x w u w' : QuicVarInt.encode x w = (Ok u, w') -> x < 2 ^ 62.
Proof. rewrite quic_encode. by destruct (N.ltb_spec x (2 ^ 62)). Qed.

Lemma encode_in_range f bs : WsFrame.encode f = Ok bs -> Frames.in_range f /\ bs = Frames.wire f.
Proof.
  intros E. assert (Hr : Frames.in_range f); [|by rewrite Frames.encode_wire in E by done; injection E as <-].
  destruct f as [f|f|f|f]; revert E; unfold WsFrame.encode, written;
    [unfold ResetStream.encode|unfold StopSending.encode|unfold ConnectionClose.encode|unfold Stream.encode];
    unfold bind, put_bytes; cbn [Frames.in_range]; repeat case_match; intros; simplify_eq;
    eauto using quic_encode_lt.
Qed.

Lemma send_next_says ok frame s b s' :
  Backend.send_next ok frame s = (Ok b, s') ->
  exists f, frame = Some f /\ Frames.in_range f /\ said (Backend.log s') = said (Backend.log s) ++ [Frames.wire f].
Proof.
  destruct frame as [f|]; [|done]. intros H. exists f. split; [done|].
  unfold Backend.send_next in H. apply bind_Ok in H as ([] & s1 & H & H2). unfold ret in H2. injection H2 as _ <-.
  unfold Backend.send_frame in H. apply bind_Ok in H as ([] & s2 & H2 & H).
  assert (Hl : Backend.log s2 = Backend.log s).
  { destruct f as [f|f|f|f]; cbn in H2; [by injection H2 as <-..|]. destruct (Stream.fin f); by injection H2 as <-. }
  destruct (WsFrame.encode f) as [bs|e|] eqn:E; [|done|done]. apply encode_in_range in E as [Hr ->].
  destruct ok; [|done]. cbn in H. injection H as <-. split; [done|]. cbn. unfold said. rewrite omap_app, Hl. done.
Qed.

Lemma turn_says r ok s b s' :
  Backend.turn r ok s = (Ok b, s') ->
  match taken_by r with
  | Some f => Frames.in_range f /\ said (Backend.log s') = said (Backend.log s) ++ [Frames.wire f]
  | None => said (Backend.log s') = said (Backend.log s)
  end.
Proof.
  unfold Backend.turn, taken_by. destruct (Backend.message r) as [i|].
  { intros H. pose proof (silent_recv_item ok i s) as Hs. by rewrite H in Hs. }
  destruct (Backend.create_uni r) as [[id send]|]; [by intros [= _ <-]|].
  destruct (Backend.create_bi r) as [[[id send] recv]|]; [by intros [= _ <-]|].
  destruct (Backend.outbound_priority r) as [f|].
  { intros H. by apply send_next_says in H as (g & -> & H). }
  destruct (Backend.outbound r) as [f|].
  { intros H. by apply send_next_says in H as (g & -> & H). }
  destruct (Backend.closed r); [done|]. by intros [= _ <-].
Qed.

(** A running backend says the frames it has taken, each in one message. *)
Lemma run_says l s s' :
  Backend.run_turns l s = (None, s') ->
  Forall Frames.in_range (taken l) /\ said (Backend.log s') = said (Backend.log s) ++ (Frames.wire <$> taken l).
Proof.
  revert s. induction l as [|[r ok] l IH]; intros s H; cbn [Backend.run_turns] in H.
  { injection H as <-. split; [constructor|]. by rewrite app_nil_r. }
  destruct (Backend.turn r ok s) as [[[]|e|] s1] eqn:Et; [|done..]. apply turn_says in Et.
  apply IH in H as [Hr Hs]. unfold taken in *. cbn [omap list_omap fst]. destruct (taken_by r) as [f|].
  - destruct Et as [Hf Et]. split; [by constructor|]. by rewrite Hs, Et, <- app_assoc.
  - split; [done|]. by rewrite Hs, Et.
Qed.
End Saying.

(** What is heard of a stream is what was said of it. *)
Definition of_stream (id : N) (f : WsFrame.t) : bool :=
  match f with
  | WsFrame.Stream f => Stream.id f =? id
  | WsFrame.ResetStream f => ResetStream.id f =? id
  | _ => false
  end.

Definition data_frame (id : N) (f : WsFrame.t) : option Stream.t :=
  match f with WsFrame.Stream f => if decide (Stream.id f = id) then Some f else None | _ => None end.

Lemma frames_for_heard id l :
  frames_for id l = omap (fun bs => match WsFrame.decode bs with Ok f => data_frame id f | _ => None end) (heard l).
Proof.
  unfold frames_for, heard. induction l as [|[r ok] l IH]; [done|]. cbn [omap list_omap fst]. rewrite IH.
  unfold frame_for, received, heard_by, data_frame.
  destruct (Backend.message r) as [[[bs| | | | |]| |]|]; try done. cbn [omap list_omap].
  by destruct (WsFrame.decode bs) as [[| | |]|e|].
Qed.

Lemma data_frames_said id fs :
  Forall Frames.in_range fs ->
  omap (fun bs => match WsFrame.decode bs with Ok f => data_frame id f | _ => None end) (Frames.wire <$> fs) =
  omap (data_frame id) (filter (fun f => of_stream id f = true) fs).
Proof.
  induction 1 as [|f fs Hf _ IH]; [done|]. cbn [fmap list_fmap omap list_omap]. rewrite Frames.decode_wire by done.
  rewrite filter_cons, IH. destruct f as [f|f|f|f]; cbn [of_stream data_frame].
  - by case_decide.
  - done.
  - done.
  - destruct (N.eqb_spec (Stream.id f) id) as [E|E].
    + rewrite !decide_True by done. cbn. by rewrite decide_True.
    + by rewrite !decide_False by done.
Qed.

Lemma prefix_filter {A} (P : A -> Prop) `{!forall x, Decision (P x)} (l k : list A) :
  l `prefix_of` k -> filter P l `prefix_of` filter P k.
Proof. intros [m ->]. rewrite filter_app. by apply prefix_app_r. Qed.

Lemma prefix_omap {A B} (f : A -> option B) (l k : list A) : l `prefix_of` k -> omap f l `prefix_of` omap f k.
Proof. intros [m ->]. rewrite omap_app. by apply prefix_app_r. Qed.

Lemma prefix_fmap_inv {A B} (f : A -> B) l (k : list A) : l `prefix_of` f <$> k -> exists k', k' `prefix_of` k /\ l = f <$> k'.
Proof.
  intros [m E]. apply fmap_app_inv in E as (k1 & k2 & -> & -> & ->). exists k1.
  split; [by apply prefix_app_r|done].
Qed.

Lemma data_frames_of id fs : Forall (fun f => Stream.id f = id) fs -> omap (data_frame id) (WsFrame.Stream <$> fs) = fs.
Proof.
  induction 1 as [|f fs Hf _ IH]; [done|]. cbn. by rewrite decide_True, IH by done.
Qed.

(** The receiver does not stop the stream. *)
Definition wanted (id : N) (r : Backend.ready) : Prop :=
  forall f, Backend.outbound_priority r = Some (Some (WsFrame.StopSending f)) \/
    Backend.outbound r = Some (Some (WsFrame.StopSending f)) -> StopSending.id f <> id.

(** *** From one backend to the other *)

Section Across.
Context (id : N) (fs : list Stream.t) (ls lr : list (Backend.ready * bool)) (srv : bool) (ours : Backend.t).
Context (Hid : Forall (fun f => Stream.id f = id) fs).
Context (Hrun : Backend.run_turns ls (Backend.new srv) = (None, ours)).
Context (Htaken : filter (fun f => of_stream id f = true) (taken ls) `prefix_of` WsFrame.Stream <$> fs).
Context (Hheard : heard lr `prefix_of` said (Backend.log ours)).

Lemma heard_frames : exists gs, gs `prefix_of` taken ls /\ heard lr = Frames.wire <$> gs /\ Forall Frames.in_range gs /\
  filter (fun f => of_stream id f = true) gs `prefix_of` WsFrame.Stream <$> fs.
Proof.
  destruct (run_says _ _ _ Hrun) as [Hr Hs]. cbn [Backend.log Backend.new said omap list_omap app] in Hs.
  rewrite Hs in Hheard. apply prefix_fmap_inv in Hheard as (gs & Hg & Hh). exists gs. split; [done|]. split; [done|].
  split; [destruct Hg as [k Hk]; rewrite Hk in Hr; by apply Forall_app in Hr as [Hr _]|]. etransitivity; [by apply prefix_filter|done].
Qed.

Lemma frames_across : frames_for id lr `prefix_of` fs.
Proof.
  destruct heard_frames as (gs & _ & Hh & Hr & Hp). rewrite frames_for_heard, Hh, data_frames_said by done.
  apply (prefix_omap (data_frame id)) in Hp. by rewrite data_frames_of in Hp.
Qed.

Lemma frames_across_all :
  filter (fun f => of_stream id f = true) (taken ls) = WsFrame.Stream <$> fs -> heard lr = said (Backend.log ours) ->
  frames_for id lr = fs.
Proof.
  intros Ht Hh. destruct (run_says _ _ _ Hrun) as [Hr Hs]. cbn [Backend.log Backend.new said omap list_omap app] in Hs.
  by rewrite frames_for_heard, Hh, Hs, data_frames_said, Ht, data_frames_of.
Qed.

(** Nor does the sender reset it. *)
Lemma quiet_across : Forall (fun p => wanted id p.1) lr -> Forall (fun p => quiet id p.1) lr.
Proof.
  intros Hw. apply Forall_forall. intros p Hp. rewrite Forall_forall in Hw. specialize (Hw p Hp).
  split; [|by split; intros f Hf; apply Hw; auto]. intros f Hf Ef.
  destruct heard_frames as (gs & _ & Hh & Hr & Hpre). unfold received in Hf.
  destruct (Backend.message p.1) as [[[bs| | | | |]| |]|] eqn:Em; try done.
  assert (Hin : bs ∈ heard lr).
  { unfold heard. apply list_elem_of_omap. exists p. split; [done|]. unfold heard_by. by rewrite Em. }
  rewrite Hh in Hin. apply list_elem_of_fmap in Hin as (g & -> & Hg). rewrite Forall_forall in Hr.
  rewrite Frames.decode_wire in Hf by auto. injection Hf as ->. destruct Hpre as [k Hk].
  assert (Hin : WsFrame.ResetStream f ∈ WsFrame.Stream <$> fs).
  { rewrite Hk. apply elem_of_app. left. apply list_elem_of_filter. split; [|done]. cbn. by apply N.eqb_eq. }
  by apply list_elem_of_fmap in Hin as (? & ? & _).
Qed.
End Across.

Lemma transfer_across id chunks ls lr srv ours theirs maxes :
  StreamId.server_initiated id = srv ->
  Backend.run_turns ls (Backend.new srv) = (None, ours) ->
  filter (fun f => of_stream id f = true) (taken ls) `prefix_of` WsFrame.Stream <$> (frames_of id chunks ++ [fin_frame id]) ->
  heard lr `prefix_of` said (Backend.log ours) ->
  Forall (fun p => ready_ok (negb srv) p.1) lr -> Forall (fun p => wanted id p.1) lr ->
  Backend.run_turns lr (Backend.new (negb srv)) = (None, theirs) ->
  Forall (fun m => 0 < m) maxes ->
  let handles := handles_of id (Backend.log theirs) in
  let reading c := read_all maxes (Data <$> data_of c (Backend.log theirs)) (RecvStream.new id) in
  (handles = [] /\ frames_for id lr = [] \/
   exists c, handles = [c] /\
     (reading c).1 `prefix_of` concat chunks /\ ((reading c).2 = true -> (reading c).1 = concat chunks)) /\
  (filter (fun f => of_stream id f = true) (taken ls) = WsFrame.Stream <$> (frames_of id chunks ++ [fin_frame id]) ->
   heard lr = said (Backend.log ours) -> (length (concat chunks) < length maxes)%nat ->
   exists c, handles = [c] /\ reading c = (concat chunks, true)).
Proof.
  intros Hs Hrun Ht Hh Hready Hw Hrun' Hm handles reading. set (fs := frames_of id chunks ++ [fin_frame id]) in *.
  assert (Hid : Forall (fun f => Stream.id f = id) fs).
  { apply Forall_app. split; [|by repeat constructor]. unfold frames_of. apply Forall_fmap. by apply Forall_true. }
  assert (Hfl : fin_last fs) by (apply fin_last_snoc, unfinished_frames).
  assert (Hall : pending (RecvStream.new id) fs = concat chunks) by apply all_data_frames.
  pose proof (frames_across id fs ls lr srv ours Hid Hrun Ht Hh) as Hpre.
  pose proof (quiet_across id fs ls lr srv ours Hrun Ht Hh Hw) as Hq.
  assert (Hrec : receiving (RecvStream.new id) (frames_for id lr)).
  { split; [done|]. split; [|by split; [by eapply fin_last_prefix|]]. destruct Hpre as [k Hk].
    rewrite Hk in Hid. by apply Forall_app in Hid as [Hid _]. }
  destruct (ws_stream_frames lr id (Backend.new (negb srv)) theirs) as [Hdel _]; try done.
  { apply well_typed_new. }
  { rewrite Hs. by destruct srv. }
  { by apply Forall_and. }
  { by eapply fin_last_prefix. }
  assert (Hdel' : handles = [] /\ frames_for id lr = [] \/
    exists c, handles = [c] /\ data_of c (Backend.log theirs) = frames_for id lr).
  { destruct (frames_for id lr) as [|f l]; [by left|by right]. }
  clear Hdel. split.
  - destruct Hdel' as [?|(c & Hc & Hdata)]; [by left|right]. exists c. split; [done|]. unfold reading. rewrite Hdata.
    pose proof (read_all_prefix maxes _ _ Hrec Hm) as Hread.
    destruct (read_all _ _ _) as [bytes ended]. destruct Hread as [Hb He]. destruct Hpre as [k Hk].
    assert (Hpend : pending (RecvStream.new id) (frames_for id lr) `prefix_of` concat chunks).
    { rewrite <- Hall, Hk. unfold pending, all_data. rewrite fmap_app, concat_app. apply prefix_app. by apply prefix_app_r. }
    split; [by etransitivity|]. intros Ee. destruct (He Ee) as [-> Hf]. cbn [RecvStream.fin RecvStream.new orb] in Hf.
    rewrite <- Hall, Hk. destruct k as [|g k]; [by rewrite app_nil_r|]. exfalso.
    specialize (Hfl (frames_for id lr) (g :: k) Hk ltac:(done)). unfold unfinished in Hfl.
    apply existsb_exists in Hf as (x & Hx & Hxf). rewrite forallb_forall in Hfl. specialize (Hfl x Hx). by rewrite Hxf in Hfl.
  - intros Htall Hhall Hlen. pose proof (frames_across_all id fs ls lr srv ours Hid Hrun Htall Hhall) as Hf.
    destruct Hdel' as [[_ Hnil]|(c & Hc & Hdata)]; [rewrite Hf in Hnil; by destruct (frames_of id chunks)|].
    exists c. split; [done|]. unfold reading. rewrite Hdata, Hf in *. rewrite <- Hall in Hlen |- *.
    apply read_all_data; [done| |done|done]. unfold fs. rewrite existsb_app. cbn. by rewrite orb_true_r.
Qed.

(** ** Properties *)

(** C25 (refinement). A stream of a WebSocket session from one application to the
    other, through both backends. A side opens a unidirectional stream, writes any
    chunks and finishes it, with room in the channel for the end or without. Its
    backend runs from the start of the session among whatever else it has to do, and
    so does the peer's. Of what lies between, only this is assumed: the channel into
    the backend gives the frames of this stream in the order they were put in, up to
    some point; the WebSocket gives the peer the binary messages it was given, in
    order, up to some point; and the peer does not stop the stream. Then at any time
    the peer's application has been handed the stream once, or not at all if none of
    it has arrived; reading it in pieces of any sizes gives a beginning of the bytes
    written, and the end only after all of them; and once everything has been taken
    and has arrived, it gives all of them, and then the end. *)
Theorem ws_stream_transfer (sess sess' : Session.t) (h : SendStream.t) (ev : N * SendState) (chunks : list (list byte)) (room : bool) :
  Session.create_uni_id sess < 2 ^ 62 -> Session.open_uni true sess = (Ok (h, ev), sess') ->
  exists h', (do! write_all chunks in SendStream.finish room) h = (Ok tt, h') /\
    forall (ls lr : list (Backend.ready * bool)) (ours theirs : Backend.t) (maxes : list N),
      let id := SendStream.id h in
      let srv := Session.is_server sess in
      Backend.run_turns ls (Backend.new srv) = (None, ours) ->
      filter (fun f => of_stream id f = true) (taken ls) `prefix_of` let_go (SendStream.out h') ->
      heard lr `prefix_of` said (Backend.log ours) ->
      Forall (fun p => ready_ok (negb srv) p.1) lr -> Forall (fun p => wanted id p.1) lr ->
      Backend.run_turns lr (Backend.new (negb srv)) = (None, theirs) ->
      Forall (fun m => 0 < m) maxes ->
      let handles := handles_of id (Backend.log theirs) in
      let reading c := read_all maxes (Data <$> data_of c (Backend.log theirs)) (RecvStream.new id) in
      (handles = [] /\ frames_for id lr = [] \/
       exists c, handles = [c] /\
         (reading c).1 `prefix_of` concat chunks /\ ((reading c).2 = true -> (reading c).1 = concat chunks)) /\
      (filter (fun f => of_stream id f = true) (taken ls) = let_go (SendStream.out h') ->
       heard lr = said (Backend.log ours) -> (length (concat chunks) < length maxes)%nat ->
       exists c, handles = [c] /\ reading c = (concat chunks, true)).
Proof.
  intros Hn Ho. unfold Session.open_uni in Ho. rewrite stream_id_low in Ho by done.
  destruct (N.ltb_spec (Session.create_uni_id sess) (2 ^ 60)) as [Hlt|]; [|done]. injection Ho as <- _ _.
  set (id := 4 * Session.create_uni_id sess + _).
  destruct (stream_id_read (Session.create_uni_id sess) Uni (Session.is_server sess)) as [Hd Hs]. fold id in Hd, Hs.
  destruct (write_finish chunks room (SendStream.new id) eq_refl eq_refl) as (h' & E & _ & Eo). exists h'. split; [exact E|].
  intros ls lr ours theirs maxes. cbn [SendStream.id SendStream.new SendStream.out let_go fmap list_fmap app] in Eo |- *.
  change (let_go (SendStream.out h') = WsFrame.Stream <$> (frames_of id chunks ++ [fin_frame id])) in Eo.
  rewrite Eo. intros Hrun Ht Hh Hready Hw Hrun' Hm. by apply (transfer_across id chunks ls lr (Session.is_server sess) ours theirs maxes).
Qed.

Lemma finish_open room h :
  SendStream.closed h = None ->
  SendStream.finish room h = (Ok tt, SendStream.mk (SendStream.id h) (SendStream.offset h) None true
    (SendStream.out h ++ [(if room then Outbound else Spawned) (WsFrame.Stream (fin_frame (SendStream.id h)))])).
Proof. intros Hc. unfold SendStream.finish, bind. cbn [SendStream.get]. rewrite Hc. destruct room; cbn; by rewrite Hc. Qed.

(** *** Streams that have ended *)

Lemma reopened s s1 id f :
  log_ok s1 -> Backend.is_server s1 = Backend.is_server s -> Backend.channels s1 = Backend.channels s ->
  handles_of id (Backend.log s1) = handles_of id (Backend.log s) ->
  StreamId.server_initiated id = negb (Backend.is_server s) -> Backend.recv_streams s1 !! id = None -> Stream.id f = id ->
  exists s2, Backend.recv_frame true (WsFrame.Stream f) s1 = (Ok tt, s2) /\
    handles_of id (Backend.log s2) = handles_of id (Backend.log s) ++ [Accepted (Backend.channels s)] /\
    data_of (Accepted (Backend.channels s)) (Backend.log s2) = [f].
Proof.
  intros Hok Es Ec Hh Hi Hr <-. exists (accepted f s1). cbn [Backend.recv_frame]. rewrite recv_stream_new by (rewrite ?Es; done).
  split; [done|]. cbn [accepted Backend.log]. rewrite handles_of_app, data_of_app, Hh, <- Ec, fresh_data by done.
  unfold accept_effect. destruct (StreamId.dir (Stream.id f)); unfold handles_of at 2; simpl; rewrite !decide_True by done; done.
Qed.

(** A stream that has ended can come back. Once the table has lost a
    stream of the peer, because the peer reset it or finished it or because this side
    stopped it, any further STREAM frame of its number is handed to the application as
    one stream more, where the handle it belongs to gets nothing. Such frames occur:
    [finish] called twice sends the end twice, and a reset that is queued overtakes the
    data queued before it. *)
Theorem ws_stream_reopens (s : Backend.t) (id code : N) (e : RecvState) (f : Stream.t) (m : M Backend.t Error unit) :
  well_typed s -> StreamId.server_initiated id = negb (Backend.is_server s) ->
  Backend.recv_streams s !! id = Some e -> Stream.id f = id -> id < 2 ^ 62 -> code < 2 ^ 62 ->
  m = Backend.recv_frame true (WsFrame.ResetStream (ResetStream.mk id code)) \/
  m = Backend.recv_frame true (WsFrame.Stream (fin_frame id)) \/
  m = Backend.send_frame true (WsFrame.StopSending (StopSending.mk id code)) ->
  (exists s1 s2, m s = (Ok tt, s1) /\ Backend.recv_frame true (WsFrame.Stream f) s1 = (Ok tt, s2) /\
    handles_of id (Backend.log s2) = handles_of id (Backend.log s) ++ [Accepted (Backend.channels s)] /\
    data_of (Accepted (Backend.channels s)) (Backend.log s2) = [f]) /\
  (forall h h' room room', SendStream.closed h = None -> SendStream.fin h = false ->
    (do! SendStream.finish room in SendStream.finish room') h = (Ok tt, h') ->
    streamed (SendStream.out h') = streamed (SendStream.out h) ++ [fin_frame (SendStream.id h); fin_frame (SendStream.id h)]) /\
  (forall r reset, Backend.message r = None -> Backend.create_uni r = None -> Backend.create_bi r = None ->
    Backend.outbound_priority r = Some (Some reset) ->
    Backend.turn r true s = Backend.send_next true (Some reset) s).
Proof.
  intros Hw Hi He Hf Hid Hcode Hm. split; [|split].
  - assert (Hc : StreamId.can_recv (Backend.is_server s) id = true) by (destruct Hw as (_ & H2 & _); by apply (H2 id e)).
    assert (Ht : keeps_typed m).
    { destruct Hm as [->|[->| ->]]; [apply keeps_typed_recv_frame..|apply keeps_typed_send_frame]. }
    assert (Hs1 : exists s1, m s = (Ok tt, s1) /\ Backend.is_server s1 = Backend.is_server s /\ Backend.channels s1 = Backend.channels s /\
      handles_of id (Backend.log s1) = handles_of id (Backend.log s) /\ Backend.recv_streams s1 !! id = None).
    { destruct Hm as [->|[->| ->]].
      - eexists. cbn [Backend.recv_frame]. unfold Backend.recv_reset, bind. cbn [Backend.get ResetStream.id]. rewrite Hc, He. cbn [negb].
        split; [done|]. cbn [Backend.log Backend.with_recv Backend.recv_streams Backend.is_server Backend.channels forwarded fin_frame Stream.fin Stream.id].
        rewrite lookup_delete_eq, handles_of_app. by rewrite app_nil_r.
      - eexists. cbn [Backend.recv_frame]. split; [by apply (recv_stream_known _ _ e)|]. cbn [Backend.log Backend.with_recv Backend.recv_streams Backend.is_server Backend.channels forwarded fin_frame Stream.fin Stream.id].
        rewrite lookup_delete_eq, handles_of_app. by rewrite app_nil_r.
      - eexists. unfold Backend.send_frame, bind. rewrite Frames.encode_wire by done. cbn [Backend.modify Backend.send].
        split; [done|]. cbn [Backend.log Backend.with_recv Backend.recv_streams Backend.is_server Backend.channels forwarded fin_frame Stream.fin Stream.id].
        rewrite lookup_delete_eq, handles_of_app. by rewrite app_nil_r. }
    destruct Hs1 as (s1 & E1 & Es & Ec & Hh & Hr). destruct (Ht s Hw) as [Hw1 _]. rewrite E1 in Hw1.
    destruct (reopened s s1 id f (proj1 Hw1) Es Ec Hh Hi Hr Hf) as (s2 & H2 & H3). by exists s1, s2.
  - intros h h' room room' Hc Hfin H. unfold bind in H. rewrite finish_open, finish_open in H by done.
    cbn [SendStream.id SendStream.out SendStream.offset] in H. injection H as <-. cbn [SendStream.out].
    rewrite !streamed_app, <- app_assoc. by destruct room, room'.
  - intros r reset E1 E2 E3 E4. unfold Backend.turn. by rewrite E1, E2, E3, E4.
Qed.

(** ** Witnesses *)

Definition demo_chunks : list (list byte) := [[x61]; [x62; x63]].

(** A frame is ready in the bounded channel, and nothing else. *)
Definition demo_outbound (f : WsFrame.t) : Backend.ready * bool :=
  ({| Backend.message := None; Backend.create_uni := None; Backend.create_bi := None;
      Backend.outbound_priority := None; Backend.outbound := Some (Some f); Backend.closed := None |}, true).

(** The client's backend sends the streams 2 and 6, interleaved. *)
Definition demo_sends : list (Backend.ready * bool) :=
  demo_outbound ∘ WsFrame.Stream <$>
    [Stream.mk 2 [x61] false; Stream.mk 6 [x7a] false; Stream.mk 2 [x62; x63] false; fin_frame 2].

Lemma ws_stream_transfer_witness :
  said (Backend.log (snd (Backend.run_turns demo_sends (Backend.new false)))) = heard demo_turns /\
  exists c, handles_of 2 (Backend.log demo_end) = [c] /\
    read_all [2; 2; 2; 2] (Data <$> data_of c (Backend.log demo_end)) (RecvStream.new 2) = ([x61; x62; x63], true).
Proof.
  set (ours := snd (Backend.run_turns demo_sends (Backend.new false))).
  assert (Hsaid : said (Backend.log ours) = heard demo_turns) by (vm_compute; reflexivity).
  split; [exact Hsaid|].
  assert (Hn : Session.create_uni_id (Session.new false) < 2 ^ 62) by (vm_compute; reflexivity).
  assert (Ho : Session.open_uni true (Session.new false) =
    (Ok (SendStream.new 2, (2, {| inbound_stopped := Opened 2 |})), Session.mk false 1 0)) by (vm_compute; reflexivity).
  destruct (ws_stream_transfer _ _ _ _ demo_chunks true Hn Ho) as (h' & E & H).
  assert (Eh : h' = snd ((do! write_all demo_chunks in SendStream.finish true) (SendStream.new 2))) by (by rewrite E).
  assert (Hf : filter (fun f => of_stream 2 f = true) (taken demo_sends) = let_go (SendStream.out h'))
    by (rewrite Eh; vm_compute; reflexivity).
  assert (Hrun : Backend.run_turns demo_sends (Backend.new false) = (None, ours)) by (vm_compute; reflexivity).
  assert (Hm : Forall (fun m => 0 < m) [2; 2; 2; 2]) by (repeat constructor).
  assert (Hl : (length (concat demo_chunks) < length [2; 2; 2; 2])%nat) by (simpl; lia).
  assert (Hw : Forall (fun p => wanted 2 p.1) demo_turns)
    by (repeat (constructor; [intros f [Hx|Hx]; vm_compute in Hx; discriminate|]); constructor).
  assert (Ht : filter (fun f => of_stream 2 f = true) (taken demo_sends) `prefix_of` let_go (SendStream.out h'))
    by (rewrite Hf; reflexivity).
  assert (Hh : heard demo_turns `prefix_of` said (Backend.log ours)) by (rewrite Hsaid; reflexivity).
  assert (Hrun' : Backend.run_turns demo_turns (Backend.new true) = (None, demo_end)) by (vm_compute; reflexivity).
  exact (proj2 (H demo_sends demo_turns ours demo_end [2; 2; 2; 2] Hrun Ht Hh (demo_turns_ready true) Hw Hrun' Hm)
    Hf (eq_sym Hsaid) Hl).
Defined.

Lemma ws_stream_reopens_witness :
  exists s1 s2,
    Backend.recv_frame true (WsFrame.ResetStream (ResetStream.mk 6 0)) demo_end = (Ok tt, s1) /\
    Backend.recv_frame true (WsFrame.Stream (Stream.mk 6 [x7a] false)) s1 = (Ok tt, s2) /\
    handles_of 6 (Backend.log s2) = handles_of 6 (Backend.log demo_end) ++ [Accepted 2] /\
    data_of (Accepted 2) (Backend.log s2) = [Stream.mk 6 [x7a] false].
Proof.
  assert (Hr : Backend.recv_streams demo_end !! 6 = Some {| inbound_data := Accepted 1; inbound_reset := Accepted 1 |}) by (vm_compute; reflexivity).
  assert (Hw : well_typed demo_end).
  { destruct (run_typed demo_turns (Backend.new true) (demo_turns_ready true) (well_typed_new true)) as [_ Hw].
    apply Hw. vm_compute. reflexivity. }
  assert (H6 : 6 < 2 ^ 62) by (vm_compute; reflexivity).
  assert (H0 : 0 < 2 ^ 62) by (vm_compute; reflexivity).
  exact (proj1 (ws_stream_reopens demo_end 6 0 _ (Stream.mk 6 [x7a] false) _ Hw eq_refl Hr eq_refl H6 H0 (or_introl eq_refl))).
Defined.
