(* ===== verification/WsClose.v ===== *)
(** * How a WebSocket session ends for the application

    [internal_crates/web-transport-ws/src/session.rs]: the [closed] signal that
    [SessionState::run], the task of [Session::new], [Session::close] and
    [Session::closed] share. It is a [tokio::sync::watch], of which the class [Watch]
    holds what the documentation promises. *)
From Stdlib Require Import NArith Lia Bool.
From stdpp Require Import base list option.
From S2P Require Import Prelude Utf8 WsFrame WsSession WsStreams.
Import WsErr(Error).

(** [watch::Sender]: it keeps its value and counts its receivers. *)
Class Watch := {
  watch : Type;
  watch_new : option Error -> watch;
  value : watch -> option Error;
  receivers : watch -> nat;
  subscribe : watch -> watch;
  drop_receiver : watch -> watch;
  send : option Error -> watch -> watch;
}.

(** [send] fails when every receiver has been dropped, and then the value is not made
    available to later receivers. *)
Class WatchLaws `{Watch} := {
  new_value e : value (watch_new e) = e;
  new_receivers e : receivers (watch_new e) = O;
  subscribe_value w : value (subscribe w) = value w;
  subscribe_receivers w : receivers (subscribe w) = S (receivers w);
  drop_value w : value (drop_receiver w) = value w;
  drop_receivers w : receivers (drop_receiver w) = pred (receivers w);
  send_value e w : value (send e w) = if (receivers w =? 0)%nat then value w else e;
  send_receivers e w : receivers (send e w) = receivers w;
}.

Module Signal.
Section Signal.
Context `{Watch}.

(** [Session::new] *)
Definition new : watch := watch_new None.

(** [run] begins by subscribing. *)
Definition run_begin (w : watch) : watch := subscribe w.

(** A frame or message that closes the session, seen by [run]. *)
Definition run_closed (e : Error) (w : watch) : watch := send (Some e) w.

(** [run] has returned, with its receiver; the task then sends the reason. *)
Definition run_end (e : Error) (w : watch) : watch := send (Some e) (drop_receiver w).

(** [Session::close] *)
Definition close (code : N) (reason : String) (w : watch) : watch :=
  send (Some (snd (Session.close code reason))) w.

(** [Session::closed]: it subscribes and waits for a value. *)
Definition closed_begin (w : watch) : watch := subscribe w.

Definition closed_poll (w : watch) : option Error * watch :=
  match value w with
  | Some e => (Some e, drop_receiver w)
  | None => (None, w)
  end.
End Signal.
End Signal.

(** What tasks that wait for the end can do: begin, be polled, be dropped. *)
Inductive waiter := Begin | Poll | Cancel.

Section Closing.
Context `{WatchLaws}.

(** The results of the polls. *)
Fixpoint waiting (l : list waiter) (w : watch) : list (option Error) :=
  match l with
  | [] => []
  | Begin :: l => waiting l (Signal.closed_begin w)
  | Poll :: l => let (r, w) := Signal.closed_poll w in r :: waiting l w
  | Cancel :: l => waiting l (drop_receiver w)
  end.

Lemma waiting_value l w : Forall (fun r => r = value w) (waiting l w).
Proof.
  revert w. induction l as [|[] l IH]; intros w; cbn [waiting]; [constructor|..].
  - specialize (IH (Signal.closed_begin w)). unfold Signal.closed_begin in *. by rewrite subscribe_value in IH.
  - unfold Signal.closed_poll. destruct (value w) as [e|] eqn:Ev; constructor; [done| |done|by rewrite <- Ev].
    specialize (IH (drop_receiver w)). by rewrite drop_value, Ev in IH.
  - specialize (IH (drop_receiver w)). by rewrite drop_value in IH.
Qed.

(** Whether [closed] ever returns. While [run] executes, a close by
    the peer or by [close] is kept: every [closed] from then on returns it. But when
    [run] returns without one, the reason is kept only if a task is waiting in
    [closed] at that moment. Otherwise nothing is recorded, and every later [closed]
    waits for ever; and so it does when [close] is called before the backend task has
    run for the first time. *)
Theorem ws_closed (w : watch) (e : Error) (code : N) (reason : String) (l : list waiter) :
  value w = None ->
  (receivers w <> O ->
     Forall (fun r => r = Some e) (waiting l (Signal.run_closed e w)) /\
     Forall (fun r => r = Some (WsErr.ConnectionClosed code reason)) (waiting l (Signal.close code reason w))) /\
  (receivers w = 1%nat -> Forall (fun r => r = None) (waiting l (Signal.run_end e w))) /\
  ((1 < receivers w)%nat -> Forall (fun r => r = Some e) (waiting l (Signal.run_end e w))) /\
  Forall (fun r => r = None) (waiting l (Signal.run_begin (Signal.close code reason Signal.new))).
Proof.
  intros Hv. split; [|split; [|split]].
  - intros Hr. split; (eapply Forall_impl; [apply waiting_value|]; intros r ->).
    + unfold Signal.run_closed. rewrite send_value. by destruct (Nat.eqb_spec (receivers w) 0).
    + unfold Signal.close. rewrite send_value. by destruct (Nat.eqb_spec (receivers w) 0).
  - intros Hr. eapply Forall_impl; [apply waiting_value|]. intros r ->.
    unfold Signal.run_end. by rewrite send_value, drop_receivers, Hr, drop_value.
  - intros Hr. eapply Forall_impl; [apply waiting_value|]. intros r ->.
    unfold Signal.run_end. rewrite send_value, drop_receivers. by destruct (Nat.eqb_spec (pred (receivers w)) 0); [lia|].
  - eapply Forall_impl; [apply waiting_value|]. intros r ->. unfold Signal.run_begin, Signal.close, Signal.new.
    by rewrite subscribe_value, send_value, new_receivers, new_value.
Qed.
End Closing.

(** A value and a count are such a channel. *)
Definition demo_watch : Watch := {|
  watch := option Error * nat;
  watch_new e := (e, O);
  value := fst;
  receivers := snd;
  subscribe w := (w.1, S w.2);
  drop_receiver w := (w.1, pred w.2);
  send e w := (if (w.2 =? 0)%nat then w.1 else e, w.2);
|}.

Lemma demo_watch_laws : @WatchLaws demo_watch.
Proof. by split. Qed.

(** A peer sends a text message: the session ends, and nobody learns of it. *)
Lemma ws_closed_witness :
  Forall (fun r => r = None)
    (@waiting demo_watch [Begin; Poll; Poll] (@Signal.run_end demo_watch WsErr.NoText (@Signal.run_begin demo_watch (@Signal.new demo_watch)))).
Proof.
  exact (proj1 (proj2 (@ws_closed demo_watch demo_watch_laws (@Signal.run_begin demo_watch (@Signal.new demo_watch)) WsErr.NoText 0
    (lossy []) [Begin; Poll; Poll] eq_refl)) eq_refl).
Defined.
