(* ===== verification/Coding.v ===== *)
(** * Strings, tuples and parameters

    [moq-transport/src/coding/string.rs], [tuple.rs] and [params.rs]: the
    length-prefixed values every message is made of. [Params] is a hash map, so
    its encoding depends on the iteration order the runtime picks. *)
From Stdlib Require Import NArith Lia Bool.
From stdpp Require Import base list gmap option numbers.
From S2P Require Import Prelude Buffers VarInt Utf8.

(** ** Length-prefixed byte strings, shared by the codecs below *)

Lemma agrees_prefixed {A} bs (f : list byte -> dec A) a :
  (forall rest, f bs rest = (Ok a, rest)) ->
  agrees (do! encode_usize (lenN bs) in do! encode_remaining (lenN bs) in put_slice bs)
    (let! size := decode_usize in
     do! decode_remaining size in
     let! buf := copy_to_slice size in
     f buf) a.
Proof.
  intros Hf. eapply agrees_bind; [apply agrees_usize|]. cbv beta.
  apply agrees_encode_remaining, agrees_put_slice. intros rest.
  rewrite <- (bind_assoc (decode_remaining _) (fun _ => copy_to_slice _) f).
  by erewrite bind_run by apply checked_copy_app.
Qed.

Lemma streaming_prefixed {A} (f : list byte -> dec A) :
  (forall buf, streaming (f buf)) ->
  streaming (let! size := decode_usize in
     do! decode_remaining size in
     let! buf := copy_to_slice size in
     f buf).
Proof.
  intros Hf. apply streaming_bind; [apply streaming_usize|]. intros n.
  by apply streaming_checked_copy.
Qed.

Lemma consumes_prefixed {A} (f : list byte -> dec A) :
  (forall buf, streaming (f buf)) ->
  consumes 1 (let! size := decode_usize in
     do! decode_remaining size in
     let! buf := copy_to_slice size in
     f buf).
Proof.
  intros Hf. apply consumes_bind_l; [apply consumes_usize|]. intros n.
  by apply streaming_consumes, streaming_checked_copy.
Qed.

(** A counted loop of encoders and the counted loop that reads it back, as long
    as [Inv] holds of the accumulator and the items still to come. *)
Lemma agrees_for_range {X B} (item : X -> enc unit) (body : B -> dec B) (step : B -> X -> B)
    (Inv : B -> list X -> Prop) xs b :
  (forall x xs b, Inv b (x :: xs) -> agrees (item x) (body b) (step b x) /\ Inv (step b x) xs) ->
  Inv b xs ->
  agrees (for_each xs item) (for_range (lenN xs) body b) (fold_left step xs b).
Proof.
  intros Hstep. revert b. induction xs as [|x xs IH]; intros b Hb.
  - apply agrees_ret.
  - rewrite lenN_cons, N.add_1_l, for_range_succ. apply Hstep in Hb as [Hx Hb].
    simpl. eapply agrees_bind; [done|]. by apply IH.
Qed.

Lemma fold_left_snoc {A} (xs acc : list A) :
  fold_left (fun fs f => fs ++ [f]) xs acc = acc ++ xs.
Proof.
  revert acc. induction xs as [|x xs IH]; intros acc; simpl; [by rewrite app_nil_r|].
  by rewrite IH, <- app_assoc.
Qed.

(** ** [String] *)

Definition encode_string (s : String) : enc unit :=
  do! encode_usize (lenN (as_bytes s)) in
  do! encode_remaining (lenN (as_bytes s)) in
  put_slice (as_bytes s).

(** [String::from_utf8(buf)?]: the error carries the bytes. *)
Definition decode_string : dec String :=
  let! size := decode_usize in
  do! decode_remaining size in
  let! buf := copy_to_slice size in
  ok_or (from_utf8 buf) (DecodeErr.InvalidString buf).

#[export] Instance Encode_String : Encode String := encode_string.
#[export] Instance Decode_String : Decode String := decode_string.

#[export] Instance RoundTrip_String : RoundTrip String.
Proof.
  intros s. apply agrees_prefixed. intros rest. by rewrite from_utf8_as_bytes.
Qed.

#[export] Instance Streaming_String : Streaming String.
Proof. apply streaming_prefixed. intros. by apply streaming_ok_or. Qed.

#[export] Instance MinSize_String : MinSize String 1.
Proof. apply consumes_prefixed. intros. by apply streaming_ok_or. Qed.

(** ** [TupleField] *)

Module TupleField.
Record t := mk { value : list byte }.

#[export] Instance t_eq_dec : EqDecision t.
Proof. solve_decision. Defined.

Definition new : t := mk [].

Definition decode_field : dec t :=
  let! size := decode_usize in
  do! decode_remaining size in
  let! buf := copy_to_slice size in
  ret (mk buf).

Definition encode_field (f : t) : enc unit :=
  do! encode_usize (lenN (value f)) in
  do! encode_remaining (lenN (value f)) in
  put_slice (value f).

#[export] Instance Encode_t : Encode t := encode_field.
#[export] Instance Decode_t : Decode t := decode_field.

(** [path] is a [&str], given by its bytes. *)
Definition from_utf8 (path : list byte) : t := mk path.

Definition set `{Runtime, Encode P} (p : P) : M t EncodeError unit := fun self =>
  match to_vec (encode p) with
  | Ok v => (Ok tt, mk v)
  | Err e => (Err e, self)
  | Panic => (Panic, self)
  end.

Definition get {P} `{Decode P} (self : t) : outcome DecodeError P := fst (decode (value self)).

#[export] Instance RoundTrip_t : RoundTrip t.
Proof. intros f. apply agrees_prefixed. intros rest. by destruct f. Qed.

#[export] Instance Streaming_t : Streaming t.
Proof. apply streaming_prefixed. intros. apply streaming_ret. Qed.

#[export] Instance MinSize_t : MinSize t 1.
Proof. apply consumes_prefixed. intros. apply streaming_ret. Qed.
End TupleField.
Export (hints) TupleField.

(** ** [Tuple] *)

Module Tuple.
Record t := mk { fields : list TupleField.t }.

#[export] Instance t_eq_dec : EqDecision t.
Proof. solve_decision. Defined.

Definition new : t := mk [].

Definition decode_tuple : dec t :=
  let! count := (decode : dec N) in
  let! fields := for_range count
    (fun fields => let! f := (decode : dec TupleField.t) in ret (fields ++ [f])) [] in
  ret (mk fields).

Definition encode_tuple (t : t) : enc unit :=
  do! encode_usize (lenN (fields t)) in
  for_each (fields t) encode.

#[export] Instance Encode_t : Encode t := encode_tuple.
#[export] Instance Decode_t : Decode t := decode_tuple.

Definition add (self : t) (field : TupleField.t) : t := mk (fields self ++ [field]).

(** Indexing a [Vec] out of range panics. *)
Definition get (self : t) (index : nat) : outcome DecodeError TupleField.t :=
  match fields self !! index with
  | Some f => TupleField.get f
  | None => Panic
  end.

Definition set `{Runtime} (index : nat) (f : TupleField.t) : M t EncodeError unit := fun self =>
  match fields self !! index with
  | Some g =>
      let (r, g') := TupleField.set f g in
      (r, mk (<[index := g']> (fields self)))
  | None => (Panic, self)
  end.

Definition clear (self : t) : t := mk [].

Definition slash : byte := x2f.

Definition from_utf8_path (path : String) : t :=
  fold_left (fun tuple part => add tuple (TupleField.from_utf8 part))
    (split_on slash (as_bytes path)) new.

Definition to_utf8_path_bytes (self : t) : list byte :=
  fold_left (fun path field => (path ++ [slash]) ++ from_utf8_lossy (TupleField.value field))
    (fields self) [].

Lemma to_utf8_path_app acc fs :
  fold_left (fun path field => (path ++ [slash]) ++ from_utf8_lossy (TupleField.value field)) fs acc
  = acc ++ concat (map (fun f => slash :: from_utf8_lossy (TupleField.value f)) fs).
Proof.
  revert acc. induction fs as [|f fs IH]; intros acc; simpl; [by rewrite app_nil_r|].
  by rewrite IH, <- !app_assoc.
Qed.

Lemma to_utf8_path_utf8 self : utf8_valid (to_utf8_path_bytes self) = true.
Proof.
  unfold to_utf8_path_bytes. rewrite to_utf8_path_app. simpl.
  induction (fields self) as [|f fs IH]; [done|]. cbn [map concat].
  apply utf8_valid_app; [|done]. apply (utf8_valid_app [slash]); [done|].
  apply from_utf8_lossy_utf8.
Qed.

Definition to_utf8_path (self : t) : String :=
  mk_String (to_utf8_path_bytes self) (to_utf8_path_utf8 self).

Lemma from_utf8_path_fields path :
  fields (from_utf8_path path) = map TupleField.from_utf8 (split_on slash (as_bytes path)).
Proof.
  unfold from_utf8_path.
  assert (H : forall ps acc, fields (fold_left (fun tuple part => add tuple (TupleField.from_utf8 part)) ps acc)
    = fields acc ++ map TupleField.from_utf8 ps); [|by rewrite H].
  induction ps as [|p ps IH]; intros acc; simpl; [by rewrite app_nil_r|].
  rewrite IH. simpl. by rewrite <- app_assoc.
Qed.

#[export] Instance RoundTrip_t : RoundTrip t.
Proof.
  intros [fs]. eapply agrees_bind; [apply agrees_usize|]. cbv beta.
  eapply agrees_bind_last; [|done]. cbn [fields].
  rewrite <- (app_nil_l fs) at 3. rewrite <- fold_left_snoc.
  apply (agrees_for_range encode _ _ (fun _ _ => True)); [|done].
  intros f gs acc _. split; [|done]. eapply agrees_bind_last; [apply round_trip|done].
Qed.

#[export] Instance Streaming_t : Streaming t.
Proof. unfold Streaming, decode, Decode_t, decode_tuple. stream_tac. Qed.

#[export] Instance MinSize_t : MinSize t 1.
Proof.
  unfold MinSize, decode, Decode_t, decode_tuple. apply consumes_bind_l; [apply decode_consumes|].
  intros. apply streaming_consumes. stream_tac.
Qed.
End Tuple.
Export (hints) Tuple.

(** ** [Params] *)

Module Params.
Record t := mk { pmap : gmap N (list byte) }.

#[export] Instance t_eq_dec : EqDecision t.
Proof. solve_decision. Defined.

Definition new : t := mk ∅.

Definition decode_entry (params : gmap N (list byte)) : dec (gmap N (list byte)) :=
  let! kind := (decode : dec N) in
  if decide (is_Some (params !! kind)) then raise DecodeErr.DupliateParameter
  else
    let! size := decode_usize in
    do! decode_remaining size in
    let! buf := copy_to_slice size in
    ret (<[kind := buf]> params).

Definition decode_params : dec t :=
  let! count := (decode : dec N) in
  let! params := for_range count decode_entry ∅ in
  ret (mk params).

Definition encode_entry (kv : N * list byte) : enc unit :=
  do! encode kv.1 in
  do! encode_usize (lenN kv.2) in
  do! encode_remaining (lenN kv.2) in
  put_slice kv.2.

Definition encode_params `{Runtime} (self : t) : enc unit :=
  do! encode_usize (N.of_nat (size (pmap self))) in
  for_each (hash_iter (pmap self)) encode_entry.

#[export] Instance Encode_t `{Runtime} : Encode t := encode_params.
#[export] Instance Decode_t : Decode t := decode_params.

Definition set `{Runtime, Encode P} (kind : N) (p : P) : M t EncodeError unit := fun self =>
  match to_vec (encode p) with
  | Ok v => (Ok tt, mk (<[kind := v]> (pmap self)))
  | Err e => (Err e, self)
  | Panic => (Panic, self)
  end.

Definition has (self : t) (kind : N) : bool := bool_decide (is_Some (pmap self !! kind)).

(** The entry is removed before it is decoded, even when decoding fails. *)
Definition get {P} `{Decode P} (kind : N) : M t DecodeError (option P) := fun self =>
  match pmap self !! kind with
  | Some v =>
      (let! p := (fun s => (fst (decode v), s)) in ret (Some p)) (mk (delete kind (pmap self)))
  | None => (Ok None, self)
  end.

(** The wire form of one entry, and what reading it does to the map. *)
Definition entry_bytes (kv : N * list byte) : list byte :=
  varint_bytes kv.1 ++ varint_bytes (lenN kv.2) ++ kv.2.

Definition entry_fits (kv : N * list byte) : Prop := kv.1 < 2 ^ 62 /\ lenN kv.2 < 2 ^ 62.

Definition insert_entry (params : gmap N (list byte)) (kv : N * list byte) : gmap N (list byte) :=
  <[kv.1 := kv.2]> params.

Lemma agrees_entry params kv :
  params !! kv.1 = None ->
  agrees (encode_entry kv) (decode_entry params) (insert_entry params kv).
Proof.
  intros Hk. eapply agrees_bind; [apply round_trip|]. cbv beta.
  destruct (decide (is_Some (params !! kv.1))) as [[? H]|_]; [by rewrite Hk in H|].
  by apply agrees_prefixed.
Qed.

(** Entries with distinct keys, none of them in the map yet. *)
Definition fresh_entries (params : gmap N (list byte)) (kvs : list (N * list byte)) : Prop :=
  NoDup kvs.*1 /\ Forall (fun kv => params !! kv.1 = None) kvs.

Lemma fresh_entries_cons params kv kvs :
  fresh_entries params (kv :: kvs) ->
  params !! kv.1 = None /\ fresh_entries (insert_entry params kv) kvs.
Proof.
  intros [Hnd Hf]. apply Forall_cons in Hf as [Hk Hf]. csimpl in Hnd.
  apply NoDup_cons in Hnd as [Hni Hnd]. split; [done|]. split; [done|].
  apply Forall_forall. intros kv' Hin. unfold insert_entry.
  rewrite lookup_insert_ne; [by eapply Forall_forall in Hf|].
  intros Heq. apply Hni. rewrite Heq. by apply list_elem_of_fmap_2.
Qed.

Lemma fold_insert_entry kvs params :
  fresh_entries params kvs -> fold_left insert_entry kvs params = list_to_map kvs ∪ params.
Proof.
  revert params. induction kvs as [|[k v] kvs IH]; intros params Hf; simpl.
  { by rewrite (left_id_L ∅ (∪)). }
  pose proof Hf as [Hnd _]. apply fresh_entries_cons in Hf as [Hk Hf].
  rewrite (IH _ Hf). unfold insert_entry; simpl in *.
  apply NoDup_cons in Hnd as [Hni Hnd].
  rewrite <- insert_union_r; [by rewrite insert_union_l|].
  by apply not_elem_of_list_to_map_1.
Qed.

Lemma hash_iter_fresh `{Runtime} (m : gmap N (list byte)) : fresh_entries ∅ (hash_iter m).
Proof.
  split; [|by apply Forall_forall].
  rewrite (hash_iter_perm m). apply NoDup_fst_map_to_list.
Qed.

Lemma hash_iter_map `{Runtime} (m : gmap N (list byte)) : list_to_map (hash_iter m) = m.
Proof.
  etransitivity; [|apply (list_to_map_to_list m)]. apply list_to_map_proper.
  - apply hash_iter_fresh.
  - apply hash_iter_perm.
Qed.

Lemma hash_iter_length `{Runtime} (m : gmap N (list byte)) :
  lenN (hash_iter m) = N.of_nat (size m).
Proof. unfold lenN. by rewrite (hash_iter_perm m), length_map_to_list. Qed.

#[export] Instance RoundTrip_t `{Runtime} : RoundTrip t.
Proof.
  intros [m]. eapply agrees_bind; [apply agrees_usize|]. cbv beta.
  eapply agrees_bind_last; [|done]. cbn [pmap]. rewrite <- hash_iter_length.
  replace m with (fold_left insert_entry (hash_iter m) ∅) at 3.
  - apply (agrees_for_range _ _ _ fresh_entries); [|apply hash_iter_fresh].
    intros kv kvs params Hf. apply fresh_entries_cons in Hf as [Hk Hf].
    split; [by apply agrees_entry|done].
  - rewrite fold_insert_entry by apply hash_iter_fresh.
    by rewrite (right_id_L ∅ (∪)), hash_iter_map.
Qed.

Lemma streaming_entry params : streaming (decode_entry params).
Proof.
  unfold decode_entry. apply streaming_bind; [apply decode_streaming|]. intros k.
  destruct (decide _); [by apply streaming_raise|]. apply streaming_prefixed.
  intros. apply streaming_ret.
Qed.

#[export] Instance Streaming_t : Streaming t.
Proof.
  unfold Streaming, decode, Decode_t, decode_params.
  apply streaming_bind; [apply decode_streaming|]. intros n. apply streaming_bind.
  - apply streaming_for_range, streaming_entry.
  - intros. apply streaming_ret.
Qed.

#[export] Instance MinSize_t : MinSize t 1.
Proof.
  unfold MinSize, decode, Decode_t, decode_params. apply consumes_bind_l; [apply decode_consumes|].
  intros n. apply streaming_consumes, streaming_bind.
  - apply streaming_for_range, streaming_entry.
  - intros. apply streaming_ret.
Qed.

(** Reading one written entry, the key new or not. *)
Lemma decode_u64_bytes x rest : x < 2 ^ 62 -> decode_u64 (varint_bytes x ++ rest) = (Ok x, rest).
Proof. intros Hx. unfold decode_u64. erewrite bind_run by (by apply decode_varint_bytes). done. Qed.

Lemma decode_entry_bytes params kv rest :
  entry_fits kv ->
  match params !! kv.1 with
  | Some _ => fst (decode_entry params (entry_bytes kv ++ rest)) = Err DecodeErr.DupliateParameter
  | None => decode_entry params (entry_bytes kv ++ rest) = (Ok (insert_entry params kv), rest)
  end.
Proof.
  intros [Hk Hv]. unfold entry_bytes, decode_entry. rewrite <- !app_assoc.
  erewrite bind_run by (by apply decode_u64_bytes).
  destruct (params !! kv.1) eqn:E; destruct (decide _) as [Hs|Hs]; [done| | |].
  - destruct Hs. eauto.
  - destruct Hs. congruence.
  - erewrite bind_run by (by apply decode_u64_bytes).
    rewrite <- (bind_assoc (decode_remaining _) (fun _ => copy_to_slice _) _ _).
    by erewrite bind_run by apply checked_copy_app.
Qed.

Lemma decode_entries_fresh kvs params rest :
  Forall entry_fits kvs -> fresh_entries params kvs ->
  for_range (lenN kvs) decode_entry params (concat (map entry_bytes kvs) ++ rest)
    = (Ok (fold_left insert_entry kvs params), rest).
Proof.
  intros Hfit. revert params. induction Hfit as [|kv kvs Hkv _ IH]; intros params Hf; [done|].
  apply fresh_entries_cons in Hf as [Hk Hf]. cbn [map concat].
  rewrite lenN_cons, N.add_1_l, (for_range_succ _ _ _ _), <- app_assoc.
  pose proof (decode_entry_bytes params kv (concat (map entry_bytes kvs) ++ rest) Hkv) as He.
  rewrite Hk in He. erewrite bind_run by done. by apply IH.
Qed.

Lemma decode_entries_duplicate kvs params rest :
  Forall entry_fits kvs -> ~ fresh_entries params kvs ->
  fst (for_range (lenN kvs) decode_entry params (concat (map entry_bytes kvs) ++ rest))
    = Err DecodeErr.DupliateParameter.
Proof.
  intros Hfit. revert params. induction Hfit as [|kv kvs Hkv _ IH]; intros params Hf.
  { destruct Hf. split; [apply NoDup_nil_2|done]. }
  cbn [map concat]. rewrite lenN_cons, N.add_1_l, (for_range_succ _ _ _ _), <- app_assoc.
  pose proof (decode_entry_bytes params kv (concat (map entry_bytes kvs) ++ rest) Hkv) as He.
  destruct (params !! kv.1) eqn:Hk.
  - unfold bind. destruct (decode_entry _ _) as [o r]. simpl in He. by rewrite He.
  - erewrite bind_run by done. apply IH. contradict Hf. destruct Hf as [Hnd Hf].
    rewrite Forall_forall in Hf. split; csimpl.
    + apply NoDup_cons. split; [|done]. intros Hin.
      apply list_elem_of_fmap in Hin as (kv' & Heq & Hin). specialize (Hf _ Hin).
      unfold insert_entry in Hf. rewrite Heq, lookup_insert_eq in Hf. done.
    + apply Forall_cons. split; [done|]. apply Forall_forall. intros kv' Hin.
      specialize (Hf _ Hin). unfold insert_entry in Hf.
      by apply lookup_insert_None in Hf as [? _].
Qed.
End Params.
Export (hints) Params.

(** ** Properties *)

(** Reading a parameter list: entries in any order are
    accepted exactly when their keys are distinct, and then every key maps to
    its value; the first repeated key fails the whole list with
    [DupliateParameter]. *)
Theorem params_decode_entries (kvs : list (N * list byte)) (rest : list byte) :
  Forall Params.entry_fits kvs -> lenN kvs < 2 ^ 62 ->
  let input := varint_bytes (lenN kvs) ++ concat (map Params.entry_bytes kvs) ++ rest in
  (NoDup kvs.*1 -> Params.decode_params input = (Ok (Params.mk (list_to_map kvs)), rest)) /\
  (~ NoDup kvs.*1 -> fst (Params.decode_params input) = Err DecodeErr.DupliateParameter).
Proof.
  intros Hfit Hlen. cbv zeta. unfold Params.decode_params. split; intros Hnd.
  - erewrite bind_run by (by apply Params.decode_u64_bytes).
    assert (Hf : Params.fresh_entries ∅ kvs) by (split; [done|by apply Forall_forall]).
    erewrite bind_run by (by apply Params.decode_entries_fresh).
    by rewrite Params.fold_insert_entry, (right_id_L ∅ (∪)).
  - erewrite bind_run by (by apply Params.decode_u64_bytes).
    assert (Hf : ~ Params.fresh_entries ∅ kvs) by (by intros [? _]).
    pose proof (Params.decode_entries_duplicate kvs ∅ rest Hfit Hf) as H.
    unfold bind. destruct (for_range _ _ _ _) as [o r]. simpl in H. by rewrite H.
Qed.

Lemma params_decode_entries_witness :
  Params.decode_params [x02; x01; x01; x2f; x00; x01; x03] =
    (Ok (Params.mk (list_to_map [(1, [x2f]); (0, [x03])])), []) /\
  fst (Params.decode_params [x02; x01; x00; x01; x00]) = Err DecodeErr.DupliateParameter.
Proof.
  split.
  - apply (params_decode_entries [(1, [x2f]); (0, [x03])] []);
      [by repeat constructor|done|]. by apply (bool_decide_unpack _).
  - apply (params_decode_entries [(1, []); (1, [])] []);
      [by repeat constructor|done|]. by apply (bool_decide_unpack _).
Defined.

(** [Params::set] followed by [Params::get] gives the value
    back and removes it, for every codec with the round-trip law; other keys are
    not touched, and a key that was never set reads as [None]. *)
Theorem params_set_get `{Runtime, RoundTrip P} (m m' : Params.t) (kind : N) (p : P) :
  Params.set kind p m = (Ok tt, m') ->
  Params.has m' kind = true /\
  Params.get kind m' = (Ok (Some p), Params.mk (delete kind (Params.pmap m))) /\
  Params.get (P:=P) kind (Params.mk (delete kind (Params.pmap m))) =
    (Ok None, Params.mk (delete kind (Params.pmap m))) /\
  forall k, k <> kind -> Params.pmap m' !! k = Params.pmap m !! k.
Proof.
  unfold Params.set, to_vec. intros Hset.
  destruct (encode p _) as [[[]|e|] w] eqn:E; simplify_eq.
  apply round_trip in E as (bs & -> & Hbs). specialize (Hbs []). rewrite app_nil_r in Hbs.
  unfold Params.has, Params.get, bind. cbn [Params.pmap wapp wdata new_vec app].
  rewrite lookup_insert_eq, Hbs, lookup_delete_eq, delete_insert_eq. split; [done|].
  split; [done|]. split; [done|]. intros k Hk. by rewrite lookup_insert_ne.
Qed.

Lemma params_set_get_witness :
  exists m', Params.set (H:=std_runtime) 0 300 Params.new = (Ok tt, m') /\
    Params.has m' 0 = true /\ Params.get 0 m' = (Ok (Some 300), Params.new).
Proof.
  set (m' := snd (Params.set (H:=std_runtime) 0 300 Params.new)).
  assert (E : Params.set (H:=std_runtime) 0 300 Params.new = (Ok tt, m'))
    by (vm_compute; reflexivity).
  exists m'. split; [exact E|].
  destruct (params_set_get (H:=std_runtime) Params.new m' 0 300 E) as (Hh & Hg & _).
  split; [exact Hh|exact Hg].
Defined.

(** Reading a tuple of any announced size is safe: no
    panic, and on success the tuple has no more fields than the input has
    bytes, so the announced count alone cannot make the reader allocate. *)
Theorem tuple_decode_bounded (r : list byte) :
  match Tuple.decode_tuple r with
  | (Ok t, r') => 1 + lenN (Tuple.fields t) + lenN r' <= lenN r
  | (Err _, _) => True
  | (Panic, _) => False
  end.
Proof.
  pose proof (streaming_no_panic _ r (decode_streaming (A:=Tuple.t))) as Hp.
  unfold decode, Tuple.Decode_t in Hp.
  destruct (Tuple.decode_tuple r) as [[t|e|] r'] eqn:E; [|done|by destruct Hp].
  unfold Tuple.decode_tuple in E. run_inv. apply (decode_consumes (A:=N)) in E0.
  assert (Hb : forall n fs r fs' r', for_range n (fun fields =>
      let! f := (decode : dec TupleField.t) in ret (fields ++ [f])) fs r = (Ok fs', r') ->
    lenN fs' + lenN r' <= lenN fs + lenN r).
  { intros n. induction n as [|n IH] using N.peano_ind; intros fs r1 fs' r2 H1.
    { unfold for_range in H1. run_inv. lia. }
    rewrite (for_range_succ _ _ _ r1) in H1. run_inv. apply IH in H1.
    match goal with Ef : decode _ = (Ok ?f, _) |- _ =>
      apply (decode_consumes (A:=TupleField.t)) in Ef end. rewrite lenN_app in H1.
    match type of H1 with context [lenN [?f]] => change (lenN [f]) with 1 in H1 end. lia. }
  apply Hb in E1. rewrite lenN_nil in E1. simpl. lia.
Qed.

(** A namespace path survives [Tuple::from_utf8_path],
    encoding, decoding and [Tuple::to_utf8_path], up to the one leading slash
    the printer adds. *)
Theorem tuple_path_round_trip (path : String) (w w' : wbuf) :
  encode (Tuple.from_utf8_path path) w = (Ok tt, w') ->
  exists bs, w' = wapp w bs /\ forall rest, exists t,
    decode (bs ++ rest) = (Ok t, rest) /\
    as_bytes (Tuple.to_utf8_path t) = Tuple.slash :: as_bytes path.
Proof.
  intros E. apply round_trip in E as (bs & -> & Hbs). exists bs. split; [done|].
  intros rest. eexists. split; [apply Hbs|]. simpl. unfold Tuple.to_utf8_path_bytes.
  rewrite Tuple.to_utf8_path_app, Tuple.from_utf8_path_fields, map_map. simpl.
  rewrite <- (split_on_concat Tuple.slash (as_bytes path)). f_equal.
  assert (Hv := split_on_valid Tuple.slash _ ltac:(done) (utf8_ok path)).
  induction Hv as [|p ps Hp Hps IH]; [done|]. simpl. by rewrite from_utf8_lossy_valid, IH.
Qed.

Lemma tuple_path_round_trip_witness :
  exists p w', from_utf8 [x61; x2f; x62] = Some p /\
    encode (Tuple.from_utf8_path p) {| wdata := []; wcap := 100 |} = (Ok tt, w') /\
    exists bs, w' = wapp {| wdata := []; wcap := 100 |} bs /\ forall rest, exists t,
      decode (bs ++ rest) = (Ok t, rest) /\
      as_bytes (Tuple.to_utf8_path t) = [x2f; x61; x2f; x62].
Proof.
  eexists _, _. split; [reflexivity|]. split; [vm_compute; reflexivity|].
  apply (tuple_path_round_trip (mk_String [x61; x2f; x62] eq_refl)).
  vm_compute. reflexivity.
Defined.

(** Decoding a complete length-prefixed string accepts
    exactly the UTF-8 byte sequences, returns their bytes unchanged, and
    otherwise reports [InvalidString] with the offending bytes. *)
Theorem string_decode_utf8 (bs rest : list byte) :
  lenN bs < 2 ^ 62 ->
  match decode_string (varint_bytes (lenN bs) ++ bs ++ rest) with
  | (Ok s, r) => utf8_valid bs = true /\ as_bytes s = bs /\ r = rest
  | (Err e, _) => utf8_valid bs = false /\ e = DecodeErr.InvalidString bs
  | (Panic, _) => False
  end.
Proof.
  intros Hl. unfold decode_string.
  erewrite bind_run by (by apply Params.decode_u64_bytes).
  rewrite <- (bind_assoc (decode_remaining _) (fun _ => copy_to_slice _) _ _).
  erewrite bind_run by apply checked_copy_app.
  pose proof (from_utf8_spec bs) as Hs. destruct (from_utf8 bs) as [s|]; simpl; [|done].
  subst bs. split; [apply utf8_ok|done].
Qed.

Lemma string_decode_utf8_witness :
  lenN [xc3; xa9] < 2 ^ 62 /\
  match decode_string (varint_bytes (lenN [xc3; xa9]) ++ [xc3; xa9] ++ [x00]) with
  | (Ok s, r) => utf8_valid [xc3; xa9] = true /\ as_bytes s = [xc3; xa9] /\ r = [x00]
  | (Err e, _) => utf8_valid [xc3; xa9] = false /\ e = DecodeErr.InvalidString [xc3; xa9]
  | (Panic, _) => False
  end.
Proof. split; [reflexivity|]. apply (string_decode_utf8 [xc3; xa9] [x00]). reflexivity. Defined.
