(* ===== verification/Setup.v ===== *)
(** * Session setup

    [moq-transport/src/setup/]: roles, versions and the two SETUP messages that
    open the control stream. *)
From Stdlib Require Import NArith Lia Bool.
From stdpp Require Import base list gmap option numbers.
From S2P Require Import Prelude Buffers VarInt Utf8 Coding.

(** ** [setup/role.rs] *)

Module Role.
Inductive t := Publisher | Subscriber | Both.

#[export] Instance t_eq_dec : EqDecision t.
Proof. solve_decision. Defined.

Definition is_publisher (self : t) : bool :=
  match self with Publisher | Both => true | Subscriber => false end.

Definition is_subscriber (self : t) : bool :=
  match self with Subscriber | Both => true | Publisher => false end.

Definition is_compatible (self other : t) : bool :=
  eqb (is_publisher self) (is_subscriber other) && eqb (is_subscriber self) (is_publisher other).

(** [From<Role> for u64] and [TryFrom<u64> for Role] *)
Definition to_u64 (r : t) : N :=
  match r with Publisher => 1 | Subscriber => 2 | Both => 3 end.

Definition try_from (v : N) : dec t :=
  match v with
  | 1 => ret Publisher
  | 2 => ret Subscriber
  | 3 => ret Both
  | _ => raise (DecodeErr.InvalidRole v)
  end.

Definition decode_role : dec t := let! v := (decode : dec N) in try_from v.
Definition encode_role (r : t) : enc unit := encode (to_u64 r).

#[export] Instance Encode_t : Encode t := encode_role.
#[export] Instance Decode_t : Decode t := decode_role.

#[export] Instance RoundTrip_t : RoundTrip t.
Proof. intros r. eapply agrees_bind_last; [apply (round_trip (A:=N))|by destruct r]. Qed.

#[export] Instance Streaming_t : Streaming t.
Proof.
  apply streaming_bind; [apply decode_streaming|]. intros v. unfold try_from. stream_tac.
Qed.
End Role.
Export (hints) Role.

(** ** [setup/version.rs] *)

Module Version.
Record t := mk { num : N }.

#[export] Instance t_eq_dec : EqDecision t.
Proof. solve_decision. Defined.

Definition DRAFT_00 : t := mk 0xff000000.
Definition DRAFT_01 : t := mk 0xff000001.
Definition DRAFT_02 : t := mk 0xff000002.
Definition DRAFT_03 : t := mk 0xff000003.
Definition DRAFT_04 : t := mk 0xff000004.
Definition DRAFT_05 : t := mk 0xff000005.
Definition DRAFT_06 : t := mk 0xff000006.
Definition DRAFT_07 : t := mk 0xff000007.

Definition from (v : N) : t := mk v.
Definition to_u64 (v : t) : N := num v.

Definition decode_version : dec t := let! v := (decode : dec N) in ret (mk v).
Definition encode_version (v : t) : enc unit := encode (num v).

#[export] Instance Encode_t : Encode t := encode_version.
#[export] Instance Decode_t : Decode t := decode_version.

#[export] Instance RoundTrip_t : RoundTrip t.
Proof. intros r. eapply agrees_bind_last; [apply (round_trip (A:=N))|by destruct r]. Qed.

#[export] Instance Streaming_t : Streaming t.
Proof. unfold Streaming, decode, Decode_t, decode_version. stream_tac. Qed.
End Version.
Export (hints) Version.

Module Versions.
Record t := mk { list_of : list Version.t }.

Definition decode_versions : dec t :=
  let! count := (decode : dec N) in
  let! vs := for_range count
    (fun vs => let! v := (decode : dec Version.t) in ret (vs ++ [v])) [] in
  ret (mk vs).

Definition encode_versions (self : t) : enc unit :=
  do! encode_usize (lenN (list_of self)) in
  for_each (list_of self) encode.

(** [Deref] and the [From] conversions *)
Definition deref (self : t) : list Version.t := list_of self.
Definition from (vs : list Version.t) : t := mk vs.

#[export] Instance Encode_t : Encode t := encode_versions.
#[export] Instance Decode_t : Decode t := decode_versions.

#[export] Instance RoundTrip_t : RoundTrip t.
Proof.
  intros [vs]. eapply agrees_bind; [apply agrees_usize|]. cbv beta.
  eapply agrees_bind_last; [|done]. cbn [list_of].
  rewrite <- (app_nil_l vs) at 3. rewrite <- fold_left_snoc.
  apply (agrees_for_range encode _ _ (fun _ _ => True)); [|done].
  intros f gs acc _. split; [|done]. eapply agrees_bind_last; [apply round_trip|done].
Qed.

#[export] Instance Streaming_t : Streaming t.
Proof. unfold Streaming, decode, Decode_t, decode_versions. stream_tac. Qed.
End Versions.
Export (hints) Versions.

(** ** [setup/client.rs] and [setup/server.rs] *)

(** [params.set(0, role)?] on a clone of the parameters *)
Definition set_role `{Runtime} (params : Params.t) (role : Role.t) : enc Params.t :=
  let! p := sub (Params.set 0 role) params in ret p.2.

(** [params.get::<Role>(0)?.ok_or(MissingParameter)?], with the params left over *)
Definition get_role (params : Params.t) : dec (Role.t * Params.t) :=
  let! p := sub (Params.get (P:=Role.t) 0) params in
  let! role := ok_or p.1 DecodeErr.MissingParameter in
  ret (role, p.2).

Module Client.
Record t := mk { versions : Versions.t; role : Role.t; params : Params.t }.

Definition decode_client : dec t :=
  let! typ := (decode : dec N) in
  if negb (typ =? 0x40) then raise (DecodeErr.InvalidMessage typ)
  else
    let! _len := (decode : dec N) in
    let! versions := (decode : dec Versions.t) in
    let! params := (decode : dec Params.t) in
    let! rp := get_role params in
    if Params.has rp.2 1 then raise DecodeErr.InvalidParameter
    else ret (mk versions rp.1 rp.2).

Definition encode_client `{Runtime} (self : t) : enc unit :=
  do! encode (0x40 : N) in
  let! buf := sub (unwrap (encode (versions self))) new_vec in
  let! params := set_role (params self) (role self) in
  let! buf := sub (unwrap (encode params)) buf.2 in
  do! encode (lenN (wdata buf.2)) in
  put_slice (wdata buf.2).

#[export] Instance Encode_t `{Runtime} : Encode t := encode_client.
#[export] Instance Decode_t : Decode t := decode_client.
End Client.
Export (hints) Client.

Module Server.
Record t := mk { version : Version.t; role : Role.t; params : Params.t }.

Definition decode_server : dec t :=
  let! typ := (decode : dec N) in
  if negb (typ =? 0x41) then raise (DecodeErr.InvalidMessage typ)
  else
    let! _len := (decode : dec N) in
    let! version := (decode : dec Version.t) in
    let! params := (decode : dec Params.t) in
    let! rp := get_role params in
    if Params.has rp.2 1 then raise DecodeErr.InvalidParameter
    else ret (mk version rp.1 rp.2).

Definition encode_server `{Runtime} (self : t) : enc unit :=
  do! encode (0x41 : N) in
  let! buf := sub (unwrap (encode (version self))) new_vec in
  let! params := set_role (params self) (role self) in
  let! buf := sub (unwrap (encode params)) buf.2 in
  do! encode (lenN (wdata buf.2)) in
  put_slice (wdata buf.2).

#[export] Instance Encode_t `{Runtime} : Encode t := encode_server.
#[export] Instance Decode_t : Decode t := decode_server.
End Server.
Export (hints) Server.

(** The parameters on the wire: the caller's, with the role under key 0. *)
Lemma set_role_Ok `{Runtime} params role w p w' :
  set_role params role w = (Ok p, w') ->
  w' = w /\ exists v, Params.pmap p = <[0 := v]> (Params.pmap params) /\
    decode v = (Ok role, []).
Proof.
  unfold set_role. intros Hr. run_inv. apply sub_Ok in E as [E ->].
  split; [done|]. unfold Params.set, to_vec in E.
  destruct (encode role _) as [[[]|e|] w1] eqn:Er; simplify_eq.
  apply round_trip in Er as (bs & -> & Hbs). simpl in *.
  exists bs. specialize (Hbs []). rewrite app_nil_r in Hbs. split; [|done].
  by destruct a; simplify_eq/=.
Qed.

(** Reading the role back leaves the caller's other parameters. *)
Lemma get_role_set params role v r :
  decode v = (Ok role, []) ->
  get_role (Params.mk (<[0 := v]> (Params.pmap params))) r =
    (Ok (role, Params.mk (delete 0 (Params.pmap params))), r).
Proof.
  intros Hv. unfold get_role, sub, Params.get, bind. cbn [Params.pmap].
  by rewrite lookup_insert_eq, Hv, delete_insert_eq.
Qed.

(** What the body of a SETUP message carries, for both messages. *)
Lemma setup_body `{Runtime, RoundTrip A} (typ : N) (a : A) (params : Params.t) (role : Role.t)
 w w' :
  (do! encode typ in
   let! buf := sub (unwrap (encode a)) new_vec in
   let! params := set_role params role in
   let! buf := sub (unwrap (encode params)) buf.2 in
   do! encode (lenN (wdata buf.2)) in
   put_slice (wdata buf.2)) w = (Ok tt, w') ->
  exists bs pbs tbs lbs v, w' = wapp w (tbs ++ lbs ++ bs ++ pbs) /\
    (forall rest, (decode : dec N) (tbs ++ rest) = (Ok typ, rest)) /\
    (forall rest, (decode : dec N) (lbs ++ rest) = (Ok (lenN (bs ++ pbs)), rest)) /\
    (forall rest, decode (bs ++ rest) = (Ok a, rest)) /\
    (forall rest, decode (pbs ++ rest) = (Ok (Params.mk (<[0 := v]> (Params.pmap params))), rest)) /\
    decode v = (Ok role, []).
Proof.
  intros E. run_inv.
  repeat match goal with H : sub _ ?s _ = (Ok ?p, _) |- _ =>
    let u := fresh "u" in let w1 := fresh "w1" in destruct p as [[] w1];
    apply sub_Ok in H as [H ->]; apply unwrap_Ok in H end.
  repeat match goal with u : unit |- _ => destruct u end.
  match goal with H : set_role _ _ _ = _ |- _ => apply set_role_Ok in H as (-> & v & Hp & Hv) end.
  apply put_slice_Ok in E as ->. cbn [fst snd] in *.
  repeat match goal with H : encode _ _ = (Ok tt, _) |- _ =>
    let bs := fresh "bs" in let Hbs := fresh "Hbs" in
    apply round_trip in H as (bs & -> & Hbs) end.
  cbn [snd wdata new_vec wapp app] in *.
  match type of Hp with Params.pmap ?p = _ => destruct p as [pm] end.
  cbn [Params.pmap] in Hp. subst pm.
  exists bs1, bs0, bs2, bs, v. split; [by rewrite !wapp_app, <- ?app_assoc|].
  repeat (split; [assumption|]). assumption.
Qed.

(** Reading that body back: the role comes out of the parameters, and PATH is
    refused. *)
Lemma setup_tail {B} params role (v pbs rest : list byte) (mk : Role.t -> Params.t -> B) :
  (forall rest, decode (pbs ++ rest) =
    (Ok (Params.mk (<[0 := v]> (Params.pmap params))), rest)) ->
  decode v = (Ok role, []) ->
  (let! params := (decode : dec Params.t) in
   let! rp := get_role params in
   if Params.has rp.2 1 then raise DecodeErr.InvalidParameter
   else ret (mk rp.1 rp.2)) (pbs ++ rest) =
  (if Params.has params 1 then Err DecodeErr.InvalidParameter
   else Ok (mk role (Params.mk (delete 0 (Params.pmap params)))), rest).
Proof.
  intros Hp Hv. erewrite bind_run by apply Hp.
  erewrite bind_run by (by apply get_role_set). cbn [fst snd].
  replace (Params.has (Params.mk (delete 0 (Params.pmap params))) 1) with (Params.has params 1).
  - by destruct (Params.has params 1).
  - unfold Params.has. cbn [Params.pmap]. by rewrite lookup_delete_ne.
Qed.

(** A step that always gives the same answer and reads nothing. *)
Lemma streaming_const {A} (d : dec A) a : (forall r, d r = (Ok a, r)) -> streaming d.
Proof. intros Hd. eapply streaming_meq; [|apply (streaming_ret a)]. intros r. by rewrite Hd. Qed.

(** A SETUP message without PATH can be cut anywhere on its way. *)
Lemma setup_streaming {A B} `{Decode A, !Streaming A} (typ : N) (a : A) (params : Params.t) (role : Role.t)
    (tbs lbs bs pbs v rest : list byte) (mk : A -> Role.t -> Params.t -> B) :
  (forall rest, (decode : dec N) (tbs ++ rest) = (Ok typ, rest)) ->
  (forall rest, (decode : dec N) (lbs ++ rest) = (Ok (lenN (bs ++ pbs)), rest)) ->
  (forall rest, decode (bs ++ rest) = (Ok a, rest)) ->
  (forall rest, decode (pbs ++ rest) = (Ok (Params.mk (<[0 := v]> (Params.pmap params))), rest)) ->
  decode v = (Ok role, []) -> Params.has params 1 = false ->
  streaming_on
    (let! t := (decode : dec N) in
     if negb (t =? typ) then raise (DecodeErr.InvalidMessage t)
     else
       let! _len := (decode : dec N) in
       let! a := (decode : dec A) in
       let! params := (decode : dec Params.t) in
       let! rp := get_role params in
       if Params.has rp.2 1 then raise DecodeErr.InvalidParameter
       else ret (mk a rp.1 rp.2))
    (tbs ++ lbs ++ bs ++ pbs ++ rest).
Proof.
  intros Ht Hl Hb Hp Hv Hn.
  eapply streaming_on_bind; [apply decode_streaming|apply Ht|]. rewrite N.eqb_refl. cbn [negb].
  eapply streaming_on_bind; [apply decode_streaming|apply Hl|].
  eapply streaming_on_bind; [apply decode_streaming|apply Hb|].
  eapply streaming_on_bind; [apply decode_streaming|apply Hp|].
  eapply streaming_streaming_on, streaming_const. intros r.
  erewrite bind_run by (by apply get_role_set). cbn [fst snd].
  replace (Params.has (Params.mk (delete 0 (Params.pmap params))) 1) with (Params.has params 1).
  - rewrite Hn. reflexivity.
  - unfold Params.has. cbn [Params.pmap]. by rewrite lookup_delete_ne.
Qed.

Lemma client_read `{Runtime} (c : Client.t) (w w' : wbuf) :
  Client.encode_client c w = (Ok tt, w') ->
  exists bs, w' = wapp w bs /\ forall rest,
    Client.decode_client (bs ++ rest) =
      (if Params.has (Client.params c) 1 then Err DecodeErr.InvalidParameter
       else Ok (Client.mk (Client.versions c) (Client.role c)
         (Params.mk (delete 0 (Params.pmap (Client.params c))))), rest) /\
    (Params.has (Client.params c) 1 = false -> streaming_on Client.decode_client (bs ++ rest)).
Proof.
  intros E. apply setup_body in E as (bs & pbs & tbs & lbs & v & -> & Ht & Hl & Hb & Hp & Hv).
  eexists. split; [done|]. intros rest. unfold Client.decode_client. rewrite <- !app_assoc. split.
  - erewrite bind_run by apply Ht. cbn [negb N.eqb Pos.eqb].
    erewrite bind_run by apply Hl. erewrite bind_run by apply Hb.
    by apply (setup_tail _ _ v _ _ (Client.mk (Client.versions c))).
  - intros Hn. by eapply (setup_streaming 0x40).
Qed.

Lemma server_read `{Runtime} (c : Server.t) (w w' : wbuf) :
  Server.encode_server c w = (Ok tt, w') ->
  exists bs, w' = wapp w bs /\ forall rest,
    Server.decode_server (bs ++ rest) =
      (if Params.has (Server.params c) 1 then Err DecodeErr.InvalidParameter
       else Ok (Server.mk (Server.version c) (Server.role c)
         (Params.mk (delete 0 (Params.pmap (Server.params c))))), rest) /\
    (Params.has (Server.params c) 1 = false -> streaming_on Server.decode_server (bs ++ rest)).
Proof.
  intros E. apply setup_body in E as (bs & pbs & tbs & lbs & v & -> & Ht & Hl & Hb & Hp & Hv).
  eexists. split; [done|]. intros rest. unfold Server.decode_server. rewrite <- !app_assoc. split.
  - erewrite bind_run by apply Ht. cbn [negb N.eqb Pos.eqb].
    erewrite bind_run by apply Hl. erewrite bind_run by apply Hb.
    by apply (setup_tail _ _ v _ _ (Server.mk (Server.version c))).
  - intros Hn. by eapply (setup_streaming 0x41).
Qed.

(** ** Properties *)

(** A CLIENT_SETUP that was written is read back with the same
    versions and role and with the caller's other parameters; the role travels
    as parameter 0, so an entry of the caller under that key is lost, and a
    caller that set PATH (key 1) is refused by the reader. *)
Theorem client_setup_round_trip `{Runtime} (c : Client.t) (w w' : wbuf) :
  Client.encode_client c w = (Ok tt, w') ->
  exists bs, w' = wapp w bs /\ forall rest, Client.decode_client (bs ++ rest) =
    (if Params.has (Client.params c) 1 then Err DecodeErr.InvalidParameter
     else Ok (Client.mk (Client.versions c) (Client.role c)
       (Params.mk (delete 0 (Params.pmap (Client.params c))))), rest).
Proof.
  intros E. apply client_read in E as (bs & -> & Hbs). exists bs. split; [done|]. intros rest. apply Hbs.
Qed.

(** The message of the test [setup/client.rs]: [encode_decode]. *)
Definition sample_client : Client.t :=
  Client.mk (Versions.from [Version.DRAFT_07]) Role.Both Params.new.

Definition sample_client_bytes : list byte :=
  [x40; x40; x0d; x01; xc0; x00; x00; x00; xff; x00; x00; x07; x01; x00; x01; x03].

Lemma client_setup_round_trip_witness :
  let w := {| wdata := []; wcap := 64 |} in
  Client.encode_client (H:=std_runtime) sample_client w = (Ok tt, wapp w sample_client_bytes) /\
  exists bs, wapp w sample_client_bytes = wapp w bs /\
    forall rest, Client.decode_client (bs ++ rest) = (Ok sample_client, rest).
Proof.
  cbv zeta. assert (E : Client.encode_client (H:=std_runtime) sample_client
      {| wdata := []; wcap := 64 |} =
    (Ok tt, wapp {| wdata := []; wcap := 64 |} sample_client_bytes)) by (vm_compute; reflexivity).
  split; [exact E|].
  apply (client_setup_round_trip (H:=std_runtime) sample_client _ _ E).
Defined.

(** The same for SERVER_SETUP. *)
Theorem server_setup_round_trip `{Runtime} (c : Server.t) (w w' : wbuf) :
  Server.encode_server c w = (Ok tt, w') ->
  exists bs, w' = wapp w bs /\ forall rest, Server.decode_server (bs ++ rest) =
    (if Params.has (Server.params c) 1 then Err DecodeErr.InvalidParameter
     else Ok (Server.mk (Server.version c) (Server.role c)
       (Params.mk (delete 0 (Params.pmap (Server.params c))))), rest).
Proof.
  intros E. apply server_read in E as (bs & -> & Hbs). exists bs. split; [done|]. intros rest. apply Hbs.
Qed.

Definition sample_server : Server.t := Server.mk Version.DRAFT_07 Role.Both Params.new.

Definition sample_server_bytes : list byte :=
  [x40; x41; x0c; xc0; x00; x00; x00; xff; x00; x00; x07; x01; x00; x01; x03].

Lemma server_setup_round_trip_witness :
  let w := {| wdata := []; wcap := 64 |} in
  Server.encode_server (H:=std_runtime) sample_server w = (Ok tt, wapp w sample_server_bytes) /\
  exists bs, wapp w sample_server_bytes = wapp w bs /\
    forall rest, Server.decode_server (bs ++ rest) = (Ok sample_server, rest).
Proof.
  cbv zeta. assert (E : Server.encode_server (H:=std_runtime) sample_server
      {| wdata := []; wcap := 64 |} =
    (Ok tt, wapp {| wdata := []; wcap := 64 |} sample_server_bytes)) by (vm_compute; reflexivity).
  split; [exact E|].
  apply (server_setup_round_trip (H:=std_runtime) sample_server _ _ E).
Defined.

(** A complete SETUP whose role parameter is cut short is not
    rejected as malformed: the shortage of the parameter is reported as a
    shortage of the stream, so a reader that waits for [More] bytes and tries
    again asks for one more byte after every byte it gets. *)
Theorem client_truncated_role_waits (s : list byte) :
  fst (Client.decode_client ([x40; x40; x04; x00; x01; x00; x00] ++ s)) = Err (DecodeErr.More 1).
Proof.
  change ([x40; x40; x04; x00; x01; x00; x00] ++ s) with
    (varint_bytes 64 ++ varint_bytes 4 ++ varint_bytes 0 ++
     varint_bytes 1 ++ concat (map Params.entry_bytes [(0, [])]) ++ s).
  unfold Client.decode_client. erewrite bind_run by (by apply Params.decode_u64_bytes).
  cbn [negb N.eqb Pos.eqb]. erewrite bind_run by (by apply Params.decode_u64_bytes).
  erewrite (bind_run (decode : dec Versions.t)); cycle 1.
  { unfold decode, Versions.Decode_t, Versions.decode_versions.
    erewrite bind_run by (by apply Params.decode_u64_bytes). reflexivity. }
  erewrite (bind_run (decode : dec Params.t)); cycle 1.
  { unfold decode, Params.Decode_t, Params.decode_params.
    erewrite bind_run by (by apply Params.decode_u64_bytes).
    erewrite bind_run; [reflexivity|].
    apply (Params.decode_entries_fresh [(0, [])] ∅ s); [by repeat constructor|].
    split; [apply NoDup_singleton|by repeat constructor]. }
  reflexivity.
Qed.
