(* ===== verification/Data.v ===== *)
(** * Object data on streams and datagrams

    [moq-transport/src/data/]: the headers of unidirectional streams, the
    objects inside them, and datagrams. *)
From Stdlib Require Import NArith Lia Bool.
From stdpp Require Import base list gmap option numbers.
From S2P Require Import Prelude Buffers VarInt Coding.

(** ** [data/object.rs] *)

Module ObjectStatus.
Inductive t := Object | ObjectDoesNotExist | EndOfGroup | EndOfTrack | EndOfSubgroup.

#[export] Instance t_eq_dec : EqDecision t.
Proof. solve_decision. Defined.

Definition decode_status : dec t :=
  let! v := (decode : dec N) in
  match v with
  | 0 => ret Object
  | 1 => ret ObjectDoesNotExist
  | 3 => ret EndOfGroup
  | 4 => ret EndOfTrack
  | 5 => ret EndOfSubgroup
  | _ => raise DecodeErr.InvalidObjectStatus
  end.

Definition encode_status (self : t) : enc unit :=
  match self with
  | Object => encode (0 : N)
  | ObjectDoesNotExist => encode (1 : N)
  | EndOfGroup => encode (3 : N)
  | EndOfTrack => encode (4 : N)
  | EndOfSubgroup => encode (5 : N)
  end.

#[export] Instance Encode_t : Encode t := encode_status.
#[export] Instance Decode_t : Decode t := decode_status.

#[export] Instance RoundTrip_t : RoundTrip t.
Proof. intros [| | | |]; (eapply agrees_bind_last; [apply (round_trip (A:=N))|done]). Qed.

#[export] Instance Streaming_t : Streaming t.
Proof. unfold Streaming, decode, Decode_t, decode_status. stream_tac. Qed.
End ObjectStatus.
Export (hints) ObjectStatus.

Module ObjectHeader.
Record t := mk {
  subscribe_id : N; track_alias : N; group_id : N; object_id : N;
  publisher_priority : byte; object_status : ObjectStatus.t;
}.

Definition decode_header : dec t :=
  let! subscribe_id := decode in
  let! track_alias := decode in
  let! group_id := decode in
  let! object_id := decode in
  let! publisher_priority := decode in
  let! object_status := decode in
  ret (mk subscribe_id track_alias group_id object_id publisher_priority object_status).

Definition encode_header (self : t) : enc unit :=
  do! encode (subscribe_id self) in
  do! encode (track_alias self) in
  do! encode (group_id self) in
  do! encode (object_id self) in
  do! encode (publisher_priority self) in
  do! encode (object_status self) in
  ret tt.

#[export] Instance Encode_t : Encode t := encode_header.
#[export] Instance Decode_t : Decode t := decode_header.

#[export] Instance RoundTrip_t : RoundTrip t.
Proof. intros [?]. unfold encode, Encode_t, encode_header, decode, Decode_t, decode_header. agrees_tac. Qed.

#[export] Instance Streaming_t : Streaming t.
Proof. unfold Streaming, decode, Decode_t, decode_header. stream_tac. Qed.
End ObjectHeader.
Export (hints) ObjectHeader.

(** ** [data/subgroup.rs] *)

Module SubgroupHeader.
Record t := mk {
  subscribe_id : N; track_alias : N; group_id : N; subgroup_id : N;
  publisher_priority : byte;
}.

Definition decode_header : dec t :=
  let! subscribe_id := decode in
  let! track_alias := decode in
  let! group_id := decode in
  let! subgroup_id := decode in
  let! publisher_priority := decode in
  ret (mk subscribe_id track_alias group_id subgroup_id publisher_priority).

Definition encode_header (self : t) : enc unit :=
  do! encode (subscribe_id self) in
  do! encode (track_alias self) in
  do! encode (group_id self) in
  do! encode (subgroup_id self) in
  do! encode (publisher_priority self) in
  ret tt.

#[export] Instance Encode_t : Encode t := encode_header.
#[export] Instance Decode_t : Decode t := decode_header.

#[export] Instance RoundTrip_t : RoundTrip t.
Proof. intros [?]. unfold encode, Encode_t, encode_header, decode, Decode_t, decode_header. agrees_tac. Qed.

#[export] Instance Streaming_t : Streaming t.
Proof. unfold Streaming, decode, Decode_t, decode_header. stream_tac. Qed.
End SubgroupHeader.
Export (hints) SubgroupHeader.

(** The size of an object and its status share a rule in two files: an explicit
    status only when the size is 0. *)
Definition implied_status (size : N) (status : ObjectStatus.t) : ObjectStatus.t :=
  if size =? 0 then status else ObjectStatus.Object.

Lemma agrees_status size status :
  agrees (if size =? 0 then encode status else ret tt)
    (if size =? 0 then decode else ret ObjectStatus.Object) (implied_status size status).
Proof. unfold implied_status. destruct (size =? 0); [apply round_trip|apply agrees_ret]. Qed.

Lemma agrees_status_tail {A} size status (f : ObjectStatus.t -> A) :
  agrees (do! (if size =? 0 then encode status else ret tt) in ret tt)
    (let! status := (if size =? 0 then decode else ret ObjectStatus.Object) in ret (f status))
    (f (implied_status size status)).
Proof. eapply agrees_bind; [apply agrees_status|apply agrees_ret]. Qed.

Module SubgroupObject.
Record t := mk { object_id : N; size : N; status : ObjectStatus.t }.

Definition decode_object : dec t :=
  let! object_id := (decode : dec N) in
  let! size := decode_usize in
  let! status := (if size =? 0 then decode else ret ObjectStatus.Object) in
  ret (mk object_id size status).

Definition encode_object (self : t) : enc unit :=
  do! encode (object_id self) in
  do! encode_usize (size self) in
  do! (if size self =? 0 then encode (status self) else ret tt) in
  ret tt.

#[export] Instance Encode_t : Encode t := encode_object.
#[export] Instance Decode_t : Decode t := decode_object.

(** What is left of an object after a trip over the wire. *)
Definition canonical (self : t) : t :=
  mk (object_id self) (size self) (implied_status (size self) (status self)).

Lemma agrees_subgroup_object self : agrees (encode self) decode (canonical self).
Proof.
  eapply agrees_bind; [apply (round_trip (A:=N))|]. cbv beta.
  eapply agrees_bind; [apply agrees_usize|]. cbv beta.
  apply (agrees_status_tail (size self) (status self) (mk (object_id self) (size self))).
Qed.

#[export] Instance Streaming_t : Streaming t.
Proof.
  unfold Streaming, decode at 1, Decode_t, decode_object.
  apply streaming_bind; [apply decode_streaming|intros].
  apply streaming_bind; [apply streaming_usize|intros]. stream_tac.
Qed.

#[export] Instance MinSize_t : MinSize t 1.
Proof.
  unfold MinSize, decode at 1, Decode_t, decode_object.
  apply consumes_bind_l; [apply decode_consumes|intros]. apply streaming_consumes.
  apply streaming_bind; [apply streaming_usize|intros]. stream_tac.
Qed.
End SubgroupObject.
Export (hints) SubgroupObject.

(** ** [data/track.rs] *)

Module TrackHeader.
Record t := mk { subscribe_id : N; track_alias : N; publisher_priority : byte }.

Definition decode_header : dec t :=
  let! subscribe_id := decode in
  let! track_alias := decode in
  let! publisher_priority := decode in
  ret (mk subscribe_id track_alias publisher_priority).

Definition encode_header (self : t) : enc unit :=
  do! encode (subscribe_id self) in
  do! encode (track_alias self) in
  do! encode (publisher_priority self) in
  ret tt.

#[export] Instance Encode_t : Encode t := encode_header.
#[export] Instance Decode_t : Decode t := decode_header.

#[export] Instance RoundTrip_t : RoundTrip t.
Proof. intros [?]. unfold encode, Encode_t, encode_header, decode, Decode_t, decode_header. agrees_tac. Qed.

#[export] Instance Streaming_t : Streaming t.
Proof. unfold Streaming, decode, Decode_t, decode_header. stream_tac. Qed.
End TrackHeader.
Export (hints) TrackHeader.

Module TrackObject.
Record t := mk { group_id : N; object_id : N; size : N; status : ObjectStatus.t }.

Definition decode_object : dec t :=
  let! group_id := (decode : dec N) in
  let! object_id := (decode : dec N) in
  let! size := decode_usize in
  let! status := (if size =? 0 then decode else ret ObjectStatus.Object) in
  ret (mk group_id object_id size status).

Definition encode_object (self : t) : enc unit :=
  do! encode (group_id self) in
  do! encode (object_id self) in
  do! encode_usize (size self) in
  do! (if size self =? 0 then encode (status self) else ret tt) in
  ret tt.

#[export] Instance Encode_t : Encode t := encode_object.
#[export] Instance Decode_t : Decode t := decode_object.

Definition canonical (self : t) : t :=
  mk (group_id self) (object_id self) (size self) (implied_status (size self) (status self)).

Lemma agrees_track_object self : agrees (encode self) decode (canonical self).
Proof.
  do 2 (eapply agrees_bind; [apply (round_trip (A:=N))|]; cbv beta).
  eapply agrees_bind; [apply agrees_usize|]. cbv beta.
  apply (agrees_status_tail (size self) (status self)
    (mk (group_id self) (object_id self) (size self))).
Qed.

#[export] Instance Streaming_t : Streaming t.
Proof.
  unfold Streaming, decode at 1, Decode_t, decode_object.
  do 2 (apply streaming_bind; [apply decode_streaming|intros]).
  apply streaming_bind; [apply streaming_usize|intros]. stream_tac.
Qed.

#[export] Instance MinSize_t : MinSize t 1.
Proof.
  unfold MinSize, decode at 1, Decode_t, decode_object.
  apply consumes_bind_l; [apply decode_consumes|intros]. apply streaming_consumes.
  apply streaming_bind; [apply decode_streaming|intros].
  apply streaming_bind; [apply streaming_usize|intros]. stream_tac.
Qed.
End TrackObject.
Export (hints) TrackObject.

(** ** [data/datagram.rs] *)

Module Datagram.
Record t := mk {
  subscribe_id : N; track_alias : N; group_id : N; object_id : N;
  publisher_priority : byte; object_status : ObjectStatus.t;
  payload_len : N; payload : list byte;
}.

Definition decode_datagram : dec t :=
  let! subscribe_id := decode in
  let! track_alias := decode in
  let! group_id := decode in
  let! object_id := decode in
  let! publisher_priority := decode in
  let! object_status := decode in
  let! payload_len := decode in
  let! rem := remaining in
  if negb (payload_len =? rem) then raise (DecodeErr.InvalidLength payload_len rem)
  else
    let! rem := remaining in
    let! payload := copy_to_slice rem in
    ret (mk subscribe_id track_alias group_id object_id publisher_priority object_status
      payload_len payload).

Definition encode_datagram (self : t) : enc unit :=
  do! encode (subscribe_id self) in
  do! encode (track_alias self) in
  do! encode (group_id self) in
  do! encode (object_id self) in
  do! encode (publisher_priority self) in
  do! encode (object_status self) in
  do! encode (payload_len self) in
  do! encode_remaining (lenN (payload self)) in
  do! put_slice (payload self) in
  ret tt.

#[export] Instance Encode_t : Encode t := encode_datagram.
#[export] Instance Decode_t : Decode t := decode_datagram.

(** Everything before the payload. *)
Record head := mk_head {
  h_subscribe_id : N; h_track_alias : N; h_group_id : N; h_object_id : N;
  h_priority : byte; h_status : ObjectStatus.t; h_len : N;
}.
Definition head_of (d : t) : head :=
  mk_head (subscribe_id d) (track_alias d) (group_id d) (object_id d)
    (publisher_priority d) (object_status d) (payload_len d).
End Datagram.
Export (hints) Datagram.

(** ** [data/header.rs] *)

Module Header.
Inductive t := Track (m : TrackHeader.t) | Subgroup (m : SubgroupHeader.t).

Definition id (self : t) : N := match self with Track _ => 0x2 | Subgroup _ => 0x4 end.

Definition decode_header : dec t :=
  let! v := (decode : dec N) in
  match v with
  | 0x2 => let! msg := decode in ret (Track msg)
  | 0x4 => let! msg := decode in ret (Subgroup msg)
  | _ => raise (DecodeErr.InvalidMessage v)
  end.

Definition encode_header (self : t) : enc unit :=
  match self with
  | Track m => do! encode (id self) in encode m
  | Subgroup m => do! encode (id self) in encode m
  end.

#[export] Instance Encode_t : Encode t := encode_header.
#[export] Instance Decode_t : Decode t := decode_header.

Definition subscribe_id (self : t) : N :=
  match self with
  | Track o => TrackHeader.subscribe_id o
  | Subgroup o => SubgroupHeader.subscribe_id o
  end.

Definition track_alias (self : t) : N :=
  match self with
  | Track o => TrackHeader.track_alias o
  | Subgroup o => SubgroupHeader.track_alias o
  end.

Definition publisher_priority (self : t) : byte :=
  match self with
  | Track o => TrackHeader.publisher_priority o
  | Subgroup o => SubgroupHeader.publisher_priority o
  end.

#[export] Instance RoundTrip_t : RoundTrip t.
Proof.
  intros [m|m]; (eapply agrees_bind; [apply (round_trip (A:=N))|]);
    (eapply agrees_bind_last; [apply round_trip|done]).
Qed.

#[export] Instance Streaming_t : Streaming t.
Proof. unfold Streaming, decode at 1, Decode_t, decode_header. stream_tac. Qed.
End Header.
Export (hints) Header.

(** ** Properties *)

(** The header that opens a data stream survives the wire,
    and the kind of stream is never confused. *)
Theorem header_round_trip (h : Header.t) (w w' : wbuf) :
  Header.encode_header h w = (Ok tt, w') ->
  exists bs, w' = wapp w bs /\ forall rest, Header.decode_header (bs ++ rest) = (Ok h, rest).
Proof. apply (round_trip h). Qed.

Lemma header_round_trip_witness :
  let h := Header.Subgroup (SubgroupHeader.mk 1 2 300 4 x7f) in
  let w := {| wdata := []; wcap := 16 |} in
  let bs := [x04; x01; x02; x41; x2c; x04; x7f] in
  Header.encode_header h w = (Ok tt, wapp w bs) /\
  exists bs', wapp w bs = wapp w bs' /\
    forall rest, Header.decode_header (bs' ++ rest) = (Ok h, rest).
Proof.
  cbv zeta. split; [vm_compute; reflexivity|].
  apply (header_round_trip (Header.Subgroup (SubgroupHeader.mk 1 2 300 4 x7f))).
  vm_compute. reflexivity.
Defined.

(** Object headers inside streams survive the wire with their
    ids and sizes, the status replaced by [Object] exactly when there is a
    payload: an explicit status is sent only for empty objects. *)
Theorem objects_round_trip (s : SubgroupObject.t) (t : TrackObject.t) (w : wbuf) :
  (forall w', SubgroupObject.encode_object s w = (Ok tt, w') ->
    exists bs, w' = wapp w bs /\ forall rest, SubgroupObject.decode_object (bs ++ rest) =
      (Ok (SubgroupObject.mk (SubgroupObject.object_id s) (SubgroupObject.size s)
        (if SubgroupObject.size s =? 0 then SubgroupObject.status s else ObjectStatus.Object)), rest)) /\
  (forall w', TrackObject.encode_object t w = (Ok tt, w') ->
    exists bs, w' = wapp w bs /\ forall rest, TrackObject.decode_object (bs ++ rest) =
      (Ok (TrackObject.mk (TrackObject.group_id t) (TrackObject.object_id t) (TrackObject.size t)
        (if TrackObject.size t =? 0 then TrackObject.status t else ObjectStatus.Object)), rest)).
Proof. split; intros w' E; [by apply SubgroupObject.agrees_subgroup_object|by apply TrackObject.agrees_track_object]. Qed.

Lemma objects_round_trip_witness :
  let s := SubgroupObject.mk 9 0 ObjectStatus.EndOfGroup in
  let t := TrackObject.mk 1 9 5 ObjectStatus.EndOfGroup in
  let w := {| wdata := []; wcap := 16 |} in
  (exists bs, wapp w [x09; x00; x03] = wapp w bs /\ forall rest,
    SubgroupObject.decode_object (bs ++ rest) = (Ok s, rest)) /\
  (exists bs, wapp w [x01; x09; x05] = wapp w bs /\ forall rest,
    TrackObject.decode_object (bs ++ rest) = (Ok (TrackObject.mk 1 9 5 ObjectStatus.Object), rest)).
Proof.
  cbv zeta.
  destruct (objects_round_trip (SubgroupObject.mk 9 0 ObjectStatus.EndOfGroup)
    (TrackObject.mk 1 9 5 ObjectStatus.EndOfGroup) {| wdata := []; wcap := 16 |}) as [Hs Ht].
  split; [apply Hs|apply Ht]; vm_compute; reflexivity.
Defined.

(** A datagram is its header and a payload that must
    fill it exactly. Reading back what was written, followed by [extra] bytes,
    gives the datagram when the declared length is the number of bytes that
    follow the header, and [InvalidLength] with both numbers otherwise. *)
Theorem datagram_exact_length (d : Datagram.t) (w w' : wbuf) :
  Datagram.encode_datagram d w = (Ok tt, w') ->
  exists bs, w' = wapp w bs /\ forall extra,
    let got := lenN (Datagram.payload d ++ extra) in
    Datagram.decode_datagram (bs ++ extra) =
      if Datagram.payload_len d =? got then
        (Ok (Datagram.mk (Datagram.subscribe_id d) (Datagram.track_alias d) (Datagram.group_id d)
          (Datagram.object_id d) (Datagram.publisher_priority d) (Datagram.object_status d)
          (Datagram.payload_len d) (Datagram.payload d ++ extra)), [])
      else
        (Err (DecodeErr.InvalidLength (Datagram.payload_len d) got), Datagram.payload d ++ extra).
Proof.
  destruct d as [f1 f2 f3 f4 f5 f6 f7 p]. intros E. unfold Datagram.encode_datagram in E.
  cbn [Datagram.subscribe_id Datagram.track_alias Datagram.group_id Datagram.object_id
    Datagram.publisher_priority Datagram.object_status Datagram.payload_len Datagram.payload] in *.
  fields_inv.
  rewrite !wapp_app. eexists. split; [done|]. intros extra. cbv zeta. rewrite <- !app_assoc.
  unfold Datagram.decode_datagram.
  fields_run.
  unfold bind at 1, remaining at 1. destruct (f7 =? lenN (p ++ extra)) eqn:Hl; cbn [negb]; [|done].
  unfold bind at 1, remaining at 1. unfold bind, copy_to_slice.
  destruct (N.ltb_spec (lenN (p ++ extra)) (lenN (p ++ extra))); [lia|].
  unfold lenN at 1 2. rewrite Nat2N.id, take_ge, drop_ge by done. done.
Qed.

Lemma datagram_exact_length_witness :
  let d := Datagram.mk 1 2 3 4 x05 ObjectStatus.Object 2 [xaa; xbb] in
  let w := {| wdata := []; wcap := 16 |} in
  let bs := [x01; x02; x03; x04; x05; x00; x02; xaa; xbb] in
  Datagram.encode_datagram d w = (Ok tt, wapp w bs) /\
  exists bs', wapp w bs = wapp w bs' /\
    Datagram.decode_datagram (bs' ++ []) = (Ok d, []) /\
    Datagram.decode_datagram (bs' ++ [x00]) = (Err (DecodeErr.InvalidLength 2 3), [xaa; xbb; x00]).
Proof.
  cbv zeta.
  assert (E : Datagram.encode_datagram (Datagram.mk 1 2 3 4 x05 ObjectStatus.Object 2 [xaa; xbb])
      {| wdata := []; wcap := 16 |} =
    (Ok tt, wapp {| wdata := []; wcap := 16 |} [x01; x02; x03; x04; x05; x00; x02; xaa; xbb]))
    by (vm_compute; reflexivity).
  split; [exact E|]. destruct (datagram_exact_length _ _ _ E) as (bs & Hw & H).
  exists bs. split; [exact Hw|]. split; [exact (H [])|exact (H [x00])].
Defined.
