(* ===== verification/Announces.v ===== *)
(** * Announce, namespace and track status messages

    [moq-transport/src/message/]: the messages about namespaces, the track
    status pair, and GOAWAY. Each is read and written field by field. *)
From Stdlib Require Import NArith Lia Bool.
From stdpp Require Import base list gmap option numbers.
From S2P Require Import Prelude Buffers VarInt Utf8 Coding.

(** [message/announce.rs] *)
Module Announce.
Record t := mk { namespace : Tuple.t; params : Params.t }.

Definition decode_announce : dec t :=
  let! namespace := (decode : dec Tuple.t) in
  let! params := (decode : dec Params.t) in
  ret (mk namespace params).

Definition encode_announce `{Runtime} (self : t) : enc unit :=
  do! encode (namespace self) in
  do! encode (params self) in
  ret tt.

#[export] Instance Encode_t `{Runtime} : Encode t := encode_announce.
#[export] Instance Decode_t : Decode t := decode_announce.

#[export] Instance RoundTrip_t `{Runtime} : RoundTrip t.
Proof. intros [?]. unfold encode, Encode_t, encode_announce, decode, Decode_t, decode_announce. agrees_tac. Qed.

#[export] Instance Streaming_t : Streaming t.
Proof. unfold Streaming, decode at 1, Decode_t, decode_announce. stream_tac. Qed.
End Announce.
Export (hints) Announce.

(** [message/announce_ok.rs] *)
Module AnnounceOk.
Record t := mk { namespace : Tuple.t }.

Definition decode_announce_ok : dec t :=
  let! namespace := (decode : dec Tuple.t) in
  ret (mk namespace).

Definition encode_announce_ok (self : t) : enc unit :=
  encode (namespace self).

#[export] Instance Encode_t : Encode t := encode_announce_ok.
#[export] Instance Decode_t : Decode t := decode_announce_ok.

#[export] Instance RoundTrip_t : RoundTrip t.
Proof. intros [?]. unfold encode, Encode_t, encode_announce_ok, decode, Decode_t, decode_announce_ok. agrees_tac. Qed.

#[export] Instance Streaming_t : Streaming t.
Proof. unfold Streaming, decode at 1, Decode_t, decode_announce_ok. stream_tac. Qed.
End AnnounceOk.
Export (hints) AnnounceOk.

(** [message/announce_error.rs] *)
Module AnnounceError.
Record t := mk { namespace : Tuple.t; error_code : N; reason_phrase : String }.

Definition decode_announce_error : dec t :=
  let! namespace := (decode : dec Tuple.t) in
  let! error_code := (decode : dec N) in
  let! reason_phrase := (decode : dec String) in
  ret (mk namespace error_code reason_phrase).

Definition encode_announce_error (self : t) : enc unit :=
  do! encode (namespace self) in
  do! encode (error_code self) in
  do! encode (reason_phrase self) in
  ret tt.

#[export] Instance Encode_t : Encode t := encode_announce_error.
#[export] Instance Decode_t : Decode t := decode_announce_error.

#[export] Instance RoundTrip_t : RoundTrip t.
Proof. intros [?]. unfold encode, Encode_t, encode_announce_error, decode, Decode_t, decode_announce_error. agrees_tac. Qed.

#[export] Instance Streaming_t : Streaming t.
Proof. unfold Streaming, decode at 1, Decode_t, decode_announce_error. stream_tac. Qed.
End AnnounceError.
Export (hints) AnnounceError.

(** [message/announce_cancel.rs] *)
Module AnnounceCancel.
Record t := mk { namespace : Tuple.t; error_code : N; reason_phrase : String }.

Definition decode_announce_cancel : dec t :=
  let! namespace := (decode : dec Tuple.t) in
  let! error_code := (decode : dec N) in
  let! reason_phrase := (decode : dec String) in
  ret (mk namespace error_code reason_phrase).

Definition encode_announce_cancel (self : t) : enc unit :=
  do! encode (namespace self) in
  do! encode (error_code self) in
  do! encode (reason_phrase self) in
  ret tt.

#[export] Instance Encode_t : Encode t := encode_announce_cancel.
#[export] Instance Decode_t : Decode t := decode_announce_cancel.

#[export] Instance RoundTrip_t : RoundTrip t.
Proof. intros [?]. unfold encode, Encode_t, encode_announce_cancel, decode, Decode_t, decode_announce_cancel. agrees_tac. Qed.

#[export] Instance Streaming_t : Streaming t.
Proof. unfold Streaming, decode at 1, Decode_t, decode_announce_cancel. stream_tac. Qed.
End AnnounceCancel.
Export (hints) AnnounceCancel.

(** [message/unannounce.rs] *)
Module Unannounce.
Record t := mk { namespace : Tuple.t }.

Definition decode_unannounce : dec t :=
  let! namespace := (decode : dec Tuple.t) in
  ret (mk namespace).

Definition encode_unannounce (self : t) : enc unit :=
  do! encode (namespace self) in
  ret tt.

#[export] Instance Encode_t : Encode t := encode_unannounce.
#[export] Instance Decode_t : Decode t := decode_unannounce.

#[export] Instance RoundTrip_t : RoundTrip t.
Proof. intros [?]. unfold encode, Encode_t, encode_unannounce, decode, Decode_t, decode_unannounce. agrees_tac. Qed.

#[export] Instance Streaming_t : Streaming t.
Proof. unfold Streaming, decode at 1, Decode_t, decode_unannounce. stream_tac. Qed.
End Unannounce.
Export (hints) Unannounce.

(** [message/subscribe_namespace.rs] *)
Module SubscribeNamespace.
Record t := mk { namespace_prefix : Tuple.t; params : Params.t }.

Definition decode_subscribe_namespace : dec t :=
  let! namespace_prefix := (decode : dec Tuple.t) in
  let! params := (decode : dec Params.t) in
  ret (mk namespace_prefix params).

Definition encode_subscribe_namespace `{Runtime} (self : t) : enc unit :=
  do! encode (namespace_prefix self) in
  do! encode (params self) in
  ret tt.

#[export] Instance Encode_t `{Runtime} : Encode t := encode_subscribe_namespace.
#[export] Instance Decode_t : Decode t := decode_subscribe_namespace.

#[export] Instance RoundTrip_t `{Runtime} : RoundTrip t.
Proof. intros [?]. unfold encode, Encode_t, encode_subscribe_namespace, decode, Decode_t, decode_subscribe_namespace. agrees_tac. Qed.

#[export] Instance Streaming_t : Streaming t.
Proof. unfold Streaming, decode at 1, Decode_t, decode_subscribe_namespace. stream_tac. Qed.
End SubscribeNamespace.
Export (hints) SubscribeNamespace.

(** [message/subscribe_namespace_ok.rs] *)
Module SubscribeNamespaceOk.
Record t := mk { namespace_prefix : Tuple.t }.

Definition decode_subscribe_namespace_ok : dec t :=
  let! namespace_prefix := (decode : dec Tuple.t) in
  ret (mk namespace_prefix).

Definition encode_subscribe_namespace_ok (self : t) : enc unit :=
  encode (namespace_prefix self).

#[export] Instance Encode_t : Encode t := encode_subscribe_namespace_ok.
#[export] Instance Decode_t : Decode t := decode_subscribe_namespace_ok.

#[export] Instance RoundTrip_t : RoundTrip t.
Proof. intros [?]. unfold encode, Encode_t, encode_subscribe_namespace_ok, decode, Decode_t, decode_subscribe_namespace_ok. agrees_tac. Qed.

#[export] Instance Streaming_t : Streaming t.
Proof. unfold Streaming, decode at 1, Decode_t, decode_subscribe_namespace_ok. stream_tac. Qed.
End SubscribeNamespaceOk.
Export (hints) SubscribeNamespaceOk.

(** [message/subscribe_namespace_error.rs] *)
Module SubscribeNamespaceError.
Record t := mk { namespace_prefix : Tuple.t; code : N; reason : String }.

Definition decode_subscribe_namespace_error : dec t :=
  let! namespace_prefix := (decode : dec Tuple.t) in
  let! code := (decode : dec N) in
  let! reason := (decode : dec String) in
  ret (mk namespace_prefix code reason).

Definition encode_subscribe_namespace_error (self : t) : enc unit :=
  do! encode (namespace_prefix self) in
  do! encode (code self) in
  do! encode (reason self) in
  ret tt.

#[export] Instance Encode_t : Encode t := encode_subscribe_namespace_error.
#[export] Instance Decode_t : Decode t := decode_subscribe_namespace_error.

#[export] Instance RoundTrip_t : RoundTrip t.
Proof. intros [?]. unfold encode, Encode_t, encode_subscribe_namespace_error, decode, Decode_t, decode_subscribe_namespace_error. agrees_tac. Qed.

#[export] Instance Streaming_t : Streaming t.
Proof. unfold Streaming, decode at 1, Decode_t, decode_subscribe_namespace_error. stream_tac. Qed.
End SubscribeNamespaceError.
Export (hints) SubscribeNamespaceError.

(** [message/unsubscribe_namespace.rs] *)
Module UnsubscribeNamespace.
Record t := mk { namespace_prefix : Tuple.t }.

Definition decode_unsubscribe_namespace : dec t :=
  let! namespace_prefix := (decode : dec Tuple.t) in
  ret (mk namespace_prefix).

Definition encode_unsubscribe_namespace (self : t) : enc unit :=
  do! encode (namespace_prefix self) in
  ret tt.

#[export] Instance Encode_t : Encode t := encode_unsubscribe_namespace.
#[export] Instance Decode_t : Decode t := decode_unsubscribe_namespace.

#[export] Instance RoundTrip_t : RoundTrip t.
Proof. intros [?]. unfold encode, Encode_t, encode_unsubscribe_namespace, decode, Decode_t, decode_unsubscribe_namespace. agrees_tac. Qed.

#[export] Instance Streaming_t : Streaming t.
Proof. unfold Streaming, decode at 1, Decode_t, decode_unsubscribe_namespace. stream_tac. Qed.
End UnsubscribeNamespace.
Export (hints) UnsubscribeNamespace.

(** [message/mod.rs]: [TrackStatusCode] *)
Module TrackStatusCode.
Inductive t := InProgress | DoesNotExist | NotYetBegun | Finished | Relay.

#[export] Instance t_eq_dec : EqDecision t.
Proof. solve_decision. Defined.

Definition decode_code : dec t :=
  let! v := (decode : dec N) in
  match v with
  | 0 => ret InProgress
  | 1 => ret DoesNotExist
  | 2 => ret NotYetBegun
  | 3 => ret Finished
  | 4 => ret Relay
  | _ => raise DecodeErr.InvalidTrackStatusCode
  end.

Definition encode_code (self : t) : enc unit :=
  match self with
  | InProgress => encode (0 : N)
  | DoesNotExist => encode (1 : N)
  | NotYetBegun => encode (2 : N)
  | Finished => encode (3 : N)
  | Relay => encode (4 : N)
  end.

#[export] Instance Encode_t : Encode t := encode_code.
#[export] Instance Decode_t : Decode t := decode_code.

#[export] Instance RoundTrip_t : RoundTrip t.
Proof. intros [| | | |]; (eapply agrees_bind_last; [apply (round_trip (A:=N))|done]). Qed.

#[export] Instance Streaming_t : Streaming t.
Proof. unfold Streaming, decode at 1, Decode_t, decode_code. stream_tac. Qed.
End TrackStatusCode.
Export (hints) TrackStatusCode.

(** [message/track_status_request.rs] *)
Module TrackStatusRequest.
Record t := mk { track_namespace : Tuple.t; track_name : String }.

Definition decode_track_status_request : dec t :=
  let! track_namespace := (decode : dec Tuple.t) in
  let! track_name := (decode : dec String) in
  ret (mk track_namespace track_name).

Definition encode_track_status_request (self : t) : enc unit :=
  do! encode (track_namespace self) in
  do! encode (track_name self) in
  ret tt.

#[export] Instance Encode_t : Encode t := encode_track_status_request.
#[export] Instance Decode_t : Decode t := decode_track_status_request.

#[export] Instance RoundTrip_t : RoundTrip t.
Proof. intros [?]. unfold encode, Encode_t, encode_track_status_request, decode, Decode_t, decode_track_status_request. agrees_tac. Qed.

#[export] Instance Streaming_t : Streaming t.
Proof. unfold Streaming, decode at 1, Decode_t, decode_track_status_request. stream_tac. Qed.
End TrackStatusRequest.
Export (hints) TrackStatusRequest.

(** [message/track_status.rs] *)
Module TrackStatus.
Record t := mk {
  track_namespace : Tuple.t;
  track_name : String;
  status_code : TrackStatusCode.t;
  last_group_id : N;
  last_object_id : N;
}.

Definition decode_track_status : dec t :=
  let! track_namespace := (decode : dec Tuple.t) in
  let! track_name := (decode : dec String) in
  let! status_code := (decode : dec TrackStatusCode.t) in
  let! last_group_id := (decode : dec N) in
  let! last_object_id := (decode : dec N) in
  ret (mk track_namespace track_name status_code last_group_id last_object_id).

Definition encode_track_status (self : t) : enc unit :=
  do! encode (track_namespace self) in
  do! encode (track_name self) in
  do! encode (status_code self) in
  do! encode (last_group_id self) in
  do! encode (last_object_id self) in
  ret tt.

#[export] Instance Encode_t : Encode t := encode_track_status.
#[export] Instance Decode_t : Decode t := decode_track_status.

#[export] Instance RoundTrip_t : RoundTrip t.
Proof. intros [?]. unfold encode, Encode_t, encode_track_status, decode, Decode_t, decode_track_status. agrees_tac. Qed.

#[export] Instance Streaming_t : Streaming t.
Proof. unfold Streaming, decode at 1, Decode_t, decode_track_status. stream_tac. Qed.
End TrackStatus.
Export (hints) TrackStatus.

(** [message/go_away.rs] *)
Module GoAway.
Record t := mk { url : String }.

Definition decode_go_away : dec t :=
  let! url := (decode : dec String) in
  ret (mk url).

Definition encode_go_away (self : t) : enc unit :=
  encode (url self).

#[export] Instance Encode_t : Encode t := encode_go_away.
#[export] Instance Decode_t : Decode t := decode_go_away.

#[export] Instance RoundTrip_t : RoundTrip t.
Proof. intros [?]. unfold encode, Encode_t, encode_go_away, decode, Decode_t, decode_go_away. agrees_tac. Qed.

#[export] Instance Streaming_t : Streaming t.
Proof. unfold Streaming, decode at 1, Decode_t, decode_go_away. stream_tac. Qed.
End GoAway.
Export (hints) GoAway.
