(* ===== verification/Subscribes.v ===== *)
(** * Subscription messages

    [moq-transport/src/message/]: the SUBSCRIBE family, with its group order,
    filter and location types. *)
From Stdlib Require Import NArith Lia Bool.
From stdpp Require Import base list gmap option numbers.
From S2P Require Import Prelude Buffers VarInt Utf8 Coding.

(** [message/group_order.rs] *)
Module GroupOrder.
Inductive t := Publisher | Ascending | Descending.

#[export] Instance t_eq_dec : EqDecision t.
Proof. solve_decision. Defined.

Definition encode_order (self : t) : enc unit :=
  match self with
  | Publisher => encode x00
  | Ascending => encode x01
  | Descending => encode x02
  end.

Definition decode_order : dec t :=
  let! b := (decode : dec byte) in
  match nb b with
  | 0 => ret Publisher
  | 1 => ret Ascending
  | 2 => ret Descending
  | _ => raise DecodeErr.InvalidGroupOrder
  end.

#[export] Instance Encode_t : Encode t := encode_order.
#[export] Instance Decode_t : Decode t := decode_order.

#[export] Instance RoundTrip_t : RoundTrip t.
Proof. intros [| |]; (eapply agrees_bind_last; [apply (round_trip (A:=byte))|done]). Qed.

#[export] Instance Streaming_t : Streaming t.
Proof. unfold Streaming, decode at 1, Decode_t, decode_order. stream_tac. Qed.
End GroupOrder.
Export (hints) GroupOrder.

(** [message/filter_type.rs] *)
Module FilterType.
Inductive t := LatestGroup | LatestObject | AbsoluteStart | AbsoluteRange.

#[export] Instance t_eq_dec : EqDecision t.
Proof. solve_decision. Defined.

Definition encode_filter (self : t) : enc unit :=
  match self with
  | LatestGroup => encode (1 : N)
  | LatestObject => encode (2 : N)
  | AbsoluteStart => encode (3 : N)
  | AbsoluteRange => encode (4 : N)
  end.

Definition decode_filter : dec t :=
  let! v := (decode : dec N) in
  match v with
  | 1 => ret LatestGroup
  | 2 => ret LatestObject
  | 3 => ret AbsoluteStart
  | 4 => ret AbsoluteRange
  | _ => raise DecodeErr.InvalidFilterType
  end.

#[export] Instance Encode_t : Encode t := encode_filter.
#[export] Instance Decode_t : Decode t := decode_filter.

#[export] Instance RoundTrip_t : RoundTrip t.
Proof. intros [| | |]; (eapply agrees_bind_last; [apply (round_trip (A:=N))|done]). Qed.

#[export] Instance Streaming_t : Streaming t.
Proof. unfold Streaming, decode at 1, Decode_t, decode_filter. stream_tac. Qed.
End FilterType.
Export (hints) FilterType.

(** [message/subscribe.rs]: locations *)
Module SubscribeLocation.
Inductive t := None | Absolute (v : N) | Latest (v : N) | Future (v : N).

#[export] Instance t_eq_dec : EqDecision t.
Proof. solve_decision. Defined.

Definition id (self : t) : N :=
  match self with None => 0 | Absolute _ => 1 | Latest _ => 2 | Future _ => 3 end.

Definition decode_location : dec t :=
  let! kind := (decode : dec N) in
  match kind with
  | 0 => ret None
  | 1 => let! v := (decode : dec N) in ret (Absolute v)
  | 2 => let! v := (decode : dec N) in ret (Latest v)
  | 3 => let! v := (decode : dec N) in ret (Future v)
  | _ => raise DecodeErr.InvalidSubscribeLocation
  end.

Definition encode_location (self : t) : enc unit :=
  do! encode (id self) in
  match self with
  | None => ret tt
  | Absolute val => encode val
  | Latest val => encode val
  | Future val => encode val
  end.

#[export] Instance Encode_t : Encode t := encode_location.
#[export] Instance Decode_t : Decode t := decode_location.

#[export] Instance RoundTrip_t : RoundTrip t.
Proof.
  intros [|v|v|v]; (eapply agrees_bind; [apply (round_trip (A:=N))|]); [apply agrees_ret|..];
    (eapply agrees_bind_last; [apply (round_trip (A:=N))|done]).
Qed.

#[export] Instance Streaming_t : Streaming t.
Proof. unfold Streaming, decode at 1, Decode_t, decode_location. stream_tac. Qed.

#[export] Instance MinSize_t : MinSize t 1.
Proof.
  unfold MinSize, decode at 1, Decode_t, decode_location.
  apply consumes_bind_l; [apply decode_consumes|]. intros v.
  apply streaming_consumes. stream_tac.
Qed.
End SubscribeLocation.
Export (hints) SubscribeLocation.

Module SubscribePair.
Record t := mk { group : SubscribeLocation.t; object : SubscribeLocation.t }.

#[export] Instance t_eq_dec : EqDecision t.
Proof. solve_decision. Defined.

Definition decode_pair : dec t :=
  let! group := (decode : dec SubscribeLocation.t) in
  let! object := (decode : dec SubscribeLocation.t) in
  ret (mk group object).

Definition encode_pair (self : t) : enc unit :=
  do! encode (group self) in
  do! encode (object self) in
  ret tt.

#[export] Instance Encode_t : Encode t := encode_pair.
#[export] Instance Decode_t : Decode t := decode_pair.

#[export] Instance RoundTrip_t : RoundTrip t.
Proof. intros [?]. unfold encode, Encode_t, encode_pair, decode, Decode_t, decode_pair. agrees_tac. Qed.

#[export] Instance Streaming_t : Streaming t.
Proof. unfold Streaming, decode at 1, Decode_t, decode_pair. stream_tac. Qed.

#[export] Instance MinSize_t : MinSize t 2.
Proof.
  unfold MinSize, decode at 1, Decode_t, decode_pair.
  change 2 with (1 + 1). apply consumes_bind; [apply decode_consumes|]. intros g.
  apply consumes_bind_l; [apply decode_consumes|]. intros o. apply consumes_ret.
Qed.

(** An object position without a group position makes no sense. *)
Definition misplaced (p : t) : bool :=
  bool_decide (group p = SubscribeLocation.None) &&
  negb (bool_decide (object p = SubscribeLocation.None)).
End SubscribePair.
Export (hints) SubscribePair.

(** ** Ranges

    [Subscribe] and [SubscribeUpdate] repeat the same code for the filter and
    its [start] and [end] positions. *)
Module Range.
Definition t : Type := option SubscribePair.t * option SubscribePair.t.

Definition read_positions (filter_type : FilterType.t) : dec t :=
  match filter_type with
  | FilterType.AbsoluteStart =>
      let! rem := remaining in
      if rem <? 2 then raise DecodeErr.MissingField
      else
        let! start := (decode : dec SubscribePair.t) in
        ret (Some start, None)
  | FilterType.AbsoluteRange =>
      let! rem := remaining in
      if rem <? 4 then raise DecodeErr.MissingField
      else
        let! start := (decode : dec SubscribePair.t) in
        let! end_ := (decode : dec SubscribePair.t) in
        ret (Some start, Some end_)
  | _ => ret (None, None)
  end.

Definition misplaced (p : option SubscribePair.t) : bool :=
  match p with Some p => SubscribePair.misplaced p | None => false end.

Definition decode_range (filter_type : FilterType.t) : dec t :=
  let! r := read_positions filter_type in
  if misplaced r.1 then raise DecodeErr.InvalidSubscribeLocation
  else if misplaced r.2 then raise DecodeErr.InvalidSubscribeLocation
  else ret r.

Definition encode_opt (p : option SubscribePair.t) : enc unit :=
  match p with Some p => encode p | None => ret tt end.

Definition encode_range (filter_type : FilterType.t) (start end_ : option SubscribePair.t) : enc unit :=
  if bool_decide (filter_type = FilterType.AbsoluteStart) ||
     bool_decide (filter_type = FilterType.AbsoluteRange) then
    if bool_decide (start = None) || bool_decide (end_ = None) then raise EncodeErr.MissingField
    else
      do! encode_opt start in
      encode_opt end_
  else ret tt.

(** What a reader gets back from a writer, [None] where it cannot agree. *)
Definition received (filter_type : FilterType.t) (start end_ : option SubscribePair.t) : option t :=
  match filter_type with
  | FilterType.LatestGroup | FilterType.LatestObject => Some (None, None)
  | FilterType.AbsoluteStart => None
  | FilterType.AbsoluteRange =>
      if misplaced start || misplaced end_ then None else Some (start, end_)
  end.

(** A length check that the bytes written always pass. *)
Lemma agrees_min {A} n e (d : dec A) a err :
  agrees e d a -> consumes n d ->
  agrees e (let! rem := remaining in if rem <? n then raise err else d) a.
Proof.
  intros He Hd w w' E. apply He in E as (bs & -> & Hbs). exists bs. split; [done|].
  intros rest. unfold bind, remaining. specialize (Hbs rest). pose proof (Hd _ _ _ Hbs).
  destruct (N.ltb_spec (lenN (bs ++ rest)) n); [lia|done].
Qed.

Lemma agrees_range filter_type start end_ r :
  received filter_type start end_ = Some r ->
  agrees (encode_range filter_type start end_) (decode_range filter_type) r.
Proof.
  intros Hr. destruct filter_type; simpl in Hr; simplify_eq; try (apply agrees_ret).
  destruct (misplaced start || misplaced end_) eqn:Hm; simplify_eq.
  apply orb_false_elim in Hm as [Hs He].
  destruct start as [s|], end_ as [e|]; try (apply agrees_encode_unreachable).
  unfold encode_range, encode_opt, decode_range, read_positions. simpl.
  eapply agrees_bind_last.
  - apply agrees_min.
    + eapply agrees_bind; [apply round_trip|]. cbv beta.
      eapply agrees_bind_last; [apply round_trip|done].
    + change 4 with (2 + 2). apply consumes_bind; [apply decode_consumes|]. intros p.
      apply consumes_bind_l; [apply decode_consumes|]. intros q. apply consumes_ret.
  - intros rest. simpl in *. by rewrite Hs, He.
Qed.
Lemma consumes_range filter_type : consumes 0 (decode_range filter_type).
Proof.
  assert (Hp : forall n (d : dec t), streaming d -> consumes 0
      (let! rem := remaining in if rem <? n then raise DecodeErr.MissingField else d)).
  { intros n d Hd. apply consumes_bind_l.
    - intros r a r' E. unfold remaining in E. simplify_eq. lia.
    - intros rem. destruct (rem <? n); [apply consumes_raise|by apply streaming_consumes]. }
  unfold decode_range. apply consumes_bind_l.
  - unfold read_positions. destruct filter_type; try (apply Hp); stream_tac || apply consumes_ret.
  - intros r. destruct (misplaced r.1); [apply consumes_raise|].
    destruct (misplaced r.2); [apply consumes_raise|apply consumes_ret].
Qed.

(** Reading a single position. *)
Lemma decode_start s bs rest :
  (forall rest, decode (bs ++ rest) = (Ok s, rest)) -> SubscribePair.misplaced s = false ->
  decode_range FilterType.AbsoluteStart (bs ++ rest) = (Ok (Some s, None), rest).
Proof.
  intros Hbs Hs. unfold decode_range, read_positions.
  unfold bind at 1 2, remaining at 1.
  pose proof (decode_consumes (A:=SubscribePair.t) _ _ _ (Hbs rest)).
  destruct (N.ltb_spec (lenN (bs ++ rest)) 2); [lia|].
  erewrite bind_run by apply Hbs. simpl. by rewrite Hs.
Qed.

(** Nothing to read where a position is due: the shortage is final. *)
Lemma decode_range_empty :
  fst (decode_range FilterType.AbsoluteStart []) = Err DecodeErr.MissingField /\
  fst (decode_range FilterType.AbsoluteRange []) = Err DecodeErr.MissingField.
Proof. done. Qed.

(** The position that stands for nothing is two zero bytes. *)
Lemma encode_none_pair w w' :
  encode (SubscribePair.mk SubscribeLocation.None SubscribeLocation.None) w = (Ok tt, w') ->
  w' = wapp w [x00; x00].
Proof.
  intros E. unfold encode, SubscribePair.Encode_t, SubscribePair.encode_pair in E. simpl in E.
  unfold encode, SubscribeLocation.Encode_t, SubscribeLocation.encode_location in E. simpl in E.
  run_inv. unfold encode, Encode_u64 in *.
  repeat match goal with
  | u : unit |- _ => destruct u
  | H : encode_u64 _ _ = _ |- _ => apply encode_u64_Ok in H as [_ ->]
  end. by rewrite wapp_app.
Qed.
End Range.

(** ** Optional pairs

    [SubscribeOk] and [SubscribeDone] both carry one flag byte and, when it is
    1, a pair of numbers. *)
Definition read_flag : dec (option (N * N)) :=
  do! decode_remaining 1 in
  let! flag := get_u8 in
  match nb flag with
  | 0 => ret None
  | 1 => let! g := (decode : dec N) in let! o := (decode : dec N) in ret (Some (g, o))
  | _ => raise DecodeErr.InvalidValue
  end.

Lemma agrees_flag (p : option (N * N)) :
  agrees match p with
    | Some (group, object) => do! put_u8 x01 in do! encode group in encode object
    | None => put_u8 x00
    end read_flag p.
Proof.
  unfold read_flag.
  rewrite <- (bind_assoc (decode_remaining 1) (fun _ => get_u8) _).
  destruct p as [[g o]|].
  - eapply agrees_bind; [apply (round_trip x01)|]. cbv beta.
    change (nb x01) with 1. agrees_tac.
  - eapply agrees_bind_last; [apply (round_trip x00)|]. done.
Qed.

(** The reading code runs on into the rest of the message. *)
Lemma read_flag_bind {B} (k : option (N * N) -> dec B) :
  meq (do! decode_remaining 1 in
       let! flag := get_u8 in
       let! p :=
         match nb flag with
         | 0 => ret None
         | 1 => let! g := (decode : dec N) in let! o := (decode : dec N) in ret (Some (g, o))
         | _ => raise DecodeErr.InvalidValue
         end in
       k p)
    (let! p := read_flag in k p).
Proof. unfold read_flag. rewrite bind_assoc. f_equiv; intros u. by rewrite bind_assoc. Qed.

(** [message/subscribe.rs] *)
Module Subscribe.
Record t := mk {
  id : N;
  track_alias : N;
  track_namespace : Tuple.t;
  track_name : String;
  subscriber_priority : byte;
  group_order : GroupOrder.t;
  filter_type : FilterType.t;
  start : option SubscribePair.t;
  end_ : option SubscribePair.t;
  params : Params.t;
}.

Definition decode_subscribe : dec t :=
  let! id := (decode : dec N) in
  let! track_alias := (decode : dec N) in
  let! track_namespace := (decode : dec Tuple.t) in
  let! track_name := (decode : dec String) in
  let! subscriber_priority := (decode : dec byte) in
  let! group_order := (decode : dec GroupOrder.t) in
  let! filter_type := (decode : dec FilterType.t) in
  let! range := Range.decode_range filter_type in
  let! params := (decode : dec Params.t) in
  ret (mk id track_alias track_namespace track_name subscriber_priority group_order
    filter_type range.1 range.2 params).

Definition encode_subscribe `{Runtime} (self : t) : enc unit :=
  do! encode (id self) in
  do! encode (track_alias self) in
  do! encode (track_namespace self) in
  do! encode (track_name self) in
  do! encode (subscriber_priority self) in
  do! encode (group_order self) in
  do! encode (filter_type self) in
  do! Range.encode_range (filter_type self) (start self) (end_ self) in
  do! encode (params self) in
  ret tt.

#[export] Instance Encode_t `{Runtime} : Encode t := encode_subscribe.
#[export] Instance Decode_t : Decode t := decode_subscribe.

Definition with_range (self : t) (r : Range.t) : t :=
  mk (id self) (track_alias self) (track_namespace self) (track_name self)
    (subscriber_priority self) (group_order self) (filter_type self) r.1 r.2 (params self).

Lemma agrees_subscribe `{Runtime} self r :
  Range.received (filter_type self) (start self) (end_ self) = Some r ->
  agrees (encode self) decode (with_range self r).
Proof.
  intros Hr. unfold encode, Encode_t, encode_subscribe, decode, Decode_t, decode_subscribe.
  do 7 (eapply agrees_bind; [apply round_trip|]; cbv beta).
  eapply agrees_bind; [by apply Range.agrees_range|]. agrees_tac.
Qed.
#[export] Instance MinSize_t : MinSize t 0.
Proof.
  unfold MinSize, decode at 1, Decode_t, decode_subscribe.
  do 7 (apply consumes_bind_l; [apply streaming_consumes, decode_streaming|]; intro).
  apply consumes_bind_l; [apply Range.consumes_range|]. intros r.
  apply streaming_consumes. stream_tac.
Qed.

End Subscribe.
Export (hints) Subscribe.

(** [message/subscribe_update.rs] *)
Module SubscribeUpdate.
Record t := mk {
  id : N;
  track_alias : N;
  track_namespace : Tuple.t;
  track_name : String;
  subscriber_priority : byte;
  group_order : GroupOrder.t;
  filter_type : FilterType.t;
  start : option SubscribePair.t;
  end_ : option SubscribePair.t;
  params : Params.t;
}.

Definition decode_subscribe_update : dec t :=
  let! id := (decode : dec N) in
  let! track_alias := (decode : dec N) in
  let! track_namespace := (decode : dec Tuple.t) in
  let! track_name := (decode : dec String) in
  let! subscriber_priority := (decode : dec byte) in
  let! group_order := (decode : dec GroupOrder.t) in
  let! filter_type := (decode : dec FilterType.t) in
  let! range := Range.decode_range filter_type in
  let! params := (decode : dec Params.t) in
  ret (mk id track_alias track_namespace track_name subscriber_priority group_order
    filter_type range.1 range.2 params).

Definition encode_subscribe_update `{Runtime} (self : t) : enc unit :=
  do! encode (id self) in
  do! encode (track_alias self) in
  do! encode (track_namespace self) in
  do! encode (track_name self) in
  do! encode (subscriber_priority self) in
  do! encode (group_order self) in
  do! encode (filter_type self) in
  do! Range.encode_range (filter_type self) (start self) (end_ self) in
  do! encode (params self) in
  ret tt.

#[export] Instance Encode_t `{Runtime} : Encode t := encode_subscribe_update.
#[export] Instance Decode_t : Decode t := decode_subscribe_update.

Definition with_range (self : t) (r : Range.t) : t :=
  mk (id self) (track_alias self) (track_namespace self) (track_name self)
    (subscriber_priority self) (group_order self) (filter_type self) r.1 r.2 (params self).

Lemma agrees_subscribe_update `{Runtime} self r :
  Range.received (filter_type self) (start self) (end_ self) = Some r ->
  agrees (encode self) decode (with_range self r).
Proof.
  intros Hr. unfold encode, Encode_t, encode_subscribe_update, decode, Decode_t, decode_subscribe_update.
  do 7 (eapply agrees_bind; [apply round_trip|]; cbv beta).
  eapply agrees_bind; [by apply Range.agrees_range|]. agrees_tac.
Qed.
#[export] Instance MinSize_t : MinSize t 0.
Proof.
  unfold MinSize, decode at 1, Decode_t, decode_subscribe_update.
  do 7 (apply consumes_bind_l; [apply streaming_consumes, decode_streaming|]; intro).
  apply consumes_bind_l; [apply Range.consumes_range|]. intros r.
  apply streaming_consumes. stream_tac.
Qed.

End SubscribeUpdate.
Export (hints) SubscribeUpdate.

(** [message/subscribe_ok.rs] *)
Module SubscribeOk.
Record t := mk { id : N; expires : option N; group_order : GroupOrder.t; latest : option (N * N) }.

(** The parameters are one byte, read and dropped. *)
Definition decode_subscribe_ok : dec t :=
  let! id := (decode : dec N) in
  let! expires := (decode : dec N) in
  let expires := match expires with 0 => None | _ => Some expires end in
  let! group_order := (decode : dec GroupOrder.t) in
  do! decode_remaining 1 in
  let! flag := get_u8 in
  let! latest :=
    match nb flag with
    | 0 => ret None
    | 1 => let! g := (decode : dec N) in let! o := (decode : dec N) in ret (Some (g, o))
    | _ => raise DecodeErr.InvalidValue
    end in
  do! (decode : dec byte) in
  ret (mk id expires group_order latest).

Definition encode_subscribe_ok (self : t) : enc unit :=
  do! encode (id self) in
  do! encode (default 0 (expires self)) in
  do! encode (group_order self) in
  do! encode_remaining 1 in
  do! match latest self with
      | Some (group, object) =>
          do! put_u8 x01 in
          do! encode group in
          encode object
      | None => put_u8 x00
      end in
  do! put_u8 x00 in
  ret tt.

#[export] Instance Encode_t : Encode t := encode_subscribe_ok.
#[export] Instance Decode_t : Decode t := decode_subscribe_ok.

(** No expiry and expiry in 0 ms look the same. *)
Definition canonical (self : t) : t :=
  mk (id self) (let expires := default 0 (expires self) in match expires with 0 => None | _ => Some expires end)
    (group_order self) (latest self).

Lemma agrees_subscribe_ok self : agrees (encode self) decode (canonical self).
Proof.
  destruct self as [i e g l]. unfold canonical, encode, Encode_t, encode_subscribe_ok, decode, Decode_t,
    decode_subscribe_ok.
  do 3 (eapply agrees_bind; [apply round_trip|]; cbv beta zeta).
  apply agrees_encode_remaining. rewrite read_flag_bind.
  eapply agrees_bind; [apply agrees_flag|]. cbv beta.
  eapply agrees_bind; [apply (round_trip (A:=byte))|]. apply agrees_ret.
Qed.

#[export] Instance Streaming_t : Streaming t.
Proof. unfold Streaming, decode at 1, Decode_t, decode_subscribe_ok. cbv zeta. stream_tac. Qed.
End SubscribeOk.
Export (hints) SubscribeOk.

(** [message/subscribe_done.rs] *)
Module SubscribeDone.
Record t := mk { id : N; code : N; reason : String; last : option (N * N) }.

Definition decode_subscribe_done : dec t :=
  let! id := (decode : dec N) in
  let! code := (decode : dec N) in
  let! reason := (decode : dec String) in
  do! decode_remaining 1 in
  let! flag := get_u8 in
  let! last :=
    match nb flag with
    | 0 => ret None
    | 1 => let! g := (decode : dec N) in let! o := (decode : dec N) in ret (Some (g, o))
    | _ => raise DecodeErr.InvalidValue
    end in
  ret (mk id code reason last).

Definition encode_subscribe_done (self : t) : enc unit :=
  do! encode (id self) in
  do! encode (code self) in
  do! encode (reason self) in
  do! encode_remaining 1 in
  do! match last self with
      | Some (group, object) =>
          do! put_u8 x01 in
          do! encode group in
          encode object
      | None => put_u8 x00
      end in
  ret tt.

#[export] Instance Encode_t : Encode t := encode_subscribe_done.
#[export] Instance Decode_t : Decode t := decode_subscribe_done.

#[export] Instance RoundTrip_t : RoundTrip t.
Proof.
  intros [i c r l]. unfold encode, Encode_t, encode_subscribe_done, decode, Decode_t,
    decode_subscribe_done.
  do 3 (eapply agrees_bind; [apply round_trip|]; cbv beta).
  apply agrees_encode_remaining. rewrite read_flag_bind.
  eapply agrees_bind; [apply agrees_flag|]. apply agrees_ret.
Qed.

#[export] Instance Streaming_t : Streaming t.
Proof. unfold Streaming, decode at 1, Decode_t, decode_subscribe_done. stream_tac. Qed.
End SubscribeDone.
Export (hints) SubscribeDone.

(** [message/subscribe_error.rs] *)
Module SubscribeError.
Record t := mk { id : N; code : N; reason : String; alias : N }.

Definition decode_subscribe_error : dec t :=
  let! id := (decode : dec N) in
  let! code := (decode : dec N) in
  let! reason := (decode : dec String) in
  let! alias := (decode : dec N) in
  ret (mk id code reason alias).

Definition encode_subscribe_error (self : t) : enc unit :=
  do! encode (id self) in
  do! encode (code self) in
  do! encode (reason self) in
  do! encode (alias self) in
  ret tt.

#[export] Instance Encode_t : Encode t := encode_subscribe_error.
#[export] Instance Decode_t : Decode t := decode_subscribe_error.

#[export] Instance RoundTrip_t : RoundTrip t.
Proof. intros [?]. unfold encode, Encode_t, encode_subscribe_error, decode, Decode_t, decode_subscribe_error. agrees_tac. Qed.

#[export] Instance Streaming_t : Streaming t.
Proof. unfold Streaming, decode at 1, Decode_t, decode_subscribe_error. stream_tac. Qed.
End SubscribeError.
Export (hints) SubscribeError.

(** [message/unsubscribe.rs] *)
Module Unsubscribe.
Record t := mk { id : N }.

Definition decode_unsubscribe : dec t :=
  let! id := (decode : dec N) in
  ret (mk id).

Definition encode_unsubscribe (self : t) : enc unit :=
  do! encode (id self) in
  ret tt.

#[export] Instance Encode_t : Encode t := encode_unsubscribe.
#[export] Instance Decode_t : Decode t := decode_unsubscribe.

#[export] Instance RoundTrip_t : RoundTrip t.
Proof. intros [?]. unfold encode, Encode_t, encode_unsubscribe, decode, Decode_t, decode_unsubscribe. agrees_tac. Qed.

#[export] Instance Streaming_t : Streaming t.
Proof. unfold Streaming, decode at 1, Decode_t, decode_unsubscribe. stream_tac. Qed.
End Unsubscribe.
Export (hints) Unsubscribe.

(** [message/max_subscribe_id.rs] *)
Module MaxSubscribeId.
Record t := mk { id : N }.

Definition decode_max_subscribe_id : dec t :=
  let! id := (decode : dec N) in
  ret (mk id).

Definition encode_max_subscribe_id (self : t) : enc unit :=
  do! encode (id self) in
  ret tt.

#[export] Instance Encode_t : Encode t := encode_max_subscribe_id.
#[export] Instance Decode_t : Decode t := decode_max_subscribe_id.

#[export] Instance RoundTrip_t : RoundTrip t.
Proof. intros [?]. unfold encode, Encode_t, encode_max_subscribe_id, decode, Decode_t, decode_max_subscribe_id. agrees_tac. Qed.

#[export] Instance Streaming_t : Streaming t.
Proof. unfold Streaming, decode at 1, Decode_t, decode_max_subscribe_id. stream_tac. Qed.
End MaxSubscribeId.
Export (hints) MaxSubscribeId.
