(* ===== verification/Fetches.v ===== *)
(** * Fetch messages

    [moq-transport/src/message/]: the FETCH family. *)
From Stdlib Require Import NArith Lia Bool.
From stdpp Require Import base list gmap option numbers.
From S2P Require Import Prelude Buffers VarInt Utf8 Coding Subscribes.

(** [message/fetch.rs] *)
Module Fetch.
Record t := mk {
  id : N;
  track_namespace : Tuple.t;
  track_name : String;
  subscriber_priority : byte;
  group_order : GroupOrder.t;
  start_group : N;
  start_object : N;
  end_group : N;
  end_object : N;
  params : Params.t;
}.

Definition decode_fetch : dec t :=
  let! id := (decode : dec N) in
  let! track_namespace := (decode : dec Tuple.t) in
  let! track_name := (decode : dec String) in
  let! subscriber_priority := (decode : dec byte) in
  let! group_order := (decode : dec GroupOrder.t) in
  let! start_group := (decode : dec N) in
  let! start_object := (decode : dec N) in
  let! end_group := (decode : dec N) in
  let! end_object := (decode : dec N) in
  let! params := (decode : dec Params.t) in
  ret (mk id track_namespace track_name subscriber_priority group_order start_group start_object end_group end_object params).

Definition encode_fetch `{Runtime} (self : t) : enc unit :=
  do! encode (id self) in
  do! encode (track_namespace self) in
  do! encode (track_name self) in
  do! encode (subscriber_priority self) in
  do! encode (group_order self) in
  do! encode (start_group self) in
  do! encode (start_object self) in
  do! encode (end_group self) in
  do! encode (end_object self) in
  do! encode (params self) in
  ret tt.

#[export] Instance Encode_t `{Runtime} : Encode t := encode_fetch.
#[export] Instance Decode_t : Decode t := decode_fetch.

#[export] Instance RoundTrip_t `{Runtime} : RoundTrip t.
Proof. intros [?]. unfold encode, Encode_t, encode_fetch, decode, Decode_t, decode_fetch. agrees_tac. Qed.

#[export] Instance Streaming_t : Streaming t.
Proof. unfold Streaming, decode at 1, Decode_t, decode_fetch. stream_tac. Qed.
End Fetch.
Export (hints) Fetch.

(** [message/fetch_cancel.rs] *)
Module FetchCancel.
Record t := mk { id : N }.

Definition decode_fetch_cancel : dec t :=
  let! id := (decode : dec N) in
  ret (mk id).

Definition encode_fetch_cancel (self : t) : enc unit :=
  do! encode (id self) in
  ret tt.

#[export] Instance Encode_t : Encode t := encode_fetch_cancel.
#[export] Instance Decode_t : Decode t := decode_fetch_cancel.

#[export] Instance RoundTrip_t : RoundTrip t.
Proof. intros [?]. unfold encode, Encode_t, encode_fetch_cancel, decode, Decode_t, decode_fetch_cancel. agrees_tac. Qed.

#[export] Instance Streaming_t : Streaming t.
Proof. unfold Streaming, decode at 1, Decode_t, decode_fetch_cancel. stream_tac. Qed.
End FetchCancel.
Export (hints) FetchCancel.

(** [message/fetch_ok.rs] *)
Module FetchOk.
Record t := mk {
  id : N;
  group_order : byte;
  end_of_track : byte;
  largest_group_id : N;
  largest_object_id : N;
  params : Params.t;
}.

Definition decode_fetch_ok : dec t :=
  let! id := (decode : dec N) in
  let! group_order := (decode : dec byte) in
  let! end_of_track := (decode : dec byte) in
  let! largest_group_id := (decode : dec N) in
  let! largest_object_id := (decode : dec N) in
  let! params := (decode : dec Params.t) in
  ret (mk id group_order end_of_track largest_group_id largest_object_id params).

Definition encode_fetch_ok `{Runtime} (self : t) : enc unit :=
  do! encode (id self) in
  do! encode (group_order self) in
  do! encode (end_of_track self) in
  do! encode (largest_group_id self) in
  do! encode (largest_object_id self) in
  do! encode (params self) in
  ret tt.

#[export] Instance Encode_t `{Runtime} : Encode t := encode_fetch_ok.
#[export] Instance Decode_t : Decode t := decode_fetch_ok.

#[export] Instance RoundTrip_t `{Runtime} : RoundTrip t.
Proof. intros [?]. unfold encode, Encode_t, encode_fetch_ok, decode, Decode_t, decode_fetch_ok. agrees_tac. Qed.

#[export] Instance Streaming_t : Streaming t.
Proof. unfold Streaming, decode at 1, Decode_t, decode_fetch_ok. stream_tac. Qed.
End FetchOk.
Export (hints) FetchOk.

(** [message/fetch_error.rs] *)
Module FetchError.
Record t := mk { id : N; code : N; reason : String }.

Definition decode_fetch_error : dec t :=
  let! id := (decode : dec N) in
  let! code := (decode : dec N) in
  let! reason := (decode : dec String) in
  ret (mk id code reason).

Definition encode_fetch_error (self : t) : enc unit :=
  do! encode (id self) in
  do! encode (code self) in
  do! encode (reason self) in
  ret tt.

#[export] Instance Encode_t : Encode t := encode_fetch_error.
#[export] Instance Decode_t : Decode t := decode_fetch_error.

#[export] Instance RoundTrip_t : RoundTrip t.
Proof. intros [?]. unfold encode, Encode_t, encode_fetch_error, decode, Decode_t, decode_fetch_error. agrees_tac. Qed.

#[export] Instance Streaming_t : Streaming t.
Proof. unfold Streaming, decode at 1, Decode_t, decode_fetch_error. stream_tac. Qed.
End FetchError.
Export (hints) FetchError.
