(* ===== verification/Messages.v ===== *)
(** * Control messages

    [moq-transport/src/message/mod.rs], [publisher.rs] and [subscriber.rs]: the
    [Message] enum the macro [message_types!] generates, with its framing, and
    its two halves, the messages a publisher sends and those a subscriber
    sends. *)
From Stdlib Require Import NArith Lia Bool.
From stdpp Require Import base list gmap option numbers.
From S2P Require Import Prelude Buffers VarInt Utf8 Coding Announces Subscribes Fetches.

Module Message.
Inductive t :=
  | SubscribeUpdate (m : SubscribeUpdate.t)
  | Subscribe (m : Subscribe.t)
  | Unsubscribe (m : Unsubscribe.t)
  | SubscribeOk (m : SubscribeOk.t)
  | SubscribeError (m : SubscribeError.t)
  | SubscribeDone (m : SubscribeDone.t)
  | MaxSubscribeId (m : MaxSubscribeId.t)
  | Announce (m : Announce.t)
  | Unannounce (m : Unannounce.t)
  | AnnounceOk (m : AnnounceOk.t)
  | AnnounceError (m : AnnounceError.t)
  | AnnounceCancel (m : AnnounceCancel.t)
  | TrackStatusRequest (m : TrackStatusRequest.t)
  | TrackStatus (m : TrackStatus.t)
  | GoAway (m : GoAway.t)
  | SubscribeNamespace (m : SubscribeNamespace.t)
  | SubscribeNamespaceOk (m : SubscribeNamespaceOk.t)
  | SubscribeNamespaceError (m : SubscribeNamespaceError.t)
  | UnsubscribeNamespace (m : UnsubscribeNamespace.t)
  | Fetch (m : Fetch.t)
  | FetchCancel (m : FetchCancel.t)
  | FetchOk (m : FetchOk.t)
  | FetchError (m : FetchError.t).

Definition id (self : t) : N :=
  match self with
  | SubscribeUpdate _ => 0x2
  | Subscribe _ => 0x3
  | Unsubscribe _ => 0xa
  | SubscribeOk _ => 0x4
  | SubscribeError _ => 0x5
  | SubscribeDone _ => 0xb
  | MaxSubscribeId _ => 0x15
  | Announce _ => 0x6
  | Unannounce _ => 0x9
  | AnnounceOk _ => 0x7
  | AnnounceError _ => 0x8
  | AnnounceCancel _ => 0xc
  | TrackStatusRequest _ => 0xd
  | TrackStatus _ => 0xe
  | GoAway _ => 0x10
  | SubscribeNamespace _ => 0x11
  | SubscribeNamespaceOk _ => 0x12
  | SubscribeNamespaceError _ => 0x13
  | UnsubscribeNamespace _ => 0x14
  | Fetch _ => 0x16
  | FetchCancel _ => 0x17
  | FetchOk _ => 0x18
  | FetchError _ => 0x19
  end.

(** The message proper, by the type that announces it. *)
Definition decode_body (v : N) : dec t :=
  match v with
  | 0x2 => let! msg := (decode : dec SubscribeUpdate.t) in ret (SubscribeUpdate msg)
  | 0x3 => let! msg := (decode : dec Subscribe.t) in ret (Subscribe msg)
  | 0xa => let! msg := (decode : dec Unsubscribe.t) in ret (Unsubscribe msg)
  | 0x4 => let! msg := (decode : dec SubscribeOk.t) in ret (SubscribeOk msg)
  | 0x5 => let! msg := (decode : dec SubscribeError.t) in ret (SubscribeError msg)
  | 0xb => let! msg := (decode : dec SubscribeDone.t) in ret (SubscribeDone msg)
  | 0x15 => let! msg := (decode : dec MaxSubscribeId.t) in ret (MaxSubscribeId msg)
  | 0x6 => let! msg := (decode : dec Announce.t) in ret (Announce msg)
  | 0x9 => let! msg := (decode : dec Unannounce.t) in ret (Unannounce msg)
  | 0x7 => let! msg := (decode : dec AnnounceOk.t) in ret (AnnounceOk msg)
  | 0x8 => let! msg := (decode : dec AnnounceError.t) in ret (AnnounceError msg)
  | 0xc => let! msg := (decode : dec AnnounceCancel.t) in ret (AnnounceCancel msg)
  | 0xd => let! msg := (decode : dec TrackStatusRequest.t) in ret (TrackStatusRequest msg)
  | 0xe => let! msg := (decode : dec TrackStatus.t) in ret (TrackStatus msg)
  | 0x10 => let! msg := (decode : dec GoAway.t) in ret (GoAway msg)
  | 0x11 => let! msg := (decode : dec SubscribeNamespace.t) in ret (SubscribeNamespace msg)
  | 0x12 => let! msg := (decode : dec SubscribeNamespaceOk.t) in ret (SubscribeNamespaceOk msg)
  | 0x13 => let! msg := (decode : dec SubscribeNamespaceError.t) in ret (SubscribeNamespaceError msg)
  | 0x14 => let! msg := (decode : dec UnsubscribeNamespace.t) in ret (UnsubscribeNamespace msg)
  | 0x16 => let! msg := (decode : dec Fetch.t) in ret (Fetch msg)
  | 0x17 => let! msg := (decode : dec FetchCancel.t) in ret (FetchCancel msg)
  | 0x18 => let! msg := (decode : dec FetchOk.t) in ret (FetchOk msg)
  | 0x19 => let! msg := (decode : dec FetchError.t) in ret (FetchError msg)
  | _ => raise (DecodeErr.InvalidMessage v)
  end.

Definition decode_message : dec t :=
  let! v := (decode : dec N) in
  let! _len := (decode : dec N) in
  decode_body v.

Section Encode.
Context `{Runtime}.

Definition encode_body (self : t) : enc unit :=
  match self with
  | SubscribeUpdate m => encode m
  | Subscribe m => encode m
  | Unsubscribe m => encode m
  | SubscribeOk m => encode m
  | SubscribeError m => encode m
  | SubscribeDone m => encode m
  | MaxSubscribeId m => encode m
  | Announce m => encode m
  | Unannounce m => encode m
  | AnnounceOk m => encode m
  | AnnounceError m => encode m
  | AnnounceCancel m => encode m
  | TrackStatusRequest m => encode m
  | TrackStatus m => encode m
  | GoAway m => encode m
  | SubscribeNamespace m => encode m
  | SubscribeNamespaceOk m => encode m
  | SubscribeNamespaceError m => encode m
  | UnsubscribeNamespace m => encode m
  | Fetch m => encode m
  | FetchCancel m => encode m
  | FetchOk m => encode m
  | FetchError m => encode m
  end.

Definition encode_message (self : t) : enc unit :=
  do! encode (id self) in
  let! buf := in_vec_unwrap (encode_body self) in
  do! encode (lenN buf) in
  put_slice buf.
End Encode.

#[export] Instance Encode_t `{Runtime} : Encode t := encode_message.
#[export] Instance Decode_t : Decode t := decode_message.

(** The types [message_types!] assigns. *)
Definition assigned : list N :=
  [0x2; 0x3; 0xa; 0x4; 0x5; 0xb; 0x15; 0x6; 0x9; 0x7; 0x8; 0xc; 0xd; 0xe; 0x10; 0x11; 0x12; 0x13; 0x14; 0x16; 0x17; 0x18; 0x19].

(** What the peer makes of a message; [None] where writer and reader disagree
    about the layout. *)
Definition received (self : t) : option t :=
  match self with
  | Subscribe m =>
      r ← Range.received (Subscribe.filter_type m) (Subscribe.start m) (Subscribe.end_ m);
      Some (Subscribe (Subscribe.with_range m r))
  | SubscribeUpdate m =>
      r ← Range.received (SubscribeUpdate.filter_type m) (SubscribeUpdate.start m)
            (SubscribeUpdate.end_ m);
      Some (SubscribeUpdate (SubscribeUpdate.with_range m r))
  | SubscribeOk m => Some (SubscribeOk (SubscribeOk.canonical m))
  | m => Some m
  end.

Lemma agrees_body `{Runtime} m m' :
  received m = Some m' -> agrees (encode_body m) (decode_body (id m)) m'.
Proof.
  destruct m; simpl; intros Hr; simplify_option_eq;
    (eapply agrees_bind_last; [|done]).
  all: first [apply round_trip | by apply Subscribe.agrees_subscribe
    | by apply SubscribeUpdate.agrees_subscribe_update
    | apply SubscribeOk.agrees_subscribe_ok].
Qed.

(** The types whose reader looks at how much input has arrived. *)
Lemma streaming_body v : v <> 2 -> v <> 3 -> streaming (decode_body v).
Proof. intros H2 H3. unfold decode_body. repeat case_match; try done; stream_tac. Qed.
#[export] Instance MinSize_t : MinSize t 1.
Proof.
  unfold MinSize, decode at 1, Decode_t, decode_message.
  apply consumes_bind_l; [apply decode_consumes|]. intros v.
  apply consumes_bind_l; [apply streaming_consumes, decode_streaming|]. intros _.
  destruct (decide (v = 2)) as [->|H2]; [|destruct (decide (v = 3)) as [->|H3]].
  - apply consumes_bind_l; [apply decode_consumes|]. intros. apply consumes_ret.
  - apply consumes_bind_l; [apply decode_consumes|]. intros. apply consumes_ret.
  - by apply streaming_consumes, streaming_body.
Qed.

(** Messages that may be cut anywhere on their way: those without absolute
    positions. *)
Definition fragmentable (self : t) : bool :=
  match self with
  | Subscribe m =>
      match Subscribe.filter_type m with
      | FilterType.LatestGroup | FilterType.LatestObject => true
      | _ => false
      end
  | SubscribeUpdate m =>
      match SubscribeUpdate.filter_type m with
      | FilterType.LatestGroup | FilterType.LatestObject => true
      | _ => false
      end
  | _ => true
  end.

Lemma streaming_latest {A} (f : FilterType.t) (k : Range.t -> dec A) :
  f = FilterType.LatestGroup \/ f = FilterType.LatestObject ->
  (forall r, streaming (k r)) -> streaming (let! r := Range.decode_range f in k r).
Proof.
  intros Hf Hk. apply streaming_bind; [|done]. by destruct Hf as [-> | ->]; apply streaming_ret.
Qed.

Lemma fragmentable_body `{Runtime} m m' w w' :
  received m = Some m' -> fragmentable m = true -> encode_body m w = (Ok tt, w') ->
  exists bs, w' = wapp w bs /\ forall rest,
    decode_body (id m) (bs ++ rest) = (Ok m', rest) /\
    streaming_on (decode_body (id m)) (bs ++ rest).
Proof.
  intros Hr Hf E. pose proof E as E'. apply (agrees_body m m' Hr) in E' as (bs & Hw & Hbs).
  exists bs. split; [done|]. intros rest. split; [done|].
  assert (Hgen : id m <> 2 -> id m <> 3 -> streaming_on (decode_body (id m)) (bs ++ rest)).
  { intros. by apply streaming_streaming_on, streaming_body. }
  assert (Hd : wdata w' = wdata w ++ bs) by (by rewrite Hw). clear Hw Hbs.
  destruct m as [m|m| | | | | | | | | | | | | | | | | | | | |]; try (by apply Hgen).
  all: destruct m as [f1 f2 f3 f4 f5 f6 f7 f8 f9 f10]; simpl in Hf.
  all: assert (Hl : f7 = FilterType.LatestGroup \/ f7 = FilterType.LatestObject)
    by (destruct f7; auto; done); clear Hf Hr Hgen.
  all: cbn [encode_body] in E; unfold encode at 1 in E;
    unfold Subscribe.Encode_t, Subscribe.encode_subscribe, SubscribeUpdate.Encode_t,
      SubscribeUpdate.encode_subscribe_update in E; simpl in E; fields_inv.
  all: match goal with H : Range.encode_range _ _ _ _ = _ |- _ =>
    unfold Range.encode_range in H; destruct Hl as [-> | ->]; simpl in H; run_inv end.
  all: rewrite !wapp_app in Hd; apply app_inv_head in Hd; rewrite <- ?app_assoc in Hd; subst bs;
    rewrite <- ?app_assoc.
  all: cbn [id decode_body]; apply streaming_on_bind_r; [|intros; apply streaming_ret].
  all: unfold decode at 1, Subscribe.Decode_t, Subscribe.decode_subscribe, SubscribeUpdate.Decode_t,
    SubscribeUpdate.decode_subscribe_update.
  all: repeat match goal with H : forall rest, decode (?b ++ rest) = _ |-
      streaming_on _ (?b ++ _ ++ _) =>
    eapply streaming_on_bind; [apply decode_streaming|apply H|]; clear H; cbv beta end.
  all: apply streaming_streaming_on, streaming_latest; [auto|]; intros r; stream_tac.
Qed.
Lemma fragmentable_message `{Runtime} m m' w w' :
  received m = Some m' -> fragmentable m = true -> encode_message m w = (Ok tt, w') ->
  exists bs, w' = wapp w bs /\ forall rest,
    decode_message (bs ++ rest) = (Ok m', rest) /\ streaming_on decode_message (bs ++ rest).
Proof.
  intros Hr Hf E. unfold encode_message in E. run_inv.
  match goal with H : in_vec_unwrap _ _ = _ |- _ =>
    apply in_vec_unwrap_Ok in H as (-> & w1 & Hb & ->) end.
  apply (fragmentable_body _ _ _ _ Hr Hf) in Hb as (body & -> & Hbody).
  cbn [wdata wapp new_vec app] in *. fields_inv. rewrite !wapp_app. eexists. split; [done|].
  intros rest. destruct (Hbody rest) as [Hdec Hstr]. rewrite <- !app_assoc. unfold decode_message. split.
  - fields_run. apply Hdec.
  - repeat match goal with H : forall rest, decode (?b ++ rest) = _ |-
        streaming_on _ (?b ++ _ ++ _) =>
      eapply streaming_on_bind; [apply decode_streaming|apply H|]; clear H; cbv beta end.
    apply Hstr.
Qed.

End Message.
Export (hints) Message.

(** [message/publisher.rs]: the messages sent by the publisher *)
Module Publisher.
Inductive t :=
  | Announce (m : Announce.t)
  | Unannounce (m : Unannounce.t)
  | SubscribeOk (m : SubscribeOk.t)
  | SubscribeError (m : SubscribeError.t)
  | SubscribeDone (m : SubscribeDone.t)
  | MaxSubscribeId (m : MaxSubscribeId.t)
  | TrackStatus (m : TrackStatus.t)
  | FetchOk (m : FetchOk.t)
  | FetchError (m : FetchError.t).

Definition into_message (p : t) : Message.t :=
  match p with
  | Announce m => Message.Announce m
  | Unannounce m => Message.Unannounce m
  | SubscribeOk m => Message.SubscribeOk m
  | SubscribeError m => Message.SubscribeError m
  | SubscribeDone m => Message.SubscribeDone m
  | MaxSubscribeId m => Message.MaxSubscribeId m
  | TrackStatus m => Message.TrackStatus m
  | FetchOk m => Message.FetchOk m
  | FetchError m => Message.FetchError m
  end.

(** The message is handed back when it is not one of these. *)
Definition try_from (m : Message.t) : t + Message.t :=
  match m with
  | Message.Announce m => inl (Announce m)
  | Message.Unannounce m => inl (Unannounce m)
  | Message.SubscribeOk m => inl (SubscribeOk m)
  | Message.SubscribeError m => inl (SubscribeError m)
  | Message.SubscribeDone m => inl (SubscribeDone m)
  | Message.MaxSubscribeId m => inl (MaxSubscribeId m)
  | Message.TrackStatus m => inl (TrackStatus m)
  | Message.FetchOk m => inl (FetchOk m)
  | Message.FetchError m => inl (FetchError m)
  | m => inr m
  end.
End Publisher.

(** [message/subscriber.rs]: the messages sent by the subscriber *)
Module Subscriber.
Inductive t :=
  | AnnounceOk (m : AnnounceOk.t)
  | AnnounceError (m : AnnounceError.t)
  | AnnounceCancel (m : AnnounceCancel.t)
  | Subscribe (m : Subscribe.t)
  | Unsubscribe (m : Unsubscribe.t)
  | SubscribeUpdate (m : SubscribeUpdate.t)
  | TrackStatusRequest (m : TrackStatusRequest.t)
  | SubscribeNamespace (m : SubscribeNamespace.t)
  | SubscribeNamespaceOk (m : SubscribeNamespaceOk.t)
  | SubscribeNamespaceError (m : SubscribeNamespaceError.t)
  | UnsubscribeNamespace (m : UnsubscribeNamespace.t)
  | Fetch (m : Fetch.t)
  | FetchCancel (m : FetchCancel.t).

Definition into_message (p : t) : Message.t :=
  match p with
  | AnnounceOk m => Message.AnnounceOk m
  | AnnounceError m => Message.AnnounceError m
  | AnnounceCancel m => Message.AnnounceCancel m
  | Subscribe m => Message.Subscribe m
  | Unsubscribe m => Message.Unsubscribe m
  | SubscribeUpdate m => Message.SubscribeUpdate m
  | TrackStatusRequest m => Message.TrackStatusRequest m
  | SubscribeNamespace m => Message.SubscribeNamespace m
  | SubscribeNamespaceOk m => Message.SubscribeNamespaceOk m
  | SubscribeNamespaceError m => Message.SubscribeNamespaceError m
  | UnsubscribeNamespace m => Message.UnsubscribeNamespace m
  | Fetch m => Message.Fetch m
  | FetchCancel m => Message.FetchCancel m
  end.

(** The message is handed back when it is not one of these. *)
Definition try_from (m : Message.t) : t + Message.t :=
  match m with
  | Message.AnnounceOk m => inl (AnnounceOk m)
  | Message.AnnounceError m => inl (AnnounceError m)
  | Message.AnnounceCancel m => inl (AnnounceCancel m)
  | Message.Subscribe m => inl (Subscribe m)
  | Message.Unsubscribe m => inl (Unsubscribe m)
  | Message.SubscribeUpdate m => inl (SubscribeUpdate m)
  | Message.TrackStatusRequest m => inl (TrackStatusRequest m)
  | Message.SubscribeNamespace m => inl (SubscribeNamespace m)
  | Message.SubscribeNamespaceOk m => inl (SubscribeNamespaceOk m)
  | Message.SubscribeNamespaceError m => inl (SubscribeNamespaceError m)
  | Message.UnsubscribeNamespace m => inl (UnsubscribeNamespace m)
  | Message.Fetch m => inl (Fetch m)
  | Message.FetchCancel m => inl (FetchCancel m)
  | m => inr m
  end.
End Subscriber.

(** ** Properties *)

(** What a SUBSCRIBE or SUBSCRIBE_UPDATE that was read looks like. *)
Lemma decode_range_placed f bs s e rest :
  Range.decode_range f bs = (Ok (s, e), rest) ->
  (f = FilterType.AbsoluteStart -> e = None) /\ Range.misplaced s = false /\ Range.misplaced e = false.
Proof.
  unfold Range.decode_range. intros E. run_inv.
  match goal with H : Range.read_positions _ _ = (Ok ?r, _) |- _ => destruct r as [s1 e1] end.
  cbn [fst snd] in *. destruct (Range.misplaced s1) eqn:Hs; [done|].
  destruct (Range.misplaced e1) eqn:He; run_inv. split; [|done]. intros ->.
  match goal with H : Range.read_positions _ _ = _ |- _ => unfold Range.read_positions in H end.
  run_inv. destruct (_ <? _); run_inv. done.
Qed.

Lemma decode_subscribe_placed bs m rest :
  Subscribe.decode_subscribe bs = (Ok m, rest) ->
  (Subscribe.filter_type m = FilterType.AbsoluteStart -> Subscribe.end_ m = None) /\
  Range.misplaced (Subscribe.start m) = false /\ Range.misplaced (Subscribe.end_ m) = false.
Proof.
  unfold Subscribe.decode_subscribe. intros E. run_inv. simpl.
  eapply decode_range_placed. rewrite <- surjective_pairing. eassumption.
Qed.

Lemma decode_update_placed bs m rest :
  SubscribeUpdate.decode_subscribe_update bs = (Ok m, rest) ->
  (SubscribeUpdate.filter_type m = FilterType.AbsoluteStart -> SubscribeUpdate.end_ m = None) /\
  Range.misplaced (SubscribeUpdate.start m) = false /\ Range.misplaced (SubscribeUpdate.end_ m) = false.
Proof.
  unfold SubscribeUpdate.decode_subscribe_update. intros E. run_inv. simpl.
  eapply decode_range_placed. rewrite <- surjective_pairing. eassumption.
Qed.

(** A range that is written has both positions. *)
Lemma encode_range_both f s e w w' :
  Range.encode_range f s e w = (Ok tt, w') -> Range.received f s e = None ->
  f = FilterType.AbsoluteStart /\ e <> None \/ Range.misplaced s || Range.misplaced e = true.
Proof.
  intros E Hr. destruct f; simpl in Hr; try done.
  - left. split; [done|]. intros ->. unfold Range.encode_range in E. simpl in E.
    by destruct (bool_decide (s = None)).
  - right. by destruct (Range.misplaced s || Range.misplaced e).
Qed.

(** What the peer has no view of, it reads from no bytes. *)
Lemma unreadable `{Runtime} m w w' :
  Message.encode_message m w = (Ok tt, w') -> Message.received m = None ->
  forall bs, fst (Message.decode_message bs) <> Ok m.
Proof.
  intros E Hr bs Hd. destruct (Message.decode_message bs) as [o rest] eqn:D. simpl in Hd. subst o.
  unfold Message.decode_message in D. run_inv.
  match goal with H : Message.decode_body ?v _ = _ |- _ =>
    assert (Hid : Message.id m = v) by (revert H; unfold Message.decode_body; repeat case_match; try done;
      intros; run_inv; done); rewrite <- Hid in H; rename H into D end.
  unfold Message.encode_message in E. run_inv.
  match goal with H : in_vec_unwrap _ _ = _ |- _ => apply in_vec_unwrap_Ok in H as (-> & w1 & Hb & _) end.
  destruct m as [m|m| | | | | | | | | | | | | | | | | | | | |]; simpl in Hr; try done.
  all: cbn [Message.encode_body] in Hb; unfold encode at 1, Subscribe.Encode_t, SubscribeUpdate.Encode_t,
    Subscribe.encode_subscribe, SubscribeUpdate.encode_subscribe_update in Hb; run_inv.
  all: match goal with H : Range.encode_range ?f ?s ?e _ = (Ok ?u, _) |- _ =>
    destruct u; apply encode_range_both in H;
      [|by destruct (Range.received f s e)] end.
  all: cbn [Message.id Message.decode_body] in D; unfold decode at 1, Subscribe.Decode_t, SubscribeUpdate.Decode_t in D;
    run_inv.
  all: match goal with
    | H : Subscribe.decode_subscribe _ = _ |- _ => apply decode_subscribe_placed in H as (Hend & Hs & He)
    | H : SubscribeUpdate.decode_subscribe_update _ = _ |- _ => apply decode_update_placed in H as (Hend & Hs & He)
    end.
  all: match goal with H : _ \/ _ |- _ => destruct H as [[Hf Hn]|Hm]; [auto|by rewrite Hs, He in Hm] end.
Qed.

(** What it has a view of, it reads as that. *)
Lemma received_message `{Runtime} m m' w w' :
  Message.received m = Some m' -> Message.encode_message m w = (Ok tt, w') ->
  exists bs, w' = wapp w bs /\ forall rest, Message.decode_message (bs ++ rest) = (Ok m', rest).
Proof.
  intros Hr E. unfold Message.encode_message in E. run_inv.
  match goal with H : in_vec_unwrap _ _ = _ |- _ =>
    apply in_vec_unwrap_Ok in H as (-> & w1 & Hb & ->) end.
  apply (Message.agrees_body _ _ Hr) in Hb as (body & -> & Hbody). cbn [wdata wapp new_vec app] in *.
  fields_inv. rewrite !wapp_app. eexists. split; [done|]. intros rest. rewrite <- !app_assoc.
  unfold Message.decode_message. fields_run. apply Hbody.
Qed.

(** C5 (round trip). A control message that was written is read back, with nothing
    left over, as the peer's view of it: the message itself, except that an expiry
    of 0 reads as no expiry and that the start and end positions travel only with
    the filters that use them. Not all that can be written has such a view: a
    SUBSCRIBE or SUBSCRIBE_UPDATE with the filter AbsoluteStart, and one with
    AbsoluteRange and an object position without a group position, are written
    without error, but no bytes at all are read as that message. *)
Theorem message_round_trip `{Runtime} (m : Message.t) (w w' : wbuf) :
  Message.encode_message m w = (Ok tt, w') ->
  match Message.received m with
  | Some m' =>
      exists bs, w' = wapp w bs /\ forall rest, Message.decode_message (bs ++ rest) = (Ok m', rest)
  | None => forall bs, fst (Message.decode_message bs) <> Ok m
  end /\
  (Message.received m = None <->
     match m with
     | Message.Subscribe s =>
         Subscribe.filter_type s = FilterType.AbsoluteStart \/
         Subscribe.filter_type s = FilterType.AbsoluteRange /\
           Range.misplaced (Subscribe.start s) || Range.misplaced (Subscribe.end_ s) = true
     | Message.SubscribeUpdate s =>
         SubscribeUpdate.filter_type s = FilterType.AbsoluteStart \/
         SubscribeUpdate.filter_type s = FilterType.AbsoluteRange /\
           Range.misplaced (SubscribeUpdate.start s) || Range.misplaced (SubscribeUpdate.end_ s) = true
     | _ => False
     end).
Proof.
  intros E. split.
  - destruct (Message.received m) as [m'|] eqn:Hr; [by eapply received_message|by eapply unreadable].
  - clear E. destruct m as [s|s| | | | | | | | | | | | | | | | | | | | |]; try done;
      cbn [Message.received]; unfold Range.received.
    + destruct (SubscribeUpdate.filter_type s); simpl; try (destruct (_ || _)); intuition discriminate.
    + destruct (Subscribe.filter_type s); simpl; try (destruct (_ || _)); intuition discriminate.
Qed.

Definition sample_subscribe : Subscribe.t :=
  Subscribe.mk 7 1 (Tuple.mk [TupleField.mk [x61]]) (mk_String [x62] eq_refl) x7f
    GroupOrder.Descending FilterType.AbsoluteRange
    (Some (SubscribePair.mk (SubscribeLocation.Absolute 2) (SubscribeLocation.Absolute 0)))
    (Some (SubscribePair.mk SubscribeLocation.None SubscribeLocation.None)) Params.new.

Lemma message_round_trip_witness :
  let m := Message.Subscribe sample_subscribe in
  let w := {| wdata := []; wcap := 64 |} in
  Message.received m = Some m /\
  exists w', Message.encode_message (H:=std_runtime) m w = (Ok tt, w') /\
  exists bs, w' = wapp w bs /\ forall rest, Message.decode_message (bs ++ rest) = (Ok m, rest).
Proof.
  cbv zeta.
  assert (Hr : Message.received (Message.Subscribe sample_subscribe) =
    Some (Message.Subscribe sample_subscribe)) by reflexivity.
  split; [exact Hr|]. eexists. assert (E : Message.encode_message (H:=std_runtime)
    (Message.Subscribe sample_subscribe) {| wdata := []; wcap := 64 |} =
      (Ok tt, wapp {| wdata := []; wcap := 64 |}
        [x03; x11; x07; x01; x01; x01; x61; x01; x62; x7f; x02; x04; x01; x02; x01; x00;
         x00; x00; x00])) by (vm_compute; reflexivity).
  split; [exact E|]. exact (proj1 (message_round_trip (H:=std_runtime) _ _ _ E)).
Defined.

(** Reading the frame of a control message: the type
    selects the body, the announced length plays no part, an unassigned type is
    [InvalidMessage] with that type, and a message that was read has the type it
    came under. *)
Theorem message_dispatch (v len : N) (rest : list byte) :
  v < 2 ^ 62 -> len < 2 ^ 62 ->
  Message.decode_message (varint_bytes v ++ varint_bytes len ++ rest) = Message.decode_body v rest /\
  (v ∉ Message.assigned -> Message.decode_body v rest = (Err (DecodeErr.InvalidMessage v), rest)) /\
  forall m r', Message.decode_body v rest = (Ok m, r') -> Message.id m = v.
Proof.
  intros Hv Hl. split; [|split].
  - unfold Message.decode_message. erewrite bind_run by (by apply Params.decode_u64_bytes).
    by erewrite bind_run by (by apply Params.decode_u64_bytes).
  - intros Hni. unfold Message.decode_body.
    repeat case_match; try done; destruct Hni; by apply (bool_decide_unpack _).
  - intros m r'. unfold Message.decode_body. repeat case_match; try done.
    all: intros E; run_inv; done.
Qed.

Lemma message_dispatch_witness :
  Message.decode_message ([x09; x40; x40] ++ [x00; xff]) =
    (Ok (Message.Unannounce (Unannounce.mk (Tuple.mk []))), [xff]) /\
  Message.decode_message ([x0f; x00] ++ [xff]) = (Err (DecodeErr.InvalidMessage 0xf), [xff]).
Proof.
  destruct (message_dispatch 0x9 64 [x00; xff] eq_refl eq_refl) as (H & _).
  destruct (message_dispatch 0xf 0 [xff] eq_refl eq_refl) as (H1 & H2 & _).
  split; [exact H|]. etransitivity; [exact H1|]. apply H2. by apply (bool_decide_unpack _).
Defined.

(** Publisher and subscriber messages partition the control
    messages, GOAWAY apart: converting to one half and back is the identity,
    exactly one half accepts a message, and a refused message is handed back. *)
Theorem message_halves (m : Message.t) :
  match Publisher.try_from m, Subscriber.try_from m with
  | inl p, inr m' => Publisher.into_message p = m /\ m' = m
  | inr m', inl s => Subscriber.into_message s = m /\ m' = m
  | inr m1, inr m2 => (exists g, m = Message.GoAway g) /\ m1 = m /\ m2 = m
  | inl _, inl _ => False
  end /\
  (forall p, Publisher.try_from (Publisher.into_message p) = inl p) /\
  (forall s, Subscriber.try_from (Subscriber.into_message s) = inl s).
Proof. split; [destruct m; simpl; eauto|]. split; [by intros []|by intros []]. Qed.

(** A SUBSCRIBE with the filter AbsoluteStart is written with
    both positions and read with one: the end position, here the empty one, is
    taken for an empty parameter list, the real parameters are lost, and bytes
    of the message stay on the stream. *)
Theorem subscribe_absolute_start_desync `{Runtime} (m : Subscribe.t) (s : SubscribePair.t) (w w' : wbuf) :
  Subscribe.filter_type m = FilterType.AbsoluteStart ->
  Subscribe.start m = Some s -> SubscribePair.misplaced s = false ->
  Subscribe.end_ m = Some (SubscribePair.mk SubscribeLocation.None SubscribeLocation.None) ->
  Subscribe.encode_subscribe m w = (Ok tt, w') ->
  exists bs left, w' = wapp w bs /\ left <> [] /\ forall rest,
    Subscribe.decode_subscribe (bs ++ rest) =
      (Ok (Subscribe.mk (Subscribe.id m) (Subscribe.track_alias m) (Subscribe.track_namespace m)
        (Subscribe.track_name m) (Subscribe.subscriber_priority m) (Subscribe.group_order m)
        FilterType.AbsoluteStart (Some s) None Params.new), left ++ rest).
Proof.
  destruct m as [f1 f2 f3 f4 f5 f6 f7 f8 f9 f10]; cbn. intros -> -> Hs -> E.
  unfold Subscribe.encode_subscribe, Range.encode_range, Range.encode_opt in E. simpl in E. run_inv.
  match goal with H : encode (SubscribePair.mk _ _) _ = (Ok ?u, _) |- _ =>
    destruct u; apply Range.encode_none_pair in H as -> end.
  fields_inv. rewrite !wapp_app, <- ?app_assoc. eexists _, ([x00] ++ bs).
  split; [done|]. split; [done|]. intros rest. rewrite <- !app_assoc.
  unfold Subscribe.decode_subscribe. fields_run.
  erewrite bind_run by (by apply Range.decode_start). cbn [fst snd].
  erewrite bind_run; [done|].
  unfold decode, Params.Decode_t, Params.decode_params.
  by erewrite bind_run by (by apply (Params.decode_u64_bytes 0)).
Qed.

(** The request for everything from group 2 on, with one parameter. *)
Definition absolute_start : Subscribe.t :=
  Subscribe.mk 7 1 (Tuple.mk []) (mk_String [x62] eq_refl) x7f
    GroupOrder.Descending FilterType.AbsoluteStart
    (Some (SubscribePair.mk (SubscribeLocation.Absolute 2) (SubscribeLocation.Absolute 0)))
    (Some (SubscribePair.mk SubscribeLocation.None SubscribeLocation.None))
    (Params.mk {[ 5 := [xaa] ]}).

Lemma subscribe_absolute_start_desync_witness :
  exists w', Subscribe.encode_subscribe (H:=std_runtime) absolute_start
      {| wdata := []; wcap := 64 |} = (Ok tt, w') /\
  exists bs left, w' = wapp {| wdata := []; wcap := 64 |} bs /\ left <> [] /\ forall rest,
    exists m, Subscribe.decode_subscribe (bs ++ rest) = (Ok m, left ++ rest).
Proof.
  set (w' := snd (Subscribe.encode_subscribe (H:=std_runtime) absolute_start
    {| wdata := []; wcap := 64 |})).
  assert (E : Subscribe.encode_subscribe (H:=std_runtime) absolute_start
    {| wdata := []; wcap := 64 |} = (Ok tt, w')) by (vm_compute; reflexivity).
  exists w'. split; [exact E|].
  destruct (subscribe_absolute_start_desync (H:=std_runtime) absolute_start _ _ w'
    eq_refl eq_refl eq_refl eq_refl E) as (bs & left & Hw & Hl & Hd).
  exists bs, left. split; [exact Hw|]. split; [exact Hl|]. intros rest. eexists. exact (Hd rest).
Defined.

(** A SUBSCRIBE for an absolute range that arrives in two pieces is
    refused, not waited for: there is a place to cut the written message so
    that its first part alone fails with [MissingField], while the whole message
    is read back. *)
Theorem subscribe_fragment_rejected `{Runtime} (m : Subscribe.t) (r : Range.t) (w w' : wbuf) :
  Subscribe.filter_type m = FilterType.AbsoluteRange ->
  Range.received FilterType.AbsoluteRange (Subscribe.start m) (Subscribe.end_ m) = Some r ->
  Subscribe.encode_subscribe m w = (Ok tt, w') ->
  exists first second, w' = wapp w (first ++ second) /\
    fst (Subscribe.decode_subscribe first) = Err DecodeErr.MissingField /\
    Subscribe.decode_subscribe (first ++ second) = (Ok (Subscribe.with_range m r), []).
Proof.
  intros Hf Hr E. pose proof E as E'.
  rewrite <- Hf in Hr. apply (Subscribe.agrees_subscribe m r Hr) in E' as (whole & Hw & Hwhole).
  assert (Hd : wdata w' = wdata w ++ whole) by (by rewrite Hw). clear Hw.
  specialize (Hwhole []). rewrite app_nil_r in Hwhole.
  destruct m as [f1 f2 f3 f4 f5 f6 f7 f8 f9 f10]; cbn in Hf, Hr |- *. subst f7.
  unfold Subscribe.encode_subscribe in E.
  cbn [Subscribe.id Subscribe.track_alias Subscribe.track_namespace Subscribe.track_name
    Subscribe.subscriber_priority Subscribe.group_order Subscribe.filter_type Subscribe.start
    Subscribe.end_ Subscribe.params] in E.
  fields_inv. match goal with H : Range.encode_range _ _ _ _ = _ |- _ =>
    apply (Range.agrees_range _ _ _ _ Hr) in H as (rbs & -> & _) end.
  rewrite !wapp_app in Hd |- *. apply app_inv_head in Hd. rewrite !app_assoc, <- (app_assoc _ rbs) in Hd.
  rewrite !app_assoc, <- (app_assoc _ rbs).
  eexists _, _. split; [reflexivity|]. split; [|by rewrite Hd].
  rewrite <- !app_assoc. unfold Subscribe.decode_subscribe. fields_run.
  rewrite <- (app_nil_r bs0). erewrite bind_run by apply Hbs0. reflexivity.
Qed.

Lemma subscribe_fragment_rejected_witness :
  exists w', Subscribe.encode_subscribe (H:=std_runtime) sample_subscribe
      {| wdata := []; wcap := 64 |} = (Ok tt, w') /\
  exists first second, w' = wapp {| wdata := []; wcap := 64 |} (first ++ second) /\
    fst (Subscribe.decode_subscribe first) = Err DecodeErr.MissingField /\
    Subscribe.decode_subscribe (first ++ second) = (Ok sample_subscribe, []).
Proof.
  set (w' := snd (Subscribe.encode_subscribe (H:=std_runtime) sample_subscribe
    {| wdata := []; wcap := 64 |})).
  assert (E : Subscribe.encode_subscribe (H:=std_runtime) sample_subscribe
    {| wdata := []; wcap := 64 |} = (Ok tt, w')) by (vm_compute; reflexivity).
  exists w'. split; [exact E|].
  exact (subscribe_fragment_rejected (H:=std_runtime) sample_subscribe _ _ w'
    eq_refl eq_refl E).
Defined.
