(* ===== verification/Errors.v ===== *)
(** * Error types and wire codes

    [moq-transport/src/error.rs], [serve/error.rs] and [session/error.rs]: the
    errors that end sessions, subscriptions and tracks, and the integer codes
    they are sent as. *)
From Stdlib Require Import NArith Lia Bool.
From stdpp Require Import base list option numbers.
From S2P Require Import Prelude Buffers Utf8 Setup.

(** ** [error.rs]: the codes of the draft *)

(** [trait MoqError] *)
Class MoqError (E : Type) := code : E -> N.

Module SessionClose.

Inductive SessionError :=
  | NoError
  | InternalError
  | Unauthorized
  | ProtocolViolation
  | DuplicateTrackAlias
  | ParameterLengthMismatch
  | TooManySubscribes
  | GoawayTimeout
  | Unknown (v : N).

#[export] Instance session_code : MoqError SessionError := fun e =>
  match e with
  | NoError => 0x0
  | InternalError => 0x1
  | Unauthorized => 0x2
  | ProtocolViolation => 0x3
  | DuplicateTrackAlias => 0x4
  | ParameterLengthMismatch => 0x5
  | TooManySubscribes => 0x6
  | GoawayTimeout => 0x10
  | Unknown code => code
  end.

End SessionClose.
Export (hints) SessionClose.

Module SubscribeReject.

Inductive SubscribeError :=
  | InternalError
  | InvalidRange
  | RetryTrackAlias
  | TrackDoesNotExist
  | Unauthorized
  | Timeout
  | Unknown (v : N).

#[export] Instance reject_code : MoqError SubscribeError := fun e =>
  match e with
  | InternalError => 0x0
  | InvalidRange => 0x1
  | RetryTrackAlias => 0x2
  | TrackDoesNotExist => 0x3
  | Unauthorized => 0x4
  | Timeout => 0x5
  | Unknown code => code
  end.

End SubscribeReject.
Export (hints) SubscribeReject.

Module DoneCode.

Inductive SubscribeDone :=
  | Unsubscribed
  | InternalError
  | Unauthorized
  | TrackEnded
  | SubscriptionEnded
  | GoingAway
  | Expired
  | Unknown (v : N).

#[export] Instance SubscribeDone_eq_dec : EqDecision SubscribeDone.
Proof. solve_decision. Defined.

(** [From<u64> for SubscribeDone] *)
Definition from (code : N) : SubscribeDone :=
  match code with
  | 0x0 => Unsubscribed
  | 0x1 => InternalError
  | 0x2 => Unauthorized
  | 0x3 => TrackEnded
  | 0x4 => SubscriptionEnded
  | 0x5 => GoingAway
  | 0x6 => Expired
  | _ => Unknown code
  end.

#[export] Instance done_code : MoqError SubscribeDone := fun e =>
  match e with
  | Unsubscribed => 0x0
  | InternalError => 0x1
  | Unauthorized => 0x2
  | TrackEnded => 0x3
  | SubscriptionEnded => 0x4
  | GoingAway => 0x5
  | Expired => 0x6
  | Unknown code => code
  end.

End DoneCode.
Export (hints) DoneCode.

(** ** [serve/error.rs] *)

Module ServeErr.

Inductive ServeError :=
  | Done
  | Cancel
  | Closed (v : N)
  | NotFound
  | Duplicate
  | Mode
  | Size
  | Internal (msg : String).

#[export] Instance ServeError_eq_dec : EqDecision ServeError.
Proof. solve_decision. Defined.

#[export] Instance serve_code : MoqError ServeError := fun e =>
  match e with
  | Done => 0
  | Cancel => 1
  | Closed code => code
  | NotFound => 404
  | Duplicate => 409
  | Mode => 400
  | Size => 413
  | Internal _ => 500
  end.

End ServeErr.
Export (hints) ServeErr.
Export ServeErr (ServeError).

(** ** [session/error.rs] *)

Module SessionErr.

Inductive SessionError :=
  | Closed
  | Transport (msg : String)
  | Encode (e : EncodeError)
  | Decode (e : DecodeError)
  | Version (client server : Versions.t)
  | RoleIncompatible (client server : Role.t)
  | RoleViolation
  | BoundsExceeded
  | Duplicate
  | Internal
  | Serve (e : ServeError)
  | WrongSize
  | DatagramsNotSupported.

(** [SessionError::code] *)
#[export] Instance session_error_code : MoqError SessionError := fun e =>
  match e with
  | Closed => 499
  | RoleIncompatible _ _ => 406
  | RoleViolation => 405
  | Transport _ => 503
  | Version _ _ => 406
  | Decode _ => 400
  | Encode _ => 500
  | BoundsExceeded => 500
  | Duplicate => 409
  | Internal => 500
  | WrongSize => 400
  | DatagramsNotSupported => 501
  | Serve err => code err
  end.

Section Display.
Context (to_string : SessionError -> String).

(** [From<SessionError> for ServeError]; the message is the derived [Display]. *)
Definition into_serve (err : SessionError) : ServeError :=
  match err with
  | Serve err => err
  | err => ServeErr.Internal (to_string err)
  end.
End Display.

(** [?] on a [Result<_, ServeError>] in a function that returns [SessionError]. *)
Definition from_serve {A} (r : outcome ServeError A) : outcome SessionError A :=
  match r with Ok x => Ok x | Err e => Err (Serve e) | Panic => Panic end.

End SessionErr.
Export (hints) SessionErr.
Export SessionErr (SessionError).

(** ** Properties *)

(** Codes on the wire and reasons for ending a
    subscription: reading a code and sending it on never changes it, a reason
    survives the wire unless it is an unassigned spelling of an assigned code,
    and a session error turned into a track error keeps its code when it came
    from a track and becomes 500 otherwise. *)
Theorem done_codes_round_trip (c : N) (d : DoneCode.SubscribeDone)
    (to_string : SessionError -> String) (e : SessionError) :
  code (DoneCode.from c) = c /\
  (DoneCode.from (code d) = d <-> forall v, d = DoneCode.Unknown v -> 6 < v) /\
  code (SessionErr.into_serve to_string e) =
    match e with SessionErr.Serve s => code s | _ => 500 end.
Proof.
  split; [|split].
  - unfold DoneCode.from, code, DoneCode.done_code. repeat case_match; simplify_eq; done.
  - split.
    + intros Hd v ->. destruct (N.le_gt_cases v 6) as [Hv|Hv]; [|done].
      assert (v = 0 \/ v = 1 \/ v = 2 \/ v = 3 \/ v = 4 \/ v = 5 \/ v = 6) as Hc by lia.
      destruct_or! Hc; subst; done.
    + intros Hu. destruct d as [| | | | | | |v]; try done. specialize (Hu v eq_refl).
      unfold code, DoneCode.done_code, DoneCode.from. repeat case_match; simplify_eq; done || lia.
  - by destruct e.
Qed.
