(* ===== verification/Streams.v ===== *)
(** * Reading and writing messages on streams

    [moq-transport/src/session/reader.rs] and [writer.rs], over the transport
    traits of [transport.rs]. A receive stream is the sequence of what its reads
    return, a send stream the sequence of how much each write accepts, with what the
    transport does about the FIN when the stream is finished and when it is dropped. *)
From Stdlib Require Import NArith Lia Bool.
From stdpp Require Import base list option numbers.
From S2P Require Import Prelude Buffers VarInt Utf8 Errors.

(** ** The transport side *)

(** What one read of the peer's stream returns; the end of the list is FIN, and
    a failed stream keeps failing. *)
Inductive read_event :=
  | Data (bs : list byte)
  | Fail (msg : String).

Definition recv_stream : Type := list read_event.

(** [RecvStream::read_buf]: append one read to the buffer; [false] at the end. *)
Definition read_buf (s : recv_stream) (buffer : list byte) :
    outcome SessionError bool * (recv_stream * list byte) :=
  match s with
  | [] => (Ok false, (s, buffer))
  | Data bs :: s' => (Ok true, (s', buffer ++ bs))
  | Fail msg :: _ => (Err (SessionErr.Transport msg), (s, buffer))
  end.

(** [RecvStream::read_chunk]: at most [max] bytes of what is next. *)
Definition stream_read_chunk (max : N) (s : recv_stream) :
    outcome SessionError (option (list byte)) * recv_stream :=
  match s with
  | [] => (Ok None, s)
  | Data bs :: s' =>
      if lenN bs <=? max then (Ok (Some bs), s')
      else (Ok (Some (take (N.to_nat max) bs)), Data (drop (N.to_nat max) bs) :: s')
  | Fail msg :: _ => (Err (SessionErr.Transport msg), s)
  end.

(** Everything the peer sent before the stream ended or failed. *)
Fixpoint received_bytes (s : recv_stream) : list byte :=
  match s with
  | Data bs :: s => bs ++ received_bytes s
  | _ => []
  end.

(** ** [Reader] *)

Module Reader.

Record t := mk { stream : recv_stream; buffer : list byte }.

Definition new (stream : recv_stream) : t := mk stream [].

Section Decode.
Context {A : Type} (d : dec A).

(** One turn of the outer loop: decode what is there; [more] is what to do when
    [required] bytes are needed. The cursor works on a copy of the position, so
    the buffer moves only on success. *)
Definition attempt (s : recv_stream) (buffer : list byte)
    (more : N -> outcome SessionError A * t) : outcome SessionError A * t :=
  match d buffer with
  | (Ok msg, rest) => (Ok msg, mk s rest)
  | (Err (DecodeErr.More required), _) => more (lenN buffer + required)
  | (Err err, _) => (Err (SessionErr.Decode err), mk s buffer)
  | (Panic, _) => (Panic, mk s buffer)
  end.

(** The inner loop: read until [required] bytes are there, then start over. *)
Fixpoint fill (s : recv_stream) (buffer : list byte) (required : N) : outcome SessionError A * t :=
  match s with
  | [] =>
      (Err (SessionErr.Decode (DecodeErr.More (required - lenN buffer))), mk s buffer)
  | Fail msg :: _ => (Err (SessionErr.Transport msg), mk s buffer)
  | Data bs :: s =>
      let buffer := buffer ++ bs in
      if required <=? lenN buffer then attempt s buffer (fill s buffer)
      else fill s buffer required
  end.

Definition decode (self : t) : outcome SessionError A * t :=
  attempt (stream self) (buffer self) (fill (stream self) (buffer self)).

End Decode.

Definition read_chunk (max : N) (self : t) : outcome SessionError (option (list byte)) * t :=
  if bool_decide (buffer self = []) then
    let (r, s) := stream_read_chunk max (stream self) in (r, mk s (buffer self))
  else
    let size := N.min max (lenN (buffer self)) in
    (Ok (Some (take (N.to_nat size) (buffer self))),
     mk (stream self) (drop (N.to_nat size) (buffer self))).

Definition done (self : t) : outcome SessionError bool * t :=
  if bool_decide (buffer self = []) then
    match read_buf (stream self) (buffer self) with
    | (Ok b, (s, buffer)) => (Ok (negb b), mk s buffer)
    | (Err e, (s, buffer)) => (Err e, mk s buffer)
    | (Panic, (s, buffer)) => (Panic, mk s buffer)
    end
  else (Ok false, self).

(** Specification: the bytes the reader has still to give. *)
Definition pending (self : t) : list byte := buffer self ++ received_bytes (stream self).

End Reader.

(** How the stream ends once everything was read. *)
Fixpoint stream_end (s : recv_stream) : option String :=
  match s with
  | [] => None
  | Data _ :: s => stream_end s
  | Fail msg :: _ => Some msg
  end.

(** What decoding should give: the decoder run on everything that will ever
    arrive, a shortage there being the end of the stream or its failure. *)
Definition decode_all {A} (d : dec A) (all : list byte) (ending : option String) :
    outcome SessionError A * list byte :=
  match d all, ending with
  | (Ok a, rest), _ => (Ok a, rest)
  | (Err (DecodeErr.More n), _), Some msg => (Err (SessionErr.Transport msg), all)
  | (Err e, _), _ => (Err (SessionErr.Decode e), all)
  | (Panic, _), _ => (Panic, all)
  end.

Section ReaderSpec.
Context {A : Type} (d : dec A) (all : list byte) (Hd : streaming_on d all).

Lemma streaming_prefix_Ok b a r s : b ++ s = all -> d b = (Ok a, r) -> d (b ++ s) = (Ok a, r ++ s).
Proof. intros Hb E. specialize (Hd b s Hb). unfold streaming_at in Hd. rewrite E in Hd. by apply Hd. Qed.

Lemma streaming_prefix_Err b e r s :
  b ++ s = all -> d b = (Err e, r) -> (forall n, e <> DecodeErr.More n) -> fst (d (b ++ s)) = Err e.
Proof.
  intros Hb E He. specialize (Hd b s Hb). unfold streaming_at in Hd. rewrite E in Hd.
  destruct e; try apply Hd. by edestruct He.
Qed.

(** The state in which the inner loop runs: decoding [buffer] needs [required]
    bytes in all. *)
Definition wants (buffer : list byte) (required : N) : Prop :=
  lenN buffer < required /\
  forall s, lenN (buffer ++ s) < required ->
    fst (d (buffer ++ s)) = Err (DecodeErr.More (required - lenN (buffer ++ s))).

Lemma wants_more b n r s :
  b ++ s = all -> d b = (Err (DecodeErr.More n), r) -> wants b (lenN b + n).
Proof.
  intros Hb E. specialize (Hd b s Hb). unfold streaming_at in Hd. rewrite E in Hd.
  destruct Hd as [Hn Hs]. clear s Hb. split; [lia|].
  intros s Hl. rewrite lenN_app in *. rewrite Hs by lia. do 2 f_equal. lia.
Qed.

Lemma decode_all_More input n ending :
  fst (d input) = Err (DecodeErr.More n) ->
  decode_all d input ending =
    (Err match ending with Some msg => SessionErr.Transport msg
         | None => SessionErr.Decode (DecodeErr.More n) end, input).
Proof.
  intros E. unfold decode_all. destruct (d input) as [o r]. simpl in E. subst. by destruct ending.
Qed.

Lemma decode_all_Err input e ending :
  fst (d input) = Err e -> (forall n, e <> DecodeErr.More n) ->
  decode_all d input ending = (Err (SessionErr.Decode e), input).
Proof.
  intros E He. unfold decode_all. destruct (d input) as [o r]. simpl in E. subst.
  destruct e; try (by destruct ending). by edestruct He.
Qed.

(** The result of a run, the bytes left over joined up. *)
Definition joined (r : outcome SessionError A * Reader.t) : outcome SessionError A * list byte :=
  (fst r, Reader.pending (snd r)).

Lemma attempt_refines s buffer more :
  buffer ++ received_bytes s = all ->
  (forall required, wants buffer required -> joined (more required) = decode_all d all (stream_end s)) ->
  joined (Reader.attempt d s buffer more) = decode_all d all (stream_end s).
Proof.
  intros Hall Hm. unfold Reader.attempt. destruct (d buffer) as [[a|e|] r] eqn:E.
  - unfold decode_all. by rewrite <- Hall, (streaming_prefix_Ok _ _ _ _ Hall E).
  - assert ((exists n, e = DecodeErr.More n) \/ forall n, e <> DecodeErr.More n) as [[n ->]|He]
      by (destruct e; eauto).
    + apply Hm. by eapply wants_more.
    + rewrite <- Hall, (decode_all_Err _ e) by eauto using streaming_prefix_Err.
      destruct e; try done. by destruct (He n).
  - exfalso. specialize (Hd _ _ Hall). unfold streaming_at in Hd. by rewrite E in Hd.
Qed.

Lemma fill_refines s buffer required :
  buffer ++ received_bytes s = all -> wants buffer required ->
  joined (Reader.fill d s buffer required) = decode_all d all (stream_end s).
Proof.
  revert buffer required. induction s as [|[bs|msg] s IH]; intros buffer required Hall [Hl Hw]; simpl.
  - assert (E : fst (d all) = Err (DecodeErr.More (required - lenN buffer))).
    { pose proof (Hw []) as H0. simpl in Hall. rewrite app_nil_r in *. subst. by apply H0. }
    rewrite (decode_all_More _ _ _ E). simpl in Hall. unfold joined, Reader.pending. simpl. by rewrite Hall.
  - simpl in Hall. rewrite app_assoc in Hall.
    destruct (N.leb_spec required (lenN (buffer ++ bs))) as [Hr|Hr].
    + apply attempt_refines; [done|]. intros req Hreq. by apply IH.
    + apply IH; [done|]. split; [done|]. intros s'. rewrite <- app_assoc. apply Hw.
  - assert (E : fst (d all) = Err (DecodeErr.More (required - lenN buffer))).
    { pose proof (Hw []) as H0. simpl in Hall. rewrite app_nil_r in *. subst. by apply H0. }
    rewrite (decode_all_More _ _ _ E). simpl in Hall. unfold joined, Reader.pending. simpl. by rewrite Hall.
Qed.

Lemma decode_refines self :
  Reader.pending self = all ->
  joined (Reader.decode d self) = decode_all d all (stream_end (Reader.stream self)).
Proof. intros Hall. apply attempt_refines; [done|]. intros. by apply fill_refines. Qed.

(** A run reads no further than it must: before the last read the bytes at hand
    were not enough. *)
Definition frugal (s : recv_stream) (buffer : list byte) (r : outcome SessionError A * Reader.t) : Prop :=
  exists used, s = used ++ Reader.stream (snd r) /\
    forall u c, used = u ++ [c] ->
      exists n, fst (d (buffer ++ received_bytes u)) = Err (DecodeErr.More n).

Lemma frugal_stop s buffer r : Reader.stream (snd r) = s -> frugal s buffer r.
Proof. intros E. exists []. split; [by rewrite E|]. by intros [|] c. Qed.

Lemma attempt_frugal s buffer more :
  buffer ++ received_bytes s = all ->
  (forall required, wants buffer required -> frugal s buffer (more required)) ->
  frugal s buffer (Reader.attempt d s buffer more).
Proof.
  intros Hall Hm. unfold Reader.attempt. destruct (d buffer) as [[a|e|] r] eqn:E;
    [by apply frugal_stop|destruct e; try (by apply frugal_stop)|by apply frugal_stop].
  apply Hm. by eapply wants_more.
Qed.

(** One more read, on top of a run that was frugal after it. *)
Lemma frugal_read s buffer required bs r :
  wants buffer required -> frugal s (buffer ++ bs) r -> frugal (Data bs :: s) buffer r.
Proof.
  intros [Hl Hw] (used & Hs & Hu). exists (Data bs :: used). split; [by rewrite Hs|].
  intros [|v u] c E; simplify_eq/=.
  - eexists. apply Hw. by rewrite app_nil_r.
  - rewrite app_assoc. by eapply Hu.
Qed.

Lemma fill_frugal s buffer required :
  buffer ++ received_bytes s = all -> wants buffer required -> frugal s buffer (Reader.fill d s buffer required).
Proof.
  revert buffer required. induction s as [|[bs|msg] s IH]; intros buffer required Hall Hw; simpl;
    [by apply frugal_stop| |by apply frugal_stop].
  eapply frugal_read; [done|]. simpl in Hall. rewrite app_assoc in Hall.
  destruct (N.leb_spec required (lenN (buffer ++ bs))) as [Hr|Hr].
  - apply attempt_frugal; auto.
  - apply IH; [done|]. split; [done|]. intros s'. rewrite <- app_assoc. apply Hw.
Qed.

Lemma decode_frugal self :
  Reader.pending self = all ->
  frugal (Reader.stream self) (Reader.buffer self) (Reader.decode d self).
Proof. intros Hall. apply attempt_frugal; [done|]. intros. by apply fill_frugal. Qed.

End ReaderSpec.

(** Every value read takes its bytes off the stream, whatever the decoder. *)
Section Shrink.
Context {A : Type} (d : dec A) (n : N) (Hd : consumes n d).

Definition shrinks (all : list byte) (r : outcome SessionError A * Reader.t) : Prop :=
  forall a st, r = (Ok a, st) -> n + lenN (Reader.pending st) <= lenN all.

Lemma attempt_shrinks s buffer more :
  (forall required, shrinks (buffer ++ received_bytes s) (more required)) ->
  shrinks (buffer ++ received_bytes s) (Reader.attempt d s buffer more).
Proof.
  intros Hm a st. unfold Reader.attempt. destruct (d buffer) as [[b|e|] r] eqn:E; [| |done].
  - intros ?. simplify_eq. apply Hd in E. unfold Reader.pending. simpl. rewrite !lenN_app. lia.
  - destruct e; try done. apply Hm.
Qed.

Lemma fill_shrinks s buffer required :
  shrinks (buffer ++ received_bytes s) (Reader.fill d s buffer required).
Proof.
  revert buffer required. induction s as [|[bs|msg] s IH]; intros buffer required; simpl; [done| |done].
  rewrite app_assoc. destruct (_ <=? _); [|apply IH]. apply attempt_shrinks. intros. apply IH.
Qed.

Lemma decode_shrinks self a st :
  Reader.decode d self = (Ok a, st) -> n + lenN (Reader.pending st) <= lenN (Reader.pending self).
Proof. apply attempt_shrinks. intros. apply fill_shrinks. Qed.

End Shrink.

(** ** [Writer] *)

(** What one write of ours meets: room for so many bytes, or a failure. When the
    list ends the transport accepts nothing more and the write stays pending. *)
Inductive write_event :=
  | Accept (n : N)
  | WFail (msg : String).

(** What a call of [finish] meets. The WebSocket stream hands the FIN over at once;
    the one for QUIC does nothing and leaves the FIN to the drop; the call may
    fail. A FIN that is handed over and then lost is [FinLater] without a drop that
    is taken. *)
Inductive finish_event :=
  | FinSent
  | FinLater
  | FinFails (msg : String).

(** Ours to send on. [on_drop]: whether the transport takes the FIN that goes with
    the drop of an open stream (the WebSocket one only tries, and loses it when its
    channel is full). [broken]: a write or a finish has failed, and no FIN is sent
    any more. [finished]: the FIN is out. *)
Record send_stream := {
  script : list write_event;
  sent : list byte;
  priority : option Z;
  on_finish : finish_event;
  on_drop : bool;
  broken : bool;
  finished : bool;
}.

(** As the transport opens it. *)
Definition fresh_stream (script : list write_event) (on_finish : finish_event) (on_drop : bool) : send_stream :=
  {| script := script; sent := []; priority := None; on_finish := on_finish; on_drop := on_drop;
     broken := false; finished := false |}.

Module Writer.

Record t := mk { stream : send_stream; buffer : list byte }.

Definition new (stream : send_stream) : t := mk stream [].

(** The outcome of a call, [None] while it is still waiting. *)
Definition result (A : Type) : Type := option (outcome SessionError A).

Definition after (s : send_stream) (script : list write_event) (bs : list byte) : send_stream :=
  {| script := script; sent := sent s ++ bs; priority := priority s; on_finish := on_finish s;
     on_drop := on_drop s; broken := broken s; finished := finished s |}.

(** A call has failed. *)
Definition break_stream (s : send_stream) : send_stream :=
  {| script := script s; sent := sent s; priority := priority s; on_finish := on_finish s;
     on_drop := on_drop s; broken := true; finished := finished s |}.

(** A FIN is on its way, unless the stream is broken. *)
Definition send_fin (s : send_stream) : send_stream :=
  {| script := script s; sent := sent s; priority := priority s; on_finish := on_finish s;
     on_drop := on_drop s; broken := broken s; finished := finished s || negb (broken s) |}.

(** [while !self.buffer.is_empty() { self.stream.write_buf(&mut self.buffer).await?; }] *)
Fixpoint drain (script : list write_event) (s : send_stream) (buffer : list byte) : result unit * t :=
  match buffer, script with
  | [], _ => (Some (Ok tt), mk (after s script []) [])
  | _, [] => (None, mk (after s script []) buffer)
  | _, WFail msg :: _ => (Some (Err (SessionErr.Transport msg)), mk (break_stream (after s script [])) buffer)
  | _, Accept n :: script =>
      let size := N.to_nat (N.min n (lenN buffer)) in
      drain script (after s script (take size buffer)) (drop size buffer)
  end.

(** A cleared [BytesMut] as a [BufMut]. *)
Definition cleared : wbuf := {| wdata := []; wcap := 2 ^ 64 - 1 |}.

Definition encode {A} `{Encode A} (msg : A) (self : t) : result unit * t :=
  match encode msg cleared with
  | (Ok _, w) => drain (script (stream self)) (stream self) (wdata w)
  | (Err e, w) => (Some (Err (SessionErr.Encode e)), mk (stream self) (wdata w))
  | (Panic, w) => (Some Panic, mk (stream self) (wdata w))
  end.

(** [write]: like [drain] on the caller's bytes, but a write of 0 is an error. *)
Fixpoint write_loop (script : list write_event) (s : send_stream) (cursor : list byte) :
    result unit * send_stream :=
  match cursor, script with
  | [], _ => (Some (Ok tt), after s script [])
  | _, [] => (None, after s script [])
  | _, WFail msg :: _ => (Some (Err (SessionErr.Transport msg)), break_stream (after s script []))
  | _, Accept n :: script =>
      let size := N.min n (lenN cursor) in
      let s := after s script (take (N.to_nat size) cursor) in
      let cursor := drop (N.to_nat size) cursor in
      if size =? 0 then
        (Some (Err (SessionErr.Encode (EncodeErr.More (lenN cursor)))), s)
      else write_loop script s cursor
  end.

Definition write (buf : list byte) (self : t) : result unit * t :=
  let (r, s) := write_loop (script (stream self)) (stream self) buf in (r, mk s (buffer self)).

Definition set_priority (priority : Z) (self : t) : t :=
  mk {| script := script (stream self); sent := sent (stream self);
        priority := Some priority; on_finish := on_finish (stream self); on_drop := on_drop (stream self);
        broken := broken (stream self); finished := finished (stream self) |} (buffer self).

Definition finish (self : t) : outcome SessionError unit * t :=
  match on_finish (stream self) with
  | FinSent => (Ok tt, mk (send_fin (stream self)) (buffer self))
  | FinLater => (Ok tt, self)
  | FinFails msg => (Err (SessionErr.Transport msg), mk (break_stream (stream self)) (buffer self))
  end.

(** The writer goes out of scope and its stream with it: a stream that is still
    open gets its FIN then. *)
Definition drop (self : t) : t :=
  if on_drop (stream self) then mk (send_fin (stream self)) (buffer self) else self.

End Writer.

(** Bytes go out in order and none is lost: what was sent and what is left make
    up the buffer. *)
Lemma drain_spec scr s buffer r w :
  Writer.drain scr s buffer = (r, w) ->
  buffer = drop (length (sent s)) (sent (Writer.stream w)) ++ Writer.buffer w /\
  sent s `prefix_of` sent (Writer.stream w) /\
  (r = Some (Ok tt) <-> Writer.buffer w = []).
Proof.
  revert s buffer. induction scr as [|[n|msg] scr IH]; intros s buffer E;
    (destruct buffer as [|b buffer]; simpl in E; [simplify_eq/=; rewrite ?app_nil_r, drop_all; done|]).
  - simplify_eq/=. rewrite ?app_nil_r, drop_all. done.
  - apply IH in E as (Hb & Hp & Hr). destruct Hp as [k Hk]. simpl in Hk. rewrite Hk.
    rewrite Hk in Hb. simpl in Hb. rewrite drop_app_length in Hb.
    rewrite <- app_assoc, drop_app_length. split; [|split; [|done]].
    + rewrite <- app_assoc, <- Hb. by rewrite take_drop.
    + by eexists.
  - simplify_eq/=. rewrite ?app_nil_r, drop_all. done.
Qed.

Lemma drain_Ok scr s buffer w :
  Writer.drain scr s buffer = (Some (Ok tt), w) ->
  sent (Writer.stream w) = sent s ++ buffer.
Proof.
  intros E. apply drain_spec in E as (Hb & [k Hk] & Hr).
  assert (He : Writer.buffer w = []) by (by apply Hr).
  rewrite Hk, drop_app_length, He, app_nil_r in Hb. by rewrite Hk, Hb.
Qed.

(** A transport that accepts at least a byte per write is done after as many
    writes as there are bytes. *)
Lemma drain_done scr s buffer :
  Forall (fun e => exists n, e = Accept n /\ 0 < n) scr -> (length buffer <= length scr)%nat ->
  fst (Writer.drain scr s buffer) = Some (Ok tt).
Proof.
  intros Hs. revert s buffer. induction Hs as [|e scr (n & -> & Hn) _ IH]; intros s buffer Hl.
  { by destruct buffer; simpl in Hl; [|lia]. }
  destruct buffer as [|b buffer]; [done|]. simpl. apply IH.
  rewrite length_drop. unfold lenN. simpl in *. lia.
Qed.

(** ** Whole streams *)

(** Sending values one after the other, and reading as many. *)
Fixpoint write_all {A} `{Encode A} (xs : list A) (w : Writer.t) : Writer.result unit * Writer.t :=
  match xs with
  | [] => (Some (Ok tt), w)
  | x :: xs =>
      match Writer.encode x w with
      | (Some (Ok _), w) => write_all xs w
      | r => r
      end
  end.

Fixpoint read_all {A} (d : dec A) (count : nat) (self : Reader.t) :
    outcome SessionError (list A) * Reader.t :=
  match count with
  | O => (Ok [], self)
  | S count =>
      match Reader.decode d self with
      | (Ok x, self) =>
          match read_all d count self with
          | (Ok xs, self) => (Ok (x :: xs), self)
          | r => r
          end
      | (Err e, self) => (Err e, self)
      | (Panic, self) => (Panic, self)
      end
  end.

Lemma decode_written {A} (d : dec A) (a : A) bs rest self :
  streaming_on d (bs ++ rest) -> d (bs ++ rest) = (Ok a, rest) -> Reader.pending self = bs ++ rest ->
  exists self', Reader.decode d self = (Ok a, self') /\ Reader.pending self' = rest.
Proof.
  intros Hd Hbs Hp. pose proof (decode_refines d _ Hd self Hp) as H.
  unfold decode_all in H. rewrite Hbs in H. unfold joined in H.
  destruct (Reader.decode d self) as [o self']. simpl in H. simplify_eq. eauto.
Qed.

Lemma write_all_Ok {A} `{RoundTrip A} (xs : list A) w w' :
  write_all xs w = (Some (Ok tt), w') ->
  exists bss, Forall2 (fun x bs => forall rest, decode (bs ++ rest) = (Ok x, rest)) xs bss /\
    sent (Writer.stream w') = sent (Writer.stream w) ++ concat bss.
Proof.
  revert w. induction xs as [|x xs IH]; intros w E; simpl in E.
  { simplify_eq. exists []. by rewrite app_nil_r. }
  unfold Writer.encode in E. destruct (encode x Writer.cleared) as [[[]|e|] wb] eqn:Ex; simplify_eq.
  destruct (Writer.drain _ _ _) as [[[[]|e|]|] w1] eqn:Ed; simplify_eq.
  apply IH in E as (bss & HF & Hs). apply round_trip in Ex as (bs & -> & Hbs).
  apply drain_Ok in Ed. exists (bs :: bss). split; [by constructor|].
  rewrite Hs, Ed. simpl. by rewrite <- app_assoc.
Qed.

Lemma write_all_prefix {A} `{Encode A} (xs : list A) w w' :
  write_all xs w = (Some (Ok tt), w') -> sent (Writer.stream w) `prefix_of` sent (Writer.stream w').
Proof.
  revert w. induction xs as [|x xs IH]; intros w E; simpl in E; [by simplify_eq|].
  unfold Writer.encode in E. destruct (encode x Writer.cleared) as [[[]|e|] wb]; simplify_eq.
  destruct (Writer.drain _ _ _) as [[[[]|e|]|] w1] eqn:Ed; simplify_eq.
  etransitivity; [|by apply IH]. apply drain_Ok in Ed. rewrite Ed. by eexists.
Qed.

(** ** Properties *)

(** C8 (refinement). Decoding from a stream, for a decoder that is streaming on the
    bytes the peer will ever send (on every beginning of them its success and its
    errors are final, and [More] counts bytes that are missing): the result is what
    the decoder gives on all those bytes, however they are cut into reads, the same
    value and the same bytes left over, the same final error, and a shortage only at
    the end of the stream, as [More] on FIN and as the transport's error on failure.
    No read happens that the bytes at hand did not call for. The condition holds for
    every type with the [Streaming] law, the headers of streams and objects among
    them, for setup messages as the sessions write them, and for control messages
    without absolute positions. It fails for SUBSCRIBE and SUBSCRIBE_UPDATE
    with absolute positions, and there the result does depend on the cuts
    ([subscribe_fragment_rejected], [absolute_subscribe_cut]). *)
Theorem reader_decode_refines {A} (d : dec A) (self : Reader.t) :
  streaming_on d (Reader.pending self) ->
  let (r, self') := Reader.decode d self in
  (r, Reader.pending self') = decode_all d (Reader.pending self) (stream_end (Reader.stream self)) /\
  exists used, Reader.stream self = used ++ Reader.stream self' /\
    forall u c, used = u ++ [c] ->
      exists n, fst (d (Reader.buffer self ++ received_bytes u)) = Err (DecodeErr.More n).
Proof.
  intros Hd. pose proof (decode_refines d _ Hd self eq_refl) as H.
  pose proof (decode_frugal d _ Hd self eq_refl) as Hf.
  destruct (Reader.decode d self) as [r self']. by split.
Qed.

Lemma reader_decode_refines_witness :
  let self := Reader.mk [Data [x01]; Data []; Data [x62; x63]] [x40] in
  streaming_on VarInt.decode_u64 (Reader.pending self) /\
  Reader.decode VarInt.decode_u64 self = (Ok 1, Reader.mk [Data []; Data [x62; x63]] []) /\
  decode_all VarInt.decode_u64 (Reader.pending self) None = (Ok 1, [x62; x63]).
Proof.
  cbv zeta. assert (Hs : streaming_on VarInt.decode_u64
    (Reader.pending (Reader.mk [Data [x01]; Data []; Data [x62; x63]] [x40])))
    by (apply streaming_streaming_on, VarInt.Streaming_u64).
  assert (E : Reader.decode VarInt.decode_u64 (Reader.mk [Data [x01]; Data []; Data [x62; x63]] [x40])
    = (Ok 1, Reader.mk [Data []; Data [x62; x63]] [])) by (vm_compute; reflexivity).
  split; [exact Hs|]. split; [exact E|].
  pose proof (reader_decode_refines VarInt.decode_u64
    (Reader.mk [Data [x01]; Data []; Data [x62; x63]] [x40]) Hs) as H.
  rewrite E in H. destruct H as [H _]. symmetry. exact H.
Defined.

(** Reading raw bytes: [read_chunk] returns at most [max] bytes,
    buffered ones first, and takes exactly those off the stream; [done] is true
    only when nothing is left, and it loses nothing. *)
Theorem reader_chunks_conserve (max : N) (self : Reader.t) :
  (let (r, self') := Reader.read_chunk max self in
   match r with
   | Ok (Some bs) => lenN bs <= max /\ Reader.pending self = bs ++ Reader.pending self'
   | Ok None => Reader.pending self = [] /\ self' = self
   | Err _ => self' = self
   | Panic => False
   end) /\
  (let (r, self') := Reader.done self in
   Reader.pending self' = Reader.pending self /\
   (r = Ok true -> Reader.pending self = [] /\ stream_end (Reader.stream self) = None)).
Proof.
  destruct self as [s buf]. unfold Reader.read_chunk, Reader.done, Reader.pending. simpl. split.
  - destruct (bool_decide_reflect (buf = [])) as [->|Hb].
    + destruct s as [|[bs|msg] s]; simpl; [done| |done].
      destruct (N.leb_spec (lenN bs) max) as [Hm|Hm]; simpl; [done|].
      rewrite app_assoc, take_drop. split; [|done]. unfold lenN. rewrite length_take. lia.
    + simpl. rewrite app_assoc, take_drop. split; [|done].
      unfold lenN. rewrite length_take. lia.
  - destruct (bool_decide_reflect (buf = [])) as [->|Hb]; [|by split].
    by destruct s as [|[bs|msg] s]; simpl.
Qed.

(** Writing a message hands its bytes to the transport
    once and in order. Whatever the transport does, what was sent is a prefix of
    the encoding, all of it exactly when the call succeeds; an encoding error
    sends nothing; and a transport that keeps accepting bytes lets the call
    finish. *)
Theorem writer_encode_in_order {A} `{Encode A} (msg : A) (self : Writer.t) :
  let (r, self') := Writer.encode msg self in
  match encode msg Writer.cleared with
  | (Ok _, w) =>
      (exists p q, wdata w = p ++ q /\
        sent (Writer.stream self') = sent (Writer.stream self) ++ p /\
        (r = Some (Ok tt) <-> q = [])) /\
      (Forall (fun e => exists n, e = Accept n /\ 0 < n) (script (Writer.stream self)) ->
       (length (wdata w) <= length (script (Writer.stream self)))%nat -> r = Some (Ok tt))
  | (Err e, _) => r = Some (Err (SessionErr.Encode e)) /\ Writer.stream self' = Writer.stream self
  | (Panic, _) => r = Some Panic /\ Writer.stream self' = Writer.stream self
  end.
Proof.
  unfold Writer.encode. destruct (encode msg Writer.cleared) as [[u|e|] w]; [|done|done].
  destruct (Writer.drain _ _ _) as [r self'] eqn:E. split.
  - apply drain_spec in E as (Hb & [k Hk] & Hr). rewrite Hk, drop_app_length in Hb. eauto.
  - intros Hs Hl. pose proof (drain_done _ (Writer.stream self) _ Hs Hl) as Hd. by rewrite E in Hd.
Qed.

(** End to end: values written one after the other with no
    error arrive in order at a reader, however the transport split the bytes,
    and nothing is left over, for every type whose codec has the round-trip and
    the streaming law. *)
Theorem stream_transfer {A} `{Encode A, Decode A, !RoundTrip A, !Streaming A} (xs : list A) (w w' : Writer.t) :
  write_all xs w = (Some (Ok tt), w') ->
  exists bs, sent (Writer.stream w') = sent (Writer.stream w) ++ bs /\
    forall s, received_bytes s = bs ->
      exists r, read_all decode (length xs) (Reader.new s) = (Ok xs, r) /\ Reader.pending r = [].
Proof.
  intros E. apply write_all_Ok in E as (bss & HF & Hs). exists (concat bss). split; [done|].
  intros s Hr. clear Hs.
  assert (Hp : Reader.pending (Reader.new s) = concat bss) by done.
  revert Hp. generalize (Reader.new s) as self. clear Hr s.
  induction HF as [|x bs xs bss Hx HF IH]; intros self Hp; [by eexists|]. simpl in Hp |- *.
  destruct (decode_written decode x bs (concat bss) self
    (streaming_streaming_on _ _ decode_streaming) (Hx _) Hp) as (r & -> & Hr).
  destruct (IH r Hr) as (r' & -> & Hr'). eauto.
Qed.

Lemma stream_transfer_witness :
  let w := Writer.new (fresh_stream [Accept 1; Accept 0; Accept 9; Accept 3] FinSent true) in
  let s := [Data [x41]; Data [x2c; x07]] in
  sent (Writer.stream (snd (write_all [300; 7] w))) = received_bytes s /\
  exists r, read_all VarInt.decode_u64 2 (Reader.new s) = (Ok [300; 7], r) /\ Reader.pending r = [].
Proof.
  cbv zeta. split; [vm_compute; reflexivity|].
  set (w := Writer.new (fresh_stream [Accept 1; Accept 0; Accept 9; Accept 3] FinSent true)).
  assert (E : write_all [300; 7] w = (Some (Ok tt), snd (write_all [300; 7] w)))
    by (vm_compute; reflexivity).
  destruct (stream_transfer (A:=N) [300; 7] w _ E) as (bs & Hs & Hr).
  exact (Hr [Data [x41]; Data [x2c; x07]] Hs).
Defined.
