(* ===== verification/Watch.v ===== *)
(** * Shared state with notification

    [moq-transport/src/watch/]: [State] is a value behind a mutex that several
    handles share, split into halves; a task can wait for the next change, and
    once every handle of some half is gone nobody can change the value any more.
    [Queue] is a [State] of a [VecDeque].

    A critical section is one step, since the code holds the mutex throughout:
    [lock_mut] up to the end of its guard is [with_mut], [lock] followed by a
    test and [into_mut] or [modified] is one function of the client. The [Arc]s
    of [StateDrop] are counted explicitly; a guard's own clone of its [Arc]
    cancels out within the step. *)
From Stdlib Require Import NArith Lia Bool.
From stdpp Require Import base list gmap option numbers.
From S2P Require Import Prelude.

(** ** [watch/state.rs] *)

(** A waker is the task it wakes; [will_wake] is equality. *)
Definition waker : Type := nat.

Section StateInner.
Context {T : Type}.

Record StateInner := {
  value : T;
  wakers : list waker;
  epoch : N;
  dropped : option unit;
}.

Definition inner_new (value : T) : StateInner :=
  {| value := value; wakers := []; epoch := 0; dropped := Some tt |}.

Definition register (w : waker) (self : StateInner) : StateInner :=
  {| value := value self; wakers := filter (fun existing => existing <> w) (wakers self) ++ [w];
     epoch := epoch self; dropped := dropped self |}.

(** The epoch wraps around as a [usize] of the release profile does. The wakers
    are drained; the caller of [notify] wakes them. *)
Definition notify (self : StateInner) : StateInner :=
  {| value := value self; wakers := []; epoch := (epoch self + 1) mod 2 ^ 64;
     dropped := dropped self |}.

Definition set_value (v : T) (self : StateInner) : StateInner :=
  {| value := v; wakers := wakers self; epoch := epoch self; dropped := dropped self |}.

Definition set_dropped (self : StateInner) : StateInner :=
  {| value := value self; wakers := wakers self; epoch := epoch self; dropped := None |}.

(** The heap the handles of one [State] live on: the shared value, the strong
    count of every [Arc<StateDrop>], and the tasks woken so far. *)
Record Cell := {
  inner : StateInner;
  drops : gmap nat nat;
  fresh_drop : nat;
  woken : list waker;
}.

(** [State]: all handles share the value, each belongs to one [StateDrop]. *)
Definition State : Type := nat.

Definition set_inner (i : StateInner) (c : Cell) : Cell :=
  {| inner := i; drops := drops c; fresh_drop := fresh_drop c; woken := woken c |}.

Definition run_notify (c : Cell) : Cell :=
  {| inner := notify (inner c); drops := drops c; fresh_drop := fresh_drop c;
     woken := woken c ++ wakers (inner c) |}.

Definition state_new (initial : T) : State * Cell :=
  (0%nat, {| inner := inner_new initial; drops := {[ 0%nat := 1%nat ]}; fresh_drop := 1;
             woken := [] |}).

(** [lock], read only *)
Definition lock (c : Cell) : T := value (inner c).

(** [lock_mut] or [into_mut], the body [f] of the guard, and the guard's drop. *)
Definition with_mut {R} (f : T -> R * T) (c : Cell) : option R * Cell :=
  match dropped (inner c) with
  | None => (None, c)
  | Some _ =>
      let (r, v) := f (value (inner c)) in
      (Some r, run_notify (set_inner (set_value v (inner c)) c))
  end.

(** [StateRef::modified]: a future for the next change, from the current epoch. *)
Definition modified (c : Cell) : option N :=
  match dropped (inner c) with None => None | Some _ => Some (epoch (inner c)) end.

(** [StateChanged::poll]; [true] is [Ready]. *)
Definition poll (since : N) (w : waker) (c : Cell) : bool * Cell :=
  if since <? epoch (inner c) then (true, c)
  else (false, set_inner (register w (inner c)) c).

Definition clone (h : State) (c : Cell) : State * Cell :=
  (h, {| inner := inner c; drops := alter S h (drops c); fresh_drop := fresh_drop c;
         woken := woken c |}).

(** [split]: the second half gets a [StateDrop] of its own. *)
Definition split (h : State) (c : Cell) : (State * State) * Cell :=
  ((h, fresh_drop c),
   {| inner := inner c; drops := <[fresh_drop c := 1%nat]> (drops c);
      fresh_drop := S (fresh_drop c); woken := woken c |}).

(** Dropping a handle, and with the last one of its half the [StateDrop]. *)
Definition drop_state (h : State) (c : Cell) : Cell :=
  match drops c !! h with
  | Some (S (S n)) =>
      {| inner := inner c; drops := <[h := S n]> (drops c); fresh_drop := fresh_drop c;
         woken := woken c |}
  | Some _ =>
      run_notify {| inner := set_dropped (inner c); drops := delete h (drops c);
                    fresh_drop := fresh_drop c; woken := woken c |}
  | None => c
  end.

(** [downgrade] and [StateWeak::upgrade]: the [StateDrop] must still be alive. *)
Definition downgrade (h : State) : State := h.
Definition upgrade (h : State) (c : Cell) : option State * Cell :=
  match drops c !! h with
  | Some _ => let (h, c) := clone h c in (Some h, c)
  | None => (None, c)
  end.

End StateInner.
Arguments StateInner : clear implicits.
Arguments Cell : clear implicits.

(** ** Tasks around one cell

    What any number of tasks can do to a cell, in any order: every step is one
    critical section. [parked] are the tasks asleep in a [StateChanged] future,
    with the epoch they wait to see exceeded; [futures] the epochs handed out by
    [modified]. A task leaves [parked] only by being woken. *)
Section Tasks.
Context {T : Type}.

Record Tasks := {
  cell : Cell T;
  futures : list N;
  parked : list (waker * N);
}.

(** Tasks woken between two states of the cell are parked no longer. *)
Definition still_parked (c c' : Cell T) (p : list (waker * N)) : list (waker * N) :=
  filter (fun wn => wn.1 ∉ drop (length (woken c)) (woken c')) p.

Definition moved (s : Tasks) (c' : Cell T) : Tasks :=
  {| cell := c'; futures := futures s; parked := still_parked (cell s) c' (parked s) |}.

Inductive step : Tasks -> Tasks -> Prop :=
  | step_mut {R} (f : T -> R * T) s :
      step s (moved s (snd (with_mut f (cell s))))
  | step_modified s n :
      modified (cell s) = Some n ->
      step s {| cell := cell s; futures := n :: futures s; parked := parked s |}
  | step_poll s n w :
      n ∈ futures s ->
      step s {| cell := snd (poll n w (cell s)); futures := futures s;
                parked := if fst (poll n w (cell s)) then parked s else (w, n) :: parked s |}
  | step_clone s h :
      is_Some (drops (cell s) !! h) -> step s (moved s (snd (clone h (cell s))))
  | step_split s h :
      is_Some (drops (cell s) !! h) -> step s (moved s (snd (split h (cell s))))
  | step_upgrade s h : step s (moved s (snd (upgrade h (cell s))))
  | step_drop s h :
      is_Some (drops (cell s) !! h) -> step s (moved s (drop_state h (cell s))).

Definition start (initial : T) : Tasks :=
  {| cell := snd (state_new initial); futures := []; parked := [] |}.

(** Whoever sleeps is registered to be woken and has missed nothing. *)
Definition awaited (s : Tasks) : Prop :=
  forall w n, (w, n) ∈ parked s ->
    w ∈ wakers (inner (cell s)) /\ (n <? epoch (inner (cell s))) = false.

(** Steps that leave the wakers and the epoch alone, and those that notify. *)
Lemma quiet_moved (s : Tasks) (c' : Cell T) :
  woken c' = woken (cell s) -> wakers (inner c') = wakers (inner (cell s)) ->
  epoch (inner c') = epoch (inner (cell s)) -> awaited s -> awaited (moved s c').
Proof.
  intros Hw Hk He Ha w n Hin. simpl in *. unfold still_parked in Hin.
  apply list_elem_of_filter in Hin as [_ Hin]. rewrite Hk, He. by apply Ha.
Qed.

Lemma notified_moved (s : Tasks) (c : Cell T) :
  woken c = woken (cell s) -> wakers (inner c) = wakers (inner (cell s)) ->
  awaited s -> awaited (moved s (run_notify c)).
Proof.
  intros Hw Hk Ha w n Hin. exfalso. simpl in Hin. unfold still_parked in Hin.
  apply list_elem_of_filter in Hin as [Hni Hin]. apply Hni. simpl.
  rewrite Hw, drop_app_length, Hk. by apply (Ha w n).
Qed.

Lemma wakers_register (w v : waker) (i : StateInner T) :
  v ∈ wakers (register w i) <-> v = w \/ v ∈ wakers i.
Proof.
  simpl. rewrite elem_of_app, list_elem_of_filter, list_elem_of_singleton.
  destruct (decide (v = w)); tauto.
Qed.

Lemma step_awaited s s' : awaited s -> step s s' -> awaited s'.
Proof.
  intros Ha. destruct 1.
  - unfold with_mut. destruct (dropped (inner (cell s))); [|by apply quiet_moved].
    destruct (f _) as [r v]. by apply notified_moved.
  - exact Ha.
  - unfold poll. destruct (n <? epoch (inner (cell s))) eqn:E; simpl; [exact Ha|].
    intros v m Hin. split; [|by apply elem_of_cons in Hin as [?|Hin]; [simplify_eq|eapply Ha]].
    apply wakers_register. apply elem_of_cons in Hin as [?|Hin]; [simplify_eq; by left|].
    right. by eapply Ha.
  - by apply quiet_moved.
  - by apply quiet_moved.
  - unfold upgrade. destruct (drops _ !! h); by apply quiet_moved.
  - unfold drop_state. destruct (drops (cell s) !! h) as [[|[|k]]|];
      [by apply notified_moved|by apply notified_moved|by apply quiet_moved|by apply quiet_moved].
Qed.

(** The counts of live [StateDrop]s are positive, new ones are new, and the
    value is marked dropped exactly when some [StateDrop] is gone. *)
Definition counts (c : Cell T) : Prop :=
  (forall h n, drops c !! h = Some n -> (0 < n)%nat /\ (h < fresh_drop c)%nat) /\
  (dropped (inner c) = None <-> exists h, (h < fresh_drop c)%nat /\ drops c !! h = None).

Lemma counts_mut {R} (f : T -> R * T) c : counts c -> counts (snd (with_mut f c)).
Proof.
  unfold counts, with_mut. destruct (dropped (inner c)) eqn:E; [destruct (f _)|]; simpl; by rewrite ?E.
Qed.

Lemma counts_clone h c : counts c -> counts (snd (clone h c)).
Proof.
  intros [Hp Hd]. split; simpl.
  - intros g m Hg. apply lookup_alter_Some in Hg as [(-> & m' & Hg & ->)|(_ & Hg)].
    + apply Hp in Hg. lia.
    + by apply Hp.
  - rewrite Hd. by setoid_rewrite lookup_alter_None.
Qed.

Lemma counts_split h c : counts c -> counts (snd (split h c)).
Proof.
  intros [Hp Hd]. split; simpl.
  - intros g m Hg. apply lookup_insert_Some in Hg as [(<- & <-)|(_ & Hg)]; [lia|].
    apply Hp in Hg. lia.
  - rewrite Hd. split; intros (g & Hl & Hg).
    + exists g. split; [lia|]. rewrite lookup_insert_ne; [done|lia].
    + apply lookup_insert_None in Hg as [Hg Hne]. exists g. split; [lia|done].
Qed.

Lemma counts_drop h c : counts c -> counts (drop_state h c).
Proof.
  intros [Hp Hd]. unfold drop_state. destruct (drops c !! h) as [k|] eqn:Hh; [|done].
  destruct (Hp _ _ Hh) as [Hk Hf]. destruct k as [|[|k]]; [lia| |].
  - split; simpl.
    + intros g m Hg. apply lookup_delete_Some in Hg as [_ Hg]. by apply Hp.
    + split; [|done]. intros _. exists h. by rewrite lookup_delete_eq.
  - split; simpl.
    + intros g m Hg. apply lookup_insert_Some in Hg as [(<- & <-)|(_ & Hg)]; [lia|by apply Hp].
    + rewrite Hd. split; intros (g & Hl & Hg); exists g; (split; [done|]).
      * rewrite lookup_insert_ne; [done|]. intros <-. by pose proof (eq_trans (eq_sym Hg) Hh).
      * by apply lookup_insert_None in Hg as [Hg _].
Qed.

Lemma step_counts s s' : counts (cell s) -> step s s' -> counts (cell s').
Proof.
  intros Hc. destruct 1; simpl.
  - by apply counts_mut.
  - done.
  - unfold poll. by destruct (_ <? _).
  - by apply (counts_clone h).
  - by apply (counts_split h).
  - unfold upgrade. destruct (drops _ !! h); [by apply (counts_clone h)|done].
  - by apply counts_drop.
Qed.

(** Once dropped, a cell stays dropped and keeps its value. *)
Lemma step_frozen s s' v :
  dropped (inner (cell s)) = None /\ lock (cell s) = v -> step s s' ->
  dropped (inner (cell s')) = None /\ lock (cell s') = v.
Proof.
  intros [Hd Hv]. destruct 1; simpl; try done.
  - unfold with_mut. by rewrite Hd.
  - unfold poll. by destruct (_ <? _).
  - unfold upgrade. by destruct (drops _ !! h).
  - unfold drop_state. by destruct (drops _ !! h) as [[|[|k]]|].
Qed.
End Tasks.

(** ** [watch/queue.rs] *)

Module Queue.

Section Queue.
Context {T : Type}.

(** A queue handle is a handle on its state. *)
Definition new : State * Cell (list T) := state_new [].

Definition push (item : T) (c : Cell (list T)) : outcome T unit * Cell (list T) :=
  match with_mut (fun q => (tt, q ++ [item])) c with
  | (Some _, c) => (Ok tt, c)
  | (None, c) => (Err item, c)
  end.

Definition pop_front (q : list T) : option T * list T :=
  match q with [] => (None, []) | x :: q => (Some x, q) end.

(** One turn of [pop]'s loop up to its [await]; [Wait] is the future it then
    polls, in a critical section of its own. *)
Inductive turn :=
  | Return (item : option T)
  | Wait (since : N).

Definition pop_turn (c : Cell (list T)) : turn * Cell (list T) :=
  match lock c with
  | _ :: _ =>
      match with_mut pop_front c with
      | (Some item, c) => (Return item, c)
      | (None, c) => (Return None, c)
      end
  | [] =>
      match modified c with
      | Some since => (Wait since, c)
      | None => (Return None, c)
      end
  end.

(** [pop] polled by the task [w]: turns until it returns or has to sleep; a
    ready future means another turn. *)
Definition pop_poll (w : waker) (c : Cell (list T)) : option (option T) * Cell (list T) :=
  match pop_turn c with
  | (Return item, c) => (Some item, c)
  | (Wait since, c) => (None, snd (poll since w c))
  end.

Definition close (h : State) (c : Cell (list T)) : list T * Cell (list T) :=
  let (res, c) := with_mut (fun q => (q, [])) c in
  (default [] res, drop_state h c).

(** Everything that can happen to a queue, with what was ever accepted by
    [push] and what was ever handed out by [pop] and [close]. *)
Record History := { queue : Cell (list T); accepted : list T; taken : list T }.

Inductive qstep : History -> History -> Prop :=
  | q_push s x :
      qstep s {| queue := snd (push x (queue s));
                 accepted := accepted s ++ match fst (push x (queue s)) with Ok _ => [x] | _ => [] end;
                 taken := taken s |}
  | q_pop s :
      qstep s {| queue := snd (pop_turn (queue s)); accepted := accepted s;
                 taken := taken s ++ match fst (pop_turn (queue s)) with
                                     | Return (Some x) => [x] | _ => [] end |}
  | q_close s h :
      qstep s {| queue := snd (close h (queue s)); accepted := accepted s;
                 taken := taken s ++ fst (close h (queue s)) |}
  | q_poll s n w :
      qstep s {| queue := snd (poll n w (queue s)); accepted := accepted s; taken := taken s |}
  | q_clone s h :
      qstep s {| queue := snd (clone h (queue s)); accepted := accepted s; taken := taken s |}
  | q_split s h :
      qstep s {| queue := snd (split h (queue s)); accepted := accepted s; taken := taken s |}
  | q_drop s h :
      qstep s {| queue := drop_state h (queue s); accepted := accepted s; taken := taken s |}.

Definition history_start : History := {| queue := snd new; accepted := []; taken := [] |}.

Lemma lock_drop_state h (c : Cell (list T)) : lock (drop_state h c) = lock c.
Proof. unfold drop_state. by destruct (drops c !! h) as [[|[|k]]|]. Qed.

Lemma qstep_fifo s s' :
  taken s ++ lock (queue s) = accepted s -> qstep s s' ->
  taken s' ++ lock (queue s') = accepted s'.
Proof.
  intros Hi. destruct 1; simpl.
  - unfold push, with_mut. destruct (dropped (inner (queue s))); simpl.
    + by rewrite <- Hi, <- app_assoc.
    + by rewrite app_nil_r.
  - unfold pop_turn, with_mut, modified. rewrite <- Hi. unfold lock.
    destruct (value (inner (queue s))) as [|x q] eqn:Hv; destruct (dropped (inner (queue s)));
      simpl; by rewrite ?Hv, ?app_nil_r, <- ?app_assoc.
  - unfold close, with_mut. rewrite <- Hi. unfold lock. destruct (dropped (inner (queue s))); simpl.
    + pose proof (lock_drop_state h (run_notify (set_inner (set_value [] (inner (queue s))) (queue s))))
        as Hl. unfold lock in Hl. rewrite Hl. simpl. by rewrite app_nil_r.
    + pose proof (lock_drop_state h (queue s)) as Hl. unfold lock in Hl. by rewrite Hl, app_nil_r.
  - unfold poll. by destruct (_ <? _).
  - done.
  - done.
  - by rewrite lock_drop_state.
Qed.

End Queue.
Arguments History : clear implicits.
Arguments turn : clear implicits.

End Queue.

(** ** Properties *)

(** C17 (safety, liveness). No wake-up is lost. However tasks and handles are
    interleaved, a task that sleeps in [StateChanged] is registered with the
    cell and has missed no change; so the next change, or the end of any half,
    wakes every sleeping task. *)
Theorem no_lost_wakeup {T} (initial : T) (s : Tasks) (w : waker) (since : N) :
  star step (start initial) s -> (w, since) ∈ parked s ->
  w ∈ wakers (inner (cell s)) /\
  fst (poll since w (cell s)) = false /\
  (forall R (f : T -> R * T), dropped (inner (cell s)) <> None ->
    w ∈ woken (snd (with_mut f (cell s)))) /\
  (forall h, drops (cell s) !! h = Some 1%nat -> w ∈ woken (drop_state h (cell s))).
Proof.
  intros Hs Hin. assert (Ha : awaited s).
  { eapply star_invariant; [apply step_awaited| |done]. intros v n Hv. by apply elem_of_nil in Hv. }
  destruct (Ha _ _ Hin) as [Hw He]. split; [done|]. split; [|split].
  - unfold poll. by rewrite He.
  - intros R f Hd. unfold with_mut. destruct (dropped (inner (cell s))); [|done].
    destruct (f _). simpl. apply elem_of_app. by right.
  - intros h Hh. unfold drop_state. rewrite Hh. simpl. apply elem_of_app. by right.
Qed.

(** Two tasks of a demonstration: one takes a future, the other puts it to
    sleep on it. *)
Definition demo_future : Tasks :=
  {| cell := cell (start 5); futures := [0]; parked := [] |}.

Definition demo_asleep : Tasks :=
  {| cell := snd (poll 0 7%nat (cell (start 5))); futures := [0]; parked := [(7%nat, 0)] |}.

Lemma no_lost_wakeup_witness :
  (7%nat, 0) ∈ parked demo_asleep /\ 7%nat ∈ wakers (inner (cell demo_asleep)) /\
  7%nat ∈ woken (snd (with_mut (fun v => (tt, v + 1)) (cell demo_asleep))).
Proof.
  assert (Hs : star step (start 5) demo_asleep).
  { apply (star_step step _ demo_future); [apply (star_step step _ (start 5)); [apply star_refl|]|].
    - apply (step_modified (start 5) 0). reflexivity.
    - apply (step_poll demo_future 0 7%nat). by apply list_elem_of_here. }
  assert (Hin : (7%nat, 0) ∈ parked demo_asleep) by (by apply list_elem_of_here).
  destruct (no_lost_wakeup 5 demo_asleep 7%nat 0 Hs Hin) as (Hw & _ & Hf & _).
  split; [exact Hin|]. split; [exact Hw|]. apply Hf. discriminate.
Defined.

(** The life of a half. In every reachable state the cell is
    closed exactly when all handles of some half are gone; then no guard can be
    had for writing, no future for a change, and whatever happens later the
    value stays as it is. A weak handle can be upgraded exactly while its half is
    alive. *)
Theorem closed_for_good {T} (initial : T) (s s' : Tasks) :
  star step (start initial) s -> star step s s' ->
  (dropped (inner (cell s)) = None <->
    exists h, (h < fresh_drop (cell s))%nat /\ drops (cell s) !! h = None) /\
  (forall h, is_Some (fst (upgrade (downgrade h) (cell s))) <-> is_Some (drops (cell s) !! h)) /\
  (dropped (inner (cell s)) = None ->
    lock (cell s') = lock (cell s) /\ modified (cell s') = None /\
    forall R (f : T -> R * T), with_mut f (cell s') = (None, cell s')).
Proof.
  intros Hs Hs'. split; [|split].
  - assert (Hc : counts (cell s)); [|apply Hc].
    eapply (star_invariant _ (fun s => counts (cell s))); [apply step_counts| |done].
    split; simpl.
    + intros h n Hh. apply lookup_singleton_Some in Hh as [<- <-]. lia.
    + split; [done|]. intros (h & Hh & Hn). assert (h = 0%nat) as -> by lia.
      by rewrite lookup_singleton_eq in Hn.
  - intros h. unfold upgrade, downgrade. destruct (drops (cell s) !! h); simpl; split; intros [? ?]; eauto.
  - intros Hd. assert (Hf : dropped (inner (cell s')) = None /\ lock (cell s') = lock (cell s)).
    { eapply (star_invariant _ (fun s' => dropped (inner (cell s')) = None /\ lock (cell s') = lock (cell s)));
        [|by split|done]. intros x y Hx Hxy. by eapply step_frozen. }
    destruct Hf as [Hf Hv]. split; [done|]. unfold modified, with_mut. by rewrite Hf.
Qed.

(** Dropping the only handle closes the cell. *)
Definition demo_closed : Tasks := moved (start 5) (drop_state 0%nat (cell (start 5))).

Lemma closed_for_good_witness :
  dropped (inner (cell demo_closed)) = None /\
  lock (cell demo_closed) = 5 /\ modified (cell demo_closed) = None.
Proof.
  assert (Hs : star step (start 5) demo_closed).
  { apply (star_step step _ (start 5)); [apply star_refl|]. apply (step_drop (start 5) 0%nat).
    exists 1%nat. reflexivity. }
  assert (Hd : dropped (inner (cell demo_closed)) = None) by reflexivity.
  destruct (closed_for_good 5 demo_closed demo_closed Hs (star_refl step _)) as (_ & _ & H).
  split; [exact Hd|]. destruct (H Hd) as (Hv & Hm & _). split; [exact Hv|exact Hm].
Defined.

(** A future taken before a change is ready after it, and not
    before; this holds until the epoch has wrapped around. *)
Theorem change_is_seen {T} (c : Cell T) (w : waker) (since : N) :
  modified c = Some since -> epoch (inner c) + 1 < 2 ^ 64 ->
  fst (poll since w c) = false /\
  (forall R (f : T -> R * T), fst (poll since w (snd (with_mut f c))) = true) /\
  (forall h, drops c !! h = Some 1%nat -> fst (poll since w (drop_state h c)) = true).
Proof.
  unfold modified, poll, with_mut, drop_state. intros Hm He.
  destruct (dropped (inner c)); simplify_eq. rewrite N.ltb_irrefl. split; [done|]. split.
  - intros R f. destruct (f _). simpl. rewrite N.mod_small by done.
    by destruct (N.ltb_spec (epoch (inner c)) (epoch (inner c) + 1)); [|lia].
  - intros h ->. simpl. rewrite N.mod_small by done.
    by destruct (N.ltb_spec (epoch (inner c)) (epoch (inner c) + 1)); [|lia].
Qed.

Lemma change_is_seen_witness :
  modified (cell (start 5)) = Some 0 /\ epoch (inner (cell (start 5))) + 1 < 2 ^ 64 /\
  fst (poll 0 7%nat (drop_state 0%nat (cell (start 5)))) = true.
Proof.
  assert (Hm : modified (cell (start 5)) = Some 0) by reflexivity.
  assert (He : epoch (inner (cell (start 5))) + 1 < 2 ^ 64) by reflexivity.
  split; [exact Hm|]. split; [exact He|].
  destruct (change_is_seen (cell (start 5)) 7%nat 0 Hm He) as (_ & _ & H). apply H. reflexivity.
Defined.

(** C18 (safety). A queue is first in, first out, and loses or repeats nothing
    it accepted: in every interleaving of pushes, pops, closes and handles coming
    and going, what was handed out followed by what is queued is what was
    accepted, in order. *)
Theorem queue_fifo {T} (s : Queue.History T) :
  star Queue.qstep Queue.history_start s ->
  Queue.taken s ++ lock (Queue.queue s) = Queue.accepted s.
Proof.
  apply (star_invariant _ (fun s => Queue.taken s ++ lock (Queue.queue s) = Queue.accepted s)).
  - intros x y. apply Queue.qstep_fifo.
  - done.
Qed.

Lemma queue_fifo_witness :
  exists s : Queue.History N, star Queue.qstep Queue.history_start s /\
    Queue.accepted s = [8; 9] /\ Queue.taken s ++ lock (Queue.queue s) = [8; 9].
Proof.
  pose proof (star_step _ _ _ _ (star_step _ _ _ _ (star_step _ _ _ _
    (star_refl Queue.qstep (@Queue.history_start N)) (Queue.q_push _ 8)) (Queue.q_push _ 9))
    (Queue.q_pop _)) as Hs.
  eexists. split; [exact Hs|]. split; [reflexivity|]. exact (queue_fifo _ Hs).
Defined.

(** [push] and [pop] on every branch: an open queue
    takes the item at the back and gives the one at the front, waking whoever
    waits; an empty open queue makes [pop] wait; a closed queue hands the item
    of [push] back, and [pop] on it returns [None] even when items are left. *)
Theorem queue_operations {T} (x : T) (c : Cell (list T)) :
  match dropped (inner c) with
  | Some _ =>
      (fst (Queue.push x c) = Ok tt /\ lock (snd (Queue.push x c)) = lock c ++ [x] /\
       woken (snd (Queue.push x c)) = woken c ++ wakers (inner c)) /\
      match lock c with
      | [] => Queue.pop_turn c = (Queue.Wait (epoch (inner c)), c)
      | y :: q =>
          fst (Queue.pop_turn c) = Queue.Return (Some y) /\ lock (snd (Queue.pop_turn c)) = q /\
          woken (snd (Queue.pop_turn c)) = woken c ++ wakers (inner c)
      end
  | None => Queue.push x c = (Err x, c) /\ Queue.pop_turn c = (Queue.Return None, c)
  end.
Proof.
  unfold Queue.push, Queue.pop_turn, with_mut, modified, lock.
  destruct (dropped (inner c)); destruct (value (inner c)) as [|y q] eqn:Hv; simpl; rewrite ?Hv; done.
Qed.
