(* ===== verification/Session.v ===== *)
(** * Sessions: handshake and control loops

    [moq-transport/src/session/mod.rs]: [Session::new], [connect_role] and
    [accept_role] with their role negotiation, and the loops of [Session::run]
    over the control stream and the incoming data streams. The publisher and
    subscriber halves are known here by their handle on the queue of outgoing
    messages and, in the receiving loops, by what they do with a message. *)
From Stdlib Require Import NArith Lia Bool.
From stdpp Require Import base list gmap option numbers.
From S2P Require Import Prelude Buffers VarInt Utf8 Coding Setup Announces Subscribes Fetches Messages.
From S2P Require Import Errors Streams Watch.

(** ** Role negotiation *)

(** [let role = match server.role { .. }] of [connect_role], and the same text
    with [client.role] in [accept_role]. *)
Definition downgrade_role (peer own : Role.t) : outcome SessionError Role.t :=
  match peer with
  | Role.Both => Ok own
  | Role.Publisher =>
      match own with
      | Role.Publisher => Err (SessionErr.RoleIncompatible peer own)
      | _ => Ok Role.Subscriber
      end
  | Role.Subscriber =>
      match own with
      | Role.Subscriber => Err (SessionErr.RoleIncompatible peer own)
      | _ => Ok Role.Publisher
      end
  end.

(** ** Sessions *)

Module Session.

(** [publisher] and [subscriber] stand for the two halves by their handle on
    the outgoing queue. *)
Record t := mk {
  sender : Writer.t;
  recver : Reader.t;
  publisher : option State;
  subscriber : option State;
  outgoing : State;
  queue : Cell (list Message.t);
}.

(** An optional handle, cloned. *)
Definition clone_opt {T} (h : option State) (c : Cell T) : Cell T :=
  match h with Some h => snd (clone h c) | None => c end.

(** [Session::new]: one half of the queue is cloned into the publisher, if
    there is one, and moved into the subscriber, or dropped if there is none;
    the session keeps clones of both and the other half. *)
Definition new (sender : Writer.t) (recver : Reader.t) (role : Role.t) : t * option State * option State :=
  let (q, c) := Queue.new in
  let '((out0, out1), c) := split q c in
  let '(publisher, c) :=
    if Role.is_publisher role then let (h, c) := clone out0 c in (Some h, c) else (None, c) in
  let '(subscriber, c) :=
    if Role.is_subscriber role then (Some out0, c) else (None, drop_state out0 c) in
  let c := clone_opt publisher c in
  let c := clone_opt subscriber c in
  (mk sender recver publisher subscriber out1 c, publisher, subscriber).

(** Calls that may wait, fail or panic, one after the other. *)
Definition try {A B} (m : Writer.result A) (k : A -> Writer.result B) : Writer.result B :=
  match m with
  | Some (Ok a) => k a
  | Some (Err e) => Some (Err e)
  | Some Panic => Some Panic
  | None => None
  end.

(** [sender.encode(&msg).await?] and [recver.decode().await?] *)
Definition send {A} `{Encode A} (msg : A) (sender : Writer.t) : Writer.result Writer.t :=
  let (r, sender) := Writer.encode msg sender in try r (fun _ => Some (Ok sender)).

Definition recv {A} `{Decode A} (recver : Reader.t) : Writer.result (A * Reader.t) :=
  let (r, recver) := Reader.decode decode recver in try (Some r) (fun a => Some (Ok (a, recver))).

Definition connected : Type := t * option State * option State.

Definition versions : Versions.t := Versions.from [Version.DRAFT_07].

Section Setup.
Context `{Runtime}.

(** [connect_role], on the control stream that [open_bi] gave. *)
Definition connect_role (control : outcome SessionError (send_stream * recv_stream)) (role : Role.t) :
    Writer.result connected :=
  try (Some control) (fun control =>
  try (send (Client.mk versions role Params.new) (Writer.new control.1)) (fun sender =>
  try (recv (A:=Server.t) (Reader.new control.2)) (fun '(server, recver) =>
  try (Some (downgrade_role (Server.role server) role)) (fun role =>
  Some (Ok (new sender recver role)))))).

(** [connect]: both halves are there. *)
Definition connect (control : outcome SessionError (send_stream * recv_stream)) :
    Writer.result (t * State * State) :=
  try (connect_role control Role.Both) (fun '(session, publisher, subscriber) =>
  match publisher, subscriber with
  | Some publisher, Some subscriber => Some (Ok (session, publisher, subscriber))
  | _, _ => Some Panic
  end).

(** [accept_role], on the control stream that [accept_bi] gave. *)
Definition accept_role (control : outcome SessionError (send_stream * recv_stream)) (role : Role.t) :
    Writer.result connected :=
  try (Some control) (fun control =>
  try (recv (A:=Client.t) (Reader.new control.2)) (fun '(client, recver) =>
  if negb (bool_decide (Version.DRAFT_07 ∈ Versions.deref (Client.versions client))) then
    Some (Err (SessionErr.Version (Client.versions client) versions))
  else
  try (Some (downgrade_role (Client.role client) role)) (fun role =>
  try (send (Server.mk Version.DRAFT_07 role Params.new) (Writer.new control.1)) (fun sender =>
  Some (Ok (new sender recver role)))))).

Definition accept (control : outcome SessionError (send_stream * recv_stream)) :
    Writer.result connected := accept_role control Role.Both.

End Setup.

(** ** The loops of [run] *)

Section Run.
Context `{Runtime} {Pub Sub : Type}.
Context (publisher_recv : Subscriber.t -> Pub -> outcome SessionError unit * Pub).
Context (subscriber_recv : Publisher.t -> Sub -> outcome SessionError unit * Sub).

(** [run_send], one message: [outgoing.pop()] by the task [w], then the write.
    [None] is waiting, for the queue or for the transport; the flag says that
    the loop has ended; a loop that ends drops its writer. *)
Definition run_send_turn (w : waker) (sender : Writer.t) (q : Cell (list Message.t)) :
    Writer.result bool * Writer.t * Cell (list Message.t) :=
  match Queue.pop_poll w q with
  | (None, q) => (None, sender, q)
  | (Some None, q) => (Some (Ok true), Writer.drop sender, q)
  | (Some (Some msg), q) =>
      match Writer.encode msg sender with
      | (Some (Ok _), sender) => (Some (Ok false), sender, q)
      | (Some (Err e), sender) => (Some (Err e), Writer.drop sender, q)
      | (Some Panic, sender) => (Some Panic, Writer.drop sender, q)
      | (None, sender) => (None, sender, q)
      end
  end.

(** The state of [run_recv]: the two optional halves. *)
Definition halves : Type := option Pub * option Sub.

(** The body of [run_recv]'s loop after the decode; GOAWAY is unimplemented. *)
Definition dispatch (msg : Message.t) (hs : halves) : outcome SessionError unit * halves :=
  match Publisher.try_from msg with
  | inl msg =>
      match hs.2 with
      | None => (Err SessionErr.RoleViolation, hs)
      | Some subscriber =>
          let (r, subscriber) := subscriber_recv msg subscriber in (r, (hs.1, Some subscriber))
      end
  | inr msg =>
      match Subscriber.try_from msg with
      | inl msg =>
          match hs.1 with
          | None => (Err SessionErr.RoleViolation, hs)
          | Some publisher =>
              let (r, publisher) := publisher_recv msg publisher in (r, (Some publisher, hs.2))
          end
      | inr _ => (Panic, hs)
      end
  end.

(** [run_recv]. Every message takes at least two bytes, so [fuel] beyond the
    bytes of the stream is never used up ([run_recv_fuel]); the loop ends in an
    error or a panic only. *)
Fixpoint recv_loop (fuel : nat) (recver : Reader.t) (hs : halves) : option (outcome SessionError unit * halves) :=
  match fuel with
  | O => None
  | S fuel =>
      match Reader.decode (decode : dec Message.t) recver with
      | (Ok msg, recver) =>
          match dispatch msg hs with
          | (Ok _, hs) => recv_loop fuel recver hs
          | (r, hs) => Some (r, hs)
          end
      | (Err e, _) => Some (Err e, hs)
      | (Panic, _) => Some (Panic, hs)
      end
  end.

Definition run_recv (recver : Reader.t) (hs : halves) : option (outcome SessionError unit * halves) :=
  recv_loop (S (length (Reader.pending recver))) recver hs.

End Run.

(** [run_streams]: what the transport and [recv_stream] answer, stream after
    stream. *)
Inductive stream_event :=
  | AcceptFailed (msg : String)
  | Served (res : outcome SessionError unit).

Definition MAX_CONSECUTIVE_ERRORS : N := 50.

Fixpoint streams_loop (has_subscriber : bool) (consecutive_errors : N) (events : list stream_event) :
    Writer.result unit :=
  match events with
  | [] => None
  | AcceptFailed msg :: _ => Some (Err (SessionErr.Transport msg))
  | Served res :: events =>
      if negb has_subscriber then Some (Err SessionErr.RoleViolation)
      else
        match res with
        | Ok _ => streams_loop has_subscriber 0 events
        | Err _ =>
            let consecutive_errors := consecutive_errors + 1 in
            if MAX_CONSECUTIVE_ERRORS <=? consecutive_errors then
              Some (Err (SessionErr.Serve ServeErr.Done))
            else streams_loop has_subscriber consecutive_errors events
        | Panic => Some Panic
        end
  end.

Definition run_streams (has_subscriber : bool) (events : list stream_event) : Writer.result unit :=
  streams_loop has_subscriber 0 events.

(** [run_datagrams]: a transport error ends the loop quietly, a datagram that
    cannot be processed ends the session. *)
Inductive datagram_event :=
  | NoDatagram
  | Datagram (res : outcome SessionError unit).

Fixpoint run_datagrams (has_subscriber : bool) (events : list datagram_event) : Writer.result unit :=
  match events with
  | [] => None
  | NoDatagram :: _ => Some (Ok tt)
  | Datagram res :: events =>
      if negb has_subscriber then Some (Err SessionErr.RoleViolation)
      else
        match res with
        | Ok _ => run_datagrams has_subscriber events
        | Err e => Some (Err e)
        | Panic => Some Panic
        end
  end.

(** [run]: each loop is a spawned task. [res.unwrap_or(Err(SessionError::Closed))] on
    its handle makes a panic a closed session; [select!] takes the first that has
    ended, and the others go on. *)
Definition joined (res : outcome SessionError unit) : outcome SessionError unit :=
  match res with Panic => Err SessionErr.Closed | res => res end.

Inductive task := Recv | Send | Streams | Datagrams.

Definition run_turn (ended : task -> option (outcome SessionError unit)) (polled : task) :
    option (outcome SessionError unit) := joined <$> ended polled.

End Session.

(** ** Lemmas *)

Lemma send_Ok {A} `{Encode A} (msg : A) w w' :
  Session.send msg w = Some (Ok w') ->
  exists wb, encode msg Writer.cleared = (Ok tt, wb) /\
    sent (Writer.stream w') = sent (Writer.stream w) ++ wdata wb.
Proof.
  unfold Session.send, Writer.encode. destruct (encode msg Writer.cleared) as [[[]|e|] wb]; [|done|done].
  destruct (Writer.drain _ _ _) as [[[[]|e|]|] w1] eqn:E; simpl; [|done|done|done].
  intros ?. simplify_eq. apply drain_Ok in E. eauto.
Qed.

Lemma recv_Ok {A} `{Decode A} (a : A) bs s :
  received_bytes s = bs -> streaming_on (decode : dec A) bs -> decode bs = (Ok a, []) ->
  exists r, Session.recv (Reader.new s) = Some (Ok (a, r)) /\ Reader.pending r = [].
Proof.
  intros Hs Hd Hbs. unfold Session.recv.
  destruct (decode_written decode a bs [] (Reader.new s)) as (r & -> & Hr).
  - by rewrite app_nil_r.
  - by rewrite app_nil_r.
  - unfold Reader.pending. simpl. by rewrite Hs, app_nil_r.
  - eauto.
Qed.

(** What one side sent as its SETUP, the other side reads. *)
Lemma recv_client `{Runtime} role w w' s :
  Session.send (Client.mk Session.versions role Params.new) w = Some (Ok w') ->
  sent (Writer.stream w') = sent (Writer.stream w) ++ received_bytes s ->
  exists r, Session.recv (Reader.new s) = Some (Ok (Client.mk Session.versions role Params.new, r)) /\
    Reader.pending r = [].
Proof.
  intros E Hs. apply send_Ok in E as (wb & E & Hw). rewrite Hs in Hw. apply app_inv_head in Hw.
  apply client_read in E as (bs & -> & Hbs). simpl in Hw. destruct (Hbs []) as [Hd Hst].
  rewrite app_nil_r in *. by apply (recv_Ok _ bs); [|apply Hst|].
Qed.

Lemma recv_server `{Runtime} role w w' s :
  Session.send (Server.mk Version.DRAFT_07 role Params.new) w = Some (Ok w') ->
  sent (Writer.stream w') = sent (Writer.stream w) ++ received_bytes s ->
  exists r, Session.recv (Reader.new s) = Some (Ok (Server.mk Version.DRAFT_07 role Params.new, r)) /\
    Reader.pending r = [].
Proof.
  intros E Hs. apply send_Ok in E as (wb & E & Hw). rewrite Hs in Hw. apply app_inv_head in Hw.
  apply server_read in E as (bs & -> & Hbs). simpl in Hw. destruct (Hbs []) as [Hd Hst].
  rewrite app_nil_r in *. by apply (recv_Ok _ bs); [|apply Hst|].
Qed.

Section RecvLemmas.
Context {Pub Sub : Type}.
Context (publisher_recv : Subscriber.t -> Pub -> outcome SessionError unit * Pub).
Context (subscriber_recv : Publisher.t -> Sub -> outcome SessionError unit * Sub).

#[local] Abbreviation dispatch := (Session.dispatch publisher_recv subscriber_recv).
#[local] Abbreviation recv_loop := (Session.recv_loop publisher_recv subscriber_recv).

(** Specification: one message after the other, until one fails; then the end of
    the control stream. *)
Fixpoint dispatch_all (ms : list Message.t) (hs : Session.halves) : outcome SessionError unit * Session.halves :=
  match ms with
  | [] => (Err (SessionErr.Decode (DecodeErr.More 1)), hs)
  | m :: ms =>
      match dispatch m hs with
      | (Ok _, hs) => dispatch_all ms hs
      | r => r
      end
  end.

Lemma recv_loop_fuel fuel recver hs :
  (length (Reader.pending recver) < fuel)%nat -> is_Some (recv_loop fuel recver hs).
Proof.
  revert recver hs. induction fuel as [|fuel IH]; intros recver hs Hl; [lia|]. simpl.
  destruct (Reader.decode decode recver) as [[m|e|] r] eqn:E; [|by eexists|by eexists].
  apply (decode_shrinks _ 1) in E; [|apply decode_consumes].
  destruct (dispatch m hs) as [[u|e|] hs']; [|by eexists|by eexists].
  apply IH. unfold lenN in E. lia.
Qed.

(** Messages that were written one after the other and may be cut anywhere. *)
Definition on_the_wire (bss : list (list byte)) (ms : list Message.t) : Prop :=
  Forall2 (fun bs m => 0 < lenN bs /\ forall rest, Message.decode_message (bs ++ rest) = (Ok m, rest) /\
    streaming_on Message.decode_message (bs ++ rest)) bss ms.

Lemma recv_loop_in_order bss ms fuel recver hs :
  on_the_wire bss ms -> Reader.pending recver = concat bss -> stream_end (Reader.stream recver) = None ->
  (length (Reader.pending recver) < fuel)%nat ->
  recv_loop fuel recver hs = Some (dispatch_all ms hs).
Proof.
  intros Hw. revert fuel recver hs. induction Hw as [|bs m bss ms [Hne Hbs] Hw IH];
    intros [|fuel] recver hs Hp He Hl; [lia| |lia|]; simpl.
  - assert (Hs : streaming_on Message.decode_message []).
    { intros b s Hbs. apply app_eq_nil in Hbs as [-> _]. split; [done|]. intros s' Hs'.
      assert (s' = []) as ->; [|done]. destruct s'; [done|]. rewrite lenN_cons in Hs'. lia. }
    pose proof (decode_refines Message.decode_message [] Hs recver Hp) as H.
    unfold joined in H. rewrite He in H. unfold decode, Message.Decode_t.
    destruct (Reader.decode Message.decode_message recver) as [o r]. simpl in H.
    injection H as -> _. done.
  - destruct (Hbs (concat bss)) as [Hd Hst].
    destruct (decode_written Message.decode_message m bs (concat bss) recver Hst Hd Hp) as (r & Hr & Hrp).
    unfold decode, Message.Decode_t. rewrite Hr.
    destruct (dispatch m hs) as [[u|e|] hs']; [|done|done].
    apply IH; [done| |].
    + pose proof (decode_frugal Message.decode_message _ (eq_ind_r _ Hst Hp) recver eq_refl) as
        (used & Hu & _). rewrite Hr in Hu. simpl in Hu. rewrite Hu in He. clear -He.
      induction used as [|[]]; simpl in He; [done|auto|done].
    + rewrite Hrp. rewrite Hp in Hl. simpl in Hl. rewrite length_app in Hl. unfold lenN in Hne. lia.
Qed.

(** Without a cut every message is read from the bytes at hand. *)
Lemma recv_loop_at_hand bss ms fuel hs :
  Forall2 (fun bs m => 0 < lenN bs /\ forall rest, Message.decode_message (bs ++ rest) = (Ok m, rest)) bss ms ->
  (length (concat bss) < fuel)%nat ->
  recv_loop fuel (Reader.mk [] (concat bss)) hs = Some (dispatch_all ms hs).
Proof.
  intros Hw. revert fuel hs. induction Hw as [|bs m bss ms [Hne Hbs] Hw IH]; intros [|fuel] hs Hl;
    [lia|done|lia|].
  cbn [concat recv_loop]. unfold Reader.decode, Reader.attempt, decode, Message.Decode_t.
  cbn [Reader.stream Reader.buffer]. rewrite Hbs.
  cbn [dispatch_all]. destruct (dispatch m hs) as [[u|e|] hs']; [|done|done].
  apply IH. simpl in Hl. rewrite length_app in Hl. unfold lenN in Hne. lia.
Qed.

Lemma recv_loop_one_read bytes fuel hs :
  recv_loop fuel (Reader.new [Data bytes]) hs = recv_loop fuel (Reader.mk [] bytes) hs.
Proof.
  assert (E : Reader.decode Message.decode_message (Reader.new [Data bytes]) =
    Reader.decode Message.decode_message (Reader.mk [] bytes)).
  { assert (H0 : Message.decode_message [] = (Err (DecodeErr.More 1), [])) by reflexivity.
    destruct bytes as [|b bytes]; [done|].
    unfold Reader.decode, Reader.attempt at 1. cbn [Reader.stream Reader.buffer Reader.new Reader.fill app].
    rewrite H0. change (lenN [] + 1) with 1.
    destruct (N.leb_spec 1 (lenN (b :: bytes))) as [_|Hl]; [done|]. rewrite lenN_cons in Hl. lia. }
  destruct fuel as [|fuel]; [done|]. cbn [recv_loop]. unfold decode, Message.Decode_t. by rewrite E.
Qed.

End RecvLemmas.

(** What a message on the wire is for the peer that reads it, and that it may be cut. *)
Definition reads (bs : list byte) (m : Message.t) : Prop :=
  0 < lenN bs /\ forall rest, Message.decode_message (bs ++ rest) = (Ok m, rest).

Definition cuttable (bs : list byte) : Prop :=
  forall rest, streaming_on Message.decode_message (bs ++ rest).

Lemma written_message `{Runtime} m m' w w' :
  Message.received m = Some m' -> Message.encode_message m w = (Ok tt, w') ->
  exists bs, w' = wapp w bs /\ reads bs m' /\ (Message.fragmentable m = true -> cuttable bs).
Proof.
  intros Hr E. destruct (received_message _ _ _ _ Hr E) as (bs & Hw & Hbs). exists bs. split; [done|]. split.
  - split; [|done]. specialize (Hbs []). apply (decode_consumes (A:=Message.t)) in Hbs.
    rewrite app_nil_r, lenN_nil in Hbs. lia.
  - intros Hf. destruct (Message.fragmentable_message _ _ _ _ Hr Hf E) as (bs' & Hw' & Hbs').
    assert (bs' = bs) as ->; [|intros rest; apply Hbs'].
    rewrite Hw in Hw'. apply (f_equal wdata) in Hw'. simpl in Hw'. by apply app_inv_head in Hw'.
Qed.

(** Messages written to a stream are on the wire. *)
Lemma write_all_on_the_wire `{Runtime} (ms ms' : list Message.t) (w w' : Writer.t) (bytes : list byte) :
  write_all ms w = (Some (Ok tt), w') ->
  Forall2 (fun m m' => Message.received m = Some m') ms ms' ->
  sent (Writer.stream w') = sent (Writer.stream w) ++ bytes ->
  exists bss, Forall2 reads bss ms' /\ bytes = concat bss /\
    (Forall (fun m => Message.fragmentable m = true) ms -> on_the_wire bss ms').
Proof.
  intros Hw Hms. revert w w' Hw bytes.
  induction Hms as [|m m' ms ms' Hr Hms IH]; intros w w' Hw bytes Hs; simpl in Hw.
  - simplify_eq. apply (f_equal length) in Hs. rewrite length_app in Hs.
    exists []. split; [constructor|]. split; [|constructor]. destruct bytes; [done|simpl in Hs; lia].
  - unfold Writer.encode in Hw.
    destruct (encode m Writer.cleared) as [[[]|e|] wb] eqn:Em; simplify_eq.
    destruct (Writer.drain _ _ _) as [[[[]|e|]|] w1] eqn:Ed; simplify_eq. apply drain_Ok in Ed.
    apply (written_message _ _ _ _ Hr) in Em as (bs & -> & Hbs & Hcut).
    pose proof (write_all_prefix _ _ _ Hw) as [k Hk]. rewrite Hk, Ed, <- app_assoc in Hs.
    apply app_inv_head in Hs. simpl in Hs.
    destruct (IH w1 w' Hw k Hk) as (bss & Hb & Hc & Hwire). exists (bs :: bss).
    split; [by constructor|]. split; [simpl; by rewrite <- Hs, Hc|].
    intros HF. inversion_clear HF as [|? ? Hf Hfs]. destruct Hbs as [Hne Hd].
    constructor; [|by apply Hwire]. split; [done|]. intros rest. split; [apply Hd|by apply Hcut].
Qed.

(** Runs of failures among the streams of a session. *)
Definition failed (res : outcome SessionError unit) : bool :=
  match res with Err _ => true | _ => false end.

Definition has_window (l : list bool) : Prop :=
  exists pre post, l = pre ++ replicate 50 true ++ post.

Lemma no_short_window (n : nat) : (n < 50)%nat -> ~ has_window (replicate n true).
Proof.
  intros Hn (pre & post & E). apply (f_equal length) in E.
  rewrite !length_app, !length_replicate in E. lia.
Qed.

Lemma window_reset (n : nat) l :
  (n < 50)%nat -> has_window (replicate n true ++ false :: l) <-> has_window l.
Proof.
  intros Hn. split; intros (pre & post & E).
  - destruct (decide (length pre <= n)%nat) as [Hp|Hp].
    + apply (f_equal (fun l => l !! n)) in E.
      rewrite lookup_app_r, length_replicate, Nat.sub_diag in E by (by rewrite length_replicate).
      rewrite lookup_app_r, lookup_app_l in E by (rewrite ?length_replicate; lia).
      rewrite lookup_replicate_2 in E by lia. done.
    + exists (drop (S n) pre), post. apply (f_equal (drop (S n))) in E.
      rewrite (drop_app_le pre) in E by lia. rewrite <- E.
      change (false :: l) with ([false] ++ l).
      rewrite app_assoc, drop_app_length' by (rewrite length_app, length_replicate; simpl; lia). done.
  - exists (replicate n true ++ false :: pre), post. by rewrite E, <- app_assoc.
Qed.

Lemma streams_loop_window (rs : list (outcome SessionError unit)) (n : nat) :
  (n < 50)%nat -> Forall (fun r => r <> Panic) rs ->
  (has_window (replicate n true ++ map failed rs) ->
    Session.streams_loop true (N.of_nat n) (map Session.Served rs) =
      Some (Err (SessionErr.Serve ServeErr.Done))) /\
  (~ has_window (replicate n true ++ map failed rs) ->
    Session.streams_loop true (N.of_nat n) (map Session.Served rs) = None).
Proof.
  intros Hn Hp. revert n Hn. induction Hp as [|r rs Hr Hp IH]; intros n Hn.
  { rewrite app_nil_r. split; [|done]. intros Hw. by destruct (no_short_window n). }
  destruct r as [u|e|]; [| |done]; simpl.
  - rewrite (window_reset n (map failed rs) Hn). by apply (IH 0%nat); [lia].
  - assert (Hs : replicate n true ++ true :: map failed rs = replicate (S n) true ++ map failed rs).
    { by rewrite replicate_S_end, <- app_assoc. }
    rewrite Hs. unfold Session.MAX_CONSECUTIVE_ERRORS. destruct (N.leb_spec 50 (N.of_nat n + 1)) as [Hc|Hc].
    + split; [done|]. intros Hw. destruct Hw. exists [], (map failed rs).
      by replace (S n) with 50%nat by lia.
    + replace (N.of_nat n + 1) with (N.of_nat (S n)) by lia. apply IH. lia.
Qed.

(** ** Properties *)

(** C6 (functional, refinement). The handshake, end to end. When the client's
    SETUP goes out, a server that reads it in any pieces negotiates its role: two
    pure publishers or two pure subscribers are refused; otherwise, once its own
    SETUP is out and read in any pieces by the client, both sides have a session
    with compatible roles, one publishing where the other subscribes, each
    within the role it asked for, and nothing is left unread on the control
    stream. *)
Theorem handshake_compatible `{Runtime} (own_c own_s : Role.t) (c_send s_send : send_stream)
    (c_recv s_recv : recv_stream) (cw : Writer.t) :
  Session.send (Client.mk Session.versions own_c Params.new) (Writer.new c_send) = Some (Ok cw) ->
  sent (Writer.stream cw) = sent c_send ++ received_bytes s_recv ->
  match downgrade_role own_c own_s with
  | Ok r_s =>
      forall sw,
      Session.send (Server.mk Version.DRAFT_07 r_s Params.new) (Writer.new s_send) = Some (Ok sw) ->
      sent (Writer.stream sw) = sent s_send ++ received_bytes c_recv ->
      exists r_c c_reader s_reader,
        Session.accept_role (Ok (s_send, s_recv)) own_s = Some (Ok (Session.new sw s_reader r_s)) /\
        Session.connect_role (Ok (c_send, c_recv)) own_c = Some (Ok (Session.new cw c_reader r_c)) /\
        Role.is_compatible r_c r_s = true /\
        (Role.is_publisher r_c = true -> Role.is_publisher own_c = true) /\
        (Role.is_subscriber r_c = true -> Role.is_subscriber own_c = true) /\
        (Role.is_publisher r_s = true -> Role.is_publisher own_s = true) /\
        (Role.is_subscriber r_s = true -> Role.is_subscriber own_s = true) /\
        Reader.pending c_reader = [] /\ Reader.pending s_reader = []
  | Err e =>
      own_c = own_s /\ own_c <> Role.Both /\
      Session.accept_role (Ok (s_send, s_recv)) own_s = Some (Err e)
  | Panic => False
  end.
Proof.
  intros Hc Hcs. destruct (recv_client _ _ _ s_recv Hc Hcs) as (sr & Hsr & Hsp).
  assert (Ha : Session.accept_role (Ok (s_send, s_recv)) own_s =
    Session.try (Some (downgrade_role own_c own_s)) (fun role =>
      Session.try (Session.send (Server.mk Version.DRAFT_07 role Params.new) (Writer.new s_send))
        (fun sender => Some (Ok (Session.new sender sr role))))).
  { unfold Session.accept_role. cbn [Session.try snd fst]. rewrite Hsr. cbn [Session.try Client.versions].
    destruct (bool_decide_reflect (Version.DRAFT_07 ∈ Versions.deref Session.versions)) as [_|Hn];
      [done|]. destruct Hn. by apply list_elem_of_here. }
  rewrite Ha. clear Ha Hsr Hcs.
  assert (Hgo : forall r_s r_c, downgrade_role own_c own_s = Ok r_s -> downgrade_role r_s own_c = Ok r_c ->
    forall sw,
      Session.send (Server.mk Version.DRAFT_07 r_s Params.new) (Writer.new s_send) = Some (Ok sw) ->
      sent (Writer.stream sw) = sent s_send ++ received_bytes c_recv ->
      exists c_reader, Reader.pending c_reader = [] /\
        Session.connect_role (Ok (c_send, c_recv)) own_c = Some (Ok (Session.new cw c_reader r_c))).
  { intros r_s r_c _ Hr sw Hs Hsc. destruct (recv_server _ _ _ c_recv Hs Hsc) as (cr & Hcr & Hcp).
    exists cr. split; [done|]. unfold Session.connect_role. cbn [Session.try snd fst].
    rewrite Hc. cbn [Session.try]. rewrite Hcr. cbn [Session.try Server.role]. by rewrite Hr. }
  destruct own_c, own_s; simpl; (try by repeat split); intros sw Hs Hsc;
    (edestruct (Hgo _ _ eq_refl eq_refl sw Hs Hsc) as (cr & Hcp & Hcr));
    (eexists _, cr, sr; rewrite Hs; split; [done|]; split; [exact Hcr|]; repeat split; done).
Qed.

(** A transport that accepts 100 bytes at a time, and one that accepts 7. *)
Definition demo_send (n : N) : send_stream :=
  fresh_stream (replicate 20 (Accept n)) FinSent true.

Definition demo_client_hello : recv_stream :=
  [Data (take 5 sample_client_bytes); Data (drop 5 sample_client_bytes)].

Definition demo_server_hello : recv_stream :=
  [Data [x40; x41; x0c; xc0; x00; x00]; Data [x00; xff; x00; x00; x07; x01; x00; x01; x01]].

Lemma handshake_compatible_witness :
  exists cw sw c_reader s_reader,
    Session.accept_role (H:=std_runtime) (Ok (demo_send 7, demo_client_hello)) Role.Publisher =
      Some (Ok (Session.new sw s_reader Role.Publisher)) /\
    Session.connect_role (H:=std_runtime) (Ok (demo_send 100, demo_server_hello)) Role.Both =
      Some (Ok (Session.new cw c_reader Role.Subscriber)).
Proof.
  set (cw := snd (Writer.encode (H:=Client.Encode_t (H:=std_runtime))
    (Client.mk Session.versions Role.Both Params.new) (Writer.new (demo_send 100)))).
  set (sw := snd (Writer.encode (H:=Server.Encode_t (H:=std_runtime))
    (Server.mk Version.DRAFT_07 Role.Publisher Params.new) (Writer.new (demo_send 7)))).
  assert (Hc : Session.send (H:=Client.Encode_t (H:=std_runtime))
    (Client.mk Session.versions Role.Both Params.new) (Writer.new (demo_send 100)) = Some (Ok cw))
    by (vm_compute; reflexivity).
  assert (Hs : Session.send (H:=Server.Encode_t (H:=std_runtime))
    (Server.mk Version.DRAFT_07 Role.Publisher Params.new) (Writer.new (demo_send 7)) = Some (Ok sw))
    by (vm_compute; reflexivity).
  assert (Hcs : sent (Writer.stream cw) = sent (demo_send 100) ++ received_bytes demo_client_hello)
    by (vm_compute; reflexivity).
  assert (Hsc : sent (Writer.stream sw) = sent (demo_send 7) ++ received_bytes demo_server_hello)
    by (vm_compute; reflexivity).
  destruct (handshake_compatible (H:=std_runtime) Role.Both Role.Publisher (demo_send 100) (demo_send 7)
    demo_server_hello demo_client_hello cw Hc Hcs sw Hs Hsc) as (r_c & cr & sr & Ha & Hk & Hr & _).
  exists cw, sw, cr, sr. split; [exact Ha|]. destruct r_c; [discriminate Hr|exact Hk|discriminate Hr].
Defined.

(** Whatever the peer sends and whatever the two halves do
    with it, the receiving loop comes to an end once the stream has ended, always
    with an error or a panic, never by running out of turns. *)
Theorem run_recv_terminates {Pub Sub} (publisher_recv : Subscriber.t -> Pub -> outcome SessionError unit * Pub)
    (subscriber_recv : Publisher.t -> Sub -> outcome SessionError unit * Sub)
    (recver : Reader.t) (hs : Session.halves) :
  exists r hs', Session.run_recv publisher_recv subscriber_recv recver hs = Some (r, hs') /\
    r <> Ok tt.
Proof.
  unfold Session.run_recv. destruct (recv_loop_fuel publisher_recv subscriber_recv
    (S (length (Reader.pending recver))) recver hs) as [[r hs'] E]; [lia|].
  exists r, hs'. split; [done|]. revert E. generalize (S (length (Reader.pending recver))) as fuel.
  intros fuel. revert recver hs. induction fuel as [|fuel IH]; intros recver hs E; [done|]. simpl in E.
  destruct (Reader.decode decode recver) as [[m|e|] r1]; [|by simplify_eq|by simplify_eq].
  destruct (Session.dispatch _ _ m hs) as [[[]|e|] hs1]; [by eapply IH|by simplify_eq|by simplify_eq].
Qed.

(** C7 (functional). The control stream end to end, for messages the peer has a view
    of ([Message.received]): written one after the other, they reach the halves in
    the order they were written, each handled before the next is read; the first
    message that cannot be handled ends the loop with its error, and the end of the
    stream is a decode error. This holds in any fragmentation if all of them are
    [fragmentable], which leaves out SUBSCRIBE and SUBSCRIBE_UPDATE with absolute
    positions; with such messages it holds when the bytes arrive in one read, while
    a cut in one of them can end the session ([absolute_subscribe_cut]). *)
Theorem control_stream_in_order `{Runtime} {Pub Sub}
    (publisher_recv : Subscriber.t -> Pub -> outcome SessionError unit * Pub)
    (subscriber_recv : Publisher.t -> Sub -> outcome SessionError unit * Sub)
    (ms ms' : list Message.t) (w w' : Writer.t) (s : recv_stream) (hs : Session.halves) :
  write_all ms w = (Some (Ok tt), w') ->
  Forall2 (fun m m' => Message.received m = Some m') ms ms' ->
  sent (Writer.stream w') = sent (Writer.stream w) ++ received_bytes s -> stream_end s = None ->
  Forall (fun m => Message.fragmentable m = true) ms \/ (exists bytes, s = [Data bytes]) ->
  Session.run_recv publisher_recv subscriber_recv (Reader.new s) hs =
    Some (dispatch_all publisher_recv subscriber_recv ms' hs).
Proof.
  intros Hw Hms Hs He Hcut.
  destruct (write_all_on_the_wire _ _ _ _ _ Hw Hms Hs) as (bss & Hb & Hr & Hwire).
  destruct Hcut as [Hf|[bytes ->]].
  - apply (recv_loop_in_order _ _ bss); [by apply Hwire|done|done|lia].
  - unfold Session.run_recv. rewrite recv_loop_one_read. simpl in Hr. rewrite app_nil_r in Hr. subst bytes.
    apply recv_loop_at_hand; [done|]. unfold Reader.pending. simpl. rewrite app_nil_r. lia.
Qed.

(** The SUBSCRIBE for an absolute range, cut where its positions are due. *)
Lemma absolute_subscribe_cut :
  let m := Message.Subscribe sample_subscribe in
  let bytes := wdata (snd (Message.encode_message (H:=std_runtime) m Writer.cleared)) in
  let run s := Session.run_recv (fun _ (log : unit) => (Ok tt, log)) (fun _ (log : unit) => (Ok tt, log))
    (Reader.new s) (Some tt, Some tt) in
  Message.received m = Some m /\
  run [Data bytes] = Some (Err (SessionErr.Decode (DecodeErr.More 1)), (Some tt, Some tt)) /\
  run [Data (take 12 bytes); Data (drop 12 bytes)] =
    Some (Err (SessionErr.Decode DecodeErr.MissingField), (Some tt, Some tt)).
Proof. split; [reflexivity|]. split; vm_compute; reflexivity. Qed.

(** A half that records what it is given. *)
Definition record {M} (m : M) (log : list M) : outcome SessionError unit * list M := (Ok tt, log ++ [m]).

Definition demo_messages : list Message.t :=
  [Message.Unsubscribe (Unsubscribe.mk 7);
   Message.Unannounce (Unannounce.mk (Tuple.mk [TupleField.mk [x61]]));
   Message.FetchCancel (FetchCancel.mk 9)].

Lemma control_stream_in_order_witness :
  let bytes := [x0a; x01; x07; x09; x03; x01; x01; x61; x17; x01; x09] in
  let s := [Data (take 4 bytes); Data (drop 4 bytes)] in
  Session.run_recv record record (Reader.new s) (Some [], Some []) =
    Some (Err (SessionErr.Decode (DecodeErr.More 1)),
      (Some [Subscriber.Unsubscribe (Unsubscribe.mk 7); Subscriber.FetchCancel (FetchCancel.mk 9)],
       Some [Publisher.Unannounce (Unannounce.mk (Tuple.mk [TupleField.mk [x61]]))])).
Proof.
  cbv zeta. set (w := Writer.new (demo_send 100)).
  assert (Hw : write_all (H:=Message.Encode_t (H:=std_runtime)) demo_messages w =
    (Some (Ok tt), snd (write_all (H:=Message.Encode_t (H:=std_runtime)) demo_messages w)))
    by (vm_compute; reflexivity).
  refine (control_stream_in_order (H:=std_runtime) record record demo_messages demo_messages w _ _
    (Some [], Some []) Hw _ _ _ (or_introl _)).
  - repeat constructor.
  - vm_compute. reflexivity.
  - reflexivity.
  - repeat constructor.
Defined.

(** Routing one message: a publisher's message goes to
    the subscriber half and a subscriber's to the publisher half, the other half
    untouched; a missing half is a role violation; GOAWAY panics. *)
Theorem dispatch_routes {Pub Sub} (publisher_recv : Subscriber.t -> Pub -> outcome SessionError unit * Pub)
    (subscriber_recv : Publisher.t -> Sub -> outcome SessionError unit * Sub)
    (m : Message.t) (hs : Session.halves) :
  Session.dispatch publisher_recv subscriber_recv m hs =
    match Publisher.try_from m, Subscriber.try_from m, hs with
    | inl p, _, (pub, Some sub) =>
        (fst (subscriber_recv p sub), (pub, Some (snd (subscriber_recv p sub))))
    | inl _, _, (_, None) => (Err SessionErr.RoleViolation, hs)
    | inr _, inl s, (Some pub, sub) =>
        (fst (publisher_recv s pub), (Some (snd (publisher_recv s pub)), sub))
    | inr _, inl _, (None, _) => (Err SessionErr.RoleViolation, hs)
    | inr _, inr _, _ => (Panic, hs)
    end.
Proof.
  destruct hs as [pub sub]. unfold Session.dispatch.
  destruct m; simpl; try done; destruct pub; destruct sub; simpl;
    try done; by destruct (_ _ _).
Qed.

(** The guard against error loops: as long as streams keep being
    accepted, the session gives up with [Done] exactly when 50 streams in a row
    have failed, any success in between starting the count afresh, and otherwise
    goes on accepting. *)
Theorem streams_error_limit (rs : list (outcome SessionError unit)) :
  Forall (fun r => r <> Panic) rs ->
  (has_window (map failed rs) ->
    Session.run_streams true (map Session.Served rs) = Some (Err (SessionErr.Serve ServeErr.Done))) /\
  (~ has_window (map failed rs) -> Session.run_streams true (map Session.Served rs) = None).
Proof. intros Hp. apply (streams_loop_window rs 0); [lia|done]. Qed.

Lemma streams_error_limit_witness :
  Session.run_streams true (map Session.Served (replicate 49 (Err SessionErr.Closed) ++ [Ok tt] ++
    replicate 50 (Err SessionErr.Closed))) = Some (Err (SessionErr.Serve ServeErr.Done)).
Proof.
  refine (proj1 (streams_error_limit (replicate 49 (Err SessionErr.Closed) ++ [Ok tt] ++
    replicate 50 (Err SessionErr.Closed)) _) _).
  - by repeat constructor.
  - exists (replicate 49 true ++ [false]), []. reflexivity.
Defined.
