(* ===== verification/Serve.v ===== *)
(** * Shared ground of the track cache

    [moq-transport/src/serve/]: a track is published by a writer and read by any
    number of readers, at every level (track, group, object) through a [State]
    with two halves, the writer's and the readers'. This file holds what the
    levels share: heaps of cells and handles into them, how a writer closes its
    half with an error, and how a reader looks for the next entry. *)
From Stdlib Require Import NArith Lia Bool.
From stdpp Require Import base list gmap option numbers.
From S2P Require Import Prelude Buffers Utf8 Coding Setup Errors Watch.

(** ** [serve/track.rs]: what identifies a track *)

Module Track.
Record t := mk { namespace : Tuple.t; name : String }.
Definition new (namespace : Tuple.t) (name : String) : t := mk namespace name.
End Track.

(** ** Heaps of cells

    The values behind the mutexes refer to one another: the state of a group
    lists readers of its objects. A handle ([State<T>]) is the location of a cell
    with the half of it the handle belongs to. *)
Record Handle := { loc : nat; half : State }.

#[export] Instance Handle_eq_dec : EqDecision Handle.
Proof. solve_decision. Defined.

Section Arena.
Context {T : Type}.

Record Arena := {
  cells : nat -> Cell T;
  next_cell : nat;
}.

(** What is at a location nobody has allocated is never looked at. *)
Definition arena_new (initial : T) : Arena :=
  {| cells := fun _ => snd (state_new initial); next_cell := 0 |}.

Definition put (l : nat) (c : Cell T) (a : Arena) : Arena :=
  {| cells := fun k => if decide (k = l) then c else cells a k; next_cell := next_cell a |}.

Definition cell_of (h : Handle) (a : Arena) : Cell T := cells a (loc h).

Definition on_cell {R} (h : Handle) (f : Cell T -> R * Cell T) (a : Arena) : R * Arena :=
  let (r, c) := f (cell_of h a) in (r, put (loc h) c a).

(** [State::default().split()] *)
Definition default_split (initial : T) (a : Arena) : (Handle * Handle) * Arena :=
  let (h, c) := state_new initial in
  let '((writer, reader), c) := split h c in
  (({| loc := next_cell a; half := writer |}, {| loc := next_cell a; half := reader |}),
   {| cells := cells (put (next_cell a) c a); next_cell := S (next_cell a) |}).

Definition clone_handle (h : Handle) (a : Arena) : Handle * Arena :=
  let (_, a) := on_cell h (clone (half h)) a in (h, a).

(** Dropping a handle. With the last handle of all, the value goes too: the
    caller drops what it owns. *)
Definition drop_handle (h : Handle) (a : Arena) : option T * Arena :=
  let c := drop_state (half h) (cell_of h a) in
  (if decide (drops c = ∅) then Some (lock c) else None, put (loc h) c a).

Lemma cell_put_eq h c a : cell_of h (put (loc h) c a) = c.
Proof. unfold cell_of, put. simpl. by rewrite decide_True. Qed.

Lemma cell_put_ne h l c a : loc h <> l -> cell_of h (put l c a) = cell_of h a.
Proof. intros. unfold cell_of, put. simpl. by rewrite decide_False. Qed.
End Arena.
Arguments Arena : clear implicits.
#[global] Arguments put : simpl never.
#[global] Arguments cell_of : simpl never.

(** ** Closing

    Every state of the cache has a field [closed: Result<(), ServeError>], here
    [None] for [Ok(())]. *)
Class Closable (T : Type) := {
  closed : T -> option ServeError;
  set_closed : option ServeError -> T -> T;
  closed_set : forall r s, closed (set_closed r s) = r;
}.

(** A turn of a reader's loop, one critical section: it returns, or it takes a
    future for the next change and starts over once that is ready. *)
Inductive turn (A : Type) :=
  | Return (r : outcome ServeError A)
  | Wait (since : N).
Arguments Return {A} r.
Arguments Wait {A} since.

Section Close.
Context {T} `{Closable T}.

(** The body all the writers' [close] share. *)
Definition close_cell (err : ServeError) (c : Cell T) : outcome ServeError unit * Cell T :=
  match closed (lock c) with
  | Some e => (Err e, c)
  | None =>
      match with_mut (fun s => (tt, set_closed (Some err) s)) c with
      | (Some _, c) => (Ok tt, c)
      | (None, c) => (Err ServeErr.Cancel, c)
      end
  end.

(** The end of each turn, when there is nothing new. *)
Definition idle {A} (c : Cell T) (done : outcome ServeError A) : turn A :=
  match closed (lock c) with
  | Some e => Return (Err e)
  | None =>
      match modified c with
      | Some since => Wait since
      | None => Return done
      end
  end.

(** A state that is a growing list of entries, read at an index of the
    reader's own. *)
Definition log_turn {A} (entries : T -> list A) (index : N) (c : Cell T) : turn (option A) * N :=
  match entries (lock c) !! N.to_nat index with
  | Some x => (Return (Ok (Some x)), index + 1)
  | None => (idle c (Ok None), index)
  end.

(** ** Lemmas *)

Lemma close_cell_spec err (c : Cell T) :
  close_cell err c =
  match closed (lock c), dropped (inner c) with
  | Some e, _ => (Err e, c)
  | None, None => (Err ServeErr.Cancel, c)
  | None, Some _ =>
      (Ok tt, run_notify (set_inner (set_value (set_closed (Some err) (lock c)) (inner c)) c))
  end.
Proof. unfold close_cell, with_mut. by destruct (closed (lock c)), (dropped (inner c)). Qed.

Lemma idle_Ok_None {A} (c : Cell T) (done : outcome ServeError A) r :
  idle c done = Return (Ok r) -> closed (lock c) = None /\ dropped (inner c) = None /\ done = Ok r.
Proof.
  unfold idle, modified. destruct (closed (lock c)); [done|].
  destruct (dropped (inner c)); intros; by simplify_eq.
Qed.

Lemma idle_Err {A} (c : Cell T) (done : A) e :
  idle c (Ok done) = Return (Err e) -> closed (lock c) = Some e.
Proof.
  unfold idle, modified. destruct (closed (lock c)); [by intros; simplify_eq|].
  by destruct (dropped (inner c)).
Qed.

Lemma log_turn_Some {A} (entries : T -> list A) index c x :
  fst (log_turn entries index c) = Return (Ok (Some x)) ->
  entries (lock c) !! N.to_nat index = Some x /\ snd (log_turn entries index c) = index + 1.
Proof.
  unfold log_turn. destruct (entries (lock c) !! N.to_nat index) as [y|]; simpl; intros Hr.
  - by simplify_eq.
  - by apply idle_Ok_None in Hr as (_ & _ & ?).
Qed.

Lemma log_turn_None {A} (entries : T -> list A) index c :
  fst (log_turn entries index c) = Return (Ok None) ->
  entries (lock c) !! N.to_nat index = None /\ closed (lock c) = None /\ dropped (inner c) = None /\
  snd (log_turn entries index c) = index.
Proof.
  unfold log_turn. destruct (entries (lock c) !! N.to_nat index) as [y|]; simpl; intros Hr; [done|].
  by apply idle_Ok_None in Hr as (? & ? & _).
Qed.

Lemma log_turn_Err {A} (entries : T -> list A) index c e :
  fst (log_turn entries index c) = Return (Err e) ->
  entries (lock c) !! N.to_nat index = None /\ closed (lock c) = Some e /\
  snd (log_turn entries index c) = index.
Proof.
  unfold log_turn. destruct (entries (lock c) !! N.to_nat index) as [y|]; simpl; intros Hr; [done|].
  by apply idle_Err in Hr.
Qed.
End Close.

(** [lock_mut().ok_or(ServeError::Cancel)?] around a body that cannot fail. *)
Definition mutate {T} (f : T -> T) (c : Cell T) : outcome ServeError unit * Cell T :=
  match with_mut (fun s => (tt, f s)) c with
  | (Some _, c) => (Ok tt, c)
  | (None, c) => (Err ServeErr.Cancel, c)
  end.

Lemma mutate_spec {T} (f : T -> T) (c : Cell T) :
  mutate f c =
  match dropped (inner c) with
  | Some _ => (Ok tt, run_notify (set_inner (set_value (f (lock c)) (inner c)) c))
  | None => (Err ServeErr.Cancel, c)
  end.
Proof. unfold mutate, with_mut. by destruct (dropped (inner c)). Qed.

Lemma mutate_counts {T} (f : T -> T) (c : Cell T) : counts c -> counts (snd (mutate f c)).
Proof.
  intros Hc. apply (counts_mut (fun s => (tt, f s))) in Hc. unfold mutate.
  by destruct (with_mut _ c) as [[]].
Qed.

Lemma counts_new {T} (initial : T) : counts (snd (state_new initial)).
Proof.
  split; simpl.
  - intros h n Hh. apply lookup_singleton_Some in Hh as [<- <-]. lia.
  - split; [done|]. intros (h & Hh & Hn). assert (h = 0%nat) as -> by lia.
    by rewrite lookup_singleton_eq in Hn.
Qed.

Lemma drop_state_lock {T} h (c : Cell T) : lock (drop_state h c) = lock c.
Proof. unfold drop_state. by destruct (drops c !! h) as [[|[|k]]|]. Qed.

Lemma drop_state_last {T} h (c : Cell T) :
  drops c !! h = Some 1%nat -> dropped (inner (drop_state h c)) = None.
Proof. unfold drop_state. by intros ->. Qed.

Lemma drop_state_fresh {T} h (c : Cell T) : fresh_drop (drop_state h c) = fresh_drop c.
Proof. unfold drop_state. by destruct (drops c !! h) as [[|[|k]]|]. Qed.

(** The count of the half goes down, the other halves' stay. *)
Lemma drop_state_self {T} h (c : Cell T) n :
  drops c !! h = Some n -> drops (drop_state h c) !! h =
    match n with S (S n) => Some (S n) | _ => None end.
Proof.
  unfold drop_state. intros Hn. rewrite Hn. destruct n as [|[|n]]; simpl.
  - apply lookup_delete_eq.
  - apply lookup_delete_eq.
  - apply lookup_insert_eq.
Qed.

Lemma drop_state_other {T} h g (c : Cell T) : h <> g -> drops (drop_state h c) !! g = drops c !! g.
Proof.
  intros Hne. unfold drop_state. destruct (drops c !! h) as [[|[|k]]|]; simpl; try done.
  - by apply lookup_delete_ne.
  - by apply lookup_delete_ne.
  - by apply lookup_insert_ne.
Qed.

(** ** What others may do to a cell

    A writer relies on this much: whoever holds the other handles never changes
    the value, and what is shut stays shut. *)
Definition stays {T} (c c' : Cell T) : Prop :=
  lock c' = lock c /\ (dropped (inner c) = None -> dropped (inner c') = None).

#[export] Instance stays_preorder {T} : PreOrder (@stays T).
Proof.
  split; [by intros c|]. intros c1 c2 c3 [H1 H2] [H3 H4]. split; [by rewrite H3|auto].
Qed.

Lemma stays_drop {T} h (c : Cell T) : stays c (drop_state h c).
Proof.
  split; [apply drop_state_lock|]. unfold drop_state. by destruct (drops c !! h) as [[|[|k]]|].
Qed.

Lemma stays_clone {T} h (c : Cell T) : stays c (snd (clone h c)).
Proof. done. Qed.

Lemma stays_poll {T} n w (c : Cell T) : stays c (snd (poll n w c)).
Proof. unfold poll. by destruct (_ <? _). Qed.

(** The same of a heap, for the cell at one location or for all of them. *)
Definition all_stay {T} (a a' : Arena T) : Prop := forall h, stays (cell_of h a) (cell_of h a').

#[export] Instance all_stay_preorder {T} : PreOrder (@all_stay T).
Proof.
  split; [by intros a h|]. intros a1 a2 a3 H1 H2 h. by transitivity (cell_of h a2).
Qed.

Lemma all_stay_put {T} (h : Handle) (c : Cell T) a :
  stays (cell_of h a) c -> all_stay a (put (loc h) c a).
Proof.
  intros Hs g. destruct (decide (loc g = loc h)) as [He|Hne].
  - unfold cell_of in *. rewrite He. unfold put. cbn [cells]. by rewrite decide_True.
  - by rewrite cell_put_ne.
Qed.

Lemma all_stay_clone {T} h (a : Arena T) : all_stay a (snd (clone_handle h a)).
Proof. apply (all_stay_put h), stays_clone. Qed.

Lemma all_stay_drop {T} h (a : Arena T) : all_stay a (snd (drop_handle h a)).
Proof. apply (all_stay_put h), stays_drop. Qed.
