(* ===== verification/Subgroup.v ===== *)
(** * Tracks made of subgroups

    [moq-transport/src/serve/subgroup.rs], from the inside out: an object and its
    chunks, a subgroup and its objects, the subgroups of a track, of which only
    the latest is kept. The [info] fields are shared immutable values; a writer
    or reader is the Rust struct, with its counter. *)
From Stdlib Require Import NArith Lia Bool.
From stdpp Require Import base list gmap option numbers.
From S2P Require Import Prelude Buffers Utf8 Coding Setup Data Errors Watch Serve.

(** ** One object: [SubgroupObject] *)

(** [Subgroup] is what a user gives, [SubgroupInfo] adds the track. *)
Module Subgroup.
Record t := mk { group_id : N; subgroup_id : N; priority : byte }.
End Subgroup.

Module SubgroupInfo.
Record t := mk { track : Track.t; group_id : N; subgroup_id : N; priority : byte }.
End SubgroupInfo.

Module SubgroupObject.
Record t := mk { group : SubgroupInfo.t; object_id : N; size : N; status : ObjectStatus.t }.
End SubgroupObject.

Module SubgroupObjectState.
Record t := mk { chunks : list (list byte); closed : option ServeError }.
Definition default : t := mk [] None.
Definition push (chunk : list byte) (s : t) : t := mk (chunks s ++ [chunk]) (closed s).

#[export] Instance closable : Closable t :=
  {| Serve.closed := closed; set_closed r s := mk (chunks s) r; closed_set r s := eq_refl |}.
End SubgroupObjectState.
Export (hints) SubgroupObjectState.

Module SubgroupObjectWriter.
Record t := mk { state : Handle; info : SubgroupObject.t; remain : N }.

Definition new (state : Handle) (object : SubgroupObject.t) : t :=
  mk state object (SubgroupObject.size object).

(** The bytes are taken off [remain] before the lock can fail. *)
Definition write (chunk : list byte) : M (t * Cell SubgroupObjectState.t) ServeError unit :=
  fun '(self, c) =>
    if remain self <? lenN chunk then (Err ServeErr.Size, (self, c))
    else
      let self := mk (state self) (info self) (remain self - lenN chunk) in
      let (r, c) := mutate (SubgroupObjectState.push chunk) c in (r, (self, c)).

(** The body of [close]; the writer it consumes is dropped next. *)
Definition close (err : ServeError) (self : t) (c : Cell SubgroupObjectState.t) :
    outcome ServeError unit * Cell SubgroupObjectState.t :=
  if negb (remain self =? 0) then (Err ServeErr.Size, c) else close_cell err c.

(** [Drop::drop]; the handle goes after it. *)
Definition drop (self : t) (c : Cell SubgroupObjectState.t) : Cell SubgroupObjectState.t :=
  if remain self =? 0 then c
  else snd (with_mut (fun s => (tt, set_closed (Some ServeErr.Size) s)) c).
End SubgroupObjectWriter.

Module SubgroupObjectReader.
Record t := mk { state : Handle; info : SubgroupObject.t; index : N }.

Definition new (state : Handle) (object : SubgroupObject.t) : t := mk state object 0.

Definition read_turn (self : t) (c : Cell SubgroupObjectState.t) : turn (option (list byte)) * t :=
  let (r, i) := log_turn SubgroupObjectState.chunks (index self) c in
  (r, mk (state self) (info self) i).

(** [read_all], as far as it comes while the cell stays as it is: the chunks
    it has, and where it stopped. *)
Fixpoint read_all (fuel : nat) (chunks : list (list byte)) (self : t)
    (c : Cell SubgroupObjectState.t) : option (turn (list byte) * (list (list byte) * t)) :=
  match fuel with
  | O => None
  | S fuel =>
      match read_turn self c with
      | (Return (Ok (Some chunk)), self) => read_all fuel (chunks ++ [chunk]) self c
      | (Return (Ok None), self) => Some (Return (Ok (concat chunks)), (chunks, self))
      | (Return (Err e), self) => Some (Return (Err e), (chunks, self))
      | (Return Panic, self) => Some (Return Panic, (chunks, self))
      | (Wait since, self) => Some (Wait since, (chunks, self))
      end
  end.

Lemma read_all_run c k : forall fuel self chunks,
  drop (N.to_nat (index self)) (SubgroupObjectState.chunks (lock c)) = k ->
  (length k < fuel)%nat ->
  read_all fuel chunks self c =
    Some (match idle c (Ok ()) with
          | Return (Ok _) => Return (Ok (concat (chunks ++ k)))
          | Return (Err e) => Return (Err e)
          | Return Panic => Return Panic
          | Wait since => Wait since
          end, (chunks ++ k, mk (state self) (info self) (index self + lenN k))).
Proof.
  induction k as [|x k IH]; intros [|fuel] [st inf ix] acc Hd Hf; try (simpl in Hf; lia); simpl in Hd.
  - assert (Hl : SubgroupObjectState.chunks (lock c) !! N.to_nat ix = None).
    { apply lookup_ge_None. rewrite <- (Nat.sub_0_le), <- length_drop, Hd. done. }
    cbn [read_all]. unfold read_turn, log_turn. cbn [index]. rewrite Hl, !app_nil_r, N.add_0_r.
    unfold idle. destruct (Serve.closed (lock c)); [done|]. by destruct (modified c).
  - assert (Hl : SubgroupObjectState.chunks (lock c) !! N.to_nat ix = Some x).
    { rewrite <- (Nat.add_0_r (N.to_nat ix)), <- lookup_drop, Hd. done. }
    cbn [read_all]. unfold read_turn, log_turn. cbn [index state info]. rewrite Hl.
    rewrite IH; [|simpl|simpl in Hf; lia].
    + cbn [state info index]. rewrite <- (app_assoc acc). cbn [app]. by rewrite lenN_cons, N.add_assoc.
    + rewrite N2Nat.inj_add, <- drop_drop, Hd. done.
Qed.
End SubgroupObjectReader.

(** ** One object among tasks

    One writer and any number of readers of one object, in any interleaving of
    critical sections. Ghost fields: the chunks [write] accepted, and per reader
    what it has been handed. *)
Module Fanout.

(** How far the writer has come: usable, consumed by [close], through
    [Drop::drop], its handle gone. *)
Inductive phase := Live | Closing | Dropped | Gone.

Record t := mk {
  cell : Cell SubgroupObjectState.t;
  writer : SubgroupObjectWriter.t;
  stage : phase;
  readers : gmap nat (SubgroupObjectReader.t * list (list byte));
  written : list (list byte);
}.

Definition with_cell (c : Cell SubgroupObjectState.t) (s : t) : t :=
  mk c (writer s) (stage s) (readers s) (written s).

Definition with_readers (f : gmap nat (SubgroupObjectReader.t * list (list byte)) ->
    gmap nat (SubgroupObjectReader.t * list (list byte))) (s : t) : t :=
  mk (cell s) (writer s) (stage s) (f (readers s)) (written s).

(** [SubgroupObject::produce] *)
Definition start (object : SubgroupObject.t) : t :=
  let a := arena_new SubgroupObjectState.default in
  let '((w, r), a) := default_split SubgroupObjectState.default a in
  mk (cell_of w a) (SubgroupObjectWriter.new w object) Live
     {[ 0%nat := (SubgroupObjectReader.new r object, []) ]} [].

Definition write (chunk : list byte) (s : t) : t :=
  let '(r, (w, c)) := SubgroupObjectWriter.write chunk (writer s, cell s) in
  mk c w (stage s) (readers s) (written s ++ match r with Ok _ => [chunk] | _ => [] end).

Definition close (err : ServeError) (s : t) : t :=
  mk (snd (SubgroupObjectWriter.close err (writer s) (cell s))) (writer s) Closing
     (readers s) (written s).

Definition drop (s : t) : t :=
  mk (SubgroupObjectWriter.drop (writer s) (cell s)) (writer s) Dropped (readers s) (written s).

Definition release (s : t) : t :=
  mk (drop_state (half (SubgroupObjectWriter.state (writer s))) (cell s)) (writer s) Gone
     (readers s) (written s).

Definition read (k : nat) (r : SubgroupObjectReader.t) (got : list (list byte)) (s : t) : t :=
  let (res, r) := SubgroupObjectReader.read_turn r (cell s) in
  with_readers <[k := (r, got ++ match res with Return (Ok (Some x)) => [x] | _ => [] end)]> s.

Definition clone (k : nat) (r : SubgroupObjectReader.t) (got : list (list byte)) (s : t) : t :=
  with_readers <[k := (r, got)]>
    (with_cell (snd (Watch.clone (half (SubgroupObjectReader.state r)) (cell s))) s).

Definition drop_reader (k : nat) (r : SubgroupObjectReader.t) (s : t) : t :=
  with_readers (delete k)
    (with_cell (drop_state (half (SubgroupObjectReader.state r)) (cell s)) s).

Inductive step : t -> t -> Prop :=
  | do_write s chunk : stage s = Live -> step s (write chunk s)
  | do_close s err : stage s = Live -> step s (close err s)
  | do_drop s : stage s = Live \/ stage s = Closing -> step s (drop s)
  | do_release s : stage s = Dropped -> step s (release s)
  | do_read s k r got : readers s !! k = Some (r, got) -> step s (read k r got s)
  | do_clone s k r got k' :
      readers s !! k = Some (r, got) -> readers s !! k' = None -> step s (clone k' r got s)
  | do_drop_reader s k r got : readers s !! k = Some (r, got) -> step s (drop_reader k r s)
  | do_poll s since w : step s (with_cell (snd (poll since w (cell s))) s).

(** What a reader holds: the chunks below its index. *)
Definition holds (chunks : list (list byte)) (p : SubgroupObjectReader.t * list (list byte)) : Prop :=
  half (SubgroupObjectReader.state p.1) = 1%nat /\
  (N.to_nat (SubgroupObjectReader.index p.1) <= length chunks)%nat /\
  p.2 = take (N.to_nat (SubgroupObjectReader.index p.1)) chunks.

(** Half 0 of the cell is the writer's, half 1 the readers'. *)
Record inv (object : SubgroupObject.t) (s : t) : Prop := {
  inv_info : half (SubgroupObjectWriter.state (writer s)) = 0%nat;
  inv_written : SubgroupObjectState.chunks (lock (cell s)) = written s;
  inv_size : readers s <> ∅ ->
    lenN (concat (written s)) + SubgroupObjectWriter.remain (writer s) = SubgroupObject.size object;
  inv_open : closed (lock (cell s)) <> None -> stage s <> Live;
  inv_closed : forall e, closed (lock (cell s)) = Some e ->
    e = ServeErr.Size \/ SubgroupObjectWriter.remain (writer s) = 0;
  inv_done : stage s = Dropped \/ stage s = Gone -> readers s <> ∅ ->
    closed (lock (cell s)) = None -> SubgroupObjectWriter.remain (writer s) = 0;
  inv_writers : drops (cell s) !! 0%nat = match stage s with Gone => None | _ => Some 1%nat end;
  inv_readers : drops (cell s) !! 1%nat =
    (if decide (readers s = ∅) then None else Some (size (readers s)));
  inv_fresh : fresh_drop (cell s) = 2%nat;
  inv_counts : counts (cell s);
  inv_holds : forall k p, readers s !! k = Some p -> holds (written s) p;
}.

(** The cell is shut once the writer or all the readers are gone. *)
Lemma inv_dropped object s : inv object s ->
  dropped (inner (cell s)) = None <-> stage s = Gone \/ readers s = ∅.
Proof.
  intros Hi. destruct (inv_counts _ _ Hi) as [_ ->].
  setoid_rewrite (inv_fresh _ _ Hi). pose proof (inv_writers _ _ Hi) as H0.
  pose proof (inv_readers _ _ Hi) as H1. split.
  - intros ([|[|h]] & Hh & Hn); [left|right|lia].
    + rewrite H0 in Hn. by destruct (stage s).
    + rewrite H1 in Hn. by destruct (decide (readers s = ∅)).
  - intros [Hs|Hs].
    + exists 0%nat. rewrite H0, Hs. split; [lia|done].
    + exists 1%nat. rewrite H1, decide_True by done. split; [lia|done].
Qed.

Lemma inv_start object : inv object (start object).
Proof.
  split; simpl; try done.
  - intros [?|?]; done.
  - exact (counts_split 0%nat _ (counts_new SubgroupObjectState.default)).
  - intros k p Hk. apply lookup_singleton_Some in Hk as [<- <-]. split; [done|]. split; [simpl; lia|done].
Qed.

Lemma inv_write object s chunk : inv object s -> stage s = Live -> inv object (write chunk s).
Proof.
  intros Hi Hl. pose proof (inv_dropped _ _ Hi) as Hd. destruct Hi.
  unfold write, SubgroupObjectWriter.write.
  destruct (N.ltb_spec (SubgroupObjectWriter.remain (writer s)) (lenN chunk)) as [Hlt|Hle].
  - split; simpl; rewrite ?app_nil_r; done.
  - rewrite mutate_spec. destruct (dropped (inner (cell s))) eqn:Edr.
    + split; simpl; try done; unfold lock in *; simpl.
      * by rewrite inv_written0.
      * intros Hr. specialize (inv_size0 Hr). rewrite concat_app, lenN_app. simpl.
        rewrite app_nil_r. lia.
      * intros e He. destruct (inv_closed0 e He) as [?|?]; [by left|]. exfalso. apply inv_open0; [|done].
        intros Hn. by pose proof (eq_trans (eq_sym He) Hn).
      * rewrite Hl. by intros [?|?].
      * intros k p Hk. destruct (inv_holds0 k p Hk) as (Hh & Hx & Hg). split; [done|].
        rewrite length_app, take_app_le by done. split; [lia|done].
    + assert (Hre : readers s = ∅) by (destruct Hd as [[Hg|Hg] _]; [done|congruence|done]).
      split; simpl; rewrite ?app_nil_r; try done.
      intros e He. destruct (inv_closed0 e He) as [?|?]; [by left|right; lia].
Qed.

(** Closing the cell with an error, whichever way. *)
Lemma inv_finish object s c' st :
  inv object s -> stage s <> Gone -> st = Closing \/ st = Dropped ->
  drops c' = drops (cell s) -> fresh_drop c' = fresh_drop (cell s) -> counts c' ->
  SubgroupObjectState.chunks (lock c') = SubgroupObjectState.chunks (lock (cell s)) ->
  (forall e, closed (lock c') = Some e ->
     e = ServeErr.Size \/ SubgroupObjectWriter.remain (writer s) = 0) ->
  (st = Dropped -> readers s <> ∅ -> closed (lock c') = None ->
     SubgroupObjectWriter.remain (writer s) = 0) ->
  inv object (mk c' (writer s) st (readers s) (written s)).
Proof.
  intros Hi Hs Hst Hdr Hfr Hc Hch Hcl Hdone. destruct Hi. split; simpl; try done.
  - by rewrite Hch.
  - intros _ ->. by destruct Hst.
  - intros [->| ->]; [by apply Hdone|]. by destruct Hst.
  - rewrite Hdr, inv_writers0. destruct (stage s), Hst; subst; done.
  - by rewrite Hdr.
  - by rewrite Hfr.
Qed.

Lemma inv_close object s err : inv object s -> stage s = Live -> inv object (close err s).
Proof.
  intros Hi Hl. unfold close, SubgroupObjectWriter.close.
  destruct (N.eqb_spec (SubgroupObjectWriter.remain (writer s)) 0) as [Hr|Hr]; simpl.
  - apply inv_finish; auto; rewrite ?Hl; try done.
    all: rewrite close_cell_spec; destruct (closed (lock (cell s))); [try done; apply Hi|];
      destruct (dropped (inner (cell s))); done || apply Hi.
  - apply inv_finish; auto; rewrite ?Hl; try done; apply Hi.
Qed.

Lemma inv_drop object s : inv object s -> stage s = Live \/ stage s = Closing -> inv object (drop s).
Proof.
  intros Hi Hl. unfold drop, SubgroupObjectWriter.drop.
  destruct (N.eqb_spec (SubgroupObjectWriter.remain (writer s)) 0) as [Hr|Hr].
  - apply inv_finish; auto; try apply Hi. by destruct Hl; congruence.
  - apply inv_finish; auto; try by destruct Hl; congruence.
    all: try by unfold with_mut; destruct (dropped (inner (cell s))).
    + apply counts_mut, Hi.
    + unfold with_mut. destruct (dropped (inner (cell s))); simpl; [|apply Hi].
      intros e He. left. by injection He.
    + intros _ Hre. unfold with_mut. destruct (dropped (inner (cell s))) eqn:E; [done|].
      apply (inv_dropped _ _ Hi) in E as [E|E]; [destruct Hl; congruence|done].
Qed.

Lemma inv_release object s : inv object s -> stage s = Dropped -> inv object (release s).
Proof.
  intros Hi Hl. destruct Hi. unfold release.
  split; cbn [cell writer stage readers written]; rewrite ?drop_state_lock; try done.
  - intros [?|_]; [done|]. apply inv_done0. by left.
  - rewrite inv_info0. rewrite Hl in inv_writers0. exact (drop_state_self 0%nat _ _ inv_writers0).
  - rewrite inv_info0. etransitivity; [by apply (drop_state_other 0%nat 1%nat)|done].
  - by rewrite drop_state_fresh.
  - by apply counts_drop.
Qed.

(** Another reader, another index, another handle: the writer's side stays. *)
Lemma inv_read_side object s c' rs :
  inv object s -> lock c' = lock (cell s) -> fresh_drop c' = fresh_drop (cell s) -> counts c' ->
  drops c' !! 0%nat = drops (cell s) !! 0%nat ->
  drops c' !! 1%nat = (if decide (rs = ∅) then None else Some (size rs)) ->
  (rs <> ∅ -> readers s <> ∅) ->
  (forall k p, rs !! k = Some p -> holds (written s) p) ->
  inv object (mk c' (writer s) (stage s) rs (written s)).
Proof.
  intros Hi Hl Hf Hc H0 H1 Hne Hh. destruct Hi.
  split; cbn [cell writer stage readers written]; rewrite ?Hl, ?H0, ?Hf; auto.
Qed.

Lemma inv_read object s k r got :
  inv object s -> readers s !! k = Some (r, got) -> inv object (read k r got s).
Proof.
  intros Hi Hk. pose proof Hi as Hi'. destruct Hi'. unfold read.
  destruct (SubgroupObjectReader.read_turn r (cell s)) as [res r'] eqn:Er.
  apply (inv_read_side object s); auto; simpl.
  - rewrite inv_readers0, !decide_False; [|apply insert_non_empty|intros He; by rewrite He in Hk].
    f_equal. by rewrite map_size_insert_Some by (rewrite Hk; eauto).
  - intros _ He. by rewrite He in Hk.
  - intros j p Hp. apply lookup_insert_Some in Hp as [(_ & <-)|(_ & Hp)]; [|by eapply inv_holds0].
    destruct (inv_holds0 _ _ Hk) as (Hh & Hx & Hg). simpl in Hh, Hx, Hg.
    unfold SubgroupObjectReader.read_turn, log_turn in Er. rewrite inv_written0 in Er.
    destruct (written s !! N.to_nat (SubgroupObjectReader.index r)) as [x|] eqn:El; simplify_eq.
    + split; [done|]. simpl. replace (N.to_nat (SubgroupObjectReader.index r + 1))
        with (S (N.to_nat (SubgroupObjectReader.index r))) by lia.
      split; [by apply lookup_lt_Some in El|]. by erewrite take_S_r.
    + split; [done|]. split; [done|]. cbn [fst snd]. unfold idle.
      destruct (closed (lock (cell s))), (modified (cell s)); by rewrite app_nil_r.
Qed.

Lemma inv_clone object s k r got k' :
  inv object s -> readers s !! k = Some (r, got) -> readers s !! k' = None ->
  inv object (clone k' r got s).
Proof.
  intros Hi Hk Hk'. pose proof Hi as Hi'. destruct Hi'. unfold clone.
  destruct (inv_holds0 _ _ Hk) as (Hh & Hx & Hg). simpl in Hh.
  assert (Hne : readers s <> ∅) by (intros He; by rewrite He in Hk).
  apply (inv_read_side object s); auto; simpl.
  - apply (counts_clone (half (SubgroupObjectReader.state r))). done.
  - rewrite Hh. apply lookup_alter_ne. done.
  - rewrite Hh, decide_False by apply insert_non_empty.
    rewrite map_size_insert_None by done. rewrite decide_False in inv_readers0 by done.
    etransitivity; [apply lookup_alter_eq|]. by rewrite inv_readers0.
  - intros j p Hp. by apply lookup_insert_Some in Hp as [(_ & <-)|(_ & Hp)]; eapply inv_holds0.
Qed.

Lemma inv_drop_reader object s k r got :
  inv object s -> readers s !! k = Some (r, got) -> inv object (drop_reader k r s).
Proof.
  intros Hi Hk. pose proof Hi as Hi'. destruct Hi'. unfold drop_reader.
  destruct (inv_holds0 _ _ Hk) as (Hh & Hx & Hg). simpl in Hh.
  assert (Hne : readers s <> ∅) by (intros He; by rewrite He in Hk).
  rewrite decide_False in inv_readers0 by done.
  assert (Hs : size (delete k (readers s)) = pred (size (readers s)))
    by (apply map_size_delete_Some; eauto).
  assert (Hp : size (readers s) <> 0%nat) by (by rewrite map_size_non_empty_iff).
  apply (inv_read_side object s); auto; simpl; rewrite ?Hh.
  - apply drop_state_lock.
  - apply drop_state_fresh.
  - by apply counts_drop.
  - by apply (drop_state_other 1%nat 0%nat).
  - etransitivity; [exact (drop_state_self 1%nat _ _ inv_readers0)|].
    rewrite Hs. destruct (size (readers s)) as [|[|n]]; [done| |]; simpl in *.
    + rewrite decide_True; [done|]. by apply map_size_empty_iff.
    + rewrite decide_False; [done|]. by apply map_size_non_empty_iff; rewrite Hs.
  - intros j p Hj. apply lookup_delete_Some in Hj as [_ Hj]. by eapply inv_holds0.
Qed.

Lemma step_inv object s s' : inv object s -> step s s' -> inv object s'.
Proof.
  intros Hi. destruct 1.
  - by apply inv_write.
  - by apply inv_close.
  - by apply inv_drop.
  - by apply inv_release.
  - by apply inv_read.
  - by eapply inv_clone.
  - by eapply inv_drop_reader.
  - unfold with_cell. apply (inv_read_side object s); try apply Hi; auto.
    + unfold poll. by destruct (_ <? _).
    + unfold poll. by destruct (_ <? _).
    + pose proof (inv_counts _ _ Hi). unfold poll. by destruct (_ <? _).
    + unfold poll. by destruct (_ <? _).
    + unfold poll. destruct (_ <? _); apply Hi.
Qed.

Lemma reachable_inv object s : star step (start object) s -> inv object s.
Proof.
  apply (star_invariant _ (inv object)); [|apply inv_start]. intros x y. apply step_inv.
Qed.
End Fanout.

(** ** Properties *)

(** C19 (safety, invariant). Fan-out of one object. However its writer and any
    number of cloned readers interleave, each reader is handed the accepted
    chunks in order from the first on, nothing skipped, repeated or invented; it
    is told the object has ended only when it holds all of it and that is as
    many bytes as were promised; and when it gets an error it holds every chunk
    there is, the error being [Size] if bytes are missing. *)
Theorem object_fanout (object : SubgroupObject.t) (s : Fanout.t) (k : nat)
    (r : SubgroupObjectReader.t) (got : list (list byte)) :
  star Fanout.step (Fanout.start object) s -> Fanout.readers s !! k = Some (r, got) ->
  got `prefix_of` Fanout.written s /\
  match fst (SubgroupObjectReader.read_turn r (Fanout.cell s)) with
  | Return (Ok (Some x)) => got ++ [x] `prefix_of` Fanout.written s
  | Return (Ok None) => got = Fanout.written s /\ lenN (concat got) = SubgroupObject.size object
  | Return (Err e) =>
      got = Fanout.written s /\
      (lenN (concat got) <> SubgroupObject.size object -> e = ServeErr.Size)
  | Return Panic => False
  | Wait _ => got = Fanout.written s /\ Fanout.stage s <> Fanout.Gone
  end.
Proof.
  intros Hs Hk. apply Fanout.reachable_inv in Hs as Hi.
  destruct (Fanout.inv_holds _ _ Hi _ _ Hk) as (_ & Hx & Hg).
  simpl in Hx, Hg. subst got. split; [apply prefix_take|].
  assert (Hne : Fanout.readers s <> ∅) by (intros He; by rewrite He in Hk).
  pose proof (Fanout.inv_size _ _ Hi Hne) as Hsz. pose proof (Fanout.inv_dropped _ _ Hi) as Hd.
  unfold SubgroupObjectReader.read_turn, log_turn. cbn [fst snd]. rewrite (Fanout.inv_written _ _ Hi).
  destruct (Fanout.written s !! N.to_nat (SubgroupObjectReader.index r)) as [x|] eqn:El; simpl.
  - erewrite <- take_S_r by done. apply prefix_take.
  - apply lookup_ge_None in El. rewrite take_ge by done. unfold idle, modified.
    destruct (Serve.closed (lock (Fanout.cell s))) as [e|] eqn:Ec; simpl.
    + split; [done|]. intros Hlt. destruct (Fanout.inv_closed _ _ Hi _ Ec); [done|lia].
    + destruct (dropped (inner (Fanout.cell s))) eqn:Edr; simpl.
      * split; [done|]. intros Hg. destruct Hd as [_ Hd]. discriminate (Hd (or_introl Hg)).
      * split; [done|]. destruct Hd as [[Hg|Hg] _]; [done| |done].
        pose proof (Fanout.inv_done _ _ Hi (or_intror Hg) Hne Ec). lia.
Qed.

(** An object of three bytes: written in two chunks and dropped, read once. *)
Definition demo_object : SubgroupObject.t :=
  SubgroupObject.mk (SubgroupInfo.mk (Track.mk (Tuple.mk []) (mk_String [] eq_refl)) 0 0 x00)
    0 3 ObjectStatus.Object.

Definition demo_fanout : Fanout.t :=
  Fanout.drop (Fanout.write [x63] (Fanout.write [x61; x62] (Fanout.start demo_object))).

Definition demo_reader : SubgroupObjectReader.t :=
  SubgroupObjectReader.new {| loc := 0; half := 1%nat |} demo_object.

Lemma object_fanout_witness :
  Fanout.readers (Fanout.release demo_fanout) !! 0%nat = Some (demo_reader, []) /\
  match fst (SubgroupObjectReader.read_turn demo_reader (Fanout.cell (Fanout.release demo_fanout))) with
  | Return (Ok (Some x)) => x = [x61; x62] /\ [x] `prefix_of` Fanout.written (Fanout.release demo_fanout)
  | _ => False
  end.
Proof.
  assert (Hs : star Fanout.step (Fanout.start demo_object) (Fanout.release demo_fanout)).
  { apply (star_step Fanout.step _ demo_fanout); [|by apply Fanout.do_release].
    eapply (star_step Fanout.step); [|by apply Fanout.do_drop; left].
    eapply (star_step Fanout.step); [|by apply Fanout.do_write].
    eapply (star_step Fanout.step); [apply star_refl|by apply Fanout.do_write]. }
  assert (Hr : Fanout.readers (Fanout.release demo_fanout) !! 0%nat = Some (demo_reader, [])) by reflexivity.
  split; [exact Hr|].
  assert (E : fst (SubgroupObjectReader.read_turn demo_reader (Fanout.cell (Fanout.release demo_fanout))) =
              Return (Ok (Some [x61; x62]))) by reflexivity.
  pose proof (object_fanout demo_object _ 0%nat demo_reader [] Hs Hr) as [_ H].
  rewrite E in H. rewrite E. split; [reflexivity|exact H].
Defined.

(** [read_all] on an object nobody
    changes meanwhile: it takes every chunk from the reader's index on, and then
    returns their concatenation if the object was closed in order, the error it
    was closed with, or waits if more may come. One turn per chunk and one more
    are enough. *)
Theorem object_read_all (r : SubgroupObjectReader.t) (c : Cell SubgroupObjectState.t) :
  let chunks := SubgroupObjectState.chunks (lock c) in
  let rest := drop (N.to_nat (SubgroupObjectReader.index r)) chunks in
  SubgroupObjectReader.read_all (S (length chunks)) [] r c =
    Some (match closed (lock c), dropped (inner c) with
          | Some e, _ => Return (Err e)
          | None, Some _ => Wait (epoch (inner c))
          | None, None => Return (Ok (concat rest))
          end,
          (rest, SubgroupObjectReader.mk (SubgroupObjectReader.state r) (SubgroupObjectReader.info r)
                   (SubgroupObjectReader.index r + lenN rest))).
Proof.
  cbv zeta. erewrite SubgroupObjectReader.read_all_run; [|reflexivity|rewrite length_drop; lia].
  unfold idle, modified. by destruct (closed (lock c)), (dropped (inner c)).
Qed.
