(* ===== verification/Groups.v ===== *)
(** * The subgroups of a track

    [moq-transport/src/serve/subgroup.rs], the outer levels: [Subgroup*] is a list
    of objects with a writer that numbers them, [Subgroups*] holds the latest
    subgroup of a track. The states own readers of the level below, so dropping
    the last handle of a cell drops those as well. *)
From Stdlib Require Import NArith Lia Bool.
From stdpp Require Import base list gmap option numbers sorting.
From S2P Require Import Prelude Buffers Utf8 Coding Setup Data Errors Watch Serve Subgroup.

(** ** States and handles *)

Module SubgroupState.
Record t := mk { objects : list SubgroupObjectReader.t; closed : option ServeError }.
Definition default : t := mk [] None.
Definition push (o : SubgroupObjectReader.t) (s : t) : t := mk (objects s ++ [o]) (closed s).

#[export] Instance closable : Closable t :=
  {| Serve.closed := closed; set_closed r s := mk (objects s) r; closed_set r s := eq_refl |}.
End SubgroupState.
Export (hints) SubgroupState.

(** [SubgroupReader]; its methods follow below. *)
Module SubgroupReader.
Record t := mk { state : Handle; info : SubgroupInfo.t; index : N }.
Definition new (state : Handle) (subgroup : SubgroupInfo.t) : t := mk state subgroup 0.
Definition pos (self : t) : N := index self.
End SubgroupReader.

Module SubgroupsState.
Record t := mk { latest : option SubgroupReader.t; epoch : N; closed : option ServeError }.
Definition default : t := mk None 0 None.

#[export] Instance closable : Closable t :=
  {| Serve.closed := closed; set_closed r s := mk (latest s) (epoch s) r;
     closed_set r s := eq_refl |}.
End SubgroupsState.
Export (hints) SubgroupsState.

(** The heaps of the three levels. *)
Record World := {
  tops : Arena SubgroupsState.t;
  groups : Arena SubgroupState.t;
  objects : Arena SubgroupObjectState.t;
}.

Definition world_new : World :=
  {| tops := arena_new SubgroupsState.default; groups := arena_new SubgroupState.default;
     objects := arena_new SubgroupObjectState.default |}.

Definition with_tops (a : Arena SubgroupsState.t) (w : World) : World :=
  {| tops := a; groups := groups w; objects := objects w |}.
Definition with_groups (a : Arena SubgroupState.t) (w : World) : World :=
  {| tops := tops w; groups := a; objects := objects w |}.
Definition with_objects (a : Arena SubgroupObjectState.t) (w : World) : World :=
  {| tops := tops w; groups := groups w; objects := a |}.

(** ** What dropping does *)

Definition drop_object_reader (r : SubgroupObjectReader.t) (w : World) : World :=
  with_objects (snd (drop_handle (SubgroupObjectReader.state r) (objects w))) w.

Definition drop_object_writer (o : SubgroupObjectWriter.t) (w : World) : World :=
  let h := SubgroupObjectWriter.state o in
  let (_, a) := on_cell h (fun c => (tt, SubgroupObjectWriter.drop o c)) (objects w) in
  with_objects (snd (drop_handle h a)) w.

(** A handle on a subgroup, of its writer or of a reader. *)
Definition drop_group_handle (h : Handle) (w : World) : World :=
  let (value, a) := drop_handle h (groups w) in
  fold_right drop_object_reader (with_groups a w)
    (match value with Some s => SubgroupState.objects s | None => [] end).

Definition drop_group_reader (r : SubgroupReader.t) (w : World) : World :=
  drop_group_handle (SubgroupReader.state r) w.

Definition drop_top_handle (h : Handle) (w : World) : World :=
  let (value, a) := drop_handle h (tops w) in
  match value with
  | Some {| SubgroupsState.latest := Some r |} => drop_group_reader r (with_tops a w)
  | _ => with_tops a w
  end.

(** ** [SubgroupInfo::produce] and [SubgroupWriter] *)

Module SubgroupWriter.
Record t := mk { state : Handle; info : SubgroupInfo.t; next : N }.
Definition new (state : Handle) (group : SubgroupInfo.t) : t := mk state group 0.

Definition produce (self : SubgroupInfo.t) (w : World) : (t * SubgroupReader.t) * World :=
  let '((writer, reader), a) := default_split SubgroupState.default (groups w) in
  ((new writer self, SubgroupReader.new reader self), with_groups a w).

Definition drop (self : t) (w : World) : World := drop_group_handle (state self) w.

(** The object and its number are used up even if the lock fails. *)
Definition create (size : N) : M (t * World) ServeError SubgroupObjectWriter.t := fun '(self, w) =>
  let object := SubgroupObject.mk (info self) (next self) size ObjectStatus.Object in
  let '((wh, rh), a) := default_split SubgroupObjectState.default (objects w) in
  let writer := SubgroupObjectWriter.new wh object in
  let reader := SubgroupObjectReader.new rh object in
  let w := with_objects a w in
  let self := mk (state self) (info self) ((next self + 1) mod 2 ^ 64) in
  match on_cell (state self) (mutate (SubgroupState.push reader)) (groups w) with
  | (Ok _, a) => (Ok writer, (self, with_groups a w))
  | (Err e, a) =>
      (Err e, (self, drop_object_writer writer (drop_object_reader reader (with_groups a w))))
  | (Panic, a) => (Panic, (self, with_groups a w))
  end.

(** [object.write] on the heap *)
Definition write_object (o : SubgroupObjectWriter.t) (chunk : list byte) (w : World) :
    outcome ServeError unit * (SubgroupObjectWriter.t * World) :=
  let h := SubgroupObjectWriter.state o in
  let '(r, (o, c)) := SubgroupObjectWriter.write chunk (o, cell_of h (objects w)) in
  (r, (o, with_objects (put (loc h) c (objects w)) w)).

(** The object's writer goes out of scope in either case. *)
Definition write (payload : list byte) : M (t * World) ServeError unit :=
  let! object := create (lenN payload) in
  fun '(self, w) =>
    let '(r, (object, w)) := write_object object payload w in
    (r, (self, drop_object_writer object w)).

Definition close (err : ServeError) (self : t) (w : World) : outcome ServeError unit * World :=
  let (r, a) := on_cell (state self) (close_cell err) (groups w) in
  (r, drop self (with_groups a w)).

Definition len (self : t) (w : World) : N :=
  lenN (SubgroupState.objects (lock (cell_of (state self) (groups w)))).

Definition is_empty (self : t) (w : World) : bool := len self w =? 0.
End SubgroupWriter.

(** ** [SubgroupReader]'s methods *)

Module SubgroupRead.
Import SubgroupReader.

Definition clone (self : t) (w : World) : t * World :=
  let (h, a) := clone_handle (state self) (groups w) in
  (mk h (info self) (index self), with_groups a w).

Definition latest (self : t) (w : World) : N :=
  default 0 ((fun o => SubgroupObject.object_id (SubgroupObjectReader.info o)) <$>
    last (SubgroupState.objects (lock (cell_of (state self) (groups w))))).

Definition clone_object (o : SubgroupObjectReader.t) (w : World) : SubgroupObjectReader.t * World :=
  let (h, a) := clone_handle (SubgroupObjectReader.state o) (objects w) in
  (SubgroupObjectReader.mk h (SubgroupObjectReader.info o) (SubgroupObjectReader.index o),
   with_objects a w).

(** One turn of [next]. *)
Definition next_turn (self : t) (w : World) : turn (option SubgroupObjectReader.t) * (t * World) :=
  match log_turn SubgroupState.objects (index self) (cell_of (state self) (groups w)) with
  | (Return (Ok (Some o)), i) =>
      let (o, w) := clone_object o w in
      (Return (Ok (Some o)), (mk (state self) (info self) i, w))
  | (r, i) => (r, (mk (state self) (info self) i, w))
  end.

Definition len (self : t) (w : World) : N :=
  lenN (SubgroupState.objects (lock (cell_of (state self) (groups w)))).

Definition is_empty (self : t) (w : World) : bool := len self w =? 0.
End SubgroupRead.

(** ** [Subgroups]: the latest subgroup of a track *)

Module SubgroupsReader.
Record t := mk { info : Track.t; state : Handle; epoch : N }.
Definition new (state : Handle) (track : Track.t) : t := mk track state 0.

Definition clone (self : t) (w : World) : t * World :=
  let (h, a) := clone_handle (state self) (tops w) in
  (mk (info self) h (epoch self), with_tops a w).

Definition drop (self : t) (w : World) : World := drop_top_handle (state self) w.

(** One turn of [next]: it returns whatever is the latest by then. *)
Definition next_turn (self : t) (w : World) : turn (option SubgroupReader.t) * (t * World) :=
  let c := cell_of (state self) (tops w) in
  let st := lock c in
  if negb (epoch self =? SubgroupsState.epoch st) then
    let self := mk (info self) (state self) (SubgroupsState.epoch st) in
    match SubgroupsState.latest st with
    | Some r => let (r, w) := SubgroupRead.clone r w in (Return (Ok (Some r)), (self, w))
    | None => (Return (Ok None), (self, w))
    end
  else (idle c (Ok None), (self, w)).

Definition latest (self : t) (w : World) : option (N * N) :=
  (fun group => (SubgroupInfo.group_id (SubgroupReader.info group), SubgroupRead.latest group w)) <$>
    SubgroupsState.latest (lock (cell_of (state self) (tops w))).
End SubgroupsReader.

Module SubgroupsWriter.
Record t := mk {
  info : Track.t; state : Handle; next : N; next_group_id : N; last_group_id : N;
}.
Definition new (state : Handle) (track : Track.t) : t := mk track state 0 0 0.

(** [Subgroups::produce] *)
Definition produce (track : Track.t) (w : World) : (t * SubgroupsReader.t) * World :=
  let '((writer, reader), a) := default_split SubgroupsState.default (tops w) in
  ((new writer track, SubgroupsReader.new reader track), with_tops a w).

Definition drop (self : t) (w : World) : World := drop_top_handle (state self) w.

(** What [create] finds under the lock: the new subgroup becomes the latest, or
    it is older, or it is there already. *)
Inductive place := Placed | Older | Same.

Definition compare (new latest : SubgroupInfo.t) : place :=
  match SubgroupInfo.group_id new ?= SubgroupInfo.group_id latest with
  | Eq =>
      match SubgroupInfo.subgroup_id new ?= SubgroupInfo.subgroup_id latest with
      | Lt => Older
      | Eq => Same
      | Gt => Placed
      end
  | Gt => Placed
  | Lt => Older
  end.

(** The critical section; the reader it replaces is handed back to be dropped. *)
Definition set_latest (reader : SubgroupReader.t) (s : SubgroupsState.t) :
    (place * option SubgroupReader.t) * SubgroupsState.t :=
  let verdict := match SubgroupsState.latest s with
                 | Some latest => compare (SubgroupReader.info reader) (SubgroupReader.info latest)
                 | None => Placed
                 end in
  match verdict with
  | Placed =>
      ((Placed, SubgroupsState.latest s),
       SubgroupsState.mk (Some reader) ((SubgroupsState.epoch s + 1) mod 2 ^ 64)
         (SubgroupsState.closed s))
  | v => ((v, None), s)
  end.

Definition create (subgroup : Subgroup.t) : M (t * World) ServeError SubgroupWriter.t :=
  fun '(self, w) =>
    let subgroup := SubgroupInfo.mk (info self) (Subgroup.group_id subgroup)
      (Subgroup.subgroup_id subgroup) (Subgroup.priority subgroup) in
    let '((writer, reader), w) := SubgroupWriter.produce subgroup w in
    let (r, a) := on_cell (state self) (with_mut (set_latest reader)) (tops w) in
    let w := with_tops a w in
    match r with
    | None => (Err ServeErr.Cancel, (self, SubgroupWriter.drop writer (drop_group_reader reader w)))
    | Some (Older, _) => (Ok writer, (self, drop_group_reader reader w))
    | Some (Same, _) =>
        (Err ServeErr.Duplicate, (self, SubgroupWriter.drop writer (drop_group_reader reader w)))
    | Some (Placed, old) =>
        let self := mk (info self) (state self)
          ((SubgroupInfo.subgroup_id subgroup + 1) mod 2 ^ 64)
          ((SubgroupInfo.group_id subgroup + 1) mod 2 ^ 64) (SubgroupInfo.group_id subgroup) in
        (Ok writer, (self, match old with Some r => drop_group_reader r w | None => w end))
    end.

(** Every subgroup starts a group of its own. *)
Definition append (priority : byte) : M (t * World) ServeError SubgroupWriter.t := fun '(self, w) =>
  create (Subgroup.mk (next_group_id self) 0 priority) (self, w).

Definition close (err : ServeError) (self : t) (w : World) : outcome ServeError unit * World :=
  let (r, a) := on_cell (state self) (close_cell err) (tops w) in
  (r, drop self (with_tops a w)).
End SubgroupsWriter.

(** ** What leaves which heap alone *)

Lemma drop_objects_heaps l w :
  tops (fold_right drop_object_reader w l) = tops w /\
  groups (fold_right drop_object_reader w l) = groups w.
Proof. induction l as [|x l IH]; simpl; [done|]. apply IH. Qed.

Lemma drop_group_handle_tops h w : tops (drop_group_handle h w) = tops w.
Proof.
  unfold drop_group_handle. destruct (drop_handle h (groups w)) as [v a].
  apply (drop_objects_heaps _ (with_groups a w)).
Qed.

Lemma drop_group_handle_stays h w : all_stay (groups w) (groups (drop_group_handle h w)).
Proof.
  unfold drop_group_handle. destruct (drop_handle h (groups w)) as [v a] eqn:E.
  destruct (drop_objects_heaps (match v with Some s => SubgroupState.objects s | None => [] end)
    (with_groups a w)) as [_ ->]. simpl. replace a with (snd (drop_handle h (groups w))) by (by rewrite E).
  apply all_stay_drop.
Qed.

(** What readers do with a subgroup is within what its writer relies on. *)
Lemma reader_stays (r : SubgroupReader.t) w :
  all_stay (groups w) (groups (snd (snd (SubgroupRead.next_turn r w)))) /\
  all_stay (groups w) (groups (snd (SubgroupRead.clone r w))) /\
  all_stay (groups w) (groups (drop_group_reader r w)).
Proof.
  split; [|split].
  - unfold SubgroupRead.next_turn.
    destruct (log_turn _ _ _) as [[[[o|]|e|]|n] i]; simpl; done.
  - apply all_stay_clone.
  - apply drop_group_handle_stays.
Qed.

(** ** The numbering of objects *)

Module Publishing.

(** A subgroup's writer at work, the others doing what they may. *)
Record t := mk { writer : SubgroupWriter.t; world : World }.

Definition group_cell (s : t) : Cell SubgroupState.t :=
  cell_of (SubgroupWriter.state (writer s)) (groups (world s)).

Inductive step : t -> t -> Prop :=
  | do_create s size :
      step s (let '(_, (self, w)) := SubgroupWriter.create size (writer s, world s) in mk self w)
  | do_write s payload :
      step s (let '(_, (self, w)) := SubgroupWriter.write payload (writer s, world s) in mk self w)
  | do_env s w : all_stay (groups (world s)) (groups w) -> step s (mk (writer s) w).

Definition start (info : SubgroupInfo.t) (w : World) : t :=
  let '((self, _), w) := SubgroupWriter.produce info w in mk self w.

Record inv (info : SubgroupInfo.t) (h : Handle) (s : t) : Prop := {
  inv_info : SubgroupWriter.info (writer s) = info;
  inv_state : SubgroupWriter.state (writer s) = h;
  inv_next : dropped (inner (group_cell s)) = None \/
    SubgroupWriter.next (writer s) = lenN (SubgroupState.objects (lock (group_cell s))) mod 2 ^ 64;
  inv_ids : forall i o, SubgroupState.objects (lock (group_cell s)) !! i = Some o ->
    SubgroupObject.object_id (SubgroupObjectReader.info o) = N.of_nat i mod 2 ^ 64 /\
    SubgroupObject.group (SubgroupObjectReader.info o) = info /\ SubgroupObjectReader.index o = 0;
}.

Lemma publishing_create info h s size :
  inv info h s ->
  let '(_, (self, w)) := SubgroupWriter.create size (writer s, world s) in inv info h (mk self w).
Proof.
  intros [Hf Hh Hn Hi]. unfold SubgroupWriter.create.
  destruct (default_split _ _) as [[wh rh] oa]. unfold on_cell. rewrite mutate_spec.
  cbn -[N.pow N.modulo]. unfold group_cell in *. destruct (dropped (inner (cell_of _ (groups (world s))))) eqn:Ed.
  - destruct Hn as [Hn|Hn]; [done|].
    cbn -[N.pow N.modulo]. split; simpl; unfold group_cell; simpl; rewrite ?cell_put_eq; try done.
    + right. unfold lock in *. simpl. rewrite lenN_app, Hn. change (lenN [_]) with 1.
      rewrite N.Div0.add_mod_idemp_l. done.
    + intros i o Ho. apply lookup_snoc_Some in Ho as [(_ & Ho)|(-> & <-)]; [by apply Hi|].
      simpl. split; [exact Hn|done].
  - cbn -[N.pow N.modulo].
    split; simpl; unfold group_cell; simpl; rewrite ?cell_put_eq; try done; try by left.
Qed.

Lemma publishing_env info h s w :
  inv info h s -> all_stay (groups (world s)) (groups w) -> inv info h (mk (writer s) w).
Proof.
  intros [Hf Hh Hn Hi] Hs. specialize (Hs (SubgroupWriter.state (writer s))) as [Hl Hd].
  unfold group_cell in *. split; simpl; unfold group_cell; simpl; rewrite ?Hl; try done.
  destruct Hn; auto.
Qed.

Lemma publishing_step info h s s' : inv info h s -> step s s' -> inv info h s'.
Proof.
  intros Hi. destruct 1 as [s size|s payload|s w Hw].
  - pose proof (publishing_create _ _ _ size Hi) as H. by destruct (SubgroupWriter.create _ _) as [r [self w]].
  - pose proof (publishing_create _ _ _ (lenN payload) Hi) as H. unfold SubgroupWriter.write, bind.
    destruct (SubgroupWriter.create _ _) as [[object|e|] [self w]]; [|done|done].
    unfold SubgroupWriter.write_object. destruct (SubgroupObjectWriter.write _ _) as [r [o c]].
    apply (publishing_env _ _ (mk self w)); [exact H|]. exact (PreOrder_Reflexive (groups w)).
  - by apply publishing_env.
Qed.

Lemma publishing_start info w :
  inv info (SubgroupWriter.state (writer (start info w))) (start info w).
Proof.
  split; [done|done| |].
  - right. unfold group_cell, start, cell_of. simpl. by rewrite decide_True.
  - intros i o. unfold group_cell, start, cell_of. simpl. by rewrite decide_True.
Qed.
End Publishing.

(** ** Which subgroup is the latest *)

#[local] Arguments drop_group_handle : simpl never.
#[local] Arguments drop_group_reader : simpl never.
#[local] Arguments SubgroupWriter.create : simpl never.

Definition key (i : SubgroupInfo.t) : N * N := (SubgroupInfo.group_id i, SubgroupInfo.subgroup_id i).

(** By group first, then by subgroup. *)
Definition newer (a b : N * N) : Prop := a.1 < b.1 \/ a.1 = b.1 /\ a.2 < b.2.

#[export] Instance newer_trans : Transitive newer.
Proof. intros a b c. unfold newer. lia. Qed.

Lemma compare_spec new latest :
  match SubgroupsWriter.compare new latest with
  | SubgroupsWriter.Placed => newer (key latest) (key new)
  | SubgroupsWriter.Same => key new = key latest
  | SubgroupsWriter.Older => newer (key new) (key latest)
  end.
Proof.
  unfold SubgroupsWriter.compare, newer, key. simpl.
  destruct (N.compare_spec (SubgroupInfo.group_id new) (SubgroupInfo.group_id latest)); [|lia|lia].
  destruct (N.compare_spec (SubgroupInfo.subgroup_id new) (SubgroupInfo.subgroup_id latest)); [|lia|lia].
  by f_equal.
Qed.

(** The writer of a subgroup whose only reader is gone cannot write. *)
Lemma unread_cancel info w a size :
  let '((wr, rd), w1) := SubgroupWriter.produce info w in
  fst (SubgroupWriter.create size (wr, drop_group_reader rd (with_tops a w1))) = Err ServeErr.Cancel.
Proof.
  unfold SubgroupWriter.produce. cbn [default_split state_new split].
  set (w1 := drop_group_reader _ _). unfold SubgroupWriter.create.
  destruct (default_split SubgroupObjectState.default _) as [[wh rh] oa].
  unfold on_cell. rewrite mutate_spec.
  assert (Hd : dropped (inner (cell_of {| loc := next_cell (groups w); half := 0%nat |} (groups w1))) = None);
    [|simpl; by rewrite Hd].
  unfold w1, drop_group_reader, drop_group_handle, drop_handle. cbn -[drop_state fold_right].
  rewrite (proj2 (drop_objects_heaps _ _)). unfold cell_of, put. simpl.
  by rewrite !decide_True.
Qed.

(** What [create] does to the track's cell and to the writer. *)
Lemma create_top (sg : Subgroup.t) self w :
  let new := SubgroupInfo.mk (SubgroupsWriter.info self) (Subgroup.group_id sg)
    (Subgroup.subgroup_id sg) (Subgroup.priority sg) in
  let c := cell_of (SubgroupsWriter.state self) (tops w) in
  let '(r, (self', w')) := SubgroupsWriter.create sg (self, w) in
  let c' := cell_of (SubgroupsWriter.state self) (tops w') in
  (lock c' = lock c /\ self' = self /\
    ((dropped (inner c) = None /\ r = Err ServeErr.Cancel) \/
     (dropped (inner c) <> None /\ exists l, SubgroupsState.latest (lock c) = Some l /\
       ((key new = key (SubgroupReader.info l) /\ r = Err ServeErr.Duplicate) \/
        (newer (key new) (key (SubgroupReader.info l)) /\
         exists wr, r = Ok wr /\ SubgroupWriter.info wr = new /\
           forall size, fst (SubgroupWriter.create size (wr, w')) = Err ServeErr.Cancel))))) \/
  (dropped (inner c) <> None /\
   (forall l, SubgroupsState.latest (lock c) = Some l -> newer (key (SubgroupReader.info l)) (key new)) /\
   SubgroupsWriter.state self' = SubgroupsWriter.state self /\
   SubgroupsWriter.next_group_id self' = (Subgroup.group_id sg + 1) mod 2 ^ 64 /\
   exists wr reader, r = Ok wr /\ SubgroupWriter.info wr = new /\ SubgroupReader.info reader = new /\
     loc (SubgroupReader.state reader) = loc (SubgroupWriter.state wr) /\
     lock c' = SubgroupsState.mk (Some reader) ((SubgroupsState.epoch (lock c) + 1) mod 2 ^ 64)
       (SubgroupsState.closed (lock c))).
Proof.
  cbv zeta. unfold SubgroupsWriter.create.
  set (new := SubgroupInfo.mk _ _ _ _). pose proof (unread_cancel new w) as Hu.
  destruct (SubgroupWriter.produce new w) as [[wr rd] w1] eqn:Ep.
  unfold SubgroupWriter.produce in Ep. cbn -[N.pow N.modulo] in Ep. simplify_eq.
  unfold on_cell, with_mut. cbn [tops with_groups SubgroupsWriter.state].
  set (c := cell_of (SubgroupsWriter.state self) (tops w)).
  set (rd := SubgroupReader.new _ _) in *. set (wr := SubgroupWriter.new _ _) in *.
  unfold SubgroupsWriter.set_latest. fold (lock c).
  destruct (dropped (inner c)) eqn:Ed.
  - destruct (SubgroupsState.latest (lock c)) as [l|] eqn:El.
    + pose proof (compare_spec new (SubgroupReader.info l)) as Hc. change (SubgroupReader.info rd) with new.
      destruct (SubgroupsWriter.compare _ _); cbn -[N.pow N.modulo wr rd new].
      * right. unfold drop_group_reader. rewrite drop_group_handle_tops. simpl. rewrite cell_put_eq.
        split; [done|]. split; [intros ? ?; by simplify_eq|].
        split; [done|]. split; [reflexivity|]. exists wr, rd. split_and!; reflexivity.
      * left. unfold drop_group_reader at 1. rewrite drop_group_handle_tops. simpl. rewrite cell_put_eq.
        do 2 (split; [done|]). right. split; [done|]. exists l. split; [done|]. right. split; [done|].
        exists wr. split; [reflexivity|]. split; [reflexivity|]. intros size. apply Hu.
      * left. unfold SubgroupWriter.drop, drop_group_reader. rewrite !drop_group_handle_tops. simpl.
        rewrite cell_put_eq. do 2 (split; [done|]). right. split; [done|]. exists l. by auto.
    + cbn -[N.pow N.modulo wr rd new]. right. rewrite cell_put_eq.
      split; [done|]. split; [done|]. split; [done|]. split; [reflexivity|].
      exists wr, rd. split_and!; reflexivity.
  - cbn -[N.pow N.modulo wr rd new]. left. unfold SubgroupWriter.drop, drop_group_reader.
    rewrite !drop_group_handle_tops. simpl. rewrite cell_put_eq. auto.
Qed.

(** ** A track's subgroups among tasks *)
Module History.

(** The writer, the readers with the subgroups each was handed, and every
    subgroup that has ever been the latest. *)
Record t := mk {
  writer : SubgroupsWriter.t;
  world : World;
  placed : list (N * N);
  readers : list (SubgroupsReader.t * list (N * N));
}.

Definition state_of (s : t) : SubgroupsState.t :=
  lock (cell_of (SubgroupsWriter.state (writer s)) (tops (world s))).

Definition latest_key (st : SubgroupsState.t) : option (N * N) :=
  (fun r => key (SubgroupReader.info r)) <$> SubgroupsState.latest st.

(** The writer's turn: a change of epoch means a new latest subgroup. *)
Definition wrote (self : SubgroupsWriter.t) (w : World) (s : t) : t :=
  let st := lock (cell_of (SubgroupsWriter.state self) (tops w)) in
  mk self w
     (placed s ++ if SubgroupsState.epoch st =? SubgroupsState.epoch (state_of s) then []
                  else option_list (latest_key st))
     (readers s).

Definition start (track : Track.t) (w : World) : t :=
  let '((writer, reader), w) := SubgroupsWriter.produce track w in
  mk writer w [] [(reader, [])].

Inductive step : t -> t -> Prop :=
  | do_create s sg :
      step s (let '(_, (self, w)) := SubgroupsWriter.create sg (writer s, world s) in wrote self w s)
  | do_append s p :
      step s (let '(_, (self, w)) := SubgroupsWriter.append p (writer s, world s) in wrote self w s)
  | do_read s i r seen :
      readers s !! i = Some (r, seen) ->
      step s (let '(res, (r, w)) := SubgroupsReader.next_turn r (world s) in
              mk (writer s) w (placed s)
                (<[i := (r, seen ++ match res with
                                    | Return (Ok (Some g)) => [key (SubgroupReader.info g)]
                                    | _ => []
                                    end)]> (readers s)))
  | do_clone s i r seen :
      readers s !! i = Some (r, seen) ->
      step s (let (r, w) := SubgroupsReader.clone r (world s) in
              mk (writer s) w (placed s) (readers s ++ [(r, seen)]))
  | do_env s w : all_stay (tops (world s)) (tops w) -> step s (mk (writer s) w (placed s) (readers s)).

(** A reader has been handed part of what was placed before its epoch. *)
Definition follows (s : t) (p : SubgroupsReader.t * list (N * N)) : Prop :=
  loc (SubgroupsReader.state p.1) = loc (SubgroupsWriter.state (writer s)) /\
  SubgroupsReader.epoch p.1 <= lenN (placed s) /\
  p.2 `sublist_of` take (N.to_nat (SubgroupsReader.epoch p.1)) (placed s).

Record inv (s : t) : Prop := {
  inv_latest : latest_key (state_of s) = last (placed s);
  inv_epoch : SubgroupsState.epoch (state_of s) = lenN (placed s) mod 2 ^ 64;
  inv_sorted : StronglySorted newer (placed s);
  inv_next : SubgroupsWriter.next_group_id (writer s) =
    match last (placed s) with Some k => (k.1 + 1) mod 2 ^ 64 | None => 0 end;
  inv_follows : lenN (placed s) < 2 ^ 64 -> Forall (follows s) (readers s);
}.

Lemma sorted_snoc (l : list (N * N)) k :
  StronglySorted newer l -> (forall x, last l = Some x -> newer x k) ->
  StronglySorted newer (l ++ [k]).
Proof.
  intros Hs Hk. apply StronglySorted_app. split; [|split; [done|by repeat constructor]].
  intros x y Hx Hy. apply list_elem_of_singleton in Hy as ->.
  destruct l as [|z l _] using rev_ind; [by apply elem_of_nil in Hx|].
  specialize (Hk z (last_snoc _ _)). apply elem_of_app in Hx as [Hx|Hx].
  - transitivity z; [|done]. apply StronglySorted_app in Hs as (H & _ & _).
    by apply H; [|apply list_elem_of_singleton].
  - by apply list_elem_of_singleton in Hx as ->.
Qed.

Lemma follows_grow s s' p :
  SubgroupsWriter.state (writer s') = SubgroupsWriter.state (writer s) ->
  placed s `prefix_of` placed s' -> follows s p -> follows s' p.
Proof.
  intros Hw [k Hk] (Hl & He & Hs). unfold follows. rewrite Hw, Hk, lenN_app.
  split; [done|]. split; [lia|]. unfold lenN in He. rewrite take_app_le; [done|lia].
Qed.

Lemma history_create s sg : inv s ->
  let '(_, (self, w)) := SubgroupsWriter.create sg (writer s, world s) in inv (wrote self w s).
Proof.
  intros [Hl He Hs Hn Hf]. pose proof (create_top sg (writer s) (world s)) as Ht. cbv zeta in Ht.
  destruct (SubgroupsWriter.create sg _) as [r [self w]]. 
  unfold state_of in *. set (c := cell_of _ (tops (world s))) in *.
  unfold wrote, state_of. cbn [writer world].
  destruct Ht as [(Hc & -> & _)|(_ & Hnew & Hst & Hnx & wr & rd & -> & Hw & Hr & _ & Hc)].
  - rewrite Hc. fold c. rewrite N.eqb_refl, app_nil_r. by split; unfold state_of; cbn [writer world placed readers]; rewrite ?Hc.
  - rewrite Hst, Hc. fold c. cbn [SubgroupsState.epoch].
    destruct (N.eqb_spec ((SubgroupsState.epoch (lock c) + 1) mod 2 ^ 64) (SubgroupsState.epoch (lock c)))
      as [Hx|Hx]; [rewrite He in Hx; change (2 ^ 64) with 18446744073709551616 in Hx; lia|].
    assert (Hlk : latest_key (lock (cell_of (SubgroupsWriter.state (writer s)) (tops w))) =
                  Some (key (SubgroupReader.info rd))) by (rewrite Hc; done).
    split; unfold state_of; cbn [writer world placed readers]; rewrite ?Hst, ?Hc.
    + unfold latest_key at 2. simpl. by rewrite last_snoc.
    + simpl. rewrite He, lenN_app. change (lenN [_]) with 1. by rewrite N.Div0.add_mod_idemp_l.
    + simpl. apply sorted_snoc; [done|]. intros x Hx'. rewrite <- Hl in Hx'. unfold latest_key in Hx'.
      destruct (SubgroupsState.latest (lock c)) as [l|] eqn:El; simplify_eq/=. rewrite Hr. by apply Hnew.
    + simpl. rewrite last_snoc, Hnx, Hr. done.
    + simpl. intros Hlt. rewrite lenN_app in Hlt. eapply Forall_impl; [apply Hf; lia|].
      intros p. apply follows_grow; [done|]. simpl. by eexists.
Qed.

Lemma next_turn_tops r w : tops (snd (snd (SubgroupsReader.next_turn r w))) = tops w.
Proof.
  unfold SubgroupsReader.next_turn. repeat case_match; simplify_eq/=; try done.
  unfold SubgroupRead.clone in *. by simplify_eq/=.
Qed.

(** A turn of a reader that is behind hands out the latest subgroup. *)
Lemma next_turn_cases (s : t) r :
  inv s -> lenN (placed s) < 2 ^ 64 ->
  loc (SubgroupsReader.state r) = loc (SubgroupsWriter.state (writer s)) ->
  SubgroupsReader.epoch r <= lenN (placed s) ->
  let '(res, (r', _)) := SubgroupsReader.next_turn r (world s) in
  SubgroupsReader.state r' = SubgroupsReader.state r /\
  SubgroupsReader.epoch r' = lenN (placed s) /\
  ((SubgroupsReader.epoch r < lenN (placed s) /\
    exists g, res = Return (Ok (Some g)) /\ last (placed s) = Some (key (SubgroupReader.info g))) \/
   (SubgroupsReader.epoch r = lenN (placed s) /\
    res = idle (cell_of (SubgroupsReader.state r) (tops (world s))) (Ok None))).
Proof.
  intros [Hl He _ _ _] Hlt Hloc Hle. rewrite N.mod_small in He by done.
  unfold SubgroupsReader.next_turn, state_of, cell_of in *. rewrite Hloc.
  destruct (N.eqb_spec (SubgroupsReader.epoch r)
    (SubgroupsState.epoch (lock (cells (tops (world s)) (loc (SubgroupsWriter.state (writer s)))))))
    as [Hx|Hx]; simpl.
  - split; [done|]. rewrite <- He, Hx. split; [done|]. right. done.
  - rewrite <- Hl. unfold latest_key.
    destruct (SubgroupsState.latest _) as [l|] eqn:El; simpl.
    + split; [done|]. rewrite He. split; [done|]. left. split; [lia|]. by exists (SubgroupReader.mk (SubgroupReader.state l) (SubgroupReader.info l) (SubgroupReader.index l)).
    + exfalso. unfold latest_key in Hl. rewrite El in Hl. simpl in Hl. symmetry in Hl.
      apply last_None in Hl. rewrite Hl in *. change (lenN []) with 0 in *. lia.
Qed.

Lemma history_env s w rs :
  inv s -> all_stay (tops (world s)) (tops w) ->
  (lenN (placed s) < 2 ^ 64 -> Forall (follows s) rs) -> inv (mk (writer s) w (placed s) rs).
Proof.
  intros [Hl He Hs Hn Hf] Hw Hrs.
  assert (Hst : state_of (mk (writer s) w (placed s) rs) = state_of s)
    by apply (Hw (SubgroupsWriter.state (writer s))).
  split; rewrite ?Hst; done.
Qed.

Lemma history_read s i r seen : inv s -> readers s !! i = Some (r, seen) ->
  let '(res, (r, w)) := SubgroupsReader.next_turn r (world s) in
  inv (mk (writer s) w (placed s)
    (<[i := (r, seen ++ match res with
                        | Return (Ok (Some g)) => [key (SubgroupReader.info g)]
                        | _ => []
                        end)]> (readers s))).
Proof.
  intros Hi Hr. pose proof (next_turn_tops r (world s)) as Ht.
  pose proof (next_turn_cases s r Hi) as Hc.
  destruct (SubgroupsReader.next_turn r (world s)) as [res [r' w]]. simpl in Ht.
  apply history_env; [done|rewrite Ht; done|]. intros Hlt.
  pose proof (inv_follows _ Hi Hlt) as Hf. pose proof (Forall_lookup_1 _ _ _ _ Hf Hr) as (Hloc & Hep & Hsub).
  simpl in Hloc, Hep, Hsub. destruct (Hc Hlt Hloc Hep) as (Hst & He' & Hcase).
  apply Forall_insert; [done|]. split; [by rewrite <- Hloc, <- Hst|]. simpl.
  unfold lenN in *. rewrite He'. split; [done|]. rewrite Nat2N.id, take_ge by done.
  destruct Hcase as [(Hb & g & -> & Hg)|(Hb & ->)].
  - destruct (placed s) as [|z l _] using rev_ind; [done|]. rewrite last_snoc in Hg. simplify_eq.
    rewrite length_app in Hb. simpl in Hb. rewrite take_app_le in Hsub by lia.
    apply sublist_app; [|done]. etransitivity; [done|]. apply sublist_take.
  - replace (match idle _ _ with Return (Ok (Some g)) => [key (SubgroupReader.info g)] | _ => [] end)
      with (@nil (N * N)).
    + rewrite app_nil_r. etransitivity; [done|]. apply sublist_take.
    + destruct (idle _ _) as [[[g|]|e|]|n] eqn:E; try done. by apply idle_Ok_None in E as (_ & _ & ?).
Qed.

Lemma history_step s s' : inv s -> step s s' -> inv s'.
Proof.
  intros Hi. destruct 1 as [s sg|s p|s i r seen Hr|s i r seen Hr|s w Hw].
  - pose proof (history_create s sg Hi) as H. by destruct (SubgroupsWriter.create sg _) as [? [? ?]].
  - unfold SubgroupsWriter.append. set (sg := Subgroup.mk _ _ _).
    pose proof (history_create s sg Hi) as H. by destruct (SubgroupsWriter.create sg _) as [? [? ?]].
  - pose proof (history_read s i r seen Hi Hr) as H. by destruct (SubgroupsReader.next_turn r _) as [? [? ?]].
  - apply history_env; [done|apply all_stay_clone|]. intros Hlt. pose proof (inv_follows _ Hi Hlt) as Hf.
    apply Forall_app. split; [done|]. constructor; [|done].
    exact (Forall_lookup_1 _ _ _ _ Hf Hr).
  - apply history_env; [done|done|apply Hi].
Qed.

Lemma history_start track w : inv (start track w).
Proof.
  assert (Hs : state_of (start track w) = SubgroupsState.default).
  { unfold state_of, start, cell_of. simpl. by rewrite decide_True. }
  split; rewrite ?Hs; try done; [constructor|]. intros _. repeat constructor; simpl; lia.
Qed.
End History.

(** ** Properties *)

(** [create] on every branch: nobody left to read gives
    [Cancel]; a subgroup older than the latest is accepted but nobody will read
    it, every object of it is refused with [Cancel]; the latest once more is a
    [Duplicate]; a newer one becomes the latest, its reader attached to the
    returned writer, and starts the numbering of [append] behind it. *)
Theorem subgroups_create (sg : Subgroup.t) (self : SubgroupsWriter.t) (w : World) :
  let new := (Subgroup.group_id sg, Subgroup.subgroup_id sg) in
  let c := cell_of (SubgroupsWriter.state self) (tops w) in
  let '(r, (self', w')) := SubgroupsWriter.create sg (self, w) in
  let st' := lock (cell_of (SubgroupsWriter.state self) (tops w')) in
  match dropped (inner c), SubgroupsState.latest (lock c) with
  | None, _ => r = Err ServeErr.Cancel /\ self' = self /\ st' = lock c
  | Some _, latest =>
      (forall l, latest = Some l -> newer new (key (SubgroupReader.info l)) ->
        exists wr, r = Ok wr /\ key (SubgroupWriter.info wr) = new /\ self' = self /\ st' = lock c /\
          forall size, fst (SubgroupWriter.create size (wr, w')) = Err ServeErr.Cancel) /\
      (forall l, latest = Some l -> new = key (SubgroupReader.info l) ->
        r = Err ServeErr.Duplicate /\ self' = self /\ st' = lock c) /\
      ((forall l, latest = Some l -> newer (key (SubgroupReader.info l)) new) ->
        exists wr rd, r = Ok wr /\ key (SubgroupWriter.info wr) = new /\
          SubgroupsState.latest st' = Some rd /\ SubgroupReader.info rd = SubgroupWriter.info wr /\
          loc (SubgroupReader.state rd) = loc (SubgroupWriter.state wr) /\
          SubgroupsState.epoch st' = (SubgroupsState.epoch (lock c) + 1) mod 2 ^ 64 /\
          SubgroupsWriter.next_group_id self' = (Subgroup.group_id sg + 1) mod 2 ^ 64)
  end.
Proof.
  pose proof (create_top sg self w) as H. cbv zeta in *.
  destruct (SubgroupsWriter.create sg _) as [r [self' w']].
  set (c := cell_of (SubgroupsWriter.state self) (tops w)) in *. unfold key in H at 1 2 3 4. simpl in H.
  destruct H as [(Hl & -> & [[Hd ->]|(Hd & l & El & Hcase)])|(Hd & Hnew & _ & Hnx & wr & rd & -> & Hw & Hr & Hloc & Hl)].
  - rewrite Hd. destruct (SubgroupsState.latest (lock c)); done.
  - destruct (dropped (inner c)); [|done]. rewrite El. clear Hd.
    destruct Hcase as [[He ->]|(He & wr & -> & Hw & Hc)];
      (split; [|split]; [intros l' [= <-] Hn|intros l' [= <-] Hn|intros Hn; specialize (Hn l eq_refl)]).
    all: try (exfalso; unfold newer, key in *; simpl in *; simplify_eq; lia).
    + done.
    + exists wr. split; [done|]. split; [by rewrite Hw|]. done.
  - destruct (dropped (inner c)); [|done].
    split; [|split]; [intros l' El Hn|intros l' El Hn|intros _].
    1-2: exfalso; specialize (Hnew l' El); unfold newer, key in *; simpl in *; simplify_eq; lia.
    exists wr, rd. rewrite Hl, Hw, Hr. done.
Qed.

Lemma sorted_sublist (k l : list (N * N)) :
  k `sublist_of` l -> StronglySorted newer l -> StronglySorted newer k.
Proof.
  induction 1 as [|x k l Hs IH|x k l Hs IH]; intros Hl; [constructor| |].
  - apply StronglySorted_cons in Hl as [Hx Hl]. constructor; [by apply IH|].
    apply Forall_forall. intros y Hy. rewrite Forall_forall in Hx. apply Hx. by eapply elem_of_submseteq, sublist_submseteq.
  - apply StronglySorted_cons in Hl as [_ Hl]. by apply IH.
Qed.

(** What a reader has seen below its epoch is older than the last. *)
Lemma sublist_newer (k l : list (N * N)) x e :
  StronglySorted newer l -> last l = Some x -> N.of_nat e < lenN l -> k `sublist_of` take e l ->
  Forall (fun y => newer y x) k.
Proof.
  intros Hs Hx He Hk. destruct l as [|z l _] using rev_ind; [done|].
  rewrite last_snoc in Hx. simplify_eq. rewrite lenN_app in He. change (lenN [x]) with 1 in He.
  unfold lenN in He. rewrite take_app_le in Hk by lia.
  apply Forall_forall. intros y Hy. apply StronglySorted_app in Hs as (Hs & _).
  apply Hs; [|by apply list_elem_of_singleton].
  eapply elem_of_submseteq; [done|]. apply sublist_submseteq.
  etransitivity; [done|apply sublist_take].
Qed.

(** A track to demonstrate on, and a subgroup of it. *)
Definition demo_track : Track.t := Track.mk (Tuple.mk []) (mk_String [] eq_refl).

(** C20 (safety, invariant). The subgroups of a track among tasks. However
    writing, reading, cloning and other uses of handles interleave, the latest
    subgroup only ever moves forward, by group and then by subgroup; each reader
    is handed subgroups in that order and none twice, it may skip some but never
    the newest: a reader that finds nothing has been handed it. [append] always
    starts a group newer than everything before. The bounds are the 64-bit
    counters. *)
Theorem subgroups_in_order (track : Track.t) (w : World) (s : History.t) (i : nat)
    (r : SubgroupsReader.t) (seen : list (N * N)) :
  star History.step (History.start track w) s -> lenN (History.placed s) < 2 ^ 64 ->
  History.readers s !! i = Some (r, seen) ->
  StronglySorted newer (History.placed s) /\ seen `sublist_of` History.placed s /\
  StronglySorted newer seen /\
  match fst (SubgroupsReader.next_turn r (History.world s)) with
  | Return (Ok (Some g)) =>
      last (History.placed s) = Some (key (SubgroupReader.info g)) /\
      Forall (fun k => newer k (key (SubgroupReader.info g))) seen
  | _ => SubgroupsReader.epoch r = lenN (History.placed s)
  end /\
  forall p wr latest, fst (SubgroupsWriter.append p (History.writer s, History.world s)) = Ok wr ->
    last (History.placed s) = Some latest -> latest.1 < 2 ^ 64 - 1 ->
    newer latest (key (SubgroupWriter.info wr)).
Proof.
  intros Hs Hlt Hr.
  assert (Hi : History.inv s).
  { apply (star_invariant _ History.inv) in Hs; [done|intros x y; apply History.history_step|].
    apply History.history_start. }
  pose proof (Forall_lookup_1 _ _ _ _ (History.inv_follows _ Hi Hlt) Hr) as (Hloc & Hep & Hsub).
  simpl in Hloc, Hep, Hsub. pose proof (History.inv_sorted _ Hi) as Hso.
  assert (Hsub' : seen `sublist_of` History.placed s)
    by (etransitivity; [done|apply sublist_take]).
  split; [done|]. split; [done|]. split; [by apply (sorted_sublist _ _ Hsub')|]. split.
  - pose proof (History.next_turn_cases s r Hi Hlt Hloc Hep) as Hc.
    destruct (SubgroupsReader.next_turn r _) as [res [r' w']]. destruct Hc as (_ & _ & [(Hb & g & -> & Hg)|(Hb & ->)]).
    + simpl. split; [done|].
      apply (sublist_newer _ _ _ (N.to_nat (SubgroupsReader.epoch r)) Hso Hg); [lia|done].
    + simpl. destruct (idle _ _) as [[[g|]|e|]|n] eqn:E; try done. by apply idle_Ok_None in E as (_ & _ & ?).
  - intros p wr latest Ha Hla Hb. pose proof (History.inv_next _ Hi) as Hn. rewrite Hla in Hn.
    unfold SubgroupsWriter.append in Ha. set (sg := Subgroup.mk _ _ _) in *.
    pose proof (create_top sg (History.writer s) (History.world s)) as Ht. cbv zeta in Ht.
    destruct (SubgroupsWriter.create sg _) as [rr [self' w']]. simpl in Ha. subst rr.
    pose proof (History.inv_latest _ Hi) as Hl. rewrite Hla in Hl. unfold History.latest_key in Hl.
    fold (History.state_of s) in Ht.
    destruct (SubgroupsState.latest (History.state_of s)) as [l|] eqn:El; simplify_eq/=.
    assert (Hg : SubgroupsWriter.next_group_id (History.writer s) =
                 SubgroupInfo.group_id (SubgroupReader.info l) + 1).
    { rewrite Hn. unfold key in *. simpl in *. apply N.mod_small. lia. }
    destruct Ht as [(_ & _ & [[_ ?]|(_ & l' & El' & [[_ ?]|(Hk & wr' & _)])])|(_ & Hnew & _ & _ & wr' & rd & Hw & Hwr & _)];
      try done; simplify_eq.
    + exfalso. unfold newer, key, sg in Hk. simpl in Hk. rewrite Hg in Hk. lia.
    + rewrite Hwr. by apply Hnew.
Qed.

(** Two groups are appended, a reader is handed the second, and it is current. *)
Definition demo_after (s : History.t) : History.t :=
  let '(_, (self, w)) := SubgroupsWriter.append x05 (History.writer s, History.world s) in
  History.wrote self w s.

Definition demo_history : History.t := demo_after (demo_after (History.start demo_track world_new)).

Lemma subgroups_in_order_witness :
  History.placed demo_history = [(0, 0); (1, 0)] /\
  exists r, History.readers demo_history !! 0%nat = Some (r, []) /\
  StronglySorted newer (History.placed demo_history) /\
  match fst (SubgroupsReader.next_turn r (History.world demo_history)) with
  | Return (Ok (Some g)) => key (SubgroupReader.info g) = (1, 0)
  | _ => False
  end.
Proof.
  assert (Hp : History.placed demo_history = [(0, 0); (1, 0)]) by (vm_compute; reflexivity).
  assert (Hs : star History.step (History.start demo_track world_new) demo_history).
  { apply (star_step History.step _ (demo_after (History.start demo_track world_new)));
      [apply (star_step History.step _ (History.start demo_track world_new)); [apply star_refl|]|].
    - apply (History.do_append (History.start demo_track world_new) x05).
    - apply (History.do_append (demo_after (History.start demo_track world_new)) x05). }
  split; [exact Hp|]. eexists. split; [reflexivity|].
  assert (Hr : exists r, History.readers demo_history !! 0%nat = Some (r, [])) by (eexists; reflexivity).
  assert (Hlt : lenN (History.placed demo_history) < 2 ^ 64) by (rewrite Hp; reflexivity).
  destruct (subgroups_in_order demo_track world_new demo_history 0%nat _ [] Hs Hlt eq_refl) as (H & _).
  split; [exact H|]. vm_compute. reflexivity.
Defined.

(** The objects of a subgroup are numbered from 0 in
    the order they were created, whatever happens in between: a reader's [next]
    returns the object whose number is the reader's index, of the right subgroup
    and from its first chunk, and moves the index by one; otherwise the index
    stays. *)
Theorem subgroup_objects_numbered (info : SubgroupInfo.t) (w : World) (s : Publishing.t)
    (r : SubgroupReader.t) :
  star Publishing.step (Publishing.start info w) s ->
  loc (SubgroupReader.state r) = loc (SubgroupWriter.state (Publishing.writer s)) ->
  let '(res, (r', _)) := SubgroupRead.next_turn r (Publishing.world s) in
  match res with
  | Return (Ok (Some o)) =>
      SubgroupObject.object_id (SubgroupObjectReader.info o) = SubgroupReader.index r mod 2 ^ 64 /\
      SubgroupObject.group (SubgroupObjectReader.info o) = info /\
      SubgroupObjectReader.index o = 0 /\ SubgroupReader.index r' = SubgroupReader.index r + 1
  | _ => SubgroupReader.index r' = SubgroupReader.index r
  end.
Proof.
  intros Hs Hloc.
  assert (Hi : Publishing.inv info (SubgroupWriter.state (Publishing.writer (Publishing.start info w))) s).
  { apply (star_invariant _ (Publishing.inv info _) _ _ (fun x y => Publishing.publishing_step info _ x y)
      (Publishing.publishing_start info w) Hs). }
  pose proof (Publishing.inv_ids _ _ _ Hi) as Hids. unfold Publishing.group_cell, cell_of in Hids.
  rewrite <- Hloc in Hids. unfold SubgroupRead.next_turn, log_turn, cell_of.
  destruct (SubgroupState.objects _ !! _) as [o|] eqn:El; simpl.
  - destruct (Hids _ _ El) as (Ho & Hg & Hx). rewrite N2Nat.id in Ho. by rewrite Hx.
  - destruct (idle _ _) as [[[g|]|e|]|n] eqn:E; try done. by apply idle_Ok_None in E as (_ & _ & ?).
Qed.

Definition demo_info : SubgroupInfo.t := SubgroupInfo.mk demo_track 4 0 x05.

Definition demo_written (s : Publishing.t) : Publishing.t :=
  let '(_, (self, w)) := SubgroupWriter.write [x61; x62] (Publishing.writer s, Publishing.world s) in
  Publishing.mk self w.

Lemma subgroup_objects_numbered_witness :
  let s := demo_written (demo_written (Publishing.start demo_info world_new)) in
  let r := SubgroupReader.mk {| loc := 0; half := 1%nat |} demo_info 1 in
  match fst (SubgroupRead.next_turn r (Publishing.world s)) with
  | Return (Ok (Some o)) => SubgroupObject.object_id (SubgroupObjectReader.info o) = 1 mod 2 ^ 64
  | _ => False
  end.
Proof.
  cbv zeta. set (s := demo_written (demo_written (Publishing.start demo_info world_new))).
  set (r := SubgroupReader.mk {| loc := 0; half := 1%nat |} demo_info 1).
  assert (Hs : star Publishing.step (Publishing.start demo_info world_new) s).
  { apply (star_step Publishing.step _ (demo_written (Publishing.start demo_info world_new)));
      [apply (star_step Publishing.step _ (Publishing.start demo_info world_new)); [apply star_refl|]|].
    - apply (Publishing.do_write (Publishing.start demo_info world_new) [x61; x62]).
    - apply (Publishing.do_write (demo_written (Publishing.start demo_info world_new)) [x61; x62]). }
  assert (Hl : loc (SubgroupReader.state r) = loc (SubgroupWriter.state (Publishing.writer s))) by reflexivity.
  pose proof (subgroup_objects_numbered demo_info world_new s r Hs Hl) as H.
  assert (E : exists o r' w', SubgroupRead.next_turn r (Publishing.world s) = (Return (Ok (Some o)), (r', w')))
    by (do 3 eexists; reflexivity).
  destruct E as (o & r' & w' & E). rewrite E in H. rewrite E. exact (proj1 H).
Defined.
