(* ===== verification/StreamTrack.v ===== *)
(** * Tracks made of one stream

    [moq-transport/src/serve/stream.rs]: the latest group of a track sent on a
    single stream, its objects and their chunks. The shape is that of the
    subgroups of [Subgroup] and [Groups]; what differs is written out here. *)
From Stdlib Require Import NArith Lia Bool.
From stdpp Require Import base list gmap option numbers.
From S2P Require Import Prelude Buffers Utf8 Coding Setup Data Errors Watch Serve.

Module Stream.
Record t := mk { track : Track.t; priority : byte }.
End Stream.

Module StreamGroup.
Record t := mk { stream : Stream.t; group_id : N }.
End StreamGroup.

Module StreamObject.
Record t := mk { group : StreamGroup.t; object_id : N; size : N; status : ObjectStatus.t }.
End StreamObject.

(** ** Objects *)

Module StreamObjectState.
Record t := mk { chunks : list (list byte); closed : option ServeError }.
Definition default : t := mk [] None.
Definition push (chunk : list byte) (s : t) : t := mk (chunks s ++ [chunk]) (closed s).

#[export] Instance closable : Closable t :=
  {| Serve.closed := closed; set_closed r s := mk (chunks s) r; closed_set r s := eq_refl |}.
End StreamObjectState.
Export (hints) StreamObjectState.

Module StreamObjectWriter.
Record t := mk { state : Handle; info : StreamObject.t; remain : N }.

Definition new (state : Handle) (info : StreamObject.t) : t := mk state info (StreamObject.size info).

Definition write (chunk : list byte) : M (t * Cell StreamObjectState.t) ServeError unit :=
  fun '(self, c) =>
    if remain self <? lenN chunk then (Err ServeErr.Size, (self, c))
    else
      let self := mk (state self) (info self) (remain self - lenN chunk) in
      let (r, c) := mutate (StreamObjectState.push chunk) c in (r, (self, c)).

(** Unlike a subgroup's, this one may be closed before its end. *)
Definition close (err : ServeError) (c : Cell StreamObjectState.t) :
    outcome ServeError unit * Cell StreamObjectState.t := close_cell err c.

(** [Drop::drop]: an unfinished object that is not closed yet. *)
Definition drop (self : t) (c : Cell StreamObjectState.t) : Cell StreamObjectState.t :=
  if remain self =? 0 then c else snd (close_cell ServeErr.Size c).
End StreamObjectWriter.

Module StreamObjectReader.
Record t := mk { state : Handle; info : StreamObject.t; index : N }.
Definition new (state : Handle) (info : StreamObject.t) : t := mk state info 0.

Definition read_turn (self : t) (c : Cell StreamObjectState.t) : turn (option (list byte)) * t :=
  let (r, i) := log_turn StreamObjectState.chunks (index self) c in
  (r, mk (state self) (info self) i).
End StreamObjectReader.

(** ** Groups *)

Module StreamGroupState.
Record t := mk { objects : list StreamObjectReader.t; closed : option ServeError }.
Definition default : t := mk [] None.
Definition push (o : StreamObjectReader.t) (s : t) : t := mk (objects s ++ [o]) (closed s).

#[export] Instance closable : Closable t :=
  {| Serve.closed := closed; set_closed r s := mk (objects s) r; closed_set r s := eq_refl |}.
End StreamGroupState.
Export (hints) StreamGroupState.

Module StreamGroupReader.
Record t := mk { info : StreamGroup.t; state : Handle; index : N }.
Definition new (state : Handle) (info : StreamGroup.t) : t := mk info state 0.
End StreamGroupReader.

Module StreamState.
Record t := mk { latest : option StreamGroupReader.t; epoch : N; closed : option ServeError }.
Definition default : t := mk None 0 None.

#[export] Instance closable : Closable t :=
  {| Serve.closed := closed; set_closed r s := mk (latest s) (epoch s) r;
     closed_set r s := eq_refl |}.
End StreamState.
Export (hints) StreamState.

Module StreamWorld.
Record t := mk {
  tops : Arena StreamState.t;
  groups : Arena StreamGroupState.t;
  objects : Arena StreamObjectState.t;
}.

Definition new : t :=
  mk (arena_new StreamState.default) (arena_new StreamGroupState.default)
     (arena_new StreamObjectState.default).

Definition with_tops (a : Arena StreamState.t) (w : t) : t := mk a (groups w) (objects w).
Definition with_groups (a : Arena StreamGroupState.t) (w : t) : t := mk (tops w) a (objects w).
Definition with_objects (a : Arena StreamObjectState.t) (w : t) : t := mk (tops w) (groups w) a.

(** *** What dropping does *)

Definition drop_object_reader (r : StreamObjectReader.t) (w : t) : t :=
  with_objects (snd (drop_handle (StreamObjectReader.state r) (objects w))) w.

Definition drop_object_writer (o : StreamObjectWriter.t) (w : t) : t :=
  let h := StreamObjectWriter.state o in
  let (_, a) := on_cell h (fun c => (tt, StreamObjectWriter.drop o c)) (objects w) in
  with_objects (snd (drop_handle h a)) w.

Definition drop_group_handle (h : Handle) (w : t) : t :=
  let (value, a) := drop_handle h (groups w) in
  fold_right drop_object_reader (with_groups a w)
    (match value with Some s => StreamGroupState.objects s | None => [] end).

Definition drop_group_reader (r : StreamGroupReader.t) (w : t) : t :=
  drop_group_handle (StreamGroupReader.state r) w.

Definition drop_top_handle (h : Handle) (w : t) : t :=
  let (value, a) := drop_handle h (tops w) in
  match value with
  | Some {| StreamState.latest := Some r |} => drop_group_reader r (with_tops a w)
  | _ => with_tops a w
  end.
End StreamWorld.
Import StreamWorld (tops, groups, objects, with_tops, with_groups, with_objects).

Module StreamGroupWriter.
Record t := mk { state : Handle; info : StreamGroup.t; next : N }.
Definition new (state : Handle) (info : StreamGroup.t) : t := mk state info 0.

(** The object takes the number [next], which stays as it is; nothing is made
    when the lock fails. *)
Definition create (size : N) : M (t * StreamWorld.t) ServeError StreamObjectWriter.t :=
  fun '(self, w) =>
    let object := StreamObject.mk (info self) (next self) size ObjectStatus.Object in
    let '((wh, rh), oa) := default_split StreamObjectState.default (objects w) in
    match on_cell (state self)
            (mutate (StreamGroupState.push (StreamObjectReader.new rh object))) (groups w) with
    | (Ok _, a) => (Ok (StreamObjectWriter.new wh object), (self, with_groups a (with_objects oa w)))
    | (Err e, a) => (Err e, (self, with_groups a w))
    | (Panic, a) => (Panic, (self, with_groups a w))
    end.

Definition write_object (o : StreamObjectWriter.t) (chunk : list byte) (w : StreamWorld.t) :
    outcome ServeError unit * (StreamObjectWriter.t * StreamWorld.t) :=
  let h := StreamObjectWriter.state o in
  let '(r, (o, c)) := StreamObjectWriter.write chunk (o, cell_of h (objects w)) in
  (r, (o, with_objects (put (loc h) c (objects w)) w)).

Definition write (payload : list byte) : M (t * StreamWorld.t) ServeError unit :=
  let! writer := create (lenN payload) in
  fun '(self, w) =>
    let '(r, (writer, w)) := write_object writer payload w in
    (r, (self, StreamWorld.drop_object_writer writer w)).

Definition close (err : ServeError) (self : t) (w : StreamWorld.t) :
    outcome ServeError unit * StreamWorld.t :=
  let (r, a) := on_cell (state self) (close_cell err) (groups w) in
  (r, StreamWorld.drop_group_handle (state self) (with_groups a w)).
End StreamGroupWriter.

Module StreamGroupRead.
Import StreamGroupReader.

Definition clone (self : t) (w : StreamWorld.t) : t * StreamWorld.t :=
  let (h, a) := clone_handle (state self) (groups w) in
  (mk (info self) h (index self), with_groups a w).

Definition clone_object (o : StreamObjectReader.t) (w : StreamWorld.t) :
    StreamObjectReader.t * StreamWorld.t :=
  let (h, a) := clone_handle (StreamObjectReader.state o) (objects w) in
  (StreamObjectReader.mk h (StreamObjectReader.info o) (StreamObjectReader.index o),
   with_objects a w).

(** One turn of [next]: the index moves before the list is indexed with it. *)
Definition next_turn (self : t) (w : StreamWorld.t) :
    turn (option StreamObjectReader.t) * (t * StreamWorld.t) :=
  let c := cell_of (state self) (groups w) in
  let objects := StreamGroupState.objects (lock c) in
  if index self <? lenN objects then
    let self := mk (info self) (state self) (index self + 1) in
    match objects !! N.to_nat (index self) with
    | Some o => let (o, w) := clone_object o w in (Return (Ok (Some o)), (self, w))
    | None => (Return Panic, (self, w))
    end
  else (idle c (Ok None), (self, w)).

Definition latest (self : t) (w : StreamWorld.t) : N :=
  default 0 ((fun o => StreamObject.object_id (StreamObjectReader.info o)) <$>
    last (StreamGroupState.objects (lock (cell_of (state self) (groups w))))).
End StreamGroupRead.

(** ** The stream *)

Module StreamReader.
Record t := mk { state : Handle; info : Stream.t; epoch : N }.
Definition new (state : Handle) (info : Stream.t) : t := mk state info 0.

Definition clone (self : t) (w : StreamWorld.t) : t * StreamWorld.t :=
  let (h, a) := clone_handle (state self) (tops w) in
  (mk h (info self) (epoch self), with_tops a w).

Definition drop (self : t) (w : StreamWorld.t) : StreamWorld.t :=
  StreamWorld.drop_top_handle (state self) w.

(** One turn of [next], with the [unwrap] of the latest group. *)
Definition next_turn (self : t) (w : StreamWorld.t) :
    turn (option StreamGroupReader.t) * (t * StreamWorld.t) :=
  let c := cell_of (state self) (tops w) in
  let st := lock c in
  if negb (epoch self =? StreamState.epoch st) then
    let self := mk (state self) (info self) (StreamState.epoch st) in
    match StreamState.latest st with
    | Some r => let (r, w) := StreamGroupRead.clone r w in (Return (Ok (Some r)), (self, w))
    | None => (Return Panic, (self, w))
    end
  else (idle c (Ok None), (self, w)).

Definition latest (self : t) (w : StreamWorld.t) : option (N * N) :=
  (fun group => (StreamGroup.group_id (StreamGroupReader.info group), StreamGroupRead.latest group w)) <$>
    StreamState.latest (lock (cell_of (state self) (tops w))).
End StreamReader.

Module StreamWriter.
Record t := mk { state : Handle; info : Stream.t }.
Definition new (state : Handle) (info : Stream.t) : t := mk state info.

(** [Stream::produce] *)
Definition produce (self : Stream.t) (w : StreamWorld.t) : (t * StreamReader.t) * StreamWorld.t :=
  let '((writer, reader), a) := default_split StreamState.default (tops w) in
  ((new writer self, StreamReader.new reader self), with_tops a w).

Definition drop (self : t) (w : StreamWorld.t) : StreamWorld.t :=
  StreamWorld.drop_top_handle (state self) w.

(** The critical section of [create]: whether the group is refused, and the
    reader it replaces. *)
Definition set_latest (reader : StreamGroupReader.t) (s : StreamState.t) :
    option (option StreamGroupReader.t) * StreamState.t :=
  let group_id := StreamGroup.group_id (StreamGroupReader.info reader) in
  if match StreamState.latest s with
     | Some latest => group_id <? StreamGroup.group_id (StreamGroupReader.info latest)
     | None => false
     end
  then (None, s)
  else (Some (StreamState.latest s),
        StreamState.mk (Some reader) ((StreamState.epoch s + 1) mod 2 ^ 64) (StreamState.closed s)).

(** The group's cell is only kept when the group is. *)
Definition create (group_id : N) : M (t * StreamWorld.t) ServeError StreamGroupWriter.t :=
  fun '(self, w) =>
    let group := StreamGroup.mk (info self) group_id in
    let '((wh, rh), ga) := default_split StreamGroupState.default (groups w) in
    let reader := StreamGroupReader.new rh group in
    let (r, a) := on_cell (state self) (with_mut (set_latest reader)) (tops w) in
    match r with
    | None => (Err ServeErr.Cancel, (self, with_tops a w))
    | Some None => (Err ServeErr.Duplicate, (self, with_tops a w))
    | Some (Some old) =>
        let w := with_groups ga (with_tops a w) in
        (Ok (StreamGroupWriter.new wh group),
         (self, match old with Some r => StreamWorld.drop_group_reader r w | None => w end))
    end.

(** The number is looked up first; another clone of the writer may come in
    between the two critical sections. *)
Definition append_next (self : t) (w : StreamWorld.t) : N :=
  match StreamState.latest (lock (cell_of (state self) (tops w))) with
  | Some g => (StreamGroup.group_id (StreamGroupReader.info g) + 1) mod 2 ^ 64
  | None => 0
  end.

Definition append : M (t * StreamWorld.t) ServeError StreamGroupWriter.t := fun '(self, w) =>
  create (append_next self w) (self, w).

Definition close (err : ServeError) (self : t) (w : StreamWorld.t) :
    outcome ServeError unit * StreamWorld.t :=
  let (r, a) := on_cell (state self) (close_cell err) (tops w) in
  (r, drop self (with_tops a w)).
End StreamWriter.

(** ** What [create] does *)

#[local] Arguments StreamWorld.drop_group_handle : simpl never.
#[local] Arguments StreamWorld.drop_group_reader : simpl never.

Lemma drop_group_reader_tops r w : tops (StreamWorld.drop_group_reader r w) = tops w.
Proof.
  unfold StreamWorld.drop_group_reader, StreamWorld.drop_group_handle.
  destruct (drop_handle _ (groups w)) as [v a]. generalize (match v with Some s => StreamGroupState.objects s | None => [] end).
  intros l. induction l as [|x l IH]; simpl; [done|exact IH].
Qed.

Definition group_of (r : StreamGroupReader.t) : N := StreamGroup.group_id (StreamGroupReader.info r).

Lemma stream_create_top group_id self w :
  let c := cell_of (StreamWriter.state self) (tops w) in
  let '(r, (self', w')) := StreamWriter.create group_id (self, w) in
  let c' := cell_of (StreamWriter.state self) (tops w') in
  self' = self /\
  ((exists e, r = Err e /\ w' = with_tops (tops w') w /\ lock c' = lock c /\
     ((dropped (inner c) = None /\ e = ServeErr.Cancel) \/
      (dropped (inner c) <> None /\ e = ServeErr.Duplicate /\
       exists l, StreamState.latest (lock c) = Some l /\ group_id < group_of l))) \/
   (dropped (inner c) <> None /\
    (forall l, StreamState.latest (lock c) = Some l -> group_of l <= group_id) /\
    exists wr rd, r = Ok wr /\ StreamGroupWriter.info wr = StreamGroup.mk (StreamWriter.info self) group_id /\
      StreamGroupReader.info rd = StreamGroupWriter.info wr /\
      lock c' = StreamState.mk (Some rd) ((StreamState.epoch (lock c) + 1) mod 2 ^ 64)
        (StreamState.closed (lock c)))).
Proof.
  cbv zeta. unfold StreamWriter.create, on_cell, with_mut.
  destruct (default_split _ _) as [[wh rh] oa]. set (c := cell_of _ (tops w)).
  destruct (dropped (inner c)) eqn:Ed.
  - unfold StreamWriter.set_latest. fold (lock c).
    destruct (StreamState.latest (lock c)) as [l|] eqn:El; cbn -[N.pow N.modulo N.ltb].
    + fold (group_of l). destruct (N.ltb_spec group_id (group_of l)) as [Hl|Hl]; cbn -[N.pow N.modulo].
      * rewrite cell_put_eq. split; [done|]. left. eexists. do 3 (split; [reflexivity|]).
        right. split; [done|]. split; [done|]. by exists l.
      * rewrite drop_group_reader_tops. cbn -[N.pow N.modulo]. rewrite cell_put_eq. split; [done|]. right.
        split; [done|]. split; [by intros ? [= <-]|]. eexists _, (StreamGroupReader.new rh _).
        split; [reflexivity|]. split; [reflexivity|]. split; reflexivity.
    + rewrite cell_put_eq. split; [done|]. right. split; [done|]. split; [done|].
      eexists _, (StreamGroupReader.new rh _). split; [reflexivity|]. split; [reflexivity|]. split; reflexivity.
  - cbn -[N.pow N.modulo]. rewrite cell_put_eq. split; [done|]. left. eexists. do 3 (split; [reflexivity|]).
    by left.
Qed.

(** ** Properties *)

(** What [next] of a group on a stream does: the object
    at its index is skipped and the one behind it returned; at the last object
    it panics, with the mutex held; so the first object of a group is never read
    and one that is alone cannot be. The writer gives all objects of a group the
    same number. *)
Theorem stream_group_next (self : StreamGroupReader.t) (g : StreamGroupWriter.t) (size : N)
    (w : StreamWorld.t) :
  let c := cell_of (StreamGroupReader.state self) (groups w) in
  let l := StreamGroupState.objects (lock c) in
  let i := StreamGroupReader.index self in
  let '(res, (self', _)) := StreamGroupRead.next_turn self w in
  (i + 1 < lenN l -> exists o, l !! N.to_nat (i + 1) = Some o /\ res = Return (Ok (Some o))) /\
  (i + 1 = lenN l -> res = Return Panic) /\
  (i < lenN l -> StreamGroupReader.index self' = i + 1) /\
  (lenN l <= i -> res = idle c (Ok None) /\ self' = self) /\
  match StreamGroupWriter.create size (g, w) with
  | (Ok o, (g', _)) =>
      StreamObject.object_id (StreamObjectWriter.info o) = StreamGroupWriter.next g /\ g' = g
  | (r, (g', _)) => r = Err ServeErr.Cancel /\ g' = g
  end.
Proof.
  cbv zeta. assert (Hc : match StreamGroupWriter.create size (g, w) with
    | (Ok o, (g', _)) =>
        StreamObject.object_id (StreamObjectWriter.info o) = StreamGroupWriter.next g /\ g' = g
    | (r, (g', _)) => r = Err ServeErr.Cancel /\ g' = g
    end).
  { unfold StreamGroupWriter.create, on_cell. destruct (default_split _ _) as [[wh rh] oa].
    rewrite mutate_spec. by destruct (dropped _). }
  unfold StreamGroupRead.next_turn. set (c := cell_of _ (groups w)).
  set (l := StreamGroupState.objects (lock c)).
  destruct (N.ltb_spec (StreamGroupReader.index self) (lenN l)) as [Hl|Hl]; simpl.
  - destruct (l !! N.to_nat (StreamGroupReader.index self + 1)) as [o|] eqn:Eo; simpl.
    + pose proof (lookup_lt_Some _ _ _ Eo) as Hlt. unfold lenN in *.
      split; [intros _; exists o; by destruct o|]. split; [lia|]. split; [done|]. split; [lia|done].
    + apply lookup_ge_None in Eo. unfold lenN in *.
      split; [lia|]. split; [done|]. split; [done|]. split; [lia|done].
  - split; [lia|]. split; [lia|]. split; [lia|]. done.
Qed.

(** Groups on a stream only move forward, but not
    strictly: [create] refuses a group older than the latest, leaving the cell's
    value and every group alone, and takes any other, the latest one's number
    included; [append], undisturbed, is never refused before the numbers wrap. *)
Theorem stream_create (group_id : N) (self : StreamWriter.t) (w : StreamWorld.t) :
  let c := cell_of (StreamWriter.state self) (tops w) in
  let latest := group_of <$> StreamState.latest (lock c) in
  let '(r, (_, w')) := StreamWriter.create group_id (self, w) in
  let st' := lock (cell_of (StreamWriter.state self) (tops w')) in
  match dropped (inner c) with
  | None => r = Err ServeErr.Cancel /\ groups w' = groups w /\ st' = lock c
  | Some _ =>
      (forall g, latest = Some g -> group_id < g ->
        r = Err ServeErr.Duplicate /\ groups w' = groups w /\ st' = lock c) /\
      ((forall g, latest = Some g -> g <= group_id) ->
        (exists wr, r = Ok wr /\
          StreamGroupWriter.info wr = StreamGroup.mk (StreamWriter.info self) group_id) /\
        group_of <$> StreamState.latest st' = Some group_id /\
        StreamState.epoch st' = (StreamState.epoch (lock c) + 1) mod 2 ^ 64) /\
      ((forall g, latest = Some g -> g < 2 ^ 64 - 1) ->
        exists wr, fst (StreamWriter.append (self, w)) = Ok wr)
  end.
Proof.
  cbv zeta. unfold StreamWriter.append.
  pose proof (stream_create_top group_id self w) as H.
  pose proof (stream_create_top (StreamWriter.append_next self w) self w) as Ha. cbv zeta in H, Ha.
  unfold StreamWriter.append_next in *. set (c := cell_of _ (tops w)) in *.
  destruct (StreamWriter.create group_id _) as [r [self' w']].
  destruct (StreamWriter.create (match _ with Some _ => _ | None => _ end) _) as [r2 [self2 w2]].
  assert (Hap : dropped (inner c) <> None ->
    (forall g, group_of <$> StreamState.latest (lock c) = Some g -> g < 2 ^ 64 - 1) ->
    exists wr, fst (r2, (self2, w2)) = Ok wr).
  { intros Hd Hb. destruct Ha as [_ [(e & _ & _ & _ & [[? _]|(_ & _ & l & El & Hlt)])|(_ & _ & wr & _ & -> & _)]];
      [done| |by exists wr].
    exfalso. rewrite El in Hb, Hlt. specialize (Hb _ eq_refl). unfold group_of in *.
    rewrite N.mod_small in Hlt by lia. lia. }
  destruct (dropped (inner c)).
  - destruct H as [_ [(e & -> & -> & Hl & [[? _]|(_ & -> & l & El & Hlt)])|(_ & Hle & wr & rd & -> & Hw & Hr & Hl)]]; [done| |].
    all: split; [|split].
    + done.
    + intros Hg. rewrite El in Hg. specialize (Hg _ eq_refl). lia.
    + by apply Hap.
    + intros g Hg Hlt. destruct (StreamState.latest (lock c)) as [l|]; simplify_eq/=. specialize (Hle l eq_refl). lia.
    + intros _. split; [by exists wr|]. rewrite Hl. simpl. unfold group_of. by rewrite Hr, Hw.
    + by apply Hap.
  - destruct H as [_ [(e & -> & -> & Hl & [[_ ->]|[? _]])|[? _]]]; done.
Qed.

(** One object written to a group, and a reader at its start. *)
Definition demo_group : StreamGroupWriter.t * StreamWorld.t :=
  let '((wr, _), w) :=
    StreamWriter.produce (Stream.mk (Track.mk (Tuple.mk []) (mk_String [] eq_refl)) x00) StreamWorld.new in
  match StreamWriter.create 4 (wr, w) with
  | (Ok g, (_, w)) => snd (StreamGroupWriter.write [x61] (g, w))
  | (_, (_, w)) => (StreamGroupWriter.new {| loc := 0; half := 0%nat |} (StreamGroup.mk (StreamWriter.info wr) 0), w)
  end.

Lemma stream_group_next_witness :
  let r := StreamGroupReader.new {| loc := 0; half := 1%nat |} (StreamGroupWriter.info (fst demo_group)) in
  lenN (StreamGroupState.objects (lock (cell_of (StreamGroupReader.state r) (groups (snd demo_group))))) = 1 /\
  fst (StreamGroupRead.next_turn r (snd demo_group)) = Return Panic.
Proof.
  cbv zeta. set (r := StreamGroupReader.new _ _). destruct demo_group as [g w] eqn:E.
  assert (Hl : lenN (StreamGroupState.objects (lock (cell_of (StreamGroupReader.state r) (groups w)))) = 1)
    by (replace w with (snd demo_group) by (rewrite E; reflexivity); vm_compute; reflexivity).
  split; [exact Hl|]. pose proof (stream_group_next r g 0 w) as H. cbv zeta in H. simpl fst.
  destruct (StreamGroupRead.next_turn r w) as [res [r' w']]. destruct H as (_ & H & _).
  apply H. simpl snd in Hl. rewrite Hl. reflexivity.
Defined.
