(* ===== verification/Objects.v ===== *)
(** * Tracks made of objects in priority order

    [moq-transport/src/serve/object.rs]: the objects of the latest group of a
    track, each a list of chunks; a reader collects the ones it has not seen in a
    priority queue and hands out the most urgent first. *)
From Stdlib Require Import NArith Lia Bool.
From stdpp Require Import base list gmap option numbers.
From S2P Require Import Prelude Buffers Utf8 Coding Setup Data Errors Watch Serve.

(** ** One object *)

Module ObjectInfo.
Record t := mk {
  track : Track.t; group_id : N; object_id : N; priority : byte; status : ObjectStatus.t;
}.
End ObjectInfo.

(** What a user gives. *)
Module Object.
Record t := mk { group_id : N; object_id : N; priority : byte }.
End Object.

Module ObjectState.
Record t := mk { chunks : list (list byte); closed : option ServeError }.
Definition default : t := mk [] None.
Definition push (chunk : list byte) (s : t) : t := mk (chunks s ++ [chunk]) (closed s).

#[export] Instance closable : Closable t :=
  {| Serve.closed := closed; set_closed r s := mk (chunks s) r; closed_set r s := eq_refl |}.
End ObjectState.
Export (hints) ObjectState.

Module ObjectWriter.
Record t := mk { state : Handle; info : ObjectInfo.t }.
Definition new (state : Handle) (object : ObjectInfo.t) : t := mk state object.

(** Any number of bytes: these objects have no size. *)
Definition write (chunk : list byte) (c : Cell ObjectState.t) :
    outcome ServeError unit * Cell ObjectState.t := mutate (ObjectState.push chunk) c.

Definition close (err : ServeError) (c : Cell ObjectState.t) :
    outcome ServeError unit * Cell ObjectState.t := close_cell err c.
End ObjectWriter.

Module ObjectReader.
Record t := mk { state : Handle; info : ObjectInfo.t; index : N }.
Definition new (state : Handle) (object : ObjectInfo.t) : t := mk state object 0.

Definition read_turn (self : t) (c : Cell ObjectState.t) : turn (option (list byte)) * t :=
  let (r, i) := log_turn ObjectState.chunks (index self) c in
  (r, mk (state self) (info self) i).

(** [Ord::cmp]: the greatest is handed out first. *)
Definition cmp (self other : t) : comparison :=
  let a := info self in
  let b := info other in
  match nb (ObjectInfo.priority b) ?= nb (ObjectInfo.priority a) with
  | Eq =>
      match ObjectInfo.group_id a ?= ObjectInfo.group_id b with
      | Eq => ObjectInfo.object_id b ?= ObjectInfo.object_id a
      | r => r
      end
  | r => r
  end.

(** [PartialEq::eq] *)
Definition eq (self other : t) : bool := match cmp self other with Eq => true | _ => false end.
End ObjectReader.

(** ** The objects of a track *)

Module ObjectsState.
Record t := mk { objects : list ObjectReader.t; epoch : N; closed : option ServeError }.
Definition default : t := mk [] 0 None.

#[export] Instance closable : Closable t :=
  {| Serve.closed := closed; set_closed r s := mk (objects s) (epoch s) r; closed_set r s := eq_refl |}.
End ObjectsState.
Export (hints) ObjectsState.

Module ObjectWorld.
Record t := mk { tops : Arena ObjectsState.t; objects : Arena ObjectState.t }.
Definition new : t := mk (arena_new ObjectsState.default) (arena_new ObjectState.default).
Definition with_tops (a : Arena ObjectsState.t) (w : t) : t := mk a (objects w).
Definition with_objects (a : Arena ObjectState.t) (w : t) : t := mk (tops w) a.

(** *** What dropping does *)

Definition drop_object (h : Handle) (w : t) : t := with_objects (snd (drop_handle h (objects w))) w.

Definition drop_readers (l : list ObjectReader.t) (w : t) : t :=
  fold_right (fun r => drop_object (ObjectReader.state r)) w l.

Definition drop_top_handle (h : Handle) (w : t) : t :=
  let (value, a) := drop_handle h (tops w) in
  drop_readers (match value with Some s => ObjectsState.objects s | None => [] end) (with_tops a w).
End ObjectWorld.

(** [std::collections::BinaryHeap]: what [pop] takes out is in the heap and no
    element left is greater; among equals the choice is the library's. *)
Class BinaryHeap := {
  heap_pop : list ObjectReader.t -> option (ObjectReader.t * list ObjectReader.t);
  heap_pop_None : forall l, heap_pop l = None <-> l = [];
  heap_pop_Some : forall l x rest, heap_pop l = Some (x, rest) ->
    l ≡ₚ x :: rest /\ forall y, y ∈ rest -> ObjectReader.cmp y x <> Gt;
}.

Module ObjectsWriter.
Record t := mk { state : Handle; track : Track.t }.

(** The critical section of [create]: whether the object is kept, and the
    readers of the group it replaces. *)
Definition push (reader : ObjectReader.t) (s : ObjectsState.t) :
    (bool * list ObjectReader.t) * ObjectsState.t :=
  let group_id r := ObjectInfo.group_id (ObjectReader.info r) in
  let add old kept :=
    ((true, old), ObjectsState.mk (kept ++ [reader]) ((ObjectsState.epoch s + 1) mod 2 ^ 64)
                    (ObjectsState.closed s)) in
  match ObjectsState.objects s with
  | [] => add [] []
  | first :: _ =>
      match group_id reader ?= group_id first with
      | Lt => ((false, []), s)
      | Gt => add (ObjectsState.objects s) []
      | Eq => add [] (ObjectsState.objects s)
      end
  end.

Definition create (object : Object.t) (self : t) (w : ObjectWorld.t) :
    outcome ServeError ObjectWriter.t * ObjectWorld.t :=
  let object := ObjectInfo.mk (track self) (Object.group_id object) (Object.object_id object)
    (Object.priority object) ObjectStatus.Object in
  let '((wh, rh), oa) := default_split ObjectState.default (ObjectWorld.objects w) in
  let writer := ObjectWriter.new wh object in
  let reader := ObjectReader.new rh object in
  let (r, a) := on_cell (state self) (with_mut (push reader)) (ObjectWorld.tops w) in
  let w := ObjectWorld.with_tops a (ObjectWorld.with_objects oa w) in
  match r with
  | None => (Err ServeErr.Cancel, ObjectWorld.drop_object wh (ObjectWorld.drop_object rh w))
  | Some (false, _) => (Ok writer, ObjectWorld.drop_object rh w)
  | Some (true, old) => (Ok writer, ObjectWorld.drop_readers old w)
  end.

Definition write (object : Object.t) (payload : list byte) (self : t) (w : ObjectWorld.t) :
    outcome ServeError unit * ObjectWorld.t :=
  match create object self w with
  | (Ok writer, w) =>
      let h := ObjectWriter.state writer in
      let (r, a) := on_cell h (ObjectWriter.write payload) (ObjectWorld.objects w) in
      (r, ObjectWorld.drop_object h (ObjectWorld.with_objects a w))
  | (Err e, w) => (Err e, w)
  | (Panic, w) => (Panic, w)
  end.

Definition close (err : ServeError) (self : t) (w : ObjectWorld.t) :
    outcome ServeError unit * ObjectWorld.t :=
  let (r, a) := on_cell (state self) (close_cell err) (ObjectWorld.tops w) in
  (r, ObjectWorld.drop_top_handle (state self) (ObjectWorld.with_tops a w)).
End ObjectsWriter.

Module ObjectsReader.
Record t := mk { state : Handle; info : Track.t; epoch : N; pending : list ObjectReader.t }.
Definition new (state : Handle) (info : Track.t) : t := mk state info 0 [].

Section Heap.
Context {H : BinaryHeap}.

Definition clone_object (r : ObjectReader.t) (w : ObjectWorld.t) : ObjectWorld.t :=
  ObjectWorld.with_objects (snd (clone_handle (ObjectReader.state r) (ObjectWorld.objects w))) w.

(** The objects pushed since the reader's epoch, as far as they are of the
    current group: the saturating subtraction cuts off the others. *)
Definition fresh (self : t) (st : ObjectsState.t) : list ObjectReader.t :=
  drop (N.to_nat (lenN (ObjectsState.objects st) - (ObjectsState.epoch st - epoch self)))
    (ObjectsState.objects st).

(** One turn of [next]. *)
Definition next_turn (self : t) (w : ObjectWorld.t) :
    turn (option ObjectReader.t) * (t * ObjectWorld.t) :=
  let c := cell_of (state self) (ObjectWorld.tops w) in
  let st := lock c in
  let (self, w) :=
    if epoch self <? ObjectsState.epoch st then
      (mk (state self) (info self) (ObjectsState.epoch st) (pending self ++ fresh self st),
       fold_right clone_object w (fresh self st))
    else (self, w) in
  match heap_pop (pending self) with
  | Some (object, rest) =>
      (Return (Ok (Some object)), (mk (state self) (info self) (epoch self) rest, w))
  | None => (idle c (Ok None), (self, w))
  end.
End Heap.

(** [max_by_key] keeps the last of equal keys; the keys are returned. *)
Definition latest (self : t) (w : ObjectWorld.t) : option (N * N) :=
  fold_left (fun best r =>
      let k := (ObjectInfo.group_id (ObjectReader.info r), ObjectInfo.object_id (ObjectReader.info r)) in
      match best with
      | Some b => if (k.1 <? b.1) || (k.1 =? b.1) && (k.2 <? b.2) then Some b else Some k
      | None => Some k
      end)
    (ObjectsState.objects (lock (cell_of (state self) (ObjectWorld.tops w)))) None.
End ObjectsReader.

(** [Objects::produce] *)
Definition produce (track : Track.t) (w : ObjectWorld.t) :
    (ObjectsWriter.t * ObjectsReader.t) * ObjectWorld.t :=
  let '((writer, reader), a) := default_split ObjectsState.default (ObjectWorld.tops w) in
  ((ObjectsWriter.mk writer track, ObjectsReader.new reader track), ObjectWorld.with_tops a w).

(** ** What [create] does to the track's cell *)

#[local] Arguments ObjectWorld.drop_object : simpl never.

Lemma drop_readers_tops l w : ObjectWorld.tops (ObjectWorld.drop_readers l w) = ObjectWorld.tops w.
Proof. unfold ObjectWorld.drop_readers. induction l as [|x l IH]; simpl; [done|exact IH]. Qed.

Lemma clone_objects_tops l w :
  ObjectWorld.tops (fold_right ObjectsReader.clone_object w l) = ObjectWorld.tops w.
Proof. induction l as [|x l IH]; simpl; [done|exact IH]. Qed.

Lemma objects_create_top object self w :
  let st := lock (cell_of (ObjectsWriter.state self) (ObjectWorld.tops w)) in
  let (r, w') := ObjectsWriter.create object self w in
  let st' := lock (cell_of (ObjectsWriter.state self) (ObjectWorld.tops w')) in
  st' = st \/
  exists reader kept, (kept = [] \/ kept = ObjectsState.objects st) /\
    st' = ObjectsState.mk (kept ++ [reader]) ((ObjectsState.epoch st + 1) mod 2 ^ 64)
      (ObjectsState.closed st).
Proof.
  cbv zeta. unfold ObjectsWriter.create, on_cell, with_mut.
  destruct (default_split _ _) as [[wh rh] oa]. set (rd := ObjectReader.new rh _).
  set (c := cell_of _ (ObjectWorld.tops w)).
  destruct (dropped (inner c)) eqn:Ed; [|left; simpl; by rewrite cell_put_eq].
  fold (lock c). unfold ObjectsWriter.push.
  destruct (ObjectsState.objects (lock c)) as [|first l] eqn:El.
  - right. exists rd, []. split; [by left|]. cbn -[N.pow N.modulo]. rewrite ?drop_readers_tops. simpl.
    by rewrite cell_put_eq.
  - destruct (_ ?= _); cbn -[N.pow N.modulo ObjectWorld.drop_readers].
    + right. exists rd, (first :: l). split; [by right|].
      rewrite drop_readers_tops. simpl. by rewrite cell_put_eq.
    + left. unfold ObjectWorld.drop_object. simpl. by rewrite cell_put_eq.
    + right. exists rd, []. split; [by left|].
      rewrite drop_readers_tops. simpl. by rewrite cell_put_eq.
Qed.

(** ** A track's objects among tasks *)
Module Board.

(** Ghost fields: the objects that were ever kept, and what each reader was
    handed. *)
Record t := mk {
  writer : ObjectsWriter.t;
  world : ObjectWorld.t;
  pushed : list ObjectReader.t;
  readers : list (ObjectsReader.t * list ObjectReader.t);
}.

Section Heap.
Context {H : BinaryHeap}.

Definition state_of (s : t) : ObjectsState.t :=
  lock (cell_of (ObjectsWriter.state (writer s)) (ObjectWorld.tops (world s))).

Definition create (object : Object.t) (s : t) : t :=
  let (_, w) := ObjectsWriter.create object (writer s) (world s) in
  let st := lock (cell_of (ObjectsWriter.state (writer s)) (ObjectWorld.tops w)) in
  mk (writer s) w
     (pushed s ++ if ObjectsState.epoch st =? ObjectsState.epoch (state_of s) then []
                  else option_list (last (ObjectsState.objects st)))
     (readers s).

Definition read (i : nat) (r : ObjectsReader.t) (handed : list ObjectReader.t) (s : t) : t :=
  let '(res, (r, w)) := ObjectsReader.next_turn r (world s) in
  mk (writer s) w (pushed s)
     (<[i := (r, handed ++ match res with Return (Ok (Some o)) => [o] | _ => [] end)]> (readers s)).

Definition start (track : Track.t) (w : ObjectWorld.t) : t :=
  let '((writer, reader), w) := produce track w in mk writer w [] [(reader, [])].

Inductive step : t -> t -> Prop :=
  | do_create s object : step s (create object s)
  | do_read s i r handed : readers s !! i = Some (r, handed) -> step s (read i r handed s)
  | do_clone s i r handed : readers s !! i = Some (r, handed) ->
      step s (mk (writer s) (world s) (pushed s) (readers s ++ [(r, handed)]))
  | do_env s w : all_stay (ObjectWorld.tops (world s)) (ObjectWorld.tops w) ->
      step s (mk (writer s) w (pushed s) (readers s)).

(** What is kept of the first [e] objects pushed. *)
Definition kept (s : t) (e : nat) : list ObjectReader.t :=
  drop (length (pushed s) - length (ObjectsState.objects (state_of s))) (take e (pushed s)).

(** A reader's share: nothing twice, and all of the current group. *)
Definition shares (s : t) (p : ObjectsReader.t * list ObjectReader.t) : Prop :=
  loc (ObjectsReader.state p.1) = loc (ObjectsWriter.state (writer s)) /\
  ObjectsReader.epoch p.1 <= lenN (pushed s) /\
  p.2 ++ ObjectsReader.pending p.1 ⊆+ take (N.to_nat (ObjectsReader.epoch p.1)) (pushed s) /\
  kept s (N.to_nat (ObjectsReader.epoch p.1)) ⊆+ p.2 ++ ObjectsReader.pending p.1.

Record inv (s : t) : Prop := {
  inv_epoch : ObjectsState.epoch (state_of s) = lenN (pushed s) mod 2 ^ 64;
  inv_suffix : ObjectsState.objects (state_of s) `suffix_of` pushed s;
  inv_shares : lenN (pushed s) < 2 ^ 64 -> Forall (shares s) (readers s);
}.

Lemma suffix_drop {A} (k l : list A) : k `suffix_of` l -> drop (length l - length k) l = k.
Proof. intros [m ->]. rewrite length_app, Nat.add_sub. apply drop_app_length. Qed.

Lemma shares_same s s' p :
  writer s' = writer s -> pushed s' = pushed s -> state_of s' = state_of s -> shares s p -> shares s' p.
Proof. intros Hw Hp Hs. unfold shares, kept. by rewrite Hw, Hp, Hs. Qed.

(** One more object, the older ones kept or not. *)
Lemma shares_push s s' p rd :
  writer s' = writer s -> pushed s' = pushed s ++ [rd] ->
  ObjectsState.objects (state_of s') = [rd] \/
    ObjectsState.objects (state_of s') = ObjectsState.objects (state_of s) ++ [rd] ->
  (length (ObjectsState.objects (state_of s)) <= length (pushed s))%nat ->
  shares s p -> shares s' p.
Proof.
  intros Hw Hp Ho Hlen (Hl & He & Hin & Hall). unfold shares. rewrite Hw, Hp, lenN_app.
  assert (Hle : (N.to_nat (ObjectsReader.epoch p.1) <= length (pushed s))%nat) by (unfold lenN in He; lia).
  split; [done|]. split; [lia|]. rewrite take_app_le by done. split; [done|].
  unfold kept in *. rewrite Hp, take_app_le by done. etransitivity; [|exact Hall].
  destruct Ho as [-> | ->]; rewrite !length_app; simpl.
  - rewrite drop_ge; [apply submseteq_nil_l|]. rewrite length_take. lia.
  - replace (length (pushed s) + 1 - (length (ObjectsState.objects (state_of s)) + 1))%nat
      with (length (pushed s) - length (ObjectsState.objects (state_of s)))%nat by lia. done.
Qed.

(** The objects a reader behind at [e] takes are exactly those of the current
    group from [e] on. *)
Lemma fresh_split (s : t) (r : ObjectsReader.t) :
  ObjectsState.objects (state_of s) `suffix_of` pushed s ->
  ObjectsState.epoch (state_of s) = lenN (pushed s) -> ObjectsReader.epoch r <= lenN (pushed s) ->
  let e := N.to_nat (ObjectsReader.epoch r) in
  ObjectsReader.fresh r (state_of s) ⊆+ drop e (pushed s) /\
  kept s e ++ ObjectsReader.fresh r (state_of s) = ObjectsState.objects (state_of s).
Proof.
  intros Hs He Hr. cbv zeta. pose proof (suffix_drop _ _ Hs) as Hd. pose proof (suffix_length _ _ Hs) as Hlen.
  unfold ObjectsReader.fresh, kept. rewrite He.
  set (k := (length (pushed s) - length (ObjectsState.objects (state_of s)))%nat) in *.
  set (no := length (ObjectsState.objects (state_of s))) in *.
  rewrite <- Hd. rewrite drop_drop. unfold lenN in *. rewrite Hd. fold no.
  replace (k + N.to_nat (N.of_nat no - (N.of_nat (length (pushed s)) - ObjectsReader.epoch r)))%nat
    with (Nat.max k (N.to_nat (ObjectsReader.epoch r))) by lia.
  set (e := N.to_nat (ObjectsReader.epoch r)) in *.
  destruct (Nat.le_ge_cases k e) as [Hke|Hke].
  - rewrite Nat.max_r by done. split; [done|]. rewrite <- drop_app_le by (rewrite length_take; lia).
    by rewrite take_drop.
  - rewrite Nat.max_l by done. split.
    + replace k with (e + (k - e))%nat by lia. rewrite <- drop_drop. apply submseteq_drop.
    + rewrite drop_ge; [done|]. rewrite length_take. lia.
Qed.

Lemma board_create s object : inv s -> inv (create object s).
Proof.
  intros Hi. pose proof Hi as Hi'. destruct Hi' as [He Hsu Hsh]. unfold create.
  pose proof (objects_create_top object (writer s) (world s)) as Ht. cbv zeta in Ht.
  destruct (ObjectsWriter.create object _ _) as [res w].
  set (st' := lock (cell_of _ (ObjectWorld.tops w))) in *. fold (state_of s) in Ht.
  set (s' := mk _ _ _ _). assert (Hst : state_of s' = st') by done.
  destruct Ht as [Hs'|(rd & k & Hk & Hs')].
  - subst s'. revert Hst. rewrite Hs', N.eqb_refl, app_nil_r. intros Hst.
    split; rewrite ?Hst; cbn [pushed readers]; try done.
    intros Hlt. eapply Forall_impl; [by apply Hsh|]. intros p. by apply shares_same.
  - assert (Hx : (ObjectsState.epoch st' =? ObjectsState.epoch (state_of s)) = false).
    { rewrite Hs'. cbn [ObjectsState.epoch]. apply N.eqb_neq. rewrite He.
      change (2 ^ 64) with 18446744073709551616. lia. }
    assert (Hp : pushed s' = pushed s ++ [rd]).
    { subst s'. cbn [pushed]. rewrite Hx, Hs'. cbn [ObjectsState.objects]. by rewrite last_snoc. }
    assert (Ho : ObjectsState.objects (state_of s') = k ++ [rd]) by (rewrite Hst, Hs'; done).
    split.
    + rewrite Hp, lenN_app, Hst, Hs'. cbn [ObjectsState.epoch]. change (lenN [rd]) with 1.
      rewrite He. by rewrite N.Div0.add_mod_idemp_l.
    + rewrite Hp, Ho. destruct Hk as [-> | ->]; [by apply suffix_app_r|].
      destruct Hsu as [m Hm]. exists m. by rewrite Hm, <- app_assoc.
    + intros Hlt. assert (Hlt' : lenN (pushed s) < 2 ^ 64) by (rewrite Hp, lenN_app in Hlt; lia).
      eapply Forall_impl; [by apply Hsh|]. intros p. apply (shares_push _ _ _ rd); [done|done| |].
      * rewrite Ho. destruct Hk as [-> | ->]; [by left|by right].
      * by apply suffix_length.
Qed.

(** What a turn does to a reader's share. *)
Lemma next_turn_share s r handed :
  inv s -> lenN (pushed s) < 2 ^ 64 -> shares s (r, handed) ->
  let '(res, (r', w)) := ObjectsReader.next_turn r (world s) in
  ObjectWorld.tops w = ObjectWorld.tops (world s) /\
  shares s (r', handed ++ match res with Return (Ok (Some o)) => [o] | _ => [] end) /\
  match res with
  | Return (Ok (Some o)) => forall x, x ∈ ObjectsReader.pending r' -> ObjectReader.cmp x o <> Gt
  | _ => ObjectsState.objects (state_of s) ⊆+ handed
  end.
Proof.
  intros [He Hsu _] Hlt (Hl & Hle & Hin & Hall). simpl in Hl, Hle, Hin, Hall.
  rewrite N.mod_small in He by done. pose proof (fresh_split s r Hsu He Hle) as [Hf Hk].
  assert (Hc : lock (cell_of (ObjectsReader.state r) (ObjectWorld.tops (world s))) = state_of s)
    by (unfold state_of, cell_of; by rewrite Hl).
  unfold ObjectsReader.next_turn. rewrite Hc.
  set (r1 := ObjectsReader.mk _ _ (ObjectsState.epoch (state_of s)) _).
  assert (Hr1 : shares s (r1, handed) /\ ObjectsState.objects (state_of s) ⊆+ handed ++ ObjectsReader.pending r1).
  { assert (Hfull : kept s (N.to_nat (ObjectsReader.epoch r1)) = ObjectsState.objects (state_of s)).
    { unfold kept. subst r1. simpl. rewrite He, take_ge by (unfold lenN; lia). by apply suffix_drop. }
    assert (Hsub : ObjectsState.objects (state_of s) ⊆+ handed ++ ObjectsReader.pending r1).
    { subst r1. simpl. rewrite <- Hk, app_assoc. by apply submseteq_app. }
    split; [|done]. split; [done|]. split; [subst r1; simpl; lia|].
    split; [|cbn [fst snd]; by rewrite Hfull].
    subst r1. simpl. rewrite app_assoc, He, take_ge by (unfold lenN; lia).
    rewrite <- (take_drop (N.to_nat (ObjectsReader.epoch r)) (pushed s)). by apply submseteq_app. }
  assert (Hpop : forall r2 w, ObjectWorld.tops w = ObjectWorld.tops (world s) ->
    shares s (r2, handed) -> ObjectsState.objects (state_of s) ⊆+ handed ++ ObjectsReader.pending r2 ->
    let '(res, (r', w)) :=
      match heap_pop (ObjectsReader.pending r2) with
      | Some (object, rest) =>
          (Return (Ok (Some object)),
           (ObjectsReader.mk (ObjectsReader.state r2) (ObjectsReader.info r2) (ObjectsReader.epoch r2) rest, w))
      | None => (idle (cell_of (ObjectsReader.state r) (ObjectWorld.tops (world s))) (Ok None), (r2, w))
      end in
    ObjectWorld.tops w = ObjectWorld.tops (world s) /\
    shares s (r', handed ++ match res with Return (Ok (Some o)) => [o] | _ => [] end) /\
    match res with
    | Return (Ok (Some o)) => forall x, x ∈ ObjectsReader.pending r' -> ObjectReader.cmp x o <> Gt
    | _ => ObjectsState.objects (state_of s) ⊆+ handed
    end).
  { intros r2 w Hw Hs2 Ho2. destruct (heap_pop _) as [[x rest]|] eqn:Ep.
    - apply heap_pop_Some in Ep as [Hperm Hmax]. split; [done|]. split; [|exact Hmax].
      destruct Hs2 as (H1 & H2 & H3 & H4). simpl in *. unfold shares. simpl.
      rewrite <- app_assoc. simpl. by rewrite <- Hperm.
    - apply heap_pop_None in Ep. rewrite Ep, app_nil_r in Ho2. split; [done|].
      destruct (idle _ _) as [[[g|]|e|]|n] eqn:E; rewrite ?app_nil_r; try done.
      by apply idle_Ok_None in E as (_ & _ & ?). }
  destruct (N.ltb_spec (ObjectsReader.epoch r) (ObjectsState.epoch (state_of s))) as [Hb|Hb].
  - apply Hpop; [apply clone_objects_tops|apply Hr1|apply Hr1].
  - apply Hpop; [done|done|]. assert (Hee : ObjectsReader.epoch r = lenN (pushed s)) by lia.
    rewrite <- Hk. replace (ObjectsReader.fresh r (state_of s)) with (@nil ObjectReader.t).
    + by rewrite app_nil_r.
    + symmetry. unfold ObjectsReader.fresh. rewrite He, Hee, N.sub_diag, N.sub_0_r. apply drop_ge.
      unfold lenN. lia.
Qed.

Lemma board_step s s' : inv s -> step s s' -> inv s'.
Proof.
  intros Hi. pose proof Hi as [He Hsu Hsh]. destruct 1 as [s object|s i r handed Hr|s i r handed Hr|s w Hw].
  - by apply board_create.
  - unfold read. destruct (ObjectsReader.next_turn r (world s)) as [res [r' w]] eqn:E.
    assert (Ht : ObjectWorld.tops w = ObjectWorld.tops (world s)).
    { unfold ObjectsReader.next_turn in E. repeat case_match; simplify_eq/=; try done; apply clone_objects_tops. }
    set (s' := mk _ _ _ _). assert (Hst : state_of s' = state_of s) by (unfold state_of, s'; simpl; by rewrite Ht).
    split; rewrite ?Hst; try done. intros Hlt. apply Forall_insert.
    + eapply Forall_impl; [by apply Hsh|]. intros p. by apply shares_same.
    + pose proof (Forall_lookup_1 _ _ _ _ (Hsh Hlt) Hr) as Hp.
      pose proof (next_turn_share s r handed Hi Hlt Hp) as Hn. rewrite E in Hn.
      refine (shares_same s s' _ eq_refl eq_refl Hst _). apply Hn.
  - split; try done. intros Hlt. apply Forall_app. split; [by apply Hsh|]. constructor; [|done].
    exact (Forall_lookup_1 _ _ _ _ (Hsh Hlt) Hr).
  - assert (Hst : state_of (mk (writer s) w (pushed s) (readers s)) = state_of s)
      by apply (Hw (ObjectsWriter.state (writer s))).
    split; rewrite ?Hst; try done. intros Hlt. eapply Forall_impl; [by apply Hsh|].
    intros p. by apply shares_same.
Qed.

Lemma board_start track w : inv (start track w).
Proof.
  assert (Hs : state_of (start track w) = ObjectsState.default).
  { unfold state_of, start, cell_of. simpl. by rewrite decide_True. }
  split; rewrite ?Hs; try done. intros _. constructor; [|done].
  unfold shares, kept. rewrite Hs. simpl. split; [done|]. split; [lia|]. done.
Qed.
End Heap.
End Board.

(** A heap to demonstrate with: take out the first greatest element. *)
Fixpoint take_greatest (l : list ObjectReader.t) : option (ObjectReader.t * list ObjectReader.t) :=
  match l with
  | [] => None
  | x :: l =>
      match take_greatest l with
      | None => Some (x, [])
      | Some (y, rest) =>
          match ObjectReader.cmp y x with Gt => Some (y, x :: rest) | _ => Some (x, y :: rest) end
      end
  end.

Lemma cmp_refl x : ObjectReader.cmp x x = Eq.
Proof. unfold ObjectReader.cmp. by rewrite !N.compare_refl. Qed.

Lemma cmp_trans x y z : ObjectReader.cmp x y <> Gt -> ObjectReader.cmp y z <> Gt -> ObjectReader.cmp x z <> Gt.
Proof.
  unfold ObjectReader.cmp.
  repeat match goal with |- context [?a ?= ?b] => destruct (N.compare_spec a b) end; try done; lia.
Qed.

Lemma cmp_flip x y : ObjectReader.cmp y x = Gt -> ObjectReader.cmp x y <> Gt.
Proof.
  unfold ObjectReader.cmp.
  repeat match goal with |- context [?a ?= ?b] => destruct (N.compare_spec a b) end; try done; lia.
Qed.

Lemma take_greatest_Some l x rest : take_greatest l = Some (x, rest) ->
  l ≡ₚ x :: rest /\ forall y, y ∈ rest -> ObjectReader.cmp y x <> Gt.
Proof.
  revert x rest; induction l as [|z l IH]; intros x rest; simpl; [done|].
  destruct (take_greatest l) as [[y r]|] eqn:E.
  - destruct (IH y r eq_refl) as [Hp Hm]. destruct (ObjectReader.cmp y z) eqn:Ec; intros [= <- <-].
    1-2: rewrite Hp; split; [done|]; intros w Hw; apply elem_of_cons in Hw as [->|Hw]; [by rewrite Ec|];
      apply (cmp_trans w y z); [by apply Hm|by rewrite Ec].
    split; [rewrite Hp; apply Permutation_swap|]. intros w Hw. apply elem_of_cons in Hw as [->|Hw]; [|by apply Hm].
    by apply cmp_flip.
  - intros [= <- <-]. destruct l as [|w l]; [|simpl in E; by repeat case_match].
    split; [done|]. intros w Hw. by apply elem_of_nil in Hw.
Qed.

#[export] Instance greatest_heap : BinaryHeap.
Proof.
  refine {| heap_pop := take_greatest; heap_pop_Some := take_greatest_Some |}.
  intros l. split; [|by intros ->]. destruct l as [|x l]; simpl; [done|]. by repeat case_match.
Defined.

(** ** Properties *)

(** Objects in priority order. However creating,
    reading and cloning interleave, a reader is handed each object at most once
    and only objects that were kept; each turn hands out one that is most urgent
    among those it is holding back (lower priority value first, then the newer
    group, then the lower number); and when it has nothing to hand out it has
    handed out every object of the current group. The bound is the 64-bit
    epoch. *)
Theorem objects_by_priority `{H : BinaryHeap} (track : Track.t) (w : ObjectWorld.t) (s : Board.t)
    (i : nat) (r : ObjectsReader.t) (handed : list ObjectReader.t) :
  star Board.step (Board.start track w) s -> lenN (Board.pushed s) < 2 ^ 64 ->
  Board.readers s !! i = Some (r, handed) ->
  handed ++ ObjectsReader.pending r ⊆+ Board.pushed s /\
  let '(res, (r', _)) := ObjectsReader.next_turn r (Board.world s) in
  match res with
  | Return (Ok (Some o)) =>
      handed ++ [o] ⊆+ Board.pushed s /\
      forall x, x ∈ ObjectsReader.pending r' -> ObjectReader.cmp x o <> Gt
  | _ => ObjectsState.objects (Board.state_of s) ⊆+ handed
  end.
Proof.
  intros Hs Hlt Hr.
  assert (Hi : Board.inv s).
  { apply (star_invariant _ Board.inv) in Hs; [done|intros x y; apply Board.board_step|].
    apply Board.board_start. }
  pose proof (Forall_lookup_1 _ _ _ _ (Board.inv_shares _ Hi Hlt) Hr) as Hp.
  split; [etransitivity; [apply Hp|apply submseteq_take]|].
  pose proof (Board.next_turn_share s r handed Hi Hlt Hp) as Hn.
  destruct (ObjectsReader.next_turn r _) as [[[[o|]|e|]|n] [r' w']]; destruct Hn as (_ & Hsh & Ho); try done.
  split; [|exact Ho]. destruct Hsh as (_ & _ & Hin & _). simpl in Hin.
  etransitivity; [|etransitivity; [exact Hin|apply submseteq_take]]. apply submseteq_inserts_r. done.
Qed.

(** Three objects of a group, the second the most urgent. *)
Definition demo_board : Board.t :=
  fold_left (fun s o => Board.create o s)
    [Object.mk 3 0 x05; Object.mk 3 1 x02; Object.mk 3 2 x05]
    (Board.start (Track.mk (Tuple.mk []) (mk_String [] eq_refl)) ObjectWorld.new).

Definition demo_objects_reader : ObjectsReader.t :=
  ObjectsReader.new {| loc := 0; half := 1%nat |} (Track.mk (Tuple.mk []) (mk_String [] eq_refl)).

Lemma objects_by_priority_witness :
  Board.readers demo_board !! 0%nat = Some (demo_objects_reader, []) /\
  match fst (ObjectsReader.next_turn demo_objects_reader (Board.world demo_board)) with
  | Return (Ok (Some o)) =>
      ObjectInfo.object_id (ObjectReader.info o) = 1 /\ [o] ⊆+ Board.pushed demo_board
  | _ => False
  end.
Proof.
  assert (Hs : star Board.step (Board.start (Track.mk (Tuple.mk []) (mk_String [] eq_refl)) ObjectWorld.new)
    demo_board).
  { unfold demo_board. simpl fold_left.
    eapply (star_step Board.step); [|apply Board.do_create].
    eapply (star_step Board.step); [|apply Board.do_create].
    eapply (star_step Board.step); [apply star_refl|apply Board.do_create]. }
  assert (Hr : Board.readers demo_board !! 0%nat = Some (demo_objects_reader, [])) by reflexivity.
  assert (Hlt : lenN (Board.pushed demo_board) < 2 ^ 64) by (vm_compute; reflexivity).
  split; [exact Hr|].
  pose proof (objects_by_priority _ _ demo_board 0%nat demo_objects_reader [] Hs Hlt Hr) as [_ H].
  assert (E : exists o p, ObjectsReader.next_turn demo_objects_reader (Board.world demo_board) =
                (Return (Ok (Some o)), p) /\ ObjectInfo.object_id (ObjectReader.info o) = 1).
  { eexists _, _. split; [reflexivity|]. vm_compute. reflexivity. }
  destruct E as (o & [r' w'] & E & Ho). rewrite E in H. rewrite E. split; [exact Ho|exact (proj1 H)].
Defined.
