(* ===== verification/Tracks.v ===== *)
(** * Tracks and broadcasts

    [moq-transport/src/serve/datagram.rs], [track.rs] and [tracks.rs]: the latest
    datagram of a track, a track in one of its modes, and a broadcast, the map
    from names to tracks through which readers request tracks and writers offer
    them. *)
From Stdlib Require Import NArith Lia Bool.
From stdpp Require Import base list gmap option numbers countable.
From S2P Require Import Prelude Buffers Utf8 Coding Setup Data Errors Watch Serve Subgroup Groups StreamTrack Objects.

(** ** [serve/datagram.rs] *)

Module Datagram.
Record t := mk {
  group_id : N; object_id : N; priority : byte; status : ObjectStatus.t; payload : list byte;
}.
End Datagram.

Module DatagramsState.
Record t := mk { latest : option Datagram.t; epoch : N; closed : option ServeError }.
Definition default : t := mk None 0 None.

#[export] Instance closable : Closable t :=
  {| Serve.closed := closed; set_closed r s := mk (latest s) (epoch s) r;
     closed_set r s := eq_refl |}.

Definition replace (d : Datagram.t) (s : t) : t :=
  mk (Some d) ((epoch s + 1) mod 2 ^ 64) (closed s).
End DatagramsState.
Export (hints) DatagramsState.

Module DatagramsWriter.
Record t := mk { state : Handle; track : Track.t }.
Definition new (state : Handle) (track : Track.t) : t := mk state track.

Definition write (datagram : Datagram.t) (c : Cell DatagramsState.t) :
    outcome ServeError unit * Cell DatagramsState.t := mutate (DatagramsState.replace datagram) c.

Definition close (err : ServeError) (c : Cell DatagramsState.t) :
    outcome ServeError unit * Cell DatagramsState.t := close_cell err c.
End DatagramsWriter.

Module DatagramsReader.
Record t := mk { state : Handle; track : Track.t; epoch : N }.
Definition new (state : Handle) (track : Track.t) : t := mk state track 0.

Definition read_turn (self : t) (c : Cell DatagramsState.t) : turn (option Datagram.t) * t :=
  let st := lock c in
  if epoch self <? DatagramsState.epoch st then
    (Return (Ok (DatagramsState.latest st)), mk (state self) (track self) (DatagramsState.epoch st))
  else (idle c (Ok None), self).

Definition latest (c : Cell DatagramsState.t) : option (N * N) :=
  (fun d => (Datagram.group_id d, Datagram.object_id d)) <$> DatagramsState.latest (lock c).
End DatagramsReader.

(** ** [serve/track.rs] *)

Module TrackReaderMode.
Inductive t :=
  | Stream (reader : StreamTrack.StreamReader.t)
  | Subgroups (reader : Groups.SubgroupsReader.t)
  | Datagrams (reader : DatagramsReader.t).
End TrackReaderMode.

Module TrackState.
Record t := mk { mode : option TrackReaderMode.t; closed : option ServeError }.
Definition default : t := mk None None.

#[export] Instance closable : Closable t :=
  {| Serve.closed := closed; set_closed r s := mk (mode s) r; closed_set r s := eq_refl |}.

(** [state.mode = Some(..)]; a track's mode is set once at most, since that
    consumes the writer, so nothing is overwritten. *)
Definition set_mode (m : TrackReaderMode.t) (s : t) : t := mk (Some m) (closed s).
End TrackState.
Export (hints) TrackState.

Module TrackReader.
Record t := mk { state : Handle; info : Track.t }.
Definition new (state : Handle) (info : Track.t) : t := mk state info.
End TrackReader.

Module TrackWriter.
Record t := mk { state : Handle; info : Track.t }.
Definition new (state : Handle) (info : Track.t) : t := mk state info.
End TrackWriter.

(** Broadcasts: the readers of the tracks by name. *)
Module TracksState.
Record t := mk { tracks : gmap String TrackReader.t }.
Definition default : t := mk ∅.
End TracksState.

(** The heaps of everything a broadcast holds. *)
Module Store.
Record t := mk {
  subgroups : Groups.World;
  streams : StreamTrack.StreamWorld.t;
  objects : ObjectWorld.t;
  datagrams : Arena DatagramsState.t;
  tracks : Arena TrackState.t;
  broadcasts : Arena TracksState.t;
  queues : Arena (list TrackWriter.t);
}.

Definition new : t :=
  mk Groups.world_new StreamTrack.StreamWorld.new ObjectWorld.new (arena_new DatagramsState.default)
    (arena_new TrackState.default) (arena_new TracksState.default) (arena_new []).

Definition with_subgroups (x : Groups.World) (s : t) : t :=
  mk x (streams s) (objects s) (datagrams s) (tracks s) (broadcasts s) (queues s).
Definition with_streams (x : StreamTrack.StreamWorld.t) (s : t) : t :=
  mk (subgroups s) x (objects s) (datagrams s) (tracks s) (broadcasts s) (queues s).
Definition with_objects (x : ObjectWorld.t) (s : t) : t :=
  mk (subgroups s) (streams s) x (datagrams s) (tracks s) (broadcasts s) (queues s).
Definition with_datagrams (x : Arena DatagramsState.t) (s : t) : t :=
  mk (subgroups s) (streams s) (objects s) x (tracks s) (broadcasts s) (queues s).
Definition with_tracks (x : Arena TrackState.t) (s : t) : t :=
  mk (subgroups s) (streams s) (objects s) (datagrams s) x (broadcasts s) (queues s).
Definition with_broadcasts (x : Arena TracksState.t) (s : t) : t :=
  mk (subgroups s) (streams s) (objects s) (datagrams s) (tracks s) x (queues s).
Definition with_queues (x : Arena (list TrackWriter.t)) (s : t) : t :=
  mk (subgroups s) (streams s) (objects s) (datagrams s) (tracks s) (broadcasts s) x.

(** *** What dropping does *)

Definition drop_mode (m : TrackReaderMode.t) (s : t) : t :=
  match m with
  | TrackReaderMode.Stream r => with_streams (StreamTrack.StreamReader.drop r (streams s)) s
  | TrackReaderMode.Subgroups r => with_subgroups (Groups.SubgroupsReader.drop r (subgroups s)) s
  | TrackReaderMode.Datagrams r =>
      with_datagrams (snd (drop_handle (DatagramsReader.state r) (datagrams s))) s
  end.

(** A handle on a track, of its writer or of a reader. *)
Definition drop_track (h : Handle) (s : t) : t :=
  let (value, a) := drop_handle h (tracks s) in
  match value with
  | Some {| TrackState.mode := Some m |} => drop_mode m (with_tracks a s)
  | _ => with_tracks a s
  end.

Definition drop_broadcast (h : Handle) (s : t) : t :=
  let (value, a) := drop_handle h (broadcasts s) in
  fold_right (fun r => drop_track (TrackReader.state r)) (with_broadcasts a s)
    (match value with Some st => (map_to_list (TracksState.tracks st)).*2 | None => [] end).

Definition drop_queue (h : Handle) (s : t) : t :=
  let (value, a) := drop_handle h (queues s) in
  fold_right (fun w => drop_track (TrackWriter.state w)) (with_queues a s) (default [] value).
End Store.

Module TrackWrite.
Import TrackWriter.

(** [Track::produce] *)
Definition produce (self : Track.t) (s : Store.t) : (t * TrackReader.t) * Store.t :=
  let '((writer, reader), a) := default_split TrackState.default (Store.tracks s) in
  ((new writer self, TrackReader.new reader self), Store.with_tracks a s).

Definition drop (self : t) (s : Store.t) : Store.t := Store.drop_track (state self) s.

(** The critical section of the three modes; the writer is consumed. *)
Definition set_mode (m : TrackReaderMode.t) (self : t) (s : Store.t) : outcome ServeError unit * Store.t :=
  let (r, a) := on_cell (state self) (mutate (TrackState.set_mode m)) (Store.tracks s) in
  (r, Store.with_tracks a s).

Definition stream (priority : byte) (self : t) (s : Store.t) :
    outcome ServeError StreamTrack.StreamWriter.t * Store.t :=
  let '((writer, reader), x) :=
    StreamTrack.StreamWriter.produce (StreamTrack.Stream.mk (info self) priority) (Store.streams s) in
  match set_mode (TrackReaderMode.Stream reader) self (Store.with_streams x s) with
  | (Ok _, s) => (Ok writer, drop self s)
  | (Err e, s) =>
      let s := Store.drop_mode (TrackReaderMode.Stream reader) s in
      (Err e, drop self (Store.with_streams (StreamTrack.StreamWriter.drop writer (Store.streams s)) s))
  | (Panic, s) => (Panic, s)
  end.

Definition groups (self : t) (s : Store.t) : outcome ServeError Groups.SubgroupsWriter.t * Store.t :=
  let '((writer, reader), x) := Groups.SubgroupsWriter.produce (info self) (Store.subgroups s) in
  match set_mode (TrackReaderMode.Subgroups reader) self (Store.with_subgroups x s) with
  | (Ok _, s) => (Ok writer, drop self s)
  | (Err e, s) =>
      let s := Store.drop_mode (TrackReaderMode.Subgroups reader) s in
      (Err e, drop self (Store.with_subgroups (Groups.SubgroupsWriter.drop writer (Store.subgroups s)) s))
  | (Panic, s) => (Panic, s)
  end.

Definition datagrams (self : t) (s : Store.t) : outcome ServeError DatagramsWriter.t * Store.t :=
  let '((wh, rh), x) := default_split DatagramsState.default (Store.datagrams s) in
  let writer := DatagramsWriter.new wh (info self) in
  let reader := DatagramsReader.new rh (info self) in
  match set_mode (TrackReaderMode.Datagrams reader) self (Store.with_datagrams x s) with
  | (Ok _, s) => (Ok writer, drop self s)
  | (Err e, s) =>
      let s := Store.drop_mode (TrackReaderMode.Datagrams reader) s in
      (Err e, drop self (Store.with_datagrams (snd (drop_handle wh (Store.datagrams s))) s))
  | (Panic, s) => (Panic, s)
  end.

Definition close (err : ServeError) (self : t) (s : Store.t) : outcome ServeError unit * Store.t :=
  let (r, a) := on_cell (state self) (close_cell err) (Store.tracks s) in
  (r, drop self (Store.with_tracks a s)).
End TrackWrite.

Module TrackRead.
Import TrackReader.

Definition clone (self : t) (s : Store.t) : t * Store.t :=
  let (h, a) := clone_handle (state self) (Store.tracks s) in
  (mk h (info self), Store.with_tracks a s).

Definition drop (self : t) (s : Store.t) : Store.t := Store.drop_track (state self) s.

Definition clone_mode (m : TrackReaderMode.t) (s : Store.t) : TrackReaderMode.t * Store.t :=
  match m with
  | TrackReaderMode.Stream r =>
      let (r, x) := StreamTrack.StreamReader.clone r (Store.streams s) in
      (TrackReaderMode.Stream r, Store.with_streams x s)
  | TrackReaderMode.Subgroups r =>
      let (r, x) := Groups.SubgroupsReader.clone r (Store.subgroups s) in
      (TrackReaderMode.Subgroups r, Store.with_subgroups x s)
  | TrackReaderMode.Datagrams r =>
      let (h, x) := clone_handle (DatagramsReader.state r) (Store.datagrams s) in
      (TrackReaderMode.Datagrams (DatagramsReader.mk h (DatagramsReader.track r) (DatagramsReader.epoch r)),
       Store.with_datagrams x s)
  end.

(** One turn of [mode]. *)
Definition mode_turn (self : t) (s : Store.t) : turn TrackReaderMode.t * Store.t :=
  let c := cell_of (state self) (Store.tracks s) in
  match TrackState.mode (lock c) with
  | Some m => let (m, s) := clone_mode m s in (Return (Ok m), s)
  | None => (idle c (Err ServeErr.Done), s)
  end.

(** The track itself does not know its mode's progress. *)
Definition latest : option (N * N) := None.

(** One turn of [closed]. *)
Definition closed_turn (self : t) (s : Store.t) : turn unit :=
  idle (cell_of (state self) (Store.tracks s)) (Ok tt).

(** [TrackReaderMode::latest] *)
Definition mode_latest (m : TrackReaderMode.t) (s : Store.t) : option (N * N) :=
  match m with
  | TrackReaderMode.Stream r => StreamTrack.StreamReader.latest r (Store.streams s)
  | TrackReaderMode.Subgroups r => Groups.SubgroupsReader.latest r (Store.subgroups s)
  | TrackReaderMode.Datagrams r =>
      DatagramsReader.latest (cell_of (DatagramsReader.state r) (Store.datagrams s))
  end.
End TrackRead.

(** A track being written, before and after it has a mode. *)
Module TrackWriterMode.
Inductive t :=
  | Track (writer : TrackWriter.t)
  | Stream (writer : StreamTrack.StreamWriter.t)
  | Subgroups (writer : Groups.SubgroupsWriter.t)
  | Objects (writer : ObjectsWriter.t)
  | Datagrams (writer : DatagramsWriter.t).

Definition close (err : ServeError) (self : t) (s : Store.t) : outcome ServeError unit * Store.t :=
  match self with
  | Track writer => TrackWrite.close err writer s
  | Stream writer =>
      let (r, x) := StreamTrack.StreamWriter.close err writer (Store.streams s) in
      (r, Store.with_streams x s)
  | Subgroups writer =>
      let (r, x) := Groups.SubgroupsWriter.close err writer (Store.subgroups s) in
      (r, Store.with_subgroups x s)
  | Objects writer =>
      let (r, x) := ObjectsWriter.close err writer (Store.objects s) in
      (r, Store.with_objects x s)
  | Datagrams writer =>
      let h := DatagramsWriter.state writer in
      let (r, a) := on_cell h (DatagramsWriter.close err) (Store.datagrams s) in
      (r, Store.with_datagrams (snd (drop_handle h a)) s)
  end.

(** Dropping the writer, whatever it writes. *)
Definition drop (self : t) (s : Store.t) : Store.t :=
  match self with
  | Track writer => TrackWrite.drop writer s
  | Stream writer => Store.with_streams (StreamTrack.StreamWriter.drop writer (Store.streams s)) s
  | Subgroups writer =>
      Store.with_subgroups (Groups.SubgroupsWriter.drop writer (Store.subgroups s)) s
  | Objects writer =>
      Store.with_objects (ObjectWorld.drop_top_handle (ObjectsWriter.state writer) (Store.objects s)) s
  | Datagrams writer =>
      Store.with_datagrams (snd (drop_handle (DatagramsWriter.state writer) (Store.datagrams s))) s
  end.
End TrackWriterMode.

(** ** [serve/tracks.rs] *)

Module Tracks.
Record t := mk { namespace : Tuple.t }.
Definition new (namespace : Tuple.t) : t := mk namespace.
End Tracks.

Module TracksWriter.
Record t := mk { state : Handle; info : Tracks.t }.
Definition new (state : Handle) (info : Tracks.t) : t := mk state info.

Definition insert (track : String) (reader : TrackReader.t) (st : TracksState.t) :
    option TrackReader.t * TracksState.t :=
  (TracksState.tracks st !! track, TracksState.mk (<[track := reader]> (TracksState.tracks st))).

(** The reader the map held under that name is dropped. *)
Definition create (track : String) (self : t) (s : Store.t) : option TrackWriter.t * Store.t :=
  let '((writer, reader), s) :=
    TrackWrite.produce (Track.mk (Tracks.namespace (info self)) track) s in
  let (r, a) := on_cell (state self) (with_mut (insert track reader)) (Store.broadcasts s) in
  let s := Store.with_broadcasts a s in
  match r with
  | Some old =>
      (Some writer, match old with Some o => TrackRead.drop o s | None => s end)
  | None => (None, TrackWrite.drop writer (TrackRead.drop reader s))
  end.

Definition remove (track : String) (self : t) (s : Store.t) : option TrackReader.t * Store.t :=
  let (r, a) := on_cell (state self)
    (with_mut (fun st => (TracksState.tracks st !! track,
                          TracksState.mk (delete track (TracksState.tracks st))))) (Store.broadcasts s) in
  (mjoin r, Store.with_broadcasts a s).

Definition drop (self : t) (s : Store.t) : Store.t := Store.drop_broadcast (state self) s.
End TracksWriter.

Module TracksRequest.
Record t := mk { state : Handle; incoming : option Handle; info : Tracks.t }.
Definition new (state incoming : Handle) (info : Tracks.t) : t := mk state (Some incoming) info.

(** One turn of [next]: [None] without a queue, else a turn of [Queue::pop]. *)
Definition next_turn (self : t) (s : Store.t) : Queue.turn TrackWriter.t * Store.t :=
  match incoming self with
  | None => (Queue.Return None, s)
  | Some queue =>
      let (r, a) := on_cell queue Queue.pop_turn (Store.queues s) in (r, Store.with_queues a s)
  end.

(** [Drop::drop]: the tracks still queued are closed, one after the other. *)
Definition close_incoming (queue : Handle) (s : Store.t) : list TrackWriter.t * Store.t :=
  let (l, a) := on_cell queue (Queue.close (half queue)) (Store.queues s) in
  (l, Store.with_queues a s).

Fixpoint close_all (l : list TrackWriter.t) (s : Store.t) : Store.t :=
  match l with
  | [] => s
  | track :: l => close_all l (snd (TrackWrite.close ServeErr.NotFound track s))
  end.

Definition drop (self : t) (s : Store.t) : outcome ServeError unit * Store.t :=
  match incoming self with
  | None => (Panic, s)
  | Some queue =>
      let (l, s) := close_incoming queue s in
      (Ok tt, Store.drop_broadcast (state self) (close_all l s))
  end.
End TracksRequest.

Module TracksReader.
Record t := mk { state : Handle; queue : Handle; info : Tracks.t }.
Definition new (state queue : Handle) (info : Tracks.t) : t := mk state queue info.

Definition clone (self : t) (s : Store.t) : t * Store.t :=
  let (h, a) := clone_handle (state self) (Store.broadcasts s) in
  let (q, b) := clone_handle (queue self) (Store.queues s) in
  (mk h q (info self), Store.with_queues b (Store.with_broadcasts a s)).

Definition drop (self : t) (s : Store.t) : Store.t :=
  Store.drop_queue (queue self) (Store.drop_broadcast (state self) s).

(** The map's mutex is held from the lookup to the insertion, so the whole is
    one step; the reader is cloned for the map and for the caller and the
    original dropped, which is one clone. The guard notifies even when the queue
    refuses. *)
Definition subscribe (name : String) (self : t) (s : Store.t) : option TrackReader.t * Store.t :=
  let c := cell_of (state self) (Store.broadcasts s) in
  match TracksState.tracks (lock c) !! name with
  | Some track => let (track, s) := TrackRead.clone track s in (Some track, s)
  | None =>
      match dropped (inner c) with
      | None => (None, s)
      | Some _ =>
          let '((writer, reader), s) :=
            TrackWrite.produce (Track.mk (Tracks.namespace (info self)) name) s in
          let (r, a) := on_cell (queue self) (Queue.push writer) (Store.queues s) in
          let s := Store.with_queues a s in
          match r with
          | Ok _ =>
              let (_, a) := on_cell (state self) (with_mut (TracksWriter.insert name reader))
                (Store.broadcasts s) in
              let (track, s) := TrackRead.clone reader (Store.with_broadcasts a s) in
              (Some track, s)
          | _ =>
              let (_, a) := on_cell (state self) (with_mut (fun st => (tt, st))) (Store.broadcasts s) in
              (None, TrackRead.drop reader (TrackWrite.drop writer (Store.with_broadcasts a s)))
          end
      end
  end.
End TracksReader.

(** [Tracks::produce] *)
Definition produce (self : Tracks.t) (s : Store.t) :
    (TracksWriter.t * TracksRequest.t * TracksReader.t) * Store.t :=
  let '((w, r), a) := default_split TracksState.default (Store.broadcasts s) in
  let '((qw, qr), b) := default_split [] (Store.queues s) in
  let (w', a) := clone_handle w a in
  ((TracksWriter.new w' self, TracksRequest.new w qw self, TracksReader.new r qr self),
   Store.with_queues b (Store.with_broadcasts a s)).

(** ** What leaves which heap alone *)

#[local] Arguments Store.drop_track : simpl never.

Lemma drop_mode_keeps m s :
  Store.tracks (Store.drop_mode m s) = Store.tracks s /\
  Store.broadcasts (Store.drop_mode m s) = Store.broadcasts s /\
  Store.queues (Store.drop_mode m s) = Store.queues s.
Proof. by destruct m. Qed.

Lemma drop_track_keeps h s :
  Store.tracks (Store.drop_track h s) = snd (drop_handle h (Store.tracks s)) /\
  Store.broadcasts (Store.drop_track h s) = Store.broadcasts s /\
  Store.queues (Store.drop_track h s) = Store.queues s.
Proof.
  unfold Store.drop_track. destruct (drop_handle h (Store.tracks s)) as [[[[m|] c]|] a]; try done.
  destruct (drop_mode_keeps m (Store.with_tracks a s)) as (-> & -> & ->). done.
Qed.

Lemma drop_track_lock h g s :
  lock (cell_of g (Store.tracks (Store.drop_track h s))) = lock (cell_of g (Store.tracks s)).
Proof. rewrite (proj1 (drop_track_keeps h s)). apply (all_stay_drop h). Qed.

(** Cells elsewhere are not touched at all. *)
Lemma drop_track_other h g s : loc g <> loc h ->
  cell_of g (Store.tracks (Store.drop_track h s)) = cell_of g (Store.tracks s).
Proof.
  intros Hne. rewrite (proj1 (drop_track_keeps h s)). unfold drop_handle. simpl.
  by apply cell_put_ne.
Qed.

Lemma cell_of_loc {T} g h (a : Arena T) : loc g = loc h -> cell_of g a = cell_of h a.
Proof. unfold cell_of. by intros ->. Qed.

(** Setting the mode, up to the end of the writer. *)
Lemma set_mode_spec m self s :
  let c := cell_of (TrackWriter.state self) (Store.tracks s) in
  let '(r, s') := TrackWrite.set_mode m self s in
  match dropped (inner c) with
  | None => r = Err ServeErr.Cancel
  | Some _ => r = Ok tt /\ forall g, loc g = loc (TrackWriter.state self) ->
      TrackState.mode (lock (cell_of g (Store.tracks (TrackWrite.drop self s')))) = Some m
  end.
Proof.
  cbv zeta. unfold TrackWrite.set_mode, on_cell. rewrite mutate_spec.
  destruct (dropped _) eqn:Ed; [|done]. split; [done|]. intros g Hg.
  unfold TrackWrite.drop. rewrite drop_track_lock. simpl.
  by rewrite (cell_of_loc g (TrackWriter.state self)), cell_put_eq.
Qed.

(** Reading the mode of a track that has one. *)
Lemma mode_turn_Some r m s :
  TrackState.mode (lock (cell_of (TrackReader.state r) (Store.tracks s))) = Some m ->
  fst (TrackRead.mode_turn r s) = Return (Ok m).
Proof. unfold TrackRead.mode_turn. intros ->. by destruct m as [[]|[]|[]]. Qed.

(** Closing one of the queued tracks. *)
Lemma close_track_other err tw g s : loc g <> loc (TrackWriter.state tw) ->
  cell_of g (Store.tracks (snd (TrackWrite.close err tw s))) = cell_of g (Store.tracks s).
Proof.
  intros Hne. unfold TrackWrite.close, on_cell. rewrite close_cell_spec.
  destruct (closed (lock (cell_of (TrackWriter.state tw) (Store.tracks s))));
    destruct (dropped (inner (cell_of (TrackWriter.state tw) (Store.tracks s)))); simpl;
    unfold TrackWrite.drop; rewrite drop_track_other by done; simpl; by rewrite cell_put_ne.
Qed.

Lemma close_track_self err tw g s : loc g = loc (TrackWriter.state tw) ->
  closed (lock (cell_of g (Store.tracks (snd (TrackWrite.close err tw s))))) =
  match closed (lock (cell_of g (Store.tracks s))), dropped (inner (cell_of g (Store.tracks s))) with
  | None, Some _ => Some err
  | r, _ => r
  end.
Proof.
  intros He. unfold TrackWrite.close, on_cell. rewrite close_cell_spec.
  rewrite (cell_of_loc g _ (Store.tracks s) He). set (c := cell_of _ (Store.tracks s)).
  destruct (closed (lock c)) eqn:Ec, (dropped (inner c)) eqn:Ed; simpl; unfold TrackWrite.drop;
    rewrite drop_track_lock; simpl; rewrite (cell_of_loc g _ _ He), cell_put_eq; done.
Qed.

Lemma close_track_keeps err tw s :
  Store.queues (snd (TrackWrite.close err tw s)) = Store.queues s /\
  Store.broadcasts (snd (TrackWrite.close err tw s)) = Store.broadcasts s.
Proof.
  unfold TrackWrite.close. destruct (on_cell _ _ _) as [r a]. simpl. unfold TrackWrite.drop.
  by destruct (drop_track_keeps (TrackWriter.state tw) (Store.with_tracks a s)) as (_ & -> & ->).
Qed.

Lemma close_all_keeps l s :
  Store.queues (TracksRequest.close_all l s) = Store.queues s /\
  Store.broadcasts (TracksRequest.close_all l s) = Store.broadcasts s.
Proof.
  revert s; induction l as [|tw l IH]; intros s; simpl; [done|].
  destruct (close_track_keeps ServeErr.NotFound tw s) as [<- <-]. apply IH.
Qed.

(** A closed track stays closed, an open one that is listed gets closed. *)
Lemma close_all_closed l g s e :
  closed (lock (cell_of g (Store.tracks s))) = Some e ->
  closed (lock (cell_of g (Store.tracks (TracksRequest.close_all l s)))) = Some e.
Proof.
  revert s; induction l as [|tw l IH]; intros s Hc; simpl; [done|]. apply IH.
  destruct (decide (loc g = loc (TrackWriter.state tw))) as [He|Hne].
  - rewrite close_track_self by done. by rewrite Hc.
  - by rewrite close_track_other.
Qed.

Lemma close_all_open l tw s :
  tw ∈ l -> closed (lock (cell_of (TrackWriter.state tw) (Store.tracks s))) = None ->
  dropped (inner (cell_of (TrackWriter.state tw) (Store.tracks s))) <> None ->
  closed (lock (cell_of (TrackWriter.state tw) (Store.tracks (TracksRequest.close_all l s)))) =
    Some ServeErr.NotFound.
Proof.
  revert s; induction l as [|x l IH]; intros s Hin Hc Hd; [by apply elem_of_nil in Hin|]. simpl.
  destruct (decide (loc (TrackWriter.state tw) = loc (TrackWriter.state x))) as [He|Hne].
  - apply close_all_closed. rewrite close_track_self by done. rewrite Hc. by destruct (dropped _).
  - apply elem_of_cons in Hin as [->|Hin]; [done|]. apply IH; rewrite ?close_track_other; done.
Qed.

Lemma drop_broadcast_queues h s : Store.queues (Store.drop_broadcast h s) = Store.queues s.
Proof.
  unfold Store.drop_broadcast. destruct (drop_handle h (Store.broadcasts s)) as [v a].
  induction (match v with Some st => (map_to_list (TracksState.tracks st)).*2 | None => [] end)
    as [|x l IH]; simpl; [done|]. by destruct (drop_track_keeps (TrackReader.state x)
    (fold_right (fun r => Store.drop_track (TrackReader.state r)) (Store.with_broadcasts a s) l)) as (_ & _ & ->).
Qed.

Lemma drop_broadcast_lock h g s :
  lock (cell_of g (Store.tracks (Store.drop_broadcast h s))) = lock (cell_of g (Store.tracks s)).
Proof.
  unfold Store.drop_broadcast. destruct (drop_handle h (Store.broadcasts s)) as [v a].
  induction (match v with Some st => (map_to_list (TracksState.tracks st)).*2 | None => [] end)
    as [|x l IH]; simpl; [done|]. by rewrite drop_track_lock.
Qed.

(** A name the map knows. *)
Lemma subscribe_known name self s track :
  TracksState.tracks (lock (cell_of (TracksReader.state self) (Store.broadcasts s))) !! name = Some track ->
  fst (TracksReader.subscribe name self s) = Some track /\
  Store.queues (snd (TracksReader.subscribe name self s)) = Store.queues s /\
  Store.broadcasts (snd (TracksReader.subscribe name self s)) = Store.broadcasts s.
Proof. unfold TracksReader.subscribe. intros ->. by destruct track. Qed.

(** [subscribe] on every branch, and again. *)
Lemma subscribe_spec (name : String) (self : TracksReader.t) (s : Store.t) :
  let map s := TracksState.tracks (lock (cell_of (TracksReader.state self) (Store.broadcasts s))) in
  let queued s := lock (cell_of (TracksReader.queue self) (Store.queues s)) in
  let '(r, s') := TracksReader.subscribe name self s in
  match map s !! name with
  | Some track => r = Some track /\ map s' = map s /\ queued s' = queued s
  | None =>
      match dropped (inner (cell_of (TracksReader.state self) (Store.broadcasts s))),
            dropped (inner (cell_of (TracksReader.queue self) (Store.queues s))) with
      | Some _, Some _ => exists tw track, r = Some track /\
          queued s' = queued s ++ [tw] /\ map s' = <[name := track]> (map s) /\
          loc (TrackReader.state track) = loc (TrackWriter.state tw) /\
          TrackReader.info track = Track.mk (Tracks.namespace (TracksReader.info self)) name
      | _, _ => r = None /\ map s' = map s /\ queued s' = queued s
      end
  end /\
  forall track other, r = Some track ->
    loc (TracksReader.state other) = loc (TracksReader.state self) ->
    fst (TracksReader.subscribe name other s') = Some track /\
    Store.queues (snd (TracksReader.subscribe name other s')) = Store.queues s'.
Proof.
  cbv zeta. destruct (TracksReader.subscribe name self s) as [r s'] eqn:E.
  assert (Hag : forall track other, r = Some track ->
    TracksState.tracks (lock (cell_of (TracksReader.state self) (Store.broadcasts s'))) !! name = Some track ->
    loc (TracksReader.state other) = loc (TracksReader.state self) ->
    fst (TracksReader.subscribe name other s') = Some track /\
    Store.queues (snd (TracksReader.subscribe name other s')) = Store.queues s').
  { intros track other -> Hk Hl. rewrite <- (cell_of_loc _ _ _ Hl) in Hk.
    by destruct (subscribe_known name other s' track Hk) as (? & ? & _). }
  destruct (TracksState.tracks (lock (cell_of (TracksReader.state self) (Store.broadcasts s))) !! name)
    as [track|] eqn:Et.
  - destruct (subscribe_known name self s track Et) as (H1 & H2 & H3). rewrite E in H1, H2, H3.
    simpl in H1, H2, H3. split; [by rewrite H2, H3|].
    intros t other -> Hl. apply Hag; [done|by rewrite H3, Et, H1|done].
  - unfold TracksReader.subscribe in E. rewrite Et in E.
    destruct (dropped (inner (cell_of (TracksReader.state self) _))) eqn:Eb; [|by simplify_eq].
    unfold TrackWrite.produce, on_cell, Queue.push, with_mut in E. cbn [default_split state_new split] in E.
    cbn [Store.queues Store.broadcasts Store.with_tracks] in E.
    destruct (dropped (inner (cell_of (TracksReader.queue self) (Store.queues s)))) eqn:Eq; simpl in E; rewrite Eb in E; simpl in E.
    + simplify_eq. simpl. rewrite !cell_put_eq. unfold lock. simpl. split.
      * eexists _, _. split; [reflexivity|]. split; [reflexivity|]. split; [reflexivity|]. by split.
      * intros t other [= <-] Hl. apply Hag; [done| |done]. simpl. rewrite cell_put_eq. unfold lock. simpl.
        by rewrite lookup_insert_eq.
    + unfold TrackRead.drop, TrackWrite.drop in E. simplify_eq. split; [|done].
      rewrite !(proj1 (proj2 (drop_track_keeps _ _))), !(proj2 (proj2 (drop_track_keeps _ _))).
      simpl. by rewrite !cell_put_eq.
Qed.

(** ** Properties *)

(** A track gets its mode once: [stream], [groups] and
    [datagrams] use the writer up, and from then on every reader of the track
    asking for the mode is at once given a reader of the very stream, list of
    subgroups or datagrams that was returned for writing, although the track's
    own writer is gone; if no reader is left the result is [Cancel]. *)
Theorem track_modes (self : TrackWriter.t) (priority : byte) (s : Store.t) :
  let open := dropped (inner (cell_of (TrackWriter.state self) (Store.tracks s))) in
  (let '(r, s') := TrackWrite.stream priority self s in
   match open with
   | None => r = Err ServeErr.Cancel
   | Some _ => exists wr rd, r = Ok wr /\
       loc (StreamTrack.StreamReader.state rd) = loc (StreamTrack.StreamWriter.state wr) /\
       forall tr, loc (TrackReader.state tr) = loc (TrackWriter.state self) ->
         fst (TrackRead.mode_turn tr s') = Return (Ok (TrackReaderMode.Stream rd))
   end) /\
  (let '(r, s') := TrackWrite.groups self s in
   match open with
   | None => r = Err ServeErr.Cancel
   | Some _ => exists wr rd, r = Ok wr /\
       loc (Groups.SubgroupsReader.state rd) = loc (Groups.SubgroupsWriter.state wr) /\
       forall tr, loc (TrackReader.state tr) = loc (TrackWriter.state self) ->
         fst (TrackRead.mode_turn tr s') = Return (Ok (TrackReaderMode.Subgroups rd))
   end) /\
  (let '(r, s') := TrackWrite.datagrams self s in
   match open with
   | None => r = Err ServeErr.Cancel
   | Some _ => exists wr rd, r = Ok wr /\
       loc (DatagramsReader.state rd) = loc (DatagramsWriter.state wr) /\
       forall tr, loc (TrackReader.state tr) = loc (TrackWriter.state self) ->
         fst (TrackRead.mode_turn tr s') = Return (Ok (TrackReaderMode.Datagrams rd))
   end).
Proof.
  cbv zeta. split; [|split].
  - unfold TrackWrite.stream. destruct (StreamTrack.StreamWriter.produce _ _) as [[wr rd] x] eqn:Ep.
    pose proof (set_mode_spec (TrackReaderMode.Stream rd) self (Store.with_streams x s)) as H.
    cbv zeta in H. destruct (TrackWrite.set_mode _ _ _) as [r s']. simpl in H.
    destruct (dropped _); [|by rewrite H]. destruct H as [-> H]. exists wr, rd. split; [done|].
    split; [|intros tr Htr; by apply mode_turn_Some, H].
    unfold StreamTrack.StreamWriter.produce in Ep. simpl in Ep. by simplify_eq.
  - unfold TrackWrite.groups. destruct (Groups.SubgroupsWriter.produce _ _) as [[wr rd] x] eqn:Ep.
    pose proof (set_mode_spec (TrackReaderMode.Subgroups rd) self (Store.with_subgroups x s)) as H.
    cbv zeta in H. destruct (TrackWrite.set_mode _ _ _) as [r s']. simpl in H.
    destruct (dropped _); [|by rewrite H]. destruct H as [-> H]. exists wr, rd. split; [done|].
    split; [|intros tr Htr; by apply mode_turn_Some, H].
    unfold Groups.SubgroupsWriter.produce in Ep. simpl in Ep. by simplify_eq.
  - unfold TrackWrite.datagrams. destruct (default_split DatagramsState.default _) as [[wh rh] x] eqn:Ep.
    pose proof (set_mode_spec (TrackReaderMode.Datagrams (DatagramsReader.new rh (TrackWriter.info self)))
      self (Store.with_datagrams x s)) as H.
    cbv zeta in H. destruct (TrackWrite.set_mode _ _ _) as [r s']. simpl in H.
    destruct (dropped _); [|by rewrite H]. destruct H as [-> H].
    eexists _, _. split; [reflexivity|]. split; [|intros tr Htr; by apply mode_turn_Some, H].
    unfold default_split in Ep. simpl in Ep. by simplify_eq.
Qed.

(** [subscribe] on every branch: a known name gives
    another reader of the same track and requests nothing; an unknown one is
    refused once the writers' side or the queue is gone, leaving the map alone;
    otherwise one request is queued, its reader is entered in the map and
    returned. Asking again, through any reader of the broadcast, then gives the
    same track and queues nothing: requests are deduplicated. *)
Theorem tracks_subscribe (name : String) (self : TracksReader.t) (s : Store.t) :
  let map s := TracksState.tracks (lock (cell_of (TracksReader.state self) (Store.broadcasts s))) in
  let queued s := lock (cell_of (TracksReader.queue self) (Store.queues s)) in
  let '(r, s') := TracksReader.subscribe name self s in
  match map s !! name with
  | Some track => r = Some track /\ map s' = map s /\ queued s' = queued s
  | None =>
      match dropped (inner (cell_of (TracksReader.state self) (Store.broadcasts s))),
            dropped (inner (cell_of (TracksReader.queue self) (Store.queues s))) with
      | Some _, Some _ => exists tw track, r = Some track /\
          queued s' = queued s ++ [tw] /\ map s' = <[name := track]> (map s) /\
          loc (TrackReader.state track) = loc (TrackWriter.state tw) /\
          TrackReader.info track = Track.mk (Tracks.namespace (TracksReader.info self)) name
      | _, _ => r = None /\ map s' = map s /\ queued s' = queued s
      end
  end /\
  forall track other, r = Some track ->
    loc (TracksReader.state other) = loc (TracksReader.state self) ->
    fst (TracksReader.subscribe name other s') = Some track /\
    Store.queues (snd (TracksReader.subscribe name other s')) = Store.queues s'.
Proof. exact (subscribe_spec name self s). Qed.

(** When the handler of requests goes away, nobody is left
    waiting: every track still queued and not closed yet is closed with
    [NotFound], which is what its readers' [closed] returns from then on, and a
    name that is not in the map is refused at once. *)
Theorem tracks_request_dropped (self : TracksRequest.t) (queue : Handle) (s : Store.t) :
  TracksRequest.incoming self = Some queue ->
  dropped (inner (cell_of queue (Store.queues s))) <> None ->
  drops (cell_of queue (Store.queues s)) !! half queue = Some 1%nat ->
  let (r, s') := TracksRequest.drop self s in
  r = Ok tt /\
  (forall tw tr, tw ∈ lock (cell_of queue (Store.queues s)) ->
    loc (TrackReader.state tr) = loc (TrackWriter.state tw) ->
    closed (lock (cell_of (TrackWriter.state tw) (Store.tracks s))) = None ->
    dropped (inner (cell_of (TrackWriter.state tw) (Store.tracks s))) <> None ->
    TrackRead.closed_turn tr s' = Return (Err ServeErr.NotFound)) /\
  (forall name rd, loc (TracksReader.queue rd) = loc queue ->
    TracksState.tracks (lock (cell_of (TracksReader.state rd) (Store.broadcasts s'))) !! name = None ->
    fst (TracksReader.subscribe name rd s') = None).
Proof.
  intros Hq Hopen Hone. unfold TracksRequest.drop. rewrite Hq.
  unfold TracksRequest.close_incoming, on_cell, Queue.close, with_mut.
  destruct (dropped (inner (cell_of queue (Store.queues s)))) eqn:Ed; [|done]. simpl.
  set (c := cell_of queue (Store.queues s)) in *.
  set (c' := drop_state (half queue) _). set (s1 := Store.with_queues _ s).
  split; [done|]. split.
  - intros tw tr Hin Hl Hcl Hdr. unfold TrackRead.closed_turn, idle.
    rewrite drop_broadcast_lock, (cell_of_loc _ _ _ Hl).
    fold (lock c). by rewrite (close_all_open (lock c) tw s1 Hin Hcl Hdr).
  - intros name rd Hl Hn. unfold TracksReader.subscribe. rewrite Hn.
    set (s2 := Store.drop_broadcast _ _) in *.
    destruct (dropped (inner (cell_of (TracksReader.state rd) (Store.broadcasts s2)))); [|done].
    unfold TrackWrite.produce. cbn [default_split state_new split].
    unfold s2, on_cell at 1, Queue.push, with_mut. cbn [Store.queues Store.with_tracks].
    rewrite drop_broadcast_queues, (proj1 (close_all_keeps _ _)). subst s1. simpl.
    rewrite (cell_of_loc _ _ _ Hl), cell_put_eq.
    assert (Hd : dropped (inner c') = None).
    { subst c'. apply drop_state_last. exact Hone. }
    rewrite Hd. simpl. by destruct (on_cell (TracksReader.state rd) _ _).
Qed.

(** A broadcast whose reader has requested a track nobody answered. *)
Definition demo_name : String := mk_String [x76] eq_refl.
Definition demo_broadcast : TracksRequest.t * TracksReader.t * Store.t :=
  let '((_, request, reader), s) := produce (Tracks.mk (Tuple.mk [])) Store.new in
  (request, reader, snd (TracksReader.subscribe demo_name reader s)).

Definition demo_queue : Handle := {| loc := 0; half := 0%nat |}.
Definition demo_track_reader : TrackReader.t :=
  TrackReader.mk {| loc := 0; half := 1%nat |} (Track.mk (Tuple.mk []) demo_name).

Lemma tracks_request_dropped_witness :
  let '(request, reader, s) := demo_broadcast in
  TracksRequest.incoming request = Some demo_queue /\
  TrackRead.closed_turn demo_track_reader (snd (TracksRequest.drop request s)) =
    Return (Err ServeErr.NotFound).
Proof.
  destruct demo_broadcast as [[request reader] s] eqn:E.
  assert (Ei : request = (demo_broadcast.1).1) by (rewrite E; reflexivity).
  assert (Es : s = demo_broadcast.2) by (rewrite E; reflexivity).
  assert (Hq : TracksRequest.incoming request = Some demo_queue) by (rewrite Ei; reflexivity).
  assert (Hd : dropped (inner (cell_of demo_queue (Store.queues s))) <> None)
    by (rewrite Es; discriminate).
  assert (H1 : drops (cell_of demo_queue (Store.queues s)) !! half demo_queue = Some 1%nat)
    by (rewrite Es; reflexivity).
  pose proof (tracks_request_dropped request demo_queue s Hq Hd H1) as H.
  destruct (TracksRequest.drop request s) as [r s']. destruct H as (_ & H & _).
  split; [exact Hq|]. simpl.
  apply (H (TrackWriter.mk {| loc := 0; half := 0%nat |} (Track.mk (Tuple.mk []) demo_name))).
  - rewrite Es. apply list_elem_of_here.
  - reflexivity.
  - rewrite Es. reflexivity.
  - rewrite Es. discriminate.
Defined.
