(* ===== verification/Receiving.v ===== *)
(** * Receiving objects

    [recv_track] and [recv_subgroup] of [moq-transport/src/session/subscriber.rs]:
    the objects of a data stream are read and written into the track cache, chunk
    by chunk. Each loop recurses on fuel; [load] of the reader, its bytes and
    reads, bounds the number of turns. *)
From Stdlib Require Import NArith Lia Bool.
From stdpp Require Import base list gmap option numbers.
From S2P Require Import Prelude Buffers VarInt Utf8 Coding Setup Data Errors Streams Watch Serve.
From S2P Require Import Subgroup Groups StreamTrack.

(** What is left to read, in reads and bytes. *)
Definition load (r : Reader.t) : nat := length (Reader.stream r) + length (Reader.pending r).

(** ** The payload of one object

    [S] is where the object is written to. *)
Section Payload.
Context {S : Type} (write : list byte -> S -> outcome ServeError unit * S).

Fixpoint recv_payload (fuel : nat) (remain : N) (reader : Reader.t) (s : S) :
    option (outcome SessionError unit * (Reader.t * S)) :=
  if remain =? 0 then Some (Ok tt, (reader, s))
  else
    match fuel with
    | O => None
    | Datatypes.S fuel =>
        match Reader.read_chunk remain reader with
        | (Ok (Some data), reader) =>
            let remain := remain - lenN data in
            match write data s with
            | (Ok _, s) => recv_payload fuel remain reader s
            | (Err e, s) => Some (Err (SessionErr.Serve e), (reader, s))
            | (Panic, s) => Some (Panic, (reader, s))
            end
        | (Ok None, reader) => Some (Err SessionErr.WrongSize, (reader, s))
        | (Err e, reader) => Some (Err e, (reader, s))
        | (Panic, reader) => Some (Panic, (reader, s))
        end
    end.
End Payload.

(** ** [recv_subgroup] *)

Definition write_subgroup_object (data : list byte) (s : SubgroupObjectWriter.t * World) :
    outcome ServeError unit * (SubgroupObjectWriter.t * World) :=
  SubgroupWriter.write_object s.1 data s.2.

(** One object: its header, [create], its payload; the writer of the object goes
    out of scope on every path. *)
Definition recv_subgroup_object (fuel : nat) (group : SubgroupWriter.t) (reader : Reader.t) (w : World) :
    option (outcome SessionError unit * (Reader.t * (SubgroupWriter.t * World))) :=
  match Reader.decode (decode : dec Data.SubgroupObject.t) reader with
  | (Ok object, reader) =>
      match SubgroupWriter.create (Data.SubgroupObject.size object) (group, w) with
      | (Ok writer, (group, w)) =>
          match recv_payload write_subgroup_object fuel (Data.SubgroupObject.size object) reader (writer, w) with
          | Some (r, (reader, (writer, w))) => Some (r, (reader, (group, drop_object_writer writer w)))
          | None => None
          end
      | (Err e, (group, w)) => Some (Err (SessionErr.Serve e), (reader, (group, w)))
      | (Panic, (group, w)) => Some (Panic, (reader, (group, w)))
      end
  | (Err e, reader) => Some (Err e, (reader, (group, w)))
  | (Panic, reader) => Some (Panic, (reader, (group, w)))
  end.

(** The loop over the objects. *)
Fixpoint recv_subgroup_loop (fuel : nat) (group : SubgroupWriter.t) (reader : Reader.t) (w : World) :
    option (outcome SessionError unit * (Reader.t * (SubgroupWriter.t * World))) :=
  match fuel with
  | O => None
  | S fuel' =>
      match Reader.done reader with
      | (Ok true, reader) => Some (Ok tt, (reader, (group, w)))
      | (Ok false, reader) =>
          match recv_subgroup_object fuel group reader w with
          | Some (Ok _, (reader, (group, w))) => recv_subgroup_loop fuel' group reader w
          | r => r
          end
      | (Err e, reader) => Some (Err e, (reader, (group, w)))
      | (Panic, reader) => Some (Panic, (reader, (group, w)))
      end
  end.

(** The group's writer is an argument by value: it is dropped at the end. *)
Definition recv_subgroup (group : SubgroupWriter.t) (reader : Reader.t) (w : World) :
    option (outcome SessionError unit * World) :=
  match recv_subgroup_loop (S (load reader)) group reader w with
  | Some (r, (_, (group, w))) => Some (r, SubgroupWriter.drop group w)
  | None => None
  end.

(** ** [recv_track] *)

Definition write_stream_object (data : list byte) (s : StreamObjectWriter.t * StreamWorld.t) :
    outcome ServeError unit * (StreamObjectWriter.t * StreamWorld.t) :=
  StreamGroupWriter.write_object s.1 data s.2.

(** The group of the previous object if it is that of the next, or a new one. In
    the latter case [prev] has not been moved: its group goes only when [prev] is
    assigned at the end of the turn, or on the way out. *)
Definition next_group (track : StreamWriter.t) (prev : option StreamGroupWriter.t) (group_id : N) :
    M StreamWorld.t ServeError (StreamGroupWriter.t * option StreamGroupWriter.t) := fun w =>
  let fresh :=
    let '(r, (_, w)) := StreamWriter.create group_id (track, w) in
    (match r with Ok group => Ok (group, prev) | Err e => Err e | Panic => Panic end, w) in
  match prev with
  | Some group =>
      if StreamGroup.group_id (StreamGroupWriter.info group) =? group_id then (Ok (group, None), w)
      else fresh
  | None => fresh
  end.

Definition drop_prev (prev : option StreamGroupWriter.t) (w : StreamWorld.t) : StreamWorld.t :=
  match prev with
  | Some g => StreamWorld.drop_group_handle (StreamGroupWriter.state g) w
  | None => w
  end.

(** One turn; the result is the next [prev]. *)
Definition recv_track_object (fuel : nat) (track : StreamWriter.t) (prev : option StreamGroupWriter.t)
    (reader : Reader.t) (w : StreamWorld.t) :
    option (outcome SessionError (option StreamGroupWriter.t) * (Reader.t * StreamWorld.t)) :=
  match Reader.decode (decode : dec Data.TrackObject.t) reader with
  | (Ok chunk, reader) =>
      match next_group track prev (Data.TrackObject.group_id chunk) w with
      | (Ok (group, prev), w) =>
          match StreamGroupWriter.create (Data.TrackObject.size chunk) (group, w) with
          | (Ok object, (group, w)) =>
              match recv_payload write_stream_object fuel (Data.TrackObject.size chunk) reader (object, w) with
              | Some (Ok _, (reader, (object, w))) =>
                  Some (Ok (Some group), (reader, StreamWorld.drop_object_writer object (drop_prev prev w)))
              | Some (Err e, (reader, (object, w))) =>
                  Some (Err e, (reader,
                    drop_prev prev (drop_prev (Some group) (StreamWorld.drop_object_writer object w))))
              | Some (Panic, (reader, (object, w))) => Some (Panic, (reader, w))
              | None => None
              end
          | (Err e, (group, w)) =>
              Some (Err (SessionErr.Serve e), (reader, drop_prev prev (drop_prev (Some group) w)))
          | (Panic, (_, w)) => Some (Panic, (reader, w))
          end
      | (Err e, w) => Some (Err (SessionErr.Serve e), (reader, drop_prev prev w))
      | (Panic, w) => Some (Panic, (reader, w))
      end
  | (Err e, reader) => Some (Err e, (reader, drop_prev prev w))
  | (Panic, reader) => Some (Panic, (reader, w))
  end.

Fixpoint recv_track_loop (fuel : nat) (track : StreamWriter.t) (prev : option StreamGroupWriter.t)
    (reader : Reader.t) (w : StreamWorld.t) : option (outcome SessionError unit * StreamWorld.t) :=
  match fuel with
  | O => None
  | S fuel' =>
      match Reader.done reader with
      | (Ok true, reader) => Some (Ok tt, drop_prev prev w)
      | (Ok false, reader) =>
          match recv_track_object fuel track prev reader w with
          | Some (Ok prev, (reader, w)) => recv_track_loop fuel' track prev reader w
          | Some (Err e, (_, w)) => Some (Err e, w)
          | Some (Panic, (_, w)) => Some (Panic, w)
          | None => None
          end
      | (Err e, reader) => Some (Err e, drop_prev prev w)
      | (Panic, reader) => Some (Panic, w)
      end
  end.

Definition recv_track (track : StreamWriter.t) (reader : Reader.t) (w : StreamWorld.t) :
    option (outcome SessionError unit * StreamWorld.t) :=
  match recv_track_loop (S (load reader)) track None reader w with
  | Some (r, w) => Some (r, StreamWriter.drop track w)
  | None => None
  end.

(** ** The fuel is enough *)

Lemma stream_chunk_load max s bs s' :
  0 < max -> stream_read_chunk max s = (Ok (Some bs), s') ->
  (length s' + length (received_bytes s') < length s + length (received_bytes s))%nat /\
  (length (received_bytes s') + length bs = length (received_bytes s))%nat.
Proof.
  intros Hm. destruct s as [|[d|msg] s]; simpl; [done| |done].
  destruct (N.leb_spec (lenN d) max) as [Hl|Hl]; intros ?; simplify_eq; simpl; rewrite !length_app.
  - lia.
  - unfold lenN in Hl. rewrite length_drop, length_take. lia.
Qed.

Lemma read_chunk_load max r bs r' :
  0 < max -> Reader.read_chunk max r = (Ok (Some bs), r') -> (load r' < load r)%nat.
Proof.
  intros Hm. unfold Reader.read_chunk, load, Reader.pending. case_bool_decide as Hb.
  - destruct (stream_read_chunk max (Reader.stream r)) as [o s] eqn:E. intros ?. simplify_eq/=.
    apply stream_chunk_load in E; [|done]. rewrite Hb. simpl. lia.
  - intros ?. simplify_eq/=. rewrite !length_app, length_drop.
    assert (0 < length (Reader.buffer r))%nat by (destruct (Reader.buffer r); [done|simpl; lia]).
    unfold lenN. lia.
Qed.

Lemma done_load r r' : Reader.done r = (Ok false, r') -> (load r' <= load r)%nat.
Proof.
  unfold Reader.done, load, Reader.pending. case_bool_decide as Hb; [|by intros; simplify_eq].
  rewrite Hb. destruct (Reader.stream r) as [|[d|msg] s]; simpl; intros; simplify_eq/=.
  rewrite length_app. lia.
Qed.

(** Decoding never puts reads back. *)
Lemma attempt_stream {A} (d : dec A) s buffer more :
  (forall n, Reader.stream (snd (more n)) `suffix_of` s) ->
  Reader.stream (snd (Reader.attempt d s buffer more)) `suffix_of` s.
Proof.
  intros Hm. unfold Reader.attempt. destruct (d buffer) as [[a|e|] r]; [done| |done].
  destruct e; done || apply Hm.
Qed.

Lemma fill_stream {A} (d : dec A) s buffer required :
  Reader.stream (snd (Reader.fill d s buffer required)) `suffix_of` s.
Proof.
  revert buffer required. induction s as [|[bs|msg] s IH]; intros buffer required; simpl; [done| |done].
  destruct (_ <=? _).
  - etransitivity; [apply attempt_stream; intros n; apply IH|]. by apply suffix_cons_r.
  - etransitivity; [apply IH|]. by apply suffix_cons_r.
Qed.

Lemma decode_stream {A} (d : dec A) r : Reader.stream (snd (Reader.decode d r)) `suffix_of` Reader.stream r.
Proof. apply attempt_stream. intros n. apply fill_stream. Qed.

Lemma decode_load {A} (d : dec A) n r a r' :
  consumes n d -> 0 < n -> Reader.decode d r = (Ok a, r') -> (load r' < load r)%nat.
Proof.
  intros Hd Hn E. pose proof (suffix_length _ _ (decode_stream d r)) as Hs.
  pose proof (decode_shrinks d n Hd r a r' E) as Hp. rewrite E in Hs. simpl in Hs. unfold load, lenN in *. lia.
Qed.

Lemma payload_total {S} (write : list byte -> S -> outcome ServeError unit * S) fuel remain r s :
  (load r < fuel)%nat ->
  exists o r' s', recv_payload write fuel remain r s = Some (o, (r', s')) /\
    (is_Ok o -> (load r' <= load r)%nat).
Proof.
  revert remain r s. induction fuel as [|fuel IH]; intros remain r s Hf; [lia|]. cbn [recv_payload].
  destruct (N.eqb_spec remain 0) as [->|Hr]; [by exists (Ok tt), r, s|].
  destruct (Reader.read_chunk remain r) as [[[data|]|e|] r1] eqn:E;
    [|by eexists _, _, _; split; [reflexivity|]..].
  apply read_chunk_load in E; [|lia].
  destruct (write data s) as [[u|e|] s1]; [|by eexists _, _, _; split; [reflexivity|]..].
  destruct (IH (remain - lenN data) r1 s1) as (o & r2 & s2 & -> & Ho); [lia|].
  eexists _, _, _. split; [reflexivity|]. intros H. specialize (Ho H). lia.
Qed.

Lemma subgroup_object_total fuel group r w :
  (load r < fuel)%nat ->
  exists o r' gw, recv_subgroup_object fuel group r w = Some (o, (r', gw)) /\
    (is_Ok o -> (load r' < load r)%nat).
Proof.
  intros Hf. unfold recv_subgroup_object.
  destruct (Reader.decode _ r) as [[object|e|] r1] eqn:E; [|by eexists _, _, _; split; [reflexivity|]..].
  apply (decode_load _ 1) in E; [|apply decode_consumes|done].
  destruct (SubgroupWriter.create _ _) as [[writer|e|] [g w1]];
    [|by eexists _, _, _; split; [reflexivity|]..].
  destruct (payload_total write_subgroup_object fuel (Data.SubgroupObject.size object) r1 (writer, w1))
    as (o & r2 & [wr w2] & -> & Ho); [lia|].
  eexists _, _, _. split; [reflexivity|]. intros H. specialize (Ho H). lia.
Qed.

Lemma subgroup_loop_total fuel group r w :
  (load r < fuel)%nat -> exists o r' gw, recv_subgroup_loop fuel group r w = Some (o, (r', gw)).
Proof.
  revert group r w. induction fuel as [|fuel IH]; intros group r w Hf; [lia|]. cbn [recv_subgroup_loop].
  destruct (Reader.done r) as [[[|]|e|] r1] eqn:E; [by eauto| |by eauto|by eauto].
  apply done_load in E.
  destruct (subgroup_object_total (S fuel) group r1 w) as (o & r2 & [g w2] & Ho & Hl); [lia|]. rewrite Ho.
  destruct o as [[]|e|]; [|by eauto|by eauto]. apply IH. specialize (Hl I). lia.
Qed.

Lemma track_object_total fuel track prev r w :
  (load r < fuel)%nat ->
  exists o r' w', recv_track_object fuel track prev r w = Some (o, (r', w')) /\
    (is_Ok o -> (load r' < load r)%nat).
Proof.
  intros Hf. unfold recv_track_object.
  destruct (Reader.decode _ r) as [[chunk|e|] r1] eqn:E; [|by eexists _, _, _; split; [reflexivity|]..].
  apply (decode_load _ 1) in E; [|apply decode_consumes|done].
  destruct (next_group _ _ _ _) as [[[group p]|e|] w1]; [|by eexists _, _, _; split; [reflexivity|]..].
  destruct (StreamGroupWriter.create _ _) as [[object|e|] [g w2]];
    [|by eexists _, _, _; split; [reflexivity|]..].
  destruct (payload_total write_stream_object fuel (Data.TrackObject.size chunk) r1 (object, w2))
    as (o & r2 & [wr w3] & -> & Ho); [lia|].
  destruct o as [[]|e|]; [|by eexists _, _, _; split; [reflexivity|]..].
  eexists _, _, _. split; [reflexivity|]. intros _. specialize (Ho I). lia.
Qed.

Lemma track_loop_total fuel track prev r w :
  (load r < fuel)%nat -> exists o w', recv_track_loop fuel track prev r w = Some (o, w').
Proof.
  revert prev r w. induction fuel as [|fuel IH]; intros prev r w Hf; [lia|]. cbn [recv_track_loop].
  destruct (Reader.done r) as [[[|]|e|] r1] eqn:E; [by eauto| |by eauto|by eauto].
  apply done_load in E.
  destruct (track_object_total (S fuel) track prev r1 w) as (o & r2 & w2 & Ho & Hl); [lia|]. rewrite Ho.
  destruct o as [p|e|]; [|by eauto|by eauto]. apply IH. specialize (Hl I). lia.
Qed.

(** ** Receiving what was written *)

(** A stream that delivers some bytes with each read and then ends. *)
Definition whole (r : Reader.t) : Prop :=
  Forall (fun e => exists b bs, e = Data (b :: bs)) (Reader.stream r).

Lemma whole_suffix r r' :
  Reader.stream r' `suffix_of` Reader.stream r -> whole r -> whole r'.
Proof. unfold whole. intros [k ->] H. by apply Forall_app in H as [_ H]. Qed.

Lemma read_chunk_whole max r :
  whole r -> 0 < max -> Reader.pending r <> [] ->
  exists bs r', Reader.read_chunk max r = (Ok (Some bs), r') /\ whole r' /\
    Reader.pending r = bs ++ Reader.pending r' /\ lenN bs <= max.
Proof.
  destruct r as [s buf]. unfold whole, Reader.read_chunk, Reader.pending. simpl. intros Hw Hm Hp.
  destruct (bool_decide_reflect (buf = [])) as [->|Hb].
  - destruct Hw as [|e s (b & bs & ->) Hw]; [done|]. simpl.
    destruct (N.leb_spec (lenN (b :: bs)) max) as [Hl|Hl].
    + eexists _, _. split; [reflexivity|]. done.
    + eexists _, _. split; [reflexivity|].
      pose proof (take_drop (N.to_nat max) (b :: bs)) as Htd. split; [|split].
      * constructor; [|done]. destruct (drop (N.to_nat max) (b :: bs)) as [|x k] eqn:E; [|eauto].
        apply (f_equal length) in E. rewrite length_drop in E. unfold lenN in Hl. simpl in *. lia.
      * cbn [Reader.buffer Reader.stream app received_bytes]. by rewrite app_assoc, Htd.
      * unfold lenN. rewrite length_take. lia.
  - eexists _, _. split; [reflexivity|]. split; [done|]. simpl. rewrite app_assoc, take_drop.
    split; [done|]. unfold lenN. rewrite length_take. lia.
Qed.

Lemma done_whole r :
  whole r ->
  exists r', Reader.done r = (Ok (bool_decide (Reader.pending r = [])), r') /\ whole r' /\
    Reader.pending r' = Reader.pending r.
Proof.
  destruct r as [s buf]. unfold whole, Reader.done, Reader.pending. simpl. intros Hw.
  destruct (bool_decide_reflect (buf = [])) as [->|Hb].
  - destruct Hw as [|e s (b & bs & ->) Hw]; simpl; eexists; (split; [reflexivity|done]).
  - exists (Reader.mk s buf). split; [|done]. by destruct buf.
Qed.

Lemma decode_whole {A} (d : dec A) (a : A) bs rest r :
  whole r -> streaming d -> d (bs ++ rest) = (Ok a, rest) -> Reader.pending r = bs ++ rest ->
  exists r', Reader.decode d r = (Ok a, r') /\ whole r' /\ Reader.pending r' = rest.
Proof.
  intros Hw Hd Hbs Hp. pose proof (decode_stream d r) as Hs.
  destruct (decode_written d a bs rest r (streaming_streaming_on _ _ Hd) Hbs Hp) as (r' & E & Hr).
  exists r'. rewrite E in Hs. split; [done|]. split; [|done]. by apply (whole_suffix r).
Qed.

(** The payload loop writes exactly the next [remain] bytes. [W n c s]: [s] takes
    [n] more bytes and holds [c]. *)
Lemma payload_whole {S} (write : list byte -> S -> outcome ServeError unit * S)
    (W : N -> list byte -> S -> Prop)
    (HW : forall n c s data, W n c s -> lenN data <= n ->
      exists s', write data s = (Ok tt, s') /\ W (n - lenN data) (c ++ data) s') fuel :
  forall r s c p rest,
  whole r -> Reader.pending r = p ++ rest -> W (lenN p) c s -> (load r < fuel)%nat ->
  exists r' s', recv_payload write fuel (lenN p) r s = Some (Ok tt, (r', s')) /\ whole r' /\
    Reader.pending r' = rest /\ W 0 (c ++ p) s'.
Proof.
  induction fuel as [|fuel IH]; intros r s c p rest Hw Hp Hs Hf; [lia|]. cbn [recv_payload].
  destruct (N.eqb_spec (lenN p) 0) as [He|He].
  { destruct p as [|x p]; [|rewrite lenN_cons in He; lia]. exists r, s. rewrite app_nil_r. done. }
  destruct (read_chunk_whole (lenN p) r Hw) as (bs & r1 & E & Hw1 & Hr & Hl); [lia| |].
  { rewrite Hp. intros [-> _]%app_eq_nil. by apply He. }
  rewrite E. apply read_chunk_load in E; [|lia].
  destruct (HW _ _ _ bs Hs Hl) as (s1 & -> & Hs1).
  assert (exists k, p = bs ++ k /\ Reader.pending r1 = k ++ rest) as (k & -> & Hk).
  { rewrite Hp in Hr. destruct (app_eq_inv _ _ _ _ Hr) as [(k & ? & ?)|(k & Hk & Hk')]; [by exists k|].
    destruct k as [|x k]; [|exfalso; subst; rewrite lenN_app, lenN_cons in Hl; lia].
    exists []. rewrite app_nil_r in *. by subst. }
  rewrite lenN_app in *. replace (lenN bs + lenN k - lenN bs) with (lenN k) in * by lia.
  destruct (IH r1 s1 (c ++ bs) k rest Hw1 Hk Hs1) as (r2 & s2 & ? & ? & ? & Hs2); [lia|].
  rewrite <- app_assoc in Hs2. eauto 10.
Qed.

(** ** A subgroup arrives *)

(** The object is complete, and its reader has not read any of it. *)
Definition stored (w : World) (payload : list byte) (o : SubgroupObjectReader.t) : Prop :=
  let c := cell_of (SubgroupObjectReader.state o) (objects w) in
  (loc (SubgroupObjectReader.state o) < next_cell (objects w))%nat /\ SubgroupObjectReader.index o = 0 /\
  concat (SubgroupObjectState.chunks (lock c)) = payload /\ closed (lock c) = None /\
  dropped (inner c) = None.

(** What [read_all] makes of an object as it is now. *)
Definition read_out (w : World) (o : SubgroupObjectReader.t) : option (turn (list byte)) :=
  let c := cell_of (SubgroupObjectReader.state o) (objects w) in
  fst <$> SubgroupObjectReader.read_all (Datatypes.S (length (SubgroupObjectState.chunks (lock c)))) [] o c.

Lemma stored_read_out w p o : stored w p o -> read_out w o = Some (Return (Ok p)).
Proof.
  intros (_ & Hi & Hc & Hcl & Hd). unfold read_out.
  rewrite (SubgroupObjectReader.read_all_run _ (SubgroupObjectState.chunks (lock (cell_of
    (SubgroupObjectReader.state o) (objects w))))) by (rewrite ?Hi; simpl; done || lia).
  unfold idle, modified. rewrite Hcl, Hd. simpl. by rewrite Hc.
Qed.

Lemma stored_read_outs w ps os :
  Forall2 (stored w) ps os -> (read_out w <$> os) = ((fun p => Some (Return (Ok p))) <$> ps).
Proof. induction 1 as [|p o ps os Hs _ IH]; [done|]. by rewrite !fmap_cons, IH, (stored_read_out _ p). Qed.

(** The objects of a group are numbered as they come. *)
Definition numbered (info : SubgroupInfo.t) (payloads : list (list byte)) : list SubgroupObject.t :=
  imap (fun i p => SubgroupObject.mk info (N.of_nat i mod 2 ^ 64) (lenN p) ObjectStatus.Object) payloads.

Lemma numbered_snoc info ps p :
  numbered info (ps ++ [p]) =
  numbered info ps ++ [SubgroupObject.mk info (lenN ps mod 2 ^ 64) (lenN p) ObjectStatus.Object].
Proof. unfold numbered. rewrite imap_app. cbn -[N.modulo N.pow N.of_nat]. by rewrite Nat.add_0_r. Qed.

(** The writer's part of a group cell: the group holds [payloads] and is open. *)
Record receiving (info : SubgroupInfo.t) (h : Handle) (payloads : list (list byte))
    (group : SubgroupWriter.t) (w : World) : Prop := {
  rcv_info : SubgroupWriter.info group = info;
  rcv_state : SubgroupWriter.state group = h;
  rcv_next : SubgroupWriter.next group = lenN payloads mod 2 ^ 64;
  rcv_closed : closed (lock (cell_of h (groups w))) = None;
  rcv_dropped : dropped (inner (cell_of h (groups w))) = Some tt;
  rcv_halves : drops (cell_of h (groups w)) = {[ 0%nat := 1%nat; 1%nat := 1%nat ]};
  rcv_infos : SubgroupObjectReader.info <$> SubgroupState.objects (lock (cell_of h (groups w))) =
    numbered info payloads;
  rcv_stored : Forall2 (stored w) payloads (SubgroupState.objects (lock (cell_of h (groups w))));
}.

(** An object being written: it takes [n] more bytes and has [c]; the rest of the
    world is that of [w0]. *)
Record filling (wh : Handle) (w0 : World) (n : N) (c : list byte) (s : SubgroupObjectWriter.t * World) :
    Prop := {
  fill_state : SubgroupObjectWriter.state s.1 = wh;
  fill_remain : SubgroupObjectWriter.remain s.1 = n;
  fill_groups : groups s.2 = groups w0;
  fill_next : next_cell (objects s.2) = next_cell (objects w0);
  fill_others : forall h, loc h <> loc wh -> cell_of h (objects s.2) = cell_of h (objects w0);
  fill_chunks : concat (SubgroupObjectState.chunks (lock (cell_of wh (objects s.2)))) = c;
  fill_closed : closed (lock (cell_of wh (objects s.2))) = None;
  fill_dropped : dropped (inner (cell_of wh (objects s.2))) = Some tt;
  fill_halves : drops (cell_of wh (objects s.2)) = {[ 0%nat := 1%nat; 1%nat := 1%nat ]};
}.

Lemma filling_write wh w0 n c s data :
  filling wh w0 n c s -> lenN data <= n ->
  exists s', write_subgroup_object data s = (Ok tt, s') /\ filling wh w0 (n - lenN data) (c ++ data) s'.
Proof.
  destruct s as [o w]. intros [Hs Hr Hg Hn Ho Hc Hcl Hd Hh] Hl. simpl in *.
  unfold write_subgroup_object, SubgroupWriter.write_object, SubgroupObjectWriter.write. simpl.
  rewrite Hs, Hr. destruct (N.ltb_spec n (lenN data)); [lia|]. rewrite mutate_spec, Hd.
  eexists. split; [reflexivity|]. split; simpl; rewrite ?cell_put_eq; try done.
  - intros h Hne. rewrite cell_put_ne by done. by apply Ho.
  - simpl. rewrite concat_app, Hc. simpl. by rewrite app_nil_r.
Qed.

(** Closed by going out of scope, complete. *)
Lemma filling_drop wh w0 c o w :
  filling wh w0 0 c (o, w) -> half wh = 0%nat ->
  let w' := drop_object_writer o w in
  groups w' = groups w0 /\ next_cell (objects w') = next_cell (objects w0) /\
  (forall h, loc h <> loc wh -> cell_of h (objects w') = cell_of h (objects w0)) /\
  concat (SubgroupObjectState.chunks (lock (cell_of wh (objects w')))) = c /\
  closed (lock (cell_of wh (objects w'))) = None /\ dropped (inner (cell_of wh (objects w'))) = None.
Proof.
  intros [Hs Hr Hg Hn Ho Hc Hcl Hd Hh] H0. simpl in *. unfold drop_object_writer, on_cell, drop_handle.
  unfold SubgroupObjectWriter.drop. rewrite Hs, Hr, H0. cbn -[drop_state].
  rewrite !cell_put_eq, !drop_state_lock. split; [done|]. split; [done|]. split.
  - intros h Hne. rewrite !cell_put_ne by done. by apply Ho.
  - split; [done|]. split; [done|]. apply drop_state_last. by rewrite Hh.
Qed.

(** [create] on an open group: a fresh object cell, listed last. *)
Lemma receiving_create info h ps group w size :
  receiving info h ps group w -> half h = 0%nat ->
  exists o group' w1,
    SubgroupWriter.create size (group, w) = (Ok o, (group', w1)) /\
    filling {| loc := next_cell (objects w); half := 0%nat |} w1 size [] (o, w1) /\
    next_cell (objects w1) = Datatypes.S (next_cell (objects w)) /\
    (forall g, loc g <> next_cell (objects w) ->
       cell_of g (objects w1) = cell_of g (objects w)) /\
    (forall p w2, groups w2 = groups w1 -> lenN p = size ->
       Forall2 (stored w2) ps (SubgroupState.objects (lock (cell_of h (groups w)))) ->
       (forall r, loc r = next_cell (objects w) ->
          stored w2 p (SubgroupObjectReader.mk r
            (SubgroupObject.mk info (lenN ps mod 2 ^ 64) size ObjectStatus.Object) 0)) ->
       receiving info h (ps ++ [p]) group' w2).
Proof.
  intros [Hi Hs Hn Hc Hd Hh Hf Hst] H0. unfold SubgroupWriter.create. simpl. rewrite Hs, Hi, Hn.
  unfold on_cell. cbn -[N.modulo N.pow]. rewrite mutate_spec, Hd. eexists _, _, _. split; [reflexivity|].
  split; [|split; [done|split]].
  - split; simpl; rewrite ?cell_put_eq; try done; unfold cell_of, put; simpl; by rewrite decide_True.
  - intros g Hg. unfold cell_of, put. simpl. by rewrite decide_False.
  - intros p w2 Hg <- Hold Hnew. simpl in Hg.
    split; simpl; rewrite ?Hg, ?cell_put_eq; try done.
    + rewrite lenN_app. change (lenN [p]) with 1. by rewrite N.Div0.add_mod_idemp_l.
    + unfold SubgroupState.push, lock. cbn -[N.modulo N.pow]. rewrite fmap_app, numbered_snoc. f_equal. exact Hf.
    + unfold SubgroupState.push, lock. cbn -[N.modulo N.pow]. apply Forall2_app; [exact Hold|].
      constructor; [|done]. by apply Hnew.
Qed.

(** What the sender puts on the stream for one object. *)
Definition object_wire (payload bs : list byte) : Prop :=
  exists object header, bs = header ++ payload /\ Data.SubgroupObject.size object = lenN payload /\
    forall rest, (decode : dec Data.SubgroupObject.t) (header ++ rest) = (Ok object, rest).

(** Whatever object is encoded in front of a payload of its size. *)
Lemma object_wire_encoded (object : Data.SubgroupObject.t) payload w :
  encode object Writer.cleared = (Ok tt, w) -> Data.SubgroupObject.size object = lenN payload ->
  object_wire payload (wdata w ++ payload).
Proof.
  intros E Hs. apply Data.SubgroupObject.agrees_subgroup_object in E as (bs & -> & Hbs).
  exists (Data.SubgroupObject.canonical object), bs. by split.
Qed.

Lemma stored_elsewhere w w' ps os k :
  Forall2 (stored w) ps os -> (next_cell (objects w) <= next_cell (objects w'))%nat ->
  k = next_cell (objects w) ->
  (forall h, loc h <> k -> cell_of h (objects w') = cell_of h (objects w)) ->
  Forall2 (stored w') ps os.
Proof.
  intros HF Hl -> Ho. eapply Forall2_impl; [exact HF|]. intros p o (Hlt & Hi & Hr).
  split; [lia|]. split; [done|]. rewrite Ho by lia. exact Hr.
Qed.

(** Any piece of the world other than its own group is left alone by a subgroup
    that is being received. *)
Lemma receive_object info h ps group w r fuel p bs rest :
  receiving info h ps group w -> half h = 0%nat -> whole r -> object_wire p bs ->
  Reader.pending r = bs ++ rest -> (load r < fuel)%nat ->
  exists r' group' w', recv_subgroup_object fuel group r w = Some (Ok tt, (r', (group', w'))) /\
    receiving info h (ps ++ [p]) group' w' /\ whole r' /\ Reader.pending r' = rest.
Proof.
  intros Hrc H0 Hw (object & header & -> & Hsz & Hdec) Hp Hf. unfold recv_subgroup_object.
  rewrite <- app_assoc in Hp.
  destruct (decode_whole decode object header (p ++ rest) r Hw decode_streaming (Hdec _) Hp)
    as (r1 & E & Hw1 & Hp1). rewrite E. apply (decode_load _ 1) in E; [|apply decode_consumes|done].
  destruct (receiving_create info h ps group w (Data.SubgroupObject.size object) Hrc H0)
    as (o & group' & w1 & -> & Hfill & Hnx & Hoth & Hdone).
  rewrite Hsz in *. set (wh := {| loc := next_cell (objects w); half := 0%nat |}) in *.
  destruct (payload_whole write_subgroup_object (filling wh w1)
    (fun n c s d Hn Hl => filling_write wh w1 n c s d Hn Hl) fuel r1 (o, w1) [] p rest Hw1 Hp1 Hfill)
    as (r2 & [o2 w2] & -> & Hw2 & Hp2 & Hfill2); [lia|]. simpl in Hfill2.
  destruct (filling_drop wh w1 p o2 w2 Hfill2 eq_refl) as (Hg & Hn & Ho & Hc & Hcl & Hd).
  eexists _, _, _. split; [reflexivity|]. split; [|done]. apply Hdone; [done|done| |].
  - eapply stored_elsewhere; [apply Hrc|rewrite Hn, Hnx; lia|reflexivity|].
    intros g Hne. rewrite Ho by done. by apply Hoth.
  - intros g Hg'. assert (Hcell : cell_of g (objects (drop_object_writer o2 w2)) =
      cell_of wh (objects (drop_object_writer o2 w2))) by (unfold cell_of; by rewrite Hg').
    unfold stored. cbn [SubgroupObjectReader.state SubgroupObjectReader.index].
    rewrite Hcell, Hg', Hn, Hnx. split; [lia|done].
Qed.

Lemma receive_loop info h ps bss r fuel :
  Forall2 object_wire ps bss -> half h = 0%nat -> whole r -> Reader.pending r = concat bss ->
  (load r < fuel)%nat ->
  forall before group w, receiving info h before group w ->
  exists r' group' w', recv_subgroup_loop fuel group r w = Some (Ok tt, (r', (group', w'))) /\
    receiving info h (before ++ ps) group' w'.
Proof.
  intros HF H0. revert r fuel. induction HF as [|p bs ps bss Hob _ IH]; intros r fuel Hw Hp Hf before group w Hrc.
  - destruct fuel as [|fuel]; [lia|]. cbn [recv_subgroup_loop].
    destruct (done_whole r Hw) as (r1 & -> & _). rewrite bool_decide_true by done.
    rewrite app_nil_r. eauto 10.
  - destruct fuel as [|fuel]; [lia|]. cbn [recv_subgroup_loop].
    destruct (done_whole r Hw) as (r1 & E & Hw1 & Hp1). rewrite E.
    assert (Hne : Reader.pending r <> []).
    { destruct Hob as (ob & hd & -> & _ & Hd). rewrite Hp. intros Hn. simpl in Hn.
      apply app_eq_nil in Hn as [[-> _]%app_eq_nil _].
      specialize (Hd []). apply (decode_consumes (n:=1)) in Hd. simpl in Hd. by unfold lenN in Hd. }
    rewrite bool_decide_false in * by done. apply done_load in E. rewrite <- Hp1 in Hp. simpl in Hp.
    destruct (receive_object info h before group w r1 (Datatypes.S fuel) p bs (concat bss) Hrc H0 Hw1 Hob Hp)
      as (r2 & g2 & w2 & E2 & Hrc2 & Hw2 & Hp2); [lia|].
    destruct (subgroup_object_total (Datatypes.S fuel) group r1 w) as (? & ? & ? & E3 & Hl); [lia|].
    rewrite E2 in E3. injection E3 as <- <- <-. specialize (Hl I). rewrite E2.
    destruct (IH r2 fuel Hw2 Hp2 ltac:(lia) (before ++ [p]) g2 w2 Hrc2) as (r3 & g3 & w3 & -> & Hrc3).
    rewrite <- app_assoc in Hrc3. eauto 10.
Qed.

Lemma receiving_produce info w :
  let '((writer, reader), w1) := SubgroupWriter.produce info w in
  receiving info (SubgroupWriter.state writer) [] writer w1.
Proof.
  unfold SubgroupWriter.produce. cbn [default_split state_new split].
  split; simpl; unfold cell_of, put; simpl; rewrite ?decide_True by done; try reflexivity.
  constructor.
Qed.

(** Dropping the writer of a group shuts it; its readers keep what is in it. *)
Lemma receiving_drop info h ps group w :
  receiving info h ps group w -> half h = 0%nat ->
  let w' := SubgroupWriter.drop group w in
  objects w' = objects w /\
  lock (cell_of h (groups w')) = lock (cell_of h (groups w)) /\
  dropped (inner (cell_of h (groups w'))) = None.
Proof.
  intros [_ Hs _ _ _ Hd _ _] H0. cbv zeta.
  unfold SubgroupWriter.drop, drop_group_handle, drop_handle. rewrite Hs, H0.
  assert (Hne : drops (drop_state 0%nat (cell_of h (groups w))) <> ∅).
  { unfold drop_state. rewrite Hd. simpl. intros Hn. apply (f_equal (lookup 1%nat)) in Hn. by vm_compute in Hn. }
  rewrite decide_False by exact Hne. simpl. rewrite cell_put_eq, drop_state_lock. split; [done|].
  split; [done|]. apply drop_state_last. by rewrite Hd.
Qed.

(** What a reader of the group finds: these payloads, and that there are no more. *)
Definition arrived (info : SubgroupInfo.t) (payloads : list (list byte)) (reader : SubgroupReader.t) (w : World) : Prop :=
  let c := cell_of (SubgroupReader.state reader) (groups w) in
  let os := SubgroupState.objects (lock c) in
  (SubgroupObjectReader.info <$> os) = numbered info payloads /\
  (read_out w <$> os) = ((fun p => Some (Return (Ok p))) <$> payloads) /\
  fst (log_turn SubgroupState.objects (lenN os) c) = Return (Ok None).

Lemma receive_subgroup_from info h group w payloads wires r reader :
  receiving info h [] group w -> half h = 0%nat -> loc (SubgroupReader.state reader) = loc h ->
  Forall2 object_wire payloads wires -> whole r -> Reader.pending r = concat wires ->
  exists w2, recv_subgroup group r w = Some (Ok tt, w2) /\ arrived info payloads reader w2.
Proof.
  intros Hrc H0 Hloc HF Hw Hp.
  destruct (receive_loop info _ payloads wires r (S (load r)) HF H0 Hw Hp ltac:(lia) [] group w Hrc)
    as (r2 & group2 & w2 & E2 & Hrc2).
  unfold recv_subgroup. rewrite E2. eexists. split; [reflexivity|].
  destruct (receiving_drop _ _ _ _ _ Hrc2 H0) as (Ho & Hlk & Hdr).
  destruct Hrc2 as [_ _ _ Hcl _ _ Hinfos Hstored].
  assert (Hcell : forall a : Arena SubgroupState.t, cell_of (SubgroupReader.state reader) a = cell_of h a)
    by (intros a; unfold cell_of; by rewrite Hloc).
  unfold arrived. rewrite !Hcell, !Hlk. split; [exact Hinfos|]. split.
  - apply stored_read_outs. eapply Forall2_impl; [exact Hstored|]. unfold stored. by rewrite Ho.
  - unfold log_turn. rewrite Hlk. unfold lenN. rewrite Nat2N.id, lookup_ge_None_2 by lia.
    unfold idle, modified. by rewrite Hlk, Hcl, Hdr.
Qed.

Lemma receive_subgroup info w payloads wires r :
  Forall2 object_wire payloads wires -> whole r -> Reader.pending r = concat wires ->
  let '((writer, reader), w1) := SubgroupWriter.produce info w in
  exists w2, recv_subgroup writer r w1 = Some (Ok tt, w2) /\ arrived info payloads reader w2.
Proof.
  intros HF Hw Hp. pose proof (receiving_produce info w) as Hrc.
  destruct (SubgroupWriter.produce info w) as [[writer reader] w1] eqn:E.
  unfold SubgroupWriter.produce in E. simpl in E. simplify_eq.
  by eapply (receive_subgroup_from _ _ _ _ _ _ _ _ Hrc).
Qed.

(** ** What receiving leaves alone *)

Lemma payload_keeps {S} (P : S -> Prop) (write : list byte -> S -> outcome ServeError unit * S) fuel :
  (forall d s, P s -> P (snd (write d s))) ->
  forall remain r s o r' s', recv_payload write fuel remain r s = Some (o, (r', s')) -> P s -> P s'.
Proof.
  intros HP. induction fuel as [|fuel IH]; intros remain r s o r' s' E Hs; cbn [recv_payload] in E.
  { destruct (remain =? 0); by simplify_eq. }
  destruct (remain =? 0); [by simplify_eq|].
  destruct (Reader.read_chunk remain r) as [[[d|]|e|] r1]; try by simplify_eq.
  specialize (HP d s Hs). destruct (write d s) as [[u|e|] s1]; simpl in HP; [by eapply IH|by simplify_eq..].
Qed.

Section Keeps.
(** Anything the cache's operations on groups and objects keep. *)
Context (P : World -> Prop)
  (Hcreate : forall size group w, P w -> P (snd (snd (SubgroupWriter.create size (group, w)))))
  (Hwrite : forall o chunk w, P w -> P (snd (snd (SubgroupWriter.write_object o chunk w))))
  (Hobject : forall o w, P w -> P (drop_object_writer o w))
  (Hgroup : forall h w, P w -> P (drop_group_handle h w)).

Lemma object_keeps fuel group r w o r' group' w' :
  recv_subgroup_object fuel group r w = Some (o, (r', (group', w'))) -> P w -> P w'.
Proof.
  unfold recv_subgroup_object. intros E HP. destruct (Reader.decode _ r) as [[ob|e|] r1]; try by simplify_eq.
  specialize (Hcreate (Data.SubgroupObject.size ob) group w HP).
  destruct (SubgroupWriter.create _ _) as [[wr|e|] [g w1]]; simpl in Hcreate; try by simplify_eq.
  destruct (recv_payload _ _ _ _ _) as [[o1 [r2 [wr2 w2]]]|] eqn:E2; [|done]. simplify_eq.
  apply Hobject. eapply (payload_keeps (fun s => P s.2)) in E2; [exact E2| |done].
  intros d [wo ww]. apply Hwrite.
Qed.

Lemma recv_subgroup_keeps group r w o w' :
  recv_subgroup group r w = Some (o, w') -> P w -> P w'.
Proof.
  unfold recv_subgroup. generalize (S (load r)) as fuel. intros fuel E HP.
  destruct (recv_subgroup_loop fuel group r w) as [[o1 [r1 [g1 w1]]]|] eqn:El; [|done]. simplify_eq.
  apply Hgroup. revert group r w HP El. induction fuel as [|fuel IH]; intros group r w HP El; [done|].
  cbn [recv_subgroup_loop] in El. destruct (Reader.done r) as [[[|]|e|] r2]; try by simplify_eq.
  destruct (recv_subgroup_object (S fuel) group r2 w) as [[[u|e|] [r3 [g3 w3]]]|] eqn:Eo;
    [|by simplify_eq; eapply object_keeps; [exact Eo|]..|done].
  eapply IH; [|exact El]. by eapply object_keeps.
Qed.
End Keeps.

Lemma recv_subgroup_tops group r w o w' : recv_subgroup group r w = Some (o, w') -> tops w' = tops w.
Proof.
  intros E. eapply (recv_subgroup_keeps (fun x => tops x = tops w)); [..|exact E|done].
  - intros size g x <-. unfold SubgroupWriter.create. destruct (default_split _ _) as [[wh rh] oa].
    unfold on_cell. destruct (mutate _ _) as [[u|e|] c]; done.
  - intros ob chunk x <-. unfold SubgroupWriter.write_object.
    by destruct (SubgroupObjectWriter.write _ _) as [r1 [o1 c1]].
  - done.
  - intros h x <-. apply drop_group_handle_tops.
Qed.

(** ** Properties *)

(** C21 (termination). Receiving a stream comes to an end, whatever the peer
    sends in whatever pieces: no matter the sizes it announces, the loops read at
    least a byte each time around, and the bytes run out. *)
Theorem recv_terminates (group : SubgroupWriter.t) (track : StreamWriter.t) (reader : Reader.t)
    (w : World) (sw : StreamWorld.t) :
  is_Some (recv_subgroup group reader w) /\ is_Some (recv_track track reader sw).
Proof.
  unfold recv_subgroup, recv_track. split.
  - destruct (subgroup_loop_total (S (load reader)) group reader w) as (o & r & [g w1] & ->); [lia|]. by eexists.
  - destruct (track_loop_total (S (load reader)) track None reader sw) as (o & w1 & ->); [lia|]. by eexists.
Qed.

(** C10 (functional). A subgroup off the wire: when the stream holds well-formed
    objects, the group in the cache ends up with exactly those payloads, in that
    order, each readable as a whole, and a reader is told that this was all. The
    number and the status of an object on the wire do not survive: objects are
    numbered as they come. *)
Theorem recv_subgroup_objects (info : SubgroupInfo.t) (w : World) (payloads wires : list (list byte)) (r : Reader.t) :
  Forall2 object_wire payloads wires -> whole r -> Reader.pending r = concat wires ->
  let '((writer, reader), w1) := SubgroupWriter.produce info w in
  exists w2, recv_subgroup writer r w1 = Some (Ok tt, w2) /\
    let c := cell_of (SubgroupReader.state reader) (groups w2) in
    let os := SubgroupState.objects (lock c) in
    (SubgroupObjectReader.info <$> os) = numbered info payloads /\
    (read_out w2 <$> os) = ((fun p => Some (Return (Ok p))) <$> payloads) /\
    fst (log_turn SubgroupState.objects (lenN os) c) = Return (Ok None).
Proof. apply receive_subgroup. Qed.

Definition demo_subgroup : SubgroupInfo.t :=
  SubgroupInfo.mk (Track.new (Tuple.mk []) (mk_String [] eq_refl)) 4 0 x05.

Lemma recv_subgroup_objects_witness :
  let payloads := [[x61; x62]; []] in
  let r := Reader.new [Data [x09; x02; x61]; Data [x62; x07]; Data [x00; x03]] in
  Reader.pending r = [x09; x02; x61; x62; x07; x00; x03] /\
  let '((writer, reader), w1) := SubgroupWriter.produce demo_subgroup world_new in
  exists w2, recv_subgroup writer r w1 = Some (Ok tt, w2) /\
    (read_out w2 <$> SubgroupState.objects (lock (cell_of (SubgroupReader.state reader) (groups w2)))) =
      [Some (Return (Ok [x61; x62])); Some (Return (Ok []))].
Proof.
  cbv zeta. split; [reflexivity|].
  set (r := Reader.new _).
  assert (Hw : whole r) by (repeat constructor; eexists _, _; reflexivity).
  assert (HF : Forall2 object_wire [[x61; x62]; []] [[x09; x02; x61; x62]; [x07; x00; x03]]).
  { constructor; [|constructor; [|constructor]].
    - exact (object_wire_encoded (Data.SubgroupObject.mk 9 2 ObjectStatus.Object) [x61; x62] _ eq_refl eq_refl).
    - exact (object_wire_encoded (Data.SubgroupObject.mk 7 0 ObjectStatus.EndOfGroup) [] _ eq_refl eq_refl). }
  pose proof (recv_subgroup_objects demo_subgroup world_new _ _ r HF Hw eq_refl) as H.
  destruct (SubgroupWriter.produce demo_subgroup world_new) as [[writer reader] w1].
  destruct H as (w2 & E & _ & Hr & _). exists w2. split; [exact E|exact Hr].
Defined.
