(* ===== verification/Serving.v ===== *)
(** * Serving a subscription

    The sending side of a data stream, [moq-transport/src/session/subscribed.rs]:
    [serve_subgroup], [serve_track], [serve_subgroups] and [serve_datagrams] copy
    the track cache into streams and datagrams. Each is a task: a program point
    with what is live there, and [turn], what it does up to its next await that
    looks at shared state. Between turns anybody else may run.

    What the transport answers to [open_uni] and [send_datagram] is an argument
    of the turn. *)
From Stdlib Require Import NArith ZArith Lia Bool.
From stdpp Require Import base list gmap option numbers.
From S2P Require Import Prelude Buffers VarInt Utf8 Coding Setup Data Errors Streams Watch Serve.
From S2P Require Import Subgroup Groups StreamTrack Tracks Receiving.

(** ** [SubscribedState] *)

Module SubscribedState.
Record t := mk { max_group_id : option (N * N); closed : option ServeError }.
Definition default : t := mk None None.

#[export] Instance closable : Closable t :=
  {| Serve.closed := closed; set_closed r s := mk (max_group_id s) r; closed_set r s := eq_refl |}.

(** There is no branch for [None]: a track without a maximum never gets one. *)
Definition update_max_group_id (group_id object_id : N) (self : t) : outcome ServeError unit * t :=
  match max_group_id self with
  | Some (max_group, max_object) =>
      if (max_group <=? group_id) && (max_object <=? object_id) then
        (Ok tt, mk (Some (group_id, object_id)) (closed self))
      else (Ok tt, self)
  | None => (Ok tt, self)
  end.
End SubscribedState.
Export (hints) SubscribedState.

(** [self.state.lock_mut().ok_or(ServeError::Done)?.update_max_group_id(..)?] *)
Definition update (group_id object_id : N) (c : Cell SubscribedState.t) :
    outcome ServeError unit * Cell SubscribedState.t :=
  match with_mut (SubscribedState.update_max_group_id group_id object_id) c with
  | (Some r, c) => (r, c)
  | (None, c) => (Err ServeErr.Done, c)
  end.

(** One turn of [Subscribed::closed]. *)
Definition closed_turn (c : Cell SubscribedState.t) : turn unit := idle c (Ok tt).

(** ** [serve_subgroup] *)

Module ServeSubgroup.

(** Where the task is. [Stuck]: the transport takes no more bytes, the await
    never completes. A finished task shows the writer it dropped, if it got that far. *)
Inductive point :=
  | Opening
  | Next (writer : Writer.t)
  | Reading (writer : Writer.t) (object : SubgroupObjectReader.t)
  | Stuck (writer : Writer.t)
  | Finished (writer : option Writer.t) (r : outcome SessionError unit).

Record t := mk { header : Data.SubgroupHeader.t; subgroup : SubgroupReader.t; at_ : point }.

Definition goto (p : point) (self : t) : t := mk (header self) (subgroup self) p.

(** The locals go out of scope: the object, the writer with its stream, the
    subgroup. *)
Definition leave (writer : option Writer.t) (object : option SubgroupObjectReader.t)
    (r : outcome SessionError unit) (self : t) (w : World) : t * World :=
  (goto (Finished (Writer.drop <$> writer) r) self,
   drop_group_reader (subgroup self)
     match object with Some o => drop_object_reader o w | None => w end).

(** Awaiting a write of [writer]. *)
Definition sending (res : Writer.result unit * Writer.t) (object : option SubgroupObjectReader.t)
    (k : Writer.t -> t * World) (self : t) (w : World) : t * World :=
  match res with
  | (Some (Ok _), writer) => k writer
  | (Some (Err e), writer) => leave (Some writer) object (Err e) self w
  | (Some Panic, writer) => leave (Some writer) object Panic self w
  | (None, writer) => (goto (Stuck writer) self, w)
  end.

Definition object_header (o : SubgroupObject.t) : Data.SubgroupObject.t :=
  Data.SubgroupObject.mk (SubgroupObject.object_id o) (SubgroupObject.size o) (SubgroupObject.status o).

(** The header is written before the state is told of the object. *)
Definition begin_object (writer : Writer.t) (object : SubgroupObjectReader.t) (self : t) (w : World)
    (c : Cell SubscribedState.t) : (t * World) * Cell SubscribedState.t :=
  match Writer.encode (object_header (SubgroupObjectReader.info object)) writer with
  | (Some (Ok _), writer) =>
      match update (SubgroupInfo.group_id (SubgroupReader.info (subgroup self)))
              (SubgroupObject.object_id (SubgroupObjectReader.info object)) c with
      | (Ok _, c) => ((goto (Reading writer object) self, w), c)
      | (Err e, c) => (leave (Some writer) (Some object) (Err (SessionErr.Serve e)) self w, c)
      | (Panic, c) => (leave (Some writer) (Some object) Panic self w, c)
      end
  | res => (sending res (Some object) (fun writer => (self, w)) self w, c)
  end.

Definition turn (open_uni : outcome SessionError send_stream) (self : t) (w : World)
    (c : Cell SubscribedState.t) : (t * World) * Cell SubscribedState.t :=
  match at_ self with
  | Opening =>
      match open_uni with
      | Ok stream =>
          let writer := Writer.set_priority
            (Z.of_N (Byte.to_N (SubgroupInfo.priority (SubgroupReader.info (subgroup self)))))
            (Writer.new stream) in
          (sending (Writer.encode (Data.Header.Subgroup (header self)) writer) None
             (fun writer => (goto (Next writer) self, w)) self w, c)
      | Err e => (leave None None (Err e) self w, c)
      | Panic => (leave None None Panic self w, c)
      end
  | Next writer =>
      let '(r, (subgroup', w)) := SubgroupRead.next_turn (subgroup self) w in
      let self := mk (header self) subgroup' (at_ self) in
      match r with
      | Return (Ok (Some object)) => begin_object writer object self w c
      | Return (Ok None) =>
          let (r, writer) := Writer.finish writer in (leave (Some writer) None r self w, c)
      | Return (Err e) => (leave (Some writer) None (Err (SessionErr.Serve e)) self w, c)
      | Return Panic => (leave (Some writer) None Panic self w, c)
      | Wait _ => ((self, w), c)
      end
  | Reading writer object =>
      let (r, object) := SubgroupObjectReader.read_turn object
        (cell_of (SubgroupObjectReader.state object) (objects w)) in
      match r with
      | Return (Ok (Some chunk)) =>
          (sending (Writer.write chunk writer) (Some object)
             (fun writer => (goto (Reading writer object) self, w)) self w, c)
      | Return (Ok None) => ((goto (Next writer) self, drop_object_reader object w), c)
      | Return (Err e) => (leave (Some writer) (Some object) (Err (SessionErr.Serve e)) self w, c)
      | Return Panic => (leave (Some writer) (Some object) Panic self w, c)
      | Wait _ => ((goto (Reading writer object) self, w), c)
      end
  | Stuck _ | Finished _ _ => ((self, w), c)
  end.

Definition start (header : Data.SubgroupHeader.t) (subgroup : SubgroupReader.t) : t :=
  mk header subgroup Opening.
End ServeSubgroup.

(** ** [serve_track] *)

(** The whole track goes on one stream; every header carries the group. *)
Module ServeTrack.
Import StreamTrack StreamWorld.

Inductive point :=
  | Opening
  | NextGroup (writer : Writer.t)
  | NextObject (writer : Writer.t) (group : StreamGroupReader.t)
  | Reading (writer : Writer.t) (group : StreamGroupReader.t) (object : StreamObjectReader.t)
  | Stuck (writer : Writer.t)
  | Finished (writer : option Writer.t) (r : outcome SessionError unit).

(** [self.msg.id] and [self.msg.track_alias], the reader and the point. *)
Record t := mk { subscribe_id : N; track_alias : N; track : StreamReader.t; at_ : point }.

Definition goto (p : point) (self : t) : t := mk (subscribe_id self) (track_alias self) (track self) p.

Definition header (self : t) : Data.Header.t :=
  Data.Header.Track (Data.TrackHeader.mk (subscribe_id self) (track_alias self)
    (Stream.priority (StreamReader.info (track self)))).

Definition object_header (o : StreamObject.t) : Data.TrackObject.t :=
  Data.TrackObject.mk (StreamGroup.group_id (StreamObject.group o)) (StreamObject.object_id o)
    (StreamObject.size o) (StreamObject.status o).

(** What is live besides the track. *)
Definition drop_live (group : option StreamGroupReader.t) (object : option StreamObjectReader.t)
    (w : StreamWorld.t) : StreamWorld.t :=
  let w := match object with Some o => drop_object_reader o w | None => w end in
  match group with Some g => drop_group_reader g w | None => w end.

Definition leave (writer : option Writer.t) (group : option StreamGroupReader.t)
    (object : option StreamObjectReader.t) (r : outcome SessionError unit) (self : t) (w : StreamWorld.t) :
    t * StreamWorld.t :=
  (goto (Finished (Writer.drop <$> writer) r) self, StreamReader.drop (track self) (drop_live group object w)).

Definition sending (res : Writer.result unit * Writer.t) (group : option StreamGroupReader.t)
    (object : option StreamObjectReader.t) (k : Writer.t -> t * StreamWorld.t) (self : t)
    (w : StreamWorld.t) : t * StreamWorld.t :=
  match res with
  | (Some (Ok _), writer) => k writer
  | (Some (Err e), writer) => leave (Some writer) group object (Err e) self w
  | (Some Panic, writer) => leave (Some writer) group object Panic self w
  | (None, writer) => (goto (Stuck writer) self, w)
  end.

(** Here the state is told of the object before its header is written. *)
Definition begin_object (writer : Writer.t) (group : StreamGroupReader.t) (object : StreamObjectReader.t)
    (self : t) (w : StreamWorld.t) (c : Cell SubscribedState.t) :
    (t * StreamWorld.t) * Cell SubscribedState.t :=
  let o := StreamObjectReader.info object in
  match update (StreamGroup.group_id (StreamObject.group o)) (StreamObject.object_id o) c with
  | (Ok _, c) =>
      (sending (Writer.encode (object_header o) writer) (Some group) (Some object)
         (fun writer => (goto (Reading writer group object) self, w)) self w, c)
  | (Err e, c) => (leave (Some writer) (Some group) (Some object) (Err (SessionErr.Serve e)) self w, c)
  | (Panic, c) => (leave (Some writer) (Some group) (Some object) Panic self w, c)
  end.

Definition turn (open_uni : outcome SessionError send_stream) (self : t) (w : StreamWorld.t)
    (c : Cell SubscribedState.t) : (t * StreamWorld.t) * Cell SubscribedState.t :=
  match at_ self with
  | Opening =>
      match open_uni with
      | Ok stream =>
          let writer := Writer.set_priority
            (Z.of_N (Byte.to_N (Stream.priority (StreamReader.info (track self))))) (Writer.new stream) in
          (sending (Writer.encode (header self) writer) None None
             (fun writer => (goto (NextGroup writer) self, w)) self w, c)
      | Err e => (leave None None None (Err e) self w, c)
      | Panic => (leave None None None Panic self w, c)
      end
  | NextGroup writer =>
      let '(r, (track', w)) := StreamReader.next_turn (track self) w in
      let self := mk (subscribe_id self) (track_alias self) track' (at_ self) in
      match r with
      | Return (Ok (Some group)) => ((goto (NextObject writer group) self, w), c)
      | Return (Ok None) =>
          let (r, writer) := Writer.finish writer in (leave (Some writer) None None r self w, c)
      | Return (Err e) => (leave (Some writer) None None (Err (SessionErr.Serve e)) self w, c)
      | Return Panic => (leave (Some writer) None None Panic self w, c)
      | Wait _ => ((self, w), c)
      end
  | NextObject writer group =>
      let '(r, (group, w)) := StreamGroupRead.next_turn group w in
      match r with
      | Return (Ok (Some object)) => begin_object writer group object self w c
      | Return (Ok None) => ((goto (NextGroup writer) self, drop_group_reader group w), c)
      | Return (Err e) => (leave (Some writer) (Some group) None (Err (SessionErr.Serve e)) self w, c)
      | Return Panic => (leave (Some writer) (Some group) None Panic self w, c)
      | Wait _ => ((goto (NextObject writer group) self, w), c)
      end
  | Reading writer group object =>
      let (r, object) := StreamObjectReader.read_turn object
        (cell_of (StreamObjectReader.state object) (objects w)) in
      match r with
      | Return (Ok (Some chunk)) =>
          (sending (Writer.write chunk writer) (Some group) (Some object)
             (fun writer => (goto (Reading writer group object) self, w)) self w, c)
      | Return (Ok None) => ((goto (NextObject writer group) self, drop_object_reader object w), c)
      | Return (Err e) =>
          (leave (Some writer) (Some group) (Some object) (Err (SessionErr.Serve e)) self w, c)
      | Return Panic => (leave (Some writer) (Some group) (Some object) Panic self w, c)
      | Wait _ => ((goto (Reading writer group object) self, w), c)
      end
  | Stuck _ | Finished _ _ => ((self, w), c)
  end.

Definition start (subscribe_id track_alias : N) (track : StreamReader.t) : t :=
  mk subscribe_id track_alias track Opening.
End ServeTrack.

(** ** [serve_subgroups] *)

Module ServeSubgroups.

Definition MAX_CONSECUTIVE_FAILURES : N := 3.

Inductive point := Loop | Finished (r : outcome SessionError unit).

Record t := mk {
  subscribe_id : N; track_alias : N; subgroups : SubgroupsReader.t; consecutive_failures : N; at_ : point;
}.

Definition with_point (p : point) (self : t) : t :=
  mk (subscribe_id self) (track_alias self) (subgroups self) (consecutive_failures self) p.

Definition leave (r : outcome SessionError unit) (self : t) (w : World) : t * World :=
  (with_point (Finished r) self, SubgroupsReader.drop (subgroups self) w).

(** A task of its own for each subgroup. *)
Definition spawn (subgroup : SubgroupReader.t) (self : t) : ServeSubgroup.t :=
  let info := SubgroupReader.info subgroup in
  ServeSubgroup.start
    (Data.SubgroupHeader.mk (subscribe_id self) (track_alias self) (SubgroupInfo.group_id info)
       (SubgroupInfo.subgroup_id info) (SubgroupInfo.priority info)) subgroup.

(** The branch of [subgroups.next()], [None] while it is pending. *)
Definition next_branch (self : t) (w : World) : option ((t * World) * option ServeSubgroup.t) :=
  let '(r, (reader, w)) := SubgroupsReader.next_turn (subgroups self) w in
  let self := mk (subscribe_id self) (track_alias self) reader (consecutive_failures self) (at_ self) in
  match r with
  | Return (Ok (Some subgroup)) =>
      Some ((mk (subscribe_id self) (track_alias self) reader 0 (at_ self), w), Some (spawn subgroup self))
  | Return (Ok None) => Some (leave (Ok tt) self w, None)
  | Return (Err _) =>
      let failures := consecutive_failures self + 1 in
      let self := mk (subscribe_id self) (track_alias self) reader failures (at_ self) in
      Some (if MAX_CONSECUTIVE_FAILURES <=? failures then leave (Ok tt) self w else (self, w), None)
  | Return Panic => Some (leave Panic self w, None)
  | Wait _ => None
  end.

(** The branch of [self.closed()]. *)
Definition closed_branch (self : t) (w : World) (c : Cell SubscribedState.t) : option (t * World) :=
  match closed_turn c with
  | Return (Ok _) => Some (leave (Ok tt) self w)
  | Return (Err e) => Some (leave (Err (SessionErr.Serve e)) self w)
  | Return Panic => Some (leave Panic self w)
  | Wait _ => None
  end.

(** One turn of the loop. [select!] polls its branches in a random order: the
    other one is polled only if the first is pending. *)
Definition turn (closed_first : bool) (self : t) (w : World) (c : Cell SubscribedState.t) :
    (t * World) * option ServeSubgroup.t :=
  match at_ self with
  | Finished _ => ((self, w), None)
  | Loop =>
      if MAX_CONSECUTIVE_FAILURES <=? consecutive_failures self then (leave (Ok tt) self w, None)
      else
        let closed := (fun x => (x, None)) <$> closed_branch self w c in
        let next := next_branch self w in
        let chosen := if closed_first then closed ∪ next else next ∪ closed in
        default ((self, w), None) chosen
  end.

Definition start (subscribe_id track_alias : N) (subgroups : SubgroupsReader.t) : t :=
  mk subscribe_id track_alias subgroups 0 Loop.
End ServeSubgroups.

(** ** [serve_datagrams] *)

Module ServeDatagrams.
Section Transport.
(** [Publisher::send_datagram] *)
Context (send_datagram : list byte -> outcome SessionError unit).

Inductive point := Loop | Stuck | Finished (r : outcome SessionError unit).

(** Besides the locals: the datagrams that went out and the streams opened, in
    order. *)
Record t := mk {
  subscribe_id : N; track_alias : N; datagrams : DatagramsReader.t; use_stream_fallback : bool;
  at_ : point; sent_datagrams : list (list byte); streams : list Writer.t;
}.

Definition goto (p : point) (self : t) : t :=
  mk (subscribe_id self) (track_alias self) (datagrams self) (use_stream_fallback self) p
     (sent_datagrams self) (streams self).

Definition outcome_point (r : outcome ServeError unit) : point :=
  match r with
  | Ok _ => Loop
  | Err e => Finished (Err (SessionErr.Serve e))
  | Panic => Finished Panic
  end.

Definition to_wire (d : Datagram.t) (self : t) : Data.Datagram.t :=
  Data.Datagram.mk (subscribe_id self) (track_alias self) (Datagram.group_id d) (Datagram.object_id d)
    (Datagram.priority d) (Datagram.status d) (lenN (Datagram.payload d)) (Datagram.payload d).

(** The fallback: a stream for a subgroup of one object, dropped with its writer
    whatever happens. *)
Definition send_stream_of (open_uni : outcome SessionError send_stream) (d : Datagram.t) (self : t)
    (c : Cell SubscribedState.t) : t * Cell SubscribedState.t :=
  match open_uni with
  | Ok stream =>
      let writer := Writer.set_priority (Z.of_N (Byte.to_N (Datagram.priority d))) (Writer.new stream) in
      let header := Data.Header.Subgroup (Data.SubgroupHeader.mk (subscribe_id self) (track_alias self)
        (Datagram.group_id d) 0 (Datagram.priority d)) in
      let object := Data.SubgroupObject.mk (Datagram.object_id d) (lenN (Datagram.payload d))
        (Datagram.status d) in
      let step (res : Writer.result unit * Writer.t) (k : Writer.t -> Writer.result unit * Writer.t) :=
        match res with (Some (Ok _), writer) => k writer | r => r end in
      let res := step (Writer.encode header writer) (fun writer =>
        step (Writer.encode object writer) (fun writer => Writer.write (Datagram.payload d) writer)) in
      let log (p : point) (writer : Writer.t) :=
        mk (subscribe_id self) (track_alias self) (datagrams self) (use_stream_fallback self) p
           (sent_datagrams self) (streams self ++ [writer]) in
      match res with
      | (Some (Ok _), writer) =>
          match Writer.finish writer with
          | (Ok _, writer) =>
              let (r, c) := update (Datagram.group_id d) (Datagram.object_id d) c in
              (log (outcome_point r) (Writer.drop writer), c)
          | (Err e, writer) => (log (Finished (Err e)) (Writer.drop writer), c)
          | (Panic, writer) => (log (Finished Panic) (Writer.drop writer), c)
          end
      | (Some (Err e), writer) => (log (Finished (Err e)) (Writer.drop writer), c)
      | (Some Panic, writer) => (log (Finished Panic) (Writer.drop writer), c)
      | (None, writer) => (log Stuck writer, c)
      end
  | Err e => (goto (Finished (Err e)) self, c)
  | Panic => (goto (Finished Panic) self, c)
  end.

(** What happens to a datagram of the cache. A failure to send it, whatever the
    reason, switches to streams for good. *)
Definition serve_datagram (open_uni : outcome SessionError send_stream) (d : Datagram.t) (self : t)
    (c : Cell SubscribedState.t) : t * Cell SubscribedState.t :=
  if use_stream_fallback self then send_stream_of open_uni d self c
  else
    match encode (to_wire d self) Writer.cleared with
    | (Ok _, buffer) =>
        match send_datagram (wdata buffer) with
        | Ok _ =>
            let (r, c) := update (Datagram.group_id d) (Datagram.object_id d) c in
            (mk (subscribe_id self) (track_alias self) (datagrams self) false (outcome_point r)
               (sent_datagrams self ++ [wdata buffer]) (streams self), c)
        | Err _ =>
            send_stream_of open_uni d
              (mk (subscribe_id self) (track_alias self) (datagrams self) true (at_ self)
                 (sent_datagrams self) (streams self)) c
        | Panic => (goto (Finished Panic) self, c)
        end
    | (Err e, _) => (goto (Finished (Err (SessionErr.Encode e))) self, c)
    | (Panic, _) => (goto (Finished Panic) self, c)
    end.

Definition turn (open_uni : outcome SessionError send_stream) (self : t) (a : Arena DatagramsState.t)
    (c : Cell SubscribedState.t) : (t * Arena DatagramsState.t) * Cell SubscribedState.t :=
  match at_ self with
  | Loop =>
      let h := DatagramsReader.state (datagrams self) in
      let (r, reader) := DatagramsReader.read_turn (datagrams self) (cell_of h a) in
      let self := mk (subscribe_id self) (track_alias self) reader (use_stream_fallback self) Loop
        (sent_datagrams self) (streams self) in
      let finish (self : t) :=
        (self, match at_ self with Finished _ => snd (drop_handle h a) | _ => a end) in
      match r with
      | Return (Ok (Some d)) =>
          let (self, c) := serve_datagram open_uni d self c in (finish self, c)
      | Return (Ok None) => (finish (goto (Finished (Ok tt)) self), c)
      | Return (Err e) => (finish (goto (Finished (Err (SessionErr.Serve e))) self), c)
      | Return Panic => (finish (goto (Finished Panic) self), c)
      | Wait _ => ((self, a), c)
      end
  | Stuck | Finished _ => ((self, a), c)
  end.
End Transport.

Definition start (subscribe_id track_alias : N) (datagrams : DatagramsReader.t) : t :=
  mk subscribe_id track_alias datagrams false Loop [] [].
End ServeDatagrams.
