(* ===== verification/Transfer.v ===== *)
(** * From one cache to the next

    A subgroup served by [serve_subgroup] while others go on writing and reading
    the cache, and what [recv_subgroup] makes of the bytes on the other side. *)
From Stdlib Require Import NArith ZArith Lia Bool.
From stdpp Require Import base list gmap option numbers.
From S2P Require Import Prelude Buffers VarInt Utf8 Coding Setup Data Errors Streams Watch Serve.
From S2P Require Import Subgroup Groups Receiving Serving.

#[local] Arguments drop_object_writer : simpl never.
#[local] Arguments drop_object_reader : simpl never.
#[local] Arguments drop_group_handle : simpl never.
#[local] Arguments drop_group_reader : simpl never.

(** ** What is sent *)

Definition wire_of {A} `{Encode A} (a : A) : list byte := wdata (snd (encode a Writer.cleared)).

Lemma write_loop_spec script s buf r s' :
  Writer.write_loop script s buf = (r, s') ->
  exists p q, buf = p ++ q /\ sent s' = sent s ++ p /\ (r = Some (Ok tt) -> q = []).
Proof.
  revert s buf. induction script as [|[n|msg] script IH]; intros s buf E;
    destruct buf as [|b buf];
    cbn [Writer.write_loop] in E; try (simplify_eq; exists []; eexists; simpl; rewrite app_nil_r; done).
  destruct (N.eqb_spec (N.min n (lenN (b :: buf))) 0) as [H0|H0].
  - simplify_eq. exists (take (N.to_nat (N.min n (lenN (b :: buf)))) (b :: buf)). eexists.
    rewrite take_drop. split; [done|]. split; [done|]. done.
  - apply IH in E as (p & q & Hd & Hs & Hr).
    exists (take (N.to_nat (N.min n (lenN (b :: buf)))) (b :: buf) ++ p), q.
    rewrite <- app_assoc, <- Hd, take_drop. split; [done|]. split; [|done]. rewrite Hs. simpl.
    by rewrite app_assoc.
Qed.

Lemma write_spec buf wr r wr' :
  Writer.write buf wr = (r, wr') ->
  exists p q, buf = p ++ q /\ sent (Writer.stream wr') = sent (Writer.stream wr) ++ p /\
    (r = Some (Ok tt) -> q = []).
Proof.
  unfold Writer.write. destruct (Writer.write_loop _ _ _) as [r1 s1] eqn:E. intros ?. simplify_eq.
  by apply write_loop_spec in E.
Qed.

Lemma encode_spec {A} `{Encode A} (a : A) wr r wr' :
  Writer.encode a wr = (r, wr') ->
  exists p q, wire_of a = p ++ q /\ sent (Writer.stream wr') = sent (Writer.stream wr) ++ p /\
    (r = Some (Ok tt) -> q = [] /\ fst (encode a Writer.cleared) = Ok tt).
Proof.
  unfold Writer.encode, wire_of. destruct (encode a Writer.cleared) as [[[]|e|] w]; intros E.
  - apply drain_spec in E as (Hb & [k Hk] & Hr). rewrite Hk, drop_app_length in Hb.
    exists k, (Writer.buffer wr'). split; [done|]. split; [done|]. intros ->. split; [by apply Hr|done].
  - simplify_eq. exists [], (wdata w). rewrite app_nil_r. done.
  - simplify_eq. exists [], (wdata w). rewrite app_nil_r. done.
Qed.

Lemma sent_finish wr : sent (Writer.stream (snd (Writer.finish wr))) = sent (Writer.stream wr).
Proof. unfold Writer.finish. by destruct (on_finish _). Qed.

Lemma sent_drop wr : sent (Writer.stream (Writer.drop wr)) = sent (Writer.stream wr).
Proof. unfold Writer.drop. by destruct (on_drop _). Qed.

(** ** How a cache changes *)

(** A value that is only added to: [le] is how, and a shut cell stays as it is. *)
Record grown {T} (le : T -> T -> Prop) (c c' : Cell T) : Prop := {
  grown_le : le (lock c) (lock c');
  grown_shut : dropped (inner c) = None -> dropped (inner c') = None /\ lock c' = lock c;
}.

#[export] Instance grown_preorder {T} (le : T -> T -> Prop) `{!PreOrder le} : PreOrder (grown le).
Proof.
  split; [by intros c; split|]. intros c1 c2 c3 [H1 H2] [H3 H4]. split; [by etransitivity|].
  intros Hd. destruct (H2 Hd) as [Hd2 E2]. destruct (H4 Hd2) as [Hd3 E3]. by rewrite E3.
Qed.

Lemma grown_stays {T} (le : T -> T -> Prop) `{!PreOrder le} c c' : stays c c' -> grown le c c'.
Proof. intros [Hl Hd]. split; [by rewrite Hl|]. auto. Qed.

Definition object_le (s s' : SubgroupObjectState.t) : Prop :=
  SubgroupObjectState.chunks s `prefix_of` SubgroupObjectState.chunks s'.
Definition group_le (s s' : SubgroupState.t) : Prop :=
  SubgroupState.objects s `prefix_of` SubgroupState.objects s'.

#[export] Instance object_le_preorder : PreOrder object_le.
Proof. split; unfold object_le; [by intros s|]. intros s1 s2 s3. apply transitivity. Qed.
#[export] Instance group_le_preorder : PreOrder group_le.
Proof. split; unfold group_le; [by intros s|]. intros s1 s2 s3. apply transitivity. Qed.

(** The objects a group lists exist and their listed readers have read nothing. *)
Definition listed (w : World) : Prop :=
  forall h o, (loc h < next_cell (groups w))%nat ->
    o ∈ SubgroupState.objects (lock (cell_of h (groups w))) ->
    (loc (SubgroupObjectReader.state o) < next_cell (objects w))%nat /\ SubgroupObjectReader.index o = 0.

(** What anybody may do to the cells there are. *)
Record grows (w w' : World) : Prop := {
  grows_groups : (next_cell (groups w) <= next_cell (groups w'))%nat;
  grows_objects : (next_cell (objects w) <= next_cell (objects w'))%nat;
  grows_group : forall h, (loc h < next_cell (groups w))%nat ->
    grown group_le (cell_of h (groups w)) (cell_of h (groups w'));
  grows_object : forall h, (loc h < next_cell (objects w))%nat ->
    grown object_le (cell_of h (objects w)) (cell_of h (objects w'));
  grows_listed : listed w -> listed w';
}.

#[export] Instance grows_preorder : PreOrder grows.
Proof.
  split; [by intros w; split|]. intros w1 w2 w3 [H1 H2 H3 H4 H5] [K1 K2 K3 K4 K5].
  split; [lia|lia| | |auto].
  - intros h Hh. etransitivity; [by apply H3|]. apply K3. lia.
  - intros h Hh. etransitivity; [by apply H4|]. apply K4. lia.
Qed.

(** *** The operations of the cache are such changes *)

Lemma grows_all_stay w w' :
  next_cell (groups w') = next_cell (groups w) -> next_cell (objects w') = next_cell (objects w) ->
  all_stay (groups w) (groups w') -> all_stay (objects w) (objects w') -> grows w w'.
Proof.
  intros Hg Ho Hsg Hso. split; [lia|lia| | |].
  - intros h _. apply (grown_stays _), Hsg.
  - intros h _. apply (grown_stays _), Hso.
  - intros Hl h o Hh Hin. destruct (Hsg h) as [E _]. rewrite E in Hin. rewrite Ho. apply (Hl h); [lia|done].
Qed.

Lemma grows_drop_object_reader r w : grows w (drop_object_reader r w).
Proof. apply grows_all_stay; [done|done|done|]. apply all_stay_drop. Qed.

Lemma grows_clone_object r w : grows w (snd (SubgroupRead.clone_object r w)).
Proof. apply grows_all_stay; [done|done|done|]. apply all_stay_clone. Qed.

Lemma grows_next_turn r w : grows w (snd (snd (SubgroupRead.next_turn r w))).
Proof.
  unfold SubgroupRead.next_turn. destruct (log_turn _ _ _) as [[[[o|]|e|]|n] i]; try done.
  apply grows_clone_object.
Qed.

Lemma grows_drop_objects l w : grows w (fold_right drop_object_reader w l).
Proof.
  induction l as [|o l IH]; [done|]. simpl. etransitivity; [exact IH|]. apply grows_drop_object_reader.
Qed.

Lemma grows_drop_group_handle h w : grows w (drop_group_handle h w).
Proof.
  unfold drop_group_handle. destruct (drop_handle h (groups w)) as [v a] eqn:E.
  transitivity (with_groups a w); [|apply grows_drop_objects].
  replace a with (snd (drop_handle h (groups w))) by (by rewrite E).
  apply grows_all_stay; [done|done| |done]. apply all_stay_drop.
Qed.

(** Changing one group, or one object, under its lock. *)
Lemma grows_mut_group {R} (f : SubgroupState.t -> R * SubgroupState.t) h w :
  (forall s, SubgroupState.objects s = SubgroupState.objects (snd (f s))) ->
  grows w (with_groups (put (loc h) (snd (with_mut f (cell_of h (groups w)))) (groups w)) w).
Proof.
  intros Hf. assert (Hg : forall g, grown group_le (cell_of g (groups w))
      (cell_of g (put (loc h) (snd (with_mut f (cell_of h (groups w)))) (groups w))) /\
    SubgroupState.objects (lock (cell_of g (put (loc h) (snd (with_mut f (cell_of h (groups w)))) (groups w)))) =
      SubgroupState.objects (lock (cell_of g (groups w)))).
  { intros g. destruct (decide (loc g = loc h)) as [E|E]; [|by rewrite cell_put_ne].
    unfold cell_of. rewrite E. fold (cell_of h (groups w)).
    fold (cell_of h (put (loc h) (snd (with_mut f (cell_of h (groups w)))) (groups w))).
    rewrite cell_put_eq. unfold with_mut. destruct (dropped (inner (cell_of h (groups w)))) eqn:Ed; [|done].
    specialize (Hf (lock (cell_of h (groups w)))). unfold lock in *.
    destruct (f (value (inner (cell_of h (groups w))))) as [r s] eqn:Ef. simpl in *. split; [|done].
    split; [unfold group_le, lock; simpl; by rewrite Hf|]. by rewrite Ed. }
  split; [done|done| |done|].
  - intros g _. apply Hg.
  - intros Hl g o Hh Hin. simpl in Hin. rewrite (proj2 (Hg g)) in Hin. by apply (Hl g).
Qed.

Lemma grows_mut_object f h w :
  (forall s, object_le s (f s)) ->
  grows w (with_objects (put (loc h) (snd (mutate f (cell_of h (objects w)))) (objects w)) w).
Proof.
  intros Hf. split; [done|done|done| |done]. intros g _. simpl.
  destruct (decide (loc g = loc h)) as [E|E]; [|by rewrite cell_put_ne].
  unfold cell_of. rewrite E. fold (cell_of h (objects w)).
  fold (cell_of h (put (loc h) (snd (mutate f (cell_of h (objects w)))) (objects w))).
  rewrite cell_put_eq, mutate_spec. destruct (dropped (inner (cell_of h (objects w)))) eqn:Ed; [|done].
  split; [apply Hf|]. by rewrite Ed.
Qed.

Lemma grows_write_object o chunk w : grows w (snd (snd (SubgroupWriter.write_object o chunk w))).
Proof.
  unfold SubgroupWriter.write_object, SubgroupObjectWriter.write. destruct (_ <? _); simpl.
  - apply grows_all_stay; [done|done|done|]. by apply all_stay_put.
  - rewrite (surjective_pairing (mutate _ _)). simpl. apply grows_mut_object.
    intros s. by exists [chunk].
Qed.

(** Listing an object that exists. *)
Lemma grows_push (r : SubgroupObjectReader.t) h w :
  (loc (SubgroupObjectReader.state r) < next_cell (objects w))%nat -> SubgroupObjectReader.index r = 0 ->
  grows w (with_groups (put (loc h) (snd (mutate (SubgroupState.push r) (cell_of h (groups w)))) (groups w)) w).
Proof.
  intros Hr Hi.
  assert (Hg : forall g, grown group_le (cell_of g (groups w))
      (cell_of g (put (loc h) (snd (mutate (SubgroupState.push r) (cell_of h (groups w)))) (groups w))) /\
    forall o, o ∈ SubgroupState.objects (lock (cell_of g (put (loc h)
        (snd (mutate (SubgroupState.push r) (cell_of h (groups w)))) (groups w)))) ->
      o ∈ SubgroupState.objects (lock (cell_of g (groups w))) \/ o = r).
  { intros g. destruct (decide (loc g = loc h)) as [E|E]; [|rewrite cell_put_ne by done; split; [done|by left]].
    unfold cell_of. rewrite E. fold (cell_of h (groups w)).
    fold (cell_of h (put (loc h) (snd (mutate (SubgroupState.push r) (cell_of h (groups w)))) (groups w))).
    rewrite cell_put_eq, mutate_spec. destruct (dropped (inner (cell_of h (groups w)))) eqn:Ed; [|split; [done|by left]].
    split; [split; [by exists [r]|by rewrite Ed]|].
    intros o Ho. simpl in Ho. unfold lock in Ho. simpl in Ho.
    apply elem_of_app in Ho as [Ho|Ho]; [by left|]. apply list_elem_of_singleton in Ho. by right. }
  split; [done|done| |done|].
  - intros g _. apply Hg.
  - intros Hl g o Hh Hin. apply Hg in Hin as [Hin| ->]; [by apply (Hl g)|done].
Qed.

Lemma grows_new_object (w : World) s :
  grows w (with_objects (snd (default_split s (objects w))) w).
Proof.
  split; simpl; [done|lia|done| |].
  - intros h Hh. unfold cell_of at 2, put. simpl. rewrite decide_False by lia. done.
  - intros Hl h o Hh Hin. destruct (Hl h o Hh Hin). simpl. split; [lia|done].
Qed.

Lemma grows_drop_object_writer o w : grows w (drop_object_writer o w).
Proof.
  unfold drop_object_writer, on_cell. set (h := SubgroupObjectWriter.state o).
  transitivity (with_objects (put (loc h) (SubgroupObjectWriter.drop o (cell_of h (objects w))) (objects w)) w);
    [|apply grows_all_stay; [done|done|done|]; apply all_stay_drop].
  unfold SubgroupObjectWriter.drop. destruct (_ =? 0).
  - apply grows_all_stay; [done|done|done|]. by apply all_stay_put.
  - assert (H : grows w (with_objects (put (loc h)
      (snd (mutate (set_closed (Some ServeErr.Size)) (cell_of h (objects w)))) (objects w)) w))
      by (apply grows_mut_object; intros st; exists []; by rewrite app_nil_r).
    unfold mutate in H. by destruct (with_mut _ _) as [[[]|] c].
Qed.

Lemma grows_create size group w : grows w (snd (snd (SubgroupWriter.create size (group, w)))).
Proof.
  unfold SubgroupWriter.create. destruct (default_split SubgroupObjectState.default (objects w)) as [[wh rh] oa] eqn:E.
  pose proof (grows_new_object w SubgroupObjectState.default) as H1. rewrite E in H1. simpl in H1.
  set (reader := SubgroupObjectReader.new _ _).
  pose proof (grows_push reader (SubgroupWriter.state group) (with_objects oa w)) as H2.
  unfold on_cell. cbn -[N.modulo N.pow]. simpl in H2.
  destruct (mutate _ _) as [[u|e|] c]; simpl in *.
  all: assert (Hp : grows (with_objects oa w) (with_groups (put (loc (SubgroupWriter.state group)) c (groups w))
         (with_objects oa w))) by (apply H2; [unfold default_split in E; simpl in E; simplify_eq; simpl; lia|done]).
  all: etransitivity; [exact H1|etransitivity; [exact Hp|try reflexivity]].
  etransitivity; [|apply grows_drop_object_writer]. apply grows_drop_object_reader.
Qed.

Lemma grows_write payload group w : grows w (snd (snd (SubgroupWriter.write payload (group, w)))).
Proof.
  unfold SubgroupWriter.write, bind. pose proof (grows_create (lenN payload) group w) as H.
  destruct (SubgroupWriter.create _ _) as [[o|e|] [g w1]]; [|done|done]. simpl in H.
  pose proof (grows_write_object o payload w1) as H2.
  destruct (SubgroupWriter.write_object o payload w1) as [r [o1 w2]]. simpl in *.
  etransitivity; [exact H|]. etransitivity; [exact H2|]. apply grows_drop_object_writer.
Qed.

Lemma grows_close err group w : grows w (snd (SubgroupWriter.close err group w)).
Proof.
  unfold SubgroupWriter.close, on_cell. set (h := SubgroupWriter.state group).
  assert (H : grows w (with_groups (put (loc h) (snd (close_cell err (cell_of h (groups w)))) (groups w)) w)).
  { unfold close_cell. destruct (closed _).
    - apply grows_all_stay; [done|done| |done]. by apply all_stay_put.
    - pose proof (grows_mut_group (fun s => (tt, set_closed (Some err) s)) h w) as H.
      destruct (with_mut _ _) as [[]]; by apply H. }
  destruct (close_cell _ _) as [r c]. simpl in *. etransitivity; [exact H|]. apply grows_drop_group_handle.
Qed.

Lemma grows_tops w a : grows w (with_tops a w).
Proof. by apply grows_all_stay. Qed.

Lemma grows_produce info w : grows w (snd (SubgroupWriter.produce info w)).
Proof.
  unfold SubgroupWriter.produce. cbn [default_split state_new split snd]. split; simpl; [lia|done| |done|].
  - intros h Hh. unfold cell_of at 2, put. simpl. rewrite decide_False by lia. done.
  - intros Hl h o Hh Hin. simpl in *. unfold cell_of, put in Hin. simpl in Hin.
    destruct (decide (loc h = next_cell (groups w))) as [E|E]; [by apply elem_of_nil in Hin|].
    apply (Hl h); [lia|done].
Qed.

Lemma grows_subgroups_create subgroup self w :
  grows w (snd (snd (SubgroupsWriter.create subgroup (self, w)))).
Proof.
  unfold SubgroupsWriter.create. set (info := SubgroupInfo.mk _ _ _ _).
  pose proof (grows_produce info w) as H. destruct (SubgroupWriter.produce info w) as [[wr rd] w1].
  simpl in H. unfold on_cell. destruct (with_mut _ _) as [r c].
  assert (H1 : grows w (with_tops (put (loc (SubgroupsWriter.state self)) c (tops w1)) w1))
    by (etransitivity; [exact H|apply grows_tops]).
  destruct r as [[[] old]|]; simpl; etransitivity; try exact H1.
  - destruct old; [apply grows_drop_group_handle|done].
  - apply grows_drop_group_handle.
  - etransitivity; [|apply grows_drop_group_handle]. apply grows_drop_group_handle.
  - etransitivity; [|apply grows_drop_group_handle]. apply grows_drop_group_handle.
Qed.

(** ** The task among others *)

Module Serving.

(** A stream as the transport opens it: nothing on it, and no failure yet. *)
Definition fresh (s : send_stream) : Prop := sent s = [] /\ finished s = false /\ broken s = false.

Record t := mk { task : ServeSubgroup.t; world : World; cell : Cell SubscribedState.t }.

Inductive step : t -> t -> Prop :=
  | do_turn s open_uni :
      (forall stream, open_uni = Ok stream -> fresh stream) ->
      step s (let '((self, w), c) := ServeSubgroup.turn open_uni (task s) (world s) (cell s) in mk self w c)
  | do_env s w c : grows (world s) w -> step s (mk (task s) w c).

(** What a group of the cache comes to on the wire. *)
Definition payload (w : World) (o : SubgroupObjectReader.t) : list byte :=
  concat (SubgroupObjectState.chunks (lock (cell_of (SubgroupObjectReader.state o) (objects w)))).

Definition full (w : World) (o : SubgroupObjectReader.t) : list byte :=
  wire_of (ServeSubgroup.object_header (SubgroupObjectReader.info o)) ++ payload w o.

Definition image (w : World) (os : list SubgroupObjectReader.t) : list byte := concat (full w <$> os).

(** An object that will not change any more and has a header to send. *)
Definition settled (w : World) (o : SubgroupObjectReader.t) : Prop :=
  let c := cell_of (SubgroupObjectReader.state o) (objects w) in
  closed (lock c) = None /\ dropped (inner c) = None /\
  fst (encode (ServeSubgroup.object_header (SubgroupObjectReader.info o)) Writer.cleared) = Ok tt.

Definition in_cache (w : World) (o : SubgroupObjectReader.t) : Prop :=
  (loc (SubgroupObjectReader.state o) < next_cell (objects w))%nat.

Lemma settled_grows w w' o :
  in_cache w o -> grows w w' -> settled w o -> settled w' o /\ full w' o = full w o.
Proof.
  intros Hc Hg (Hcl & Hd & He). unfold settled, full, payload.
  destruct (grows_object _ _ Hg (SubgroupObjectReader.state o) Hc) as [_ Hs].
  destruct (Hs Hd) as [Hd' ->]. done.
Qed.

Lemma full_grows w w' o : in_cache w o -> grows w w' -> full w o `prefix_of` full w' o.
Proof.
  intros Hc Hg. unfold full, payload.
  destruct (grows_object _ _ Hg (SubgroupObjectReader.state o) Hc) as [[k Hk] _]. apply prefix_app.
  exists (concat k). by rewrite Hk, concat_app.
Qed.

Lemma image_grows w w' os :
  Forall (in_cache w) os -> grows w w' -> Forall (settled w) os ->
  Forall (settled w') os /\ image w' os = image w os.
Proof.
  intros Hc Hg. unfold image. induction Hc as [|o os Ho Hc IH]; intros Hs; [done|].
  inversion_clear Hs as [|? ? Hso Hsos]. destruct (settled_grows _ _ _ Ho Hg Hso) as [? E].
  destruct (IH Hsos) as [? E']. split; [by constructor|]. by rewrite !fmap_cons, !concat_cons, E, E'.
Qed.

Section Group.
Context (header : Data.SubgroupHeader.t) (h : Handle).

Definition head : list byte := wire_of (Data.Header.Subgroup header).

Definition shelf (w : World) : list SubgroupObjectReader.t :=
  SubgroupState.objects (lock (cell_of h (groups w))).

(** The first [n] objects are out. *)
Definition whole_sent (n : nat) (w : World) (bytes : list byte) : Prop :=
  (n <= length (shelf w))%nat /\ Forall (settled w) (take n (shelf w)) /\
  bytes = head ++ image w (take n (shelf w)) /\
  fst (encode (Data.Header.Subgroup header) Writer.cleared) = Ok tt.

(** At any time it is the image of the group, up to somewhere in an object. *)
Definition part_sent (w : World) (bytes : list byte) : Prop :=
  exists n, (n <= length (shelf w))%nat /\ Forall (settled w) (take n (shelf w)) /\
    bytes `prefix_of` head ++ image w (take (S n) (shelf w)).

Definition point_inv (index : N) (w : World) (p : ServeSubgroup.point) : Prop :=
  match p with
  | ServeSubgroup.Opening => index = 0
  | ServeSubgroup.Next writer => whole_sent (N.to_nat index) w (sent (Writer.stream writer))
  | ServeSubgroup.Reading writer object =>
      exists n o done, index = N.of_nat (S n) /\ shelf w !! n = Some o /\ whole_sent n w done /\
        SubgroupObjectReader.info object = SubgroupObjectReader.info o /\
        SubgroupObjectReader.state object = SubgroupObjectReader.state o /\
        fst (encode (ServeSubgroup.object_header (SubgroupObjectReader.info o)) Writer.cleared) = Ok tt /\
        let chunks := SubgroupObjectState.chunks (lock (cell_of (SubgroupObjectReader.state o) (objects w))) in
        (N.to_nat (SubgroupObjectReader.index object) <= length chunks)%nat /\
        sent (Writer.stream writer) =
          done ++ wire_of (ServeSubgroup.object_header (SubgroupObjectReader.info o)) ++
          concat (take (N.to_nat (SubgroupObjectReader.index object)) chunks)
  | ServeSubgroup.Stuck writer => part_sent w (sent (Writer.stream writer))
  | ServeSubgroup.Finished (Some writer) r =>
      part_sent w (sent (Writer.stream writer)) /\
      (r = Ok tt -> whole_sent (length (shelf w)) w (sent (Writer.stream writer)) /\
         closed (lock (cell_of h (groups w))) = None /\ dropped (inner (cell_of h (groups w))) = None)
  | ServeSubgroup.Finished None r => r <> Ok tt
  end.

Record inv (s : t) : Prop := {
  inv_listed : listed (world s);
  inv_loc : (loc h < next_cell (groups (world s)))%nat;
  inv_header : ServeSubgroup.header (task s) = header;
  inv_handle : SubgroupReader.state (ServeSubgroup.subgroup (task s)) = h;
  inv_point : point_inv (SubgroupReader.index (ServeSubgroup.subgroup (task s))) (world s)
    (ServeSubgroup.at_ (task s));
}.
Lemma shelf_cached w : listed w -> (loc h < next_cell (groups w))%nat -> Forall (in_cache w) (shelf w).
Proof. intros Hl Hh. apply Forall_forall. intros o Ho. by apply (Hl h o Hh Ho). Qed.

Section Grow.
Context (w w' : World) (Hl : listed w) (Hh : (loc h < next_cell (groups w))%nat) (Hg : grows w w').

Lemma shelf_grows : exists k, shelf w' = shelf w ++ k.
Proof. destruct (grows_group _ _ Hg h Hh) as [[k Hk] _]. by exists k. Qed.

Lemma take_grows n : (n <= length (shelf w))%nat -> take n (shelf w') = take n (shelf w).
Proof. intros Hn. destruct shelf_grows as [k ->]. by rewrite take_app_le. Qed.

Lemma take_cached n : Forall (in_cache w) (take n (shelf w)).
Proof. apply Forall_take, shelf_cached; done. Qed.

Lemma whole_sent_grows n bytes : whole_sent n w bytes -> whole_sent n w' bytes.
Proof.
  intros (Hn & Hs & Hb & He). destruct shelf_grows as [k Hk]. unfold whole_sent.
  rewrite take_grows by done. destruct (image_grows _ _ _ (take_cached n) Hg Hs) as [Hs' ->].
  rewrite Hk, length_app. split; [lia|done].
Qed.

Lemma part_sent_grows bytes : part_sent w bytes -> part_sent w' bytes.
Proof.
  intros (n & Hn & Hs & Hb). exists n. destruct shelf_grows as [k Hk].
  destruct (image_grows _ _ _ (take_cached n) Hg Hs) as [Hs' Hi].
  split; [rewrite Hk, length_app; lia|]. rewrite take_grows by done. split; [done|].
  etransitivity; [exact Hb|]. apply prefix_app.
  destruct (shelf w !! n) as [o|] eqn:Ho.
  - assert (Ho' : shelf w' !! n = Some o) by (rewrite Hk; by apply lookup_app_l_Some).
    rewrite (take_S_r _ _ _ Ho), (take_S_r _ _ _ Ho'), take_grows by done.
    unfold image in *. rewrite !fmap_app, !concat_app, Hi. apply prefix_app. simpl. rewrite !app_nil_r.
    apply full_grows; [|done]. eapply Forall_lookup_1; [by apply shelf_cached|done].
  - apply lookup_ge_None in Ho. assert (n = length (shelf w)) as -> by lia.
    rewrite (take_ge (shelf w)) by lia. rewrite take_ge in Hi by done.
    rewrite Hk, take_app_ge by lia. unfold image in *. rewrite fmap_app, concat_app, Hi.
    apply prefix_app_r. done.
Qed.

Lemma point_inv_grows index p : point_inv index w p -> point_inv index w' p.
Proof.
  destruct p as [|wr|wr object|wr|[wr|] r]; simpl; [done|apply whole_sent_grows| |apply part_sent_grows| |done].
  - intros (n & o & done_ & -> & Ho & Hw & Hi & Hs & He & Hx & Hb). exists n, o, done_.
    destruct shelf_grows as [k Hk].
    split; [done|]. split; [rewrite Hk; by apply lookup_app_l_Some|]. split; [by apply whole_sent_grows|].
    split; [done|]. split; [done|]. split; [done|].
    assert (Hc : in_cache w o) by (eapply Forall_lookup_1; [by apply shelf_cached|done]).
    destruct (grows_object _ _ Hg _ Hc) as [[c Hc'] _]. rewrite Hc', length_app. split; [lia|].
    by rewrite take_app_le.
  - intros [Hp Hr]. split; [by apply part_sent_grows|]. intros E. destruct (Hr E) as (Hw & Hc & Hd).
    destruct (grows_group _ _ Hg h Hh) as [_ Hs]. destruct (Hs Hd) as [Hd' Hlk].
    assert (Hsh : shelf w' = shelf w) by (unfold shelf; by rewrite Hlk). rewrite Hsh.
    split; [by apply whole_sent_grows|]. by rewrite Hlk.
Qed.
End Grow.

Lemma whole_part n w bytes : whole_sent n w bytes -> part_sent w bytes.
Proof.
  intros (Hn & Hs & -> & _). exists n. split; [done|]. split; [done|]. apply prefix_app.
  unfold image. destruct (shelf w !! n) as [o|] eqn:Ho.
  - rewrite (take_S_r _ _ _ Ho), fmap_app, concat_app. by apply prefix_app_r.
  - apply lookup_ge_None in Ho. by rewrite !take_ge by lia.
Qed.

(** Going on with the object after those sent. *)
Lemma part_more n w bytes o more :
  whole_sent n w bytes -> shelf w !! n = Some o -> more `prefix_of` full w o ->
  part_sent w (bytes ++ more).
Proof.
  intros (Hn & Hs & -> & _) Ho Hm. exists n. split; [done|]. split; [done|].
  rewrite <- app_assoc. apply prefix_app. rewrite (take_S_r _ _ _ Ho). unfold image.
  rewrite fmap_app, concat_app. apply prefix_app. simpl. by rewrite app_nil_r.
Qed.

Lemma whole_next n w bytes o :
  whole_sent n w bytes -> shelf w !! n = Some o -> settled w o ->
  whole_sent (S n) w (bytes ++ full w o).
Proof.
  intros (Hn & Hs & -> & He) Ho Hso. pose proof (lookup_lt_Some _ _ _ Ho). split; [lia|].
  rewrite (take_S_r _ _ _ Ho). split; [apply Forall_app; split; [done|by apply Forall_singleton]|].
  split; [|done]. unfold image. rewrite fmap_app, concat_app. simpl. by rewrite app_nil_r, app_assoc.
Qed.
(** *** Every turn keeps the invariant *)

Record ready (self : ServeSubgroup.t) (w : World) : Prop := {
  ready_listed : listed w;
  ready_loc : (loc h < next_cell (groups w))%nat;
  ready_header : ServeSubgroup.header self = header;
  ready_handle : SubgroupReader.state (ServeSubgroup.subgroup self) = h;
}.

Definition ok_at (r : ServeSubgroup.t * World) : Prop := forall c, inv (mk r.1 r.2 c).

Lemma ok_goto self w p :
  ready self w -> point_inv (SubgroupReader.index (ServeSubgroup.subgroup self)) w p ->
  ok_at (ServeSubgroup.goto p self, w).
Proof. intros [] Hp c. by split. Qed.

Lemma ready_grows self w w' : ready self w -> grows w w' -> ready self w'.
Proof.
  intros [Hl Hh Hd Hs] Hg. split; [by apply Hg| |done|done]. pose proof (grows_groups _ _ Hg). lia.
Qed.

Lemma ok_leave self w writer object r :
  ready self w -> point_inv 0 w (ServeSubgroup.Finished writer r) ->
  ok_at (ServeSubgroup.leave writer object r self w).
Proof.
  intros Hr Hp. unfold ServeSubgroup.leave.
  set (w' := drop_group_reader _ _).
  assert (Hg : grows w w').
  { unfold w', drop_group_reader. etransitivity; [|apply grows_drop_group_handle].
    destruct object; [apply grows_drop_object_reader|done]. }
  destruct Hr as [Hl Hh Hd Hs] eqn:E. clear E.
  apply ok_goto; [by apply (ready_grows self w)|].
  pose proof (point_inv_grows w w' Hl Hh Hg 0 _ Hp) as H. destruct writer as [wr|]; [|exact H].
  simpl in *. by rewrite sent_drop.
Qed.

Lemma ok_sending res object k self w :
  ready self w -> part_sent w (sent (Writer.stream (snd res))) ->
  (fst res = Some (Ok tt) -> ok_at (k (snd res))) ->
  ok_at (ServeSubgroup.sending res object k self w).
Proof.
  intros Hr Hp Hk. destruct res as [[[[]|e|]|] writer]; simpl in *; [by apply Hk| | |].
  - apply ok_leave; [done|]. by split.
  - apply ok_leave; [done|]. by split.
  - by apply ok_goto.
Qed.

Lemma ok_opening open_uni self w c :
  ready self w -> SubgroupReader.index (ServeSubgroup.subgroup self) = 0 ->
  (forall stream, open_uni = Ok stream -> fresh stream) ->
  ServeSubgroup.at_ self = ServeSubgroup.Opening ->
  ok_at (fst (ServeSubgroup.turn open_uni self w c)).
Proof.
  intros Hr Hi Ho Ha. unfold ServeSubgroup.turn. rewrite Ha. destruct open_uni as [stream|e|]; simpl;
    [|by apply ok_leave|by apply ok_leave].
  rewrite (ready_header _ _ Hr). destruct (Writer.encode _ _) as [r wr] eqn:E.
  apply encode_spec in E as (p & q & Hh & Hs & Hq). simpl in Hs. destruct (Ho stream eq_refl) as [H0 _]. rewrite H0 in Hs.
  simpl in Hs.
  apply ok_sending; [done| |]; simpl.
  - exists 0%nat. split; [lia|]. split; [constructor|]. rewrite Hs. unfold head. rewrite Hh, <- app_assoc.
    by apply prefix_app_r.
  - intros ->. destruct (Hq eq_refl) as [-> He]. apply ok_goto; [done|]. simpl. rewrite Hi.
    split; [simpl; lia|]. split; [constructor|]. split; [|done]. rewrite Hs. unfold head, image.
    simpl. by rewrite Hh, !app_nil_r.
Qed.
Lemma ok_begin n writer object o self w c :
  ready self w -> SubgroupReader.index (ServeSubgroup.subgroup self) = N.of_nat (S n) ->
  whole_sent n w (sent (Writer.stream writer)) -> shelf w !! n = Some o ->
  SubgroupObjectReader.info object = SubgroupObjectReader.info o ->
  SubgroupObjectReader.state object = SubgroupObjectReader.state o ->
  SubgroupObjectReader.index object = 0 ->
  ok_at (fst (ServeSubgroup.begin_object writer object self w c)).
Proof.
  intros Hr Hx Hw Ho Hi Hs H0. unfold ServeSubgroup.begin_object. rewrite Hi.
  destruct (Writer.encode _ writer) as [r wr] eqn:E. apply encode_spec in E as (p & q & Hh & Hst & Hq).
  assert (Hp : part_sent w (sent (Writer.stream wr))).
  { rewrite Hst. eapply part_more; [exact Hw|exact Ho|]. unfold full. rewrite Hh, <- app_assoc.
    by apply prefix_app_r. }
  destruct r as [[u|e|]|]; [|by apply ok_sending..].
  assert (He : q = [] /\ fst (encode (ServeSubgroup.object_header (SubgroupObjectReader.info o)) Writer.cleared)
    = Ok tt) by (apply Hq; by destruct u). destruct He as [-> He].
  destruct (update _ _ c) as [[[]|e|] c']; simpl; [|by apply ok_leave; [done|by split]..].
  apply ok_goto; [done|]. simpl. exists n, o, (sent (Writer.stream writer)).
  split; [done|]. split; [done|]. split; [done|]. split; [done|]. split; [done|]. split; [done|].
  rewrite H0. simpl. split; [lia|]. rewrite Hst, Hh, !app_nil_r. done.
Qed.

Lemma ok_next open_uni self w c writer :
  ready self w -> ServeSubgroup.at_ self = ServeSubgroup.Next writer ->
  whole_sent (N.to_nat (SubgroupReader.index (ServeSubgroup.subgroup self))) w (sent (Writer.stream writer)) ->
  ok_at (fst (ServeSubgroup.turn open_uni self w c)).
Proof.
  intros Hr Ha Hw. unfold ServeSubgroup.turn. rewrite Ha. unfold SubgroupRead.next_turn.
  pose proof (grows_clone_object) as Hgr.
  destruct Hr as [Hl Hh Hd Hs] eqn:Er. clear Er. unfold log_turn.
  rewrite Hs. fold (shelf w).
  destruct (shelf w !! N.to_nat (SubgroupReader.index (ServeSubgroup.subgroup self))) as [o|] eqn:Ho.
  - destruct (SubgroupRead.clone_object o w) as [object w'] eqn:Ec.
    pose proof (Hgr o w) as Hg. rewrite Ec in Hg. simpl in Hg.
    assert (Hobj : object = o) by (unfold SubgroupRead.clone_object, clone_handle in Ec;
      simpl in Ec; destruct o; simpl in *; by simplify_eq).
    destruct (shelf_grows w w' Hh Hg) as [k Hk].
    assert (H0 : SubgroupObjectReader.index o = 0).
    { apply (Hl h o Hh). by eapply list_elem_of_lookup_2. }
    apply (ok_begin (N.to_nat (SubgroupReader.index (ServeSubgroup.subgroup self))) _ _ o); subst; try done.
    + split; [by apply Hg| |done|done]. pose proof (grows_groups _ _ Hg). lia.
    + simpl. lia.
    + by apply (whole_sent_grows w w').
    + rewrite Hk. by apply lookup_app_l_Some.
  - apply lookup_ge_None in Ho. pose proof Hw as (Hle & _ & _ & _).
    assert (Hall : whole_sent (length (shelf w)) w (sent (Writer.stream writer))) by (replace (length (shelf w))
      with (N.to_nat (SubgroupReader.index (ServeSubgroup.subgroup self))) by lia; done).
    pose proof (whole_part _ _ _ Hw) as Hp.
    unfold idle. destruct (closed (lock (cell_of h (groups w)))) eqn:Hcl.
    + apply ok_leave; [by split|by split].
    + unfold modified. destruct (dropped (inner (cell_of h (groups w)))) eqn:Hdr.
      * intros c0. split; simpl; try done.
      * rewrite (surjective_pairing (Writer.finish writer)). simpl.
        apply ok_leave; [by split|]. simpl. by rewrite sent_finish.
Qed.

Lemma ok_reading open_uni self w c writer object :
  ready self w -> ServeSubgroup.at_ self = ServeSubgroup.Reading writer object ->
  point_inv (SubgroupReader.index (ServeSubgroup.subgroup self)) w (ServeSubgroup.Reading writer object) ->
  ok_at (fst (ServeSubgroup.turn open_uni self w c)).
Proof.
  intros Hr Ha (n & o & done_ & Hx & Ho & Hw & Hi & Hs & He & Hidx & Hb). unfold ServeSubgroup.turn. rewrite Ha.
  unfold SubgroupObjectReader.read_turn. rewrite Hs.
  set (cl := cell_of (SubgroupObjectReader.state o) (objects w)) in *. unfold log_turn.
  assert (Hpart : forall more, more `prefix_of` concat (drop (N.to_nat (SubgroupObjectReader.index object))
      (SubgroupObjectState.chunks (lock cl))) -> part_sent w (sent (Writer.stream writer) ++ more)).
  { intros more Hm. rewrite Hb, <- !app_assoc. eapply part_more; [exact Hw|exact Ho|]. unfold full.
    apply prefix_app. unfold payload. fold cl.
    rewrite <- (take_drop (N.to_nat (SubgroupObjectReader.index object)) (SubgroupObjectState.chunks (lock cl))) at 2.
    rewrite concat_app. by apply prefix_app. }
  assert (Hnow : part_sent w (sent (Writer.stream writer))).
  { rewrite <- (app_nil_r (sent _)). apply Hpart. apply prefix_nil. }
  destruct (SubgroupObjectState.chunks (lock cl) !! N.to_nat (SubgroupObjectReader.index object)) as [chunk|] eqn:Hc.
  - destruct (Writer.write chunk writer) as [r wr] eqn:E. apply write_spec in E as (p & q & -> & Hst & Hq).
    apply ok_sending; [done| |]; simpl.
    + rewrite Hst. apply Hpart. rewrite (drop_S _ _ _ Hc). simpl. rewrite <- app_assoc. by apply prefix_app_r.
    + intros ->. rewrite (Hq eq_refl) in *. rewrite app_nil_r in *. apply ok_goto; [done|].
      exists n, o, done_. simpl. fold cl. pose proof (lookup_lt_Some _ _ _ Hc).
      replace (N.to_nat (SubgroupObjectReader.index object + 1))
        with (S (N.to_nat (SubgroupObjectReader.index object))) by lia.
      split; [done|]. split; [done|]. split; [done|]. split; [done|]. split; [done|]. split; [done|].
      split; [lia|]. rewrite Hst, Hb, (take_S_r _ _ _ Hc), concat_app. simpl. by rewrite app_nil_r, !app_assoc.
  - unfold idle. destruct (closed (lock cl)) eqn:Hcl; [by apply ok_leave; [done|by split]|].
    unfold modified. destruct (dropped (inner cl)) eqn:Hdr.
    + apply ok_goto; [done|]. exists n, o, done_. simpl. fold cl. done.
    + simpl. set (w' := drop_object_reader _ w).
      assert (Hg : grows w w') by apply grows_drop_object_reader.
      apply ok_goto; [by apply (ready_grows self w)|].
      apply (point_inv_grows w w'); [apply Hr|apply Hr|done|]. simpl. rewrite Hx, Nat2N.id.
      replace (sent (Writer.stream writer)) with (done_ ++ full w o); [by apply whole_next|].
      rewrite Hb. unfold full, payload. fold cl. f_equal. apply lookup_ge_None in Hc. by rewrite take_ge by lia.
Qed.

Lemma sent_step s s' : inv s -> step s s' -> inv s'.
Proof.
  intros [Hl Hh Hd Hs Hp]. destruct 1 as [s open_uni Hopen|s w c Hg].
  - assert (H : ok_at (fst (ServeSubgroup.turn open_uni (task s) (world s) (cell s))));
      [|by destruct (ServeSubgroup.turn _ _ _ _) as [[self w] c]; apply H].
    assert (Hr : ready (task s) (world s)) by (by split).
    destruct (ServeSubgroup.at_ (task s)) as [|wr|wr object|wr|wr r] eqn:Ha.
    + by apply ok_opening.
    + by eapply ok_next.
    + by eapply ok_reading.
    + unfold ServeSubgroup.turn. rewrite Ha. intros c. split; simpl; try done. by rewrite Ha.
    + unfold ServeSubgroup.turn. rewrite Ha. intros c. split; simpl; try done. by rewrite Ha.
  - pose proof (point_inv_grows _ w Hl Hh Hg _ _ Hp) as Hp'. split; simpl; try done.
    + by apply Hg.
    + pose proof (grows_groups _ _ Hg). lia.
Qed.
End Group.
End Serving.

(** ** Closing the stream *)

Definition transport_failed (r : outcome SessionError unit) : bool :=
  match r with Err (SessionErr.Transport _) => true | _ => false end.

(** What a write does to the stream besides sending: nothing, unless it fails in
    the transport. *)
Definition written (s : send_stream) (r : Writer.result unit) (s' : send_stream) : Prop :=
  finished s' = finished s /\ broken s' = broken s || default false (transport_failed <$> r).

Lemma drain_written script s buf :
  written s (fst (Writer.drain script s buf)) (Writer.stream (snd (Writer.drain script s buf))).
Proof.
  revert s buf. induction script as [|[n|msg] script IH]; intros s [|b buf];
    try (unfold written; simpl; by rewrite ?orb_false_r, ?orb_true_r).
  destruct (IH (Writer.after s script (take (N.to_nat (N.min n (lenN (b :: buf)))) (b :: buf)))
    (drop (N.to_nat (N.min n (lenN (b :: buf)))) (b :: buf))) as [Hf Hb]. by split.
Qed.

Lemma write_loop_written script s buf :
  written s (fst (Writer.write_loop script s buf)) (snd (Writer.write_loop script s buf)).
Proof.
  revert s buf. induction script as [|[n|msg] script IH]; intros s [|b buf];
    try (unfold written; simpl; by rewrite ?orb_false_r, ?orb_true_r).
  cbn [Writer.write_loop]. destruct (_ =? 0); [by unfold written; simpl; rewrite orb_false_r|].
  destruct (IH (Writer.after s script (take (N.to_nat (N.min n (lenN (b :: buf)))) (b :: buf)))
    (drop (N.to_nat (N.min n (lenN (b :: buf)))) (b :: buf))) as [Hf Hb]. by split.
Qed.

Lemma encode_written {A} `{Encode A} (a : A) wr :
  written (Writer.stream wr) (fst (Writer.encode a wr)) (Writer.stream (snd (Writer.encode a wr))).
Proof.
  unfold Writer.encode. destruct (encode a Writer.cleared) as [[]]; [apply drain_written|..];
    unfold written; simpl; by rewrite orb_false_r.
Qed.

Lemma write_written buf wr :
  written (Writer.stream wr) (fst (Writer.write buf wr)) (Writer.stream (snd (Writer.write buf wr))).
Proof.
  unfold Writer.write. pose proof (write_loop_written (script (Writer.stream wr)) (Writer.stream wr) buf) as H.
  by destruct (Writer.write_loop _ _ _).
Qed.

(** The writer a task is using, or left behind. *)
Definition writer_of (p : ServeSubgroup.point) : option Writer.t :=
  match p with
  | ServeSubgroup.Opening => None
  | ServeSubgroup.Next writer | ServeSubgroup.Reading writer _ | ServeSubgroup.Stuck writer => Some writer
  | ServeSubgroup.Finished writer _ => writer
  end.

(** Whether the FIN gets out when a task ends with [r]: never after a failure of
    the transport, else when the transport takes it on the drop or, without error,
    on the call of [finish]. *)
Definition takes_fin (s : send_stream) (r : outcome SessionError unit) : bool :=
  match r with
  | Ok _ => on_drop s || match on_finish s with FinSent => true | _ => false end
  | Err (SessionErr.Transport _) => false
  | _ => on_drop s
  end.

(** No FIN as long as the task runs; then as [takes_fin] says. *)
Definition tidy (p : ServeSubgroup.point) : Prop :=
  match p with
  | ServeSubgroup.Opening | ServeSubgroup.Finished None _ => True
  | ServeSubgroup.Next writer | ServeSubgroup.Reading writer _ | ServeSubgroup.Stuck writer =>
      finished (Writer.stream writer) = false /\ broken (Writer.stream writer) = false
  | ServeSubgroup.Finished (Some writer) r =>
      finished (Writer.stream writer) = takes_fin (Writer.stream writer) r
  end.

Lemma tidy_leave wr object r self w :
  finished (Writer.stream wr) = false -> broken (Writer.stream wr) = transport_failed r -> r <> Ok tt ->
  tidy (ServeSubgroup.at_ (fst (ServeSubgroup.leave (Some wr) object r self w))).
Proof.
  intros Hf Hb Hr. simpl. unfold Writer.drop, takes_fin.
  destruct (on_drop (Writer.stream wr)) eqn:Hd; simpl; rewrite Hf, ?Hb, ?Hd;
    destruct r as [[]|[]|]; done.
Qed.

(** A task that ends without error has called [finish] before the drop. *)
Lemma tidy_end wr self w :
  finished (Writer.stream wr) = false -> broken (Writer.stream wr) = false ->
  tidy (ServeSubgroup.at_ (fst (ServeSubgroup.leave (Some (snd (Writer.finish wr))) None
    (fst (Writer.finish wr)) self w))).
Proof.
  intros Hf Hb. simpl. unfold Writer.finish, Writer.drop, takes_fin.
  destruct (on_finish (Writer.stream wr)) eqn:He; simpl; destruct (on_drop (Writer.stream wr)) eqn:Hd; simpl;
    by rewrite ?Hf, ?Hb, ?He, ?Hd.
Qed.

Lemma tidy_sending res object k self w :
  finished (Writer.stream (snd res)) = false ->
  broken (Writer.stream (snd res)) = default false (transport_failed <$> fst res) ->
  (fst res = Some (Ok tt) -> finished (Writer.stream (snd res)) = false ->
    broken (Writer.stream (snd res)) = false -> tidy (ServeSubgroup.at_ (fst (k (snd res))))) ->
  tidy (ServeSubgroup.at_ (fst (ServeSubgroup.sending res object k self w))).
Proof.
  destruct res as [[[u|e|]|] writer]; cbn [fst snd]; intros Hf Hb Hk;
    [destruct u; by apply Hk|by apply tidy_leave..|done].
Qed.

Lemma tidy_begin writer object self w c :
  finished (Writer.stream writer) = false -> broken (Writer.stream writer) = false ->
  tidy (ServeSubgroup.at_ (fst (fst (ServeSubgroup.begin_object writer object self w c)))).
Proof.
  intros Hf Hb. unfold ServeSubgroup.begin_object.
  destruct (encode_written (ServeSubgroup.object_header (SubgroupObjectReader.info object)) writer) as [Hf1 Hb1].
  destruct (Writer.encode _ writer) as [r wr]. rewrite Hf, Hb in *.
  destruct r as [[u|e|]|]; [|by apply tidy_sending..].
  destruct (update _ _ c) as [[u'|e|] c1]; [done|by apply tidy_leave..].
Qed.

Lemma tidy_turn open_uni self w c :
  (forall stream, open_uni = Ok stream -> Serving.fresh stream) ->
  tidy (ServeSubgroup.at_ self) -> tidy (ServeSubgroup.at_ (fst (fst (ServeSubgroup.turn open_uni self w c)))).
Proof.
  intros Ho He. unfold ServeSubgroup.turn.
  destruct (ServeSubgroup.at_ self) as [|wr|wr object|wr|wr r] eqn:Ha; [| | |by cbn [fst]; rewrite Ha..].
  - destruct open_uni as [stream|e|]; [|done|done]. destruct (Ho stream eq_refl) as (_ & Hf & Hb).
    set (wr := Writer.set_priority _ _).
    destruct (encode_written (Data.Header.Subgroup (ServeSubgroup.header self)) wr) as [Hf1 Hb1].
    assert (Hw : broken (Writer.stream wr) = false) by exact Hb. rewrite Hw in Hb1.
    apply tidy_sending; [exact (eq_trans Hf1 Hf)|exact Hb1|by split].
  - destruct He as [Hf Hb].
    destruct (SubgroupRead.next_turn _ w) as [[[[object|]|e|]|n] [g w1]];
      [by apply tidy_begin| |by apply tidy_leave..|by split].
    rewrite (surjective_pairing (Writer.finish wr)). by apply tidy_end.
  - destruct He as [Hf Hb].
    destruct (SubgroupObjectReader.read_turn _ _) as [[[[chunk|]|e|]|n] object'];
      [|by split|by apply tidy_leave..|by split].
    destruct (write_written chunk wr) as [Hf1 Hb1].
    rewrite Hb in Hb1. apply tidy_sending; [exact (eq_trans Hf1 Hf)|exact Hb1|by split].
Qed.

Lemma tidy_step s s' :
  tidy (ServeSubgroup.at_ (Serving.task s)) -> Serving.step s s' ->
  tidy (ServeSubgroup.at_ (Serving.task s')).
Proof.
  intros He. destruct 1 as [s open_uni Ho|s w c Hg]; [|done].
  pose proof (tidy_turn open_uni (Serving.task s) (Serving.world s) (Serving.cell s) Ho He) as H.
  by destruct (ServeSubgroup.turn _ _ _ _) as [[self w] c].
Qed.

(** ** Properties *)

Definition start (header : Data.SubgroupHeader.t) (reader : SubgroupReader.t) (w : World)
    (c : Cell SubscribedState.t) : Serving.t :=
  Serving.mk (ServeSubgroup.start header reader) w c.

Lemma sent_start header reader w c :
  listed w -> (loc (SubgroupReader.state reader) < next_cell (groups w))%nat ->
  SubgroupReader.index reader = 0 ->
  Serving.inv header (SubgroupReader.state reader) (start header reader w c).
Proof. intros Hl Hh Hi. by split. Qed.

Lemma inv_run header h s s' :
  rtc Serving.step s s' -> Serving.inv header h s -> Serving.inv header h s'.
Proof. induction 1 as [|s1 s2 s3 H _ IH]; [done|]. intros Hi. apply IH. by eapply Serving.sent_step. Qed.

Lemma tidy_run s s' :
  rtc Serving.step s s' -> tidy (ServeSubgroup.at_ (Serving.task s)) ->
  tidy (ServeSubgroup.at_ (Serving.task s')).
Proof. induction 1 as [|s1 s2 s3 H _ IH]; [done|]. intros Hi. apply IH. by eapply tidy_step. Qed.

Lemma point_part header h index w p writer :
  Serving.point_inv header h index w p -> writer_of p = Some writer ->
  Serving.part_sent header h w (sent (Writer.stream writer)).
Proof.
  destruct p as [|wr|wr object|wr|[wr|] r]; simpl; intros Hp Hw; simplify_eq; [| |done|by destruct Hp].
  - by eapply Serving.whole_part.
  - destruct Hp as (n & o & done_ & _ & Ho & Hd & _ & _ & _ & _ & ->).
    eapply Serving.part_more; [exact Hd|exact Ho|]. unfold Serving.full. apply prefix_app.
    unfold Serving.payload. set (chunks := SubgroupObjectState.chunks _).
    rewrite <- (take_drop (N.to_nat (SubgroupObjectReader.index object)) chunks) at 2.
    rewrite concat_app. by apply prefix_app_r.
Qed.

(** C4 (safety). Serving a subgroup, whatever others do to the cache meanwhile,
    and however the transport takes the bytes: at all times the stream carries the
    header and then the objects of the group in order, all but the last complete
    and final; no FIN goes out while the task runs; a task that ends without error
    has put the whole group on the stream, to which nobody can add any more; and
    whatever a task ends with, its stream is finished exactly if the transport has
    not failed and takes the FIN, when the writer is dropped or, without error, when
    [finish] is called. So a group that ends early, by an error of the cache, an
    abandoned object or the end of the subscription, gets the clean FIN of a whole
    one. *)
Theorem serve_subgroup_in_order (header : Data.SubgroupHeader.t) (reader : SubgroupReader.t) (w : World)
    (c : Cell SubscribedState.t) (s : Serving.t) (writer : Writer.t) :
  listed w -> (loc (SubgroupReader.state reader) < next_cell (groups w))%nat ->
  SubgroupReader.index reader = 0 ->
  rtc Serving.step (start header reader w c) s ->
  writer_of (ServeSubgroup.at_ (Serving.task s)) = Some writer ->
  let h := SubgroupReader.state reader in
  let os := Serving.shelf h (Serving.world s) in
  (exists n, Forall (Serving.settled (Serving.world s)) (take n os) /\
     sent (Writer.stream writer) `prefix_of` Serving.head header ++ Serving.image (Serving.world s) (take (S n) os)) /\
  ((forall r, ServeSubgroup.at_ (Serving.task s) <> ServeSubgroup.Finished (Some writer) r) ->
     finished (Writer.stream writer) = false) /\
  (ServeSubgroup.at_ (Serving.task s) = ServeSubgroup.Finished (Some writer) (Ok tt) ->
     sent (Writer.stream writer) = Serving.head header ++ Serving.image (Serving.world s) os /\
     Forall (Serving.settled (Serving.world s)) os /\
     dropped (inner (cell_of h (groups (Serving.world s)))) = None) /\
  (forall r, ServeSubgroup.at_ (Serving.task s) = ServeSubgroup.Finished (Some writer) r ->
     finished (Writer.stream writer) = takes_fin (Writer.stream writer) r).
Proof.
  intros Hl Hh Hi Hrun Hw. pose proof (inv_run header _ _ _ Hrun (sent_start header reader w c Hl Hh Hi)) as [_ _ _ _ Hp].
  assert (He : tidy (ServeSubgroup.at_ (Serving.task s))) by (by eapply tidy_run).
  cbv zeta. split; [|split; [|split]].
  - destruct (point_part _ _ _ _ _ _ Hp Hw) as (n & _ & ? & ?). by exists n.
  - intros Hr. destruct (ServeSubgroup.at_ (Serving.task s)) as [| | | |wr r]; simpl in Hw; simplify_eq;
      [apply He..|]. by destruct (Hr r).
  - intros E. rewrite E in Hp. destruct Hp as [_ Hok]. destruct (Hok eq_refl) as ((_ & Hs & Hb & _) & _ & Hd).
    rewrite take_ge in Hs, Hb by done. done.
  - intros r E. by rewrite E in He.
Qed.

Lemma image_wires w os :
  Forall (Serving.settled w) os ->
  Forall (fun o => SubgroupObject.size (SubgroupObjectReader.info o) = lenN (Serving.payload w o)) os ->
  Forall2 object_wire (Serving.payload w <$> os) (Serving.full w <$> os).
Proof.
  induction 1 as [|o os (_ & _ & He) _ IH]; intros Hs; [constructor|]. inversion_clear Hs as [|? ? Ho Hos].
  rewrite !fmap_cons. constructor; [|by apply IH].
  unfold Serving.full, wire_of. destruct (encode _ Writer.cleared) as [r wb] eqn:E. simpl in *. subst.
  by apply (object_wire_encoded (ServeSubgroup.object_header (SubgroupObjectReader.info o))).
Qed.

(** What a task that ended without error has put on the stream. *)
Lemma served_wires header reader w c s writer :
  listed w -> (loc (SubgroupReader.state reader) < next_cell (groups w))%nat ->
  SubgroupReader.index reader = 0 ->
  rtc Serving.step (start header reader w c) s ->
  ServeSubgroup.at_ (Serving.task s) = ServeSubgroup.Finished (Some writer) (Ok tt) ->
  let os := Serving.shelf (SubgroupReader.state reader) (Serving.world s) in
  Forall (fun o => SubgroupObject.size (SubgroupObjectReader.info o) =
                   lenN (Serving.payload (Serving.world s) o)) os ->
  exists hb, sent (Writer.stream writer) = hb ++ concat (Serving.full (Serving.world s) <$> os) /\
    (forall rest, decode (hb ++ rest) = (Ok (Data.Header.Subgroup header), rest)) /\
    Forall2 object_wire (Serving.payload (Serving.world s) <$> os) (Serving.full (Serving.world s) <$> os).
Proof.
  intros Hl Hh Hi Hrun Hfin os Hsz.
  pose proof (inv_run header _ _ _ Hrun (sent_start header reader w c Hl Hh Hi)) as [_ _ _ _ Hpt].
  rewrite Hfin in Hpt. destruct Hpt as [_ Hok]. destruct (Hok eq_refl) as ((_ & Hs & Hb & He) & _).
  rewrite take_ge in Hs, Hb by done. fold os in Hs, Hb.
  destruct (encode (Data.Header.Subgroup header) Writer.cleared) as [e wb] eqn:E. simpl in He. subst e.
  assert (Hhd : Serving.head header = wdata wb) by (unfold Serving.head, wire_of; by rewrite E).
  apply (round_trip (A:=Data.Header.t)) in E as (bs & -> & Hbs). simpl in Hhd.
  exists bs. rewrite Hb, Hhd. split; [done|]. split; [done|]. by apply image_wires.
Qed.

(** A subgroup goes from one cache to another: when the sender's
    task ends without error, a receiver that gets the bytes of its stream, cut into
    reads in any way, decodes the header that was sent, and its [recv_subgroup]
    ends without error with the sender's payloads, object by object, in its own
    cache, provided the sender's objects have the sizes their headers say. *)
Theorem subgroup_transfer (header : Data.SubgroupHeader.t) (reader : SubgroupReader.t) (w : World)
    (c : Cell SubscribedState.t) (s : Serving.t) (writer : Writer.t) (r : Reader.t) (info : SubgroupInfo.t)
    (theirs : World) :
  listed w -> (loc (SubgroupReader.state reader) < next_cell (groups w))%nat ->
  SubgroupReader.index reader = 0 ->
  rtc Serving.step (start header reader w c) s ->
  ServeSubgroup.at_ (Serving.task s) = ServeSubgroup.Finished (Some writer) (Ok tt) ->
  let os := Serving.shelf (SubgroupReader.state reader) (Serving.world s) in
  Forall (fun o => SubgroupObject.size (SubgroupObjectReader.info o) =
                   lenN (Serving.payload (Serving.world s) o)) os ->
  whole r -> Reader.pending r = sent (Writer.stream writer) ->
  exists r', Reader.decode decode r = (Ok (Data.Header.Subgroup header), r') /\
    let '((writer', reader'), theirs1) := SubgroupWriter.produce info theirs in
    exists theirs2, recv_subgroup writer' r' theirs1 = Some (Ok tt, theirs2) /\
      (read_out theirs2 <$> Serving.shelf (SubgroupReader.state reader') theirs2) =
        ((fun o => Some (Return (Ok (Serving.payload (Serving.world s) o)))) <$> os).
Proof.
  intros Hl Hh Hi Hrun Hfin os Hsz Hr Hp.
  destruct (served_wires header reader w c s writer Hl Hh Hi Hrun Hfin Hsz) as (hb & Hb & Hbs & HF).
  rewrite Hb in Hp.
  destruct (decode_whole decode (Data.Header.Subgroup header) hb _ r Hr decode_streaming (Hbs _) Hp)
    as (r' & Hdec & Hr' & Hp'). exists r'. split; [exact Hdec|].
  pose proof (receive_subgroup info theirs _ _ r' HF Hr' Hp') as H.
  destruct (SubgroupWriter.produce info theirs) as [[writer' reader'] theirs1].
  destruct H as (theirs2 & Hrecv & _ & Hout & _). exists theirs2. split; [exact Hrecv|].
  unfold Serving.shelf. rewrite Hout, <- list_fmap_compose. done.
Qed.

(** ** An example: the group is written while it is served *)

Definition demo_stream : outcome SessionError send_stream :=
  Ok (fresh_stream (replicate 20 (Accept 3)) FinLater true).

Definition take_turn (s : Serving.t) : Serving.t :=
  let '((self, w), c) := ServeSubgroup.turn demo_stream (Serving.task s) (Serving.world s) (Serving.cell s) in
  Serving.mk self w c.

Lemma step_take_turn s : Serving.step s (take_turn s).
Proof. constructor. intros stream E. unfold demo_stream in E. by simplify_eq. Qed.

Lemma rtc_turns n s : rtc Serving.step s (Nat.iter n take_turn s).
Proof. induction n as [|n IH]; [done|]. eapply rtc_r; [exact IH|apply step_take_turn]. Qed.

Definition demo_group : (SubgroupWriter.t * SubgroupReader.t) * World :=
  SubgroupWriter.produce demo_subgroup world_new.

Definition demo_header : Data.SubgroupHeader.t := Data.SubgroupHeader.mk 1 2 4 0 x05.

(** A turn, then two objects are written and the writer goes, then the rest. *)
Definition demo_start : Serving.t :=
  start demo_header (snd (fst demo_group)) (snd demo_group) (snd (state_new SubscribedState.default)).

Definition demo_open : Serving.t := Nat.iter 2 take_turn demo_start.

Definition demo_written : SubgroupWriter.t * World :=
  snd (SubgroupWriter.write [] (snd (SubgroupWriter.write [x61; x62] (fst (fst demo_group), Serving.world demo_open)))).

Definition demo_closed : Serving.t :=
  Serving.mk (Serving.task demo_open) (SubgroupWriter.drop (fst demo_written) (snd demo_written))
    (Serving.cell demo_open).

Definition demo_end : Serving.t := Nat.iter 7 take_turn demo_closed.

Lemma demo_run : rtc Serving.step demo_start demo_end.
Proof.
  etransitivity; [apply (rtc_turns 2)|]. etransitivity; [|apply rtc_turns].
  apply rtc_once. unfold demo_closed. constructor.
  etransitivity; [|apply grows_drop_group_handle]. unfold demo_written.
  destruct (SubgroupWriter.write [x61; x62] _) as [r [g w1]] eqn:E.
  transitivity w1; [|apply grows_write].
  pose proof (grows_write [x61; x62] (fst (fst demo_group)) (Serving.world demo_open)) as H. by rewrite E in H.
Qed.

Lemma demo_listed : listed (snd demo_group).
Proof. apply (grows_produce demo_subgroup world_new). intros h o Hh. simpl in Hh. lia. Qed.

Definition demo_writer : Writer.t := default (Writer.new (fresh_stream [] FinLater true))
  (writer_of (ServeSubgroup.at_ (Serving.task demo_end))).

Definition demo_bytes : list byte := [x04; x01; x02; x04; x00; x05; x00; x02; x61; x62; x01; x00; x00].

Lemma serve_subgroup_in_order_witness :
  sent (Writer.stream demo_writer) = demo_bytes /\
  Serving.head demo_header ++ Serving.image (Serving.world demo_end)
    (Serving.shelf (SubgroupReader.state (snd (fst demo_group))) (Serving.world demo_end)) = demo_bytes /\
  finished (Writer.stream demo_writer) = true.
Proof.
  assert (Hw : writer_of (ServeSubgroup.at_ (Serving.task demo_end)) = Some demo_writer)
    by (vm_compute; reflexivity).
  assert (E : ServeSubgroup.at_ (Serving.task demo_end) = ServeSubgroup.Finished (Some demo_writer) (Ok tt))
    by (vm_compute; reflexivity).
  assert (Hb : sent (Writer.stream demo_writer) = demo_bytes) by (vm_compute; reflexivity).
  assert (Hloc : (loc (SubgroupReader.state (snd (fst demo_group))) < next_cell (groups (snd demo_group)))%nat)
    by (apply Nat.ltb_lt; vm_compute; reflexivity).
  destruct (serve_subgroup_in_order demo_header (snd (fst demo_group)) (snd demo_group) _
    demo_end demo_writer demo_listed Hloc eq_refl demo_run Hw) as (_ & _ & Hall & Hfin).
  split; [exact Hb|]. split; [rewrite <- Hb; symmetry; exact (proj1 (Hall E))|].
  rewrite (Hfin _ E). vm_compute. reflexivity.
Defined.

(** Another run: the cache's writer gives up with [Cancel] after the first object. *)
Definition demo_first : SubgroupWriter.t * World :=
  snd (SubgroupWriter.write [x61; x62] (fst (fst demo_group), Serving.world demo_open)).

Definition demo_given_up : Serving.t :=
  Serving.mk (Serving.task demo_open)
    (snd (SubgroupWriter.close ServeErr.Cancel (fst demo_first) (snd demo_first))) (Serving.cell demo_open).

Definition demo_cut : Serving.t := Nat.iter 7 take_turn demo_given_up.

Lemma demo_cut_run : rtc Serving.step demo_start demo_cut.
Proof.
  etransitivity; [apply (rtc_turns 2)|]. etransitivity; [|apply rtc_turns].
  apply rtc_once. unfold demo_given_up. constructor.
  etransitivity; [|apply grows_close]. apply grows_write.
Qed.

(** The task fails, but its stream gets its FIN on the drop, and the peer takes the
    beginning of the group for all of it. *)
Lemma truncated_taken_for_whole :
  rtc Serving.step demo_start demo_cut /\
  exists writer,
    ServeSubgroup.at_ (Serving.task demo_cut) =
      ServeSubgroup.Finished (Some writer) (Err (SessionErr.Serve ServeErr.Cancel)) /\
    finished (Writer.stream writer) = true /\ sent (Writer.stream writer) = take 10 demo_bytes /\
    exists r', Reader.decode decode (Reader.new [Data (take 10 demo_bytes)]) =
        (Ok (Data.Header.Subgroup demo_header), r') /\
      let '((writer', reader'), theirs) := SubgroupWriter.produce demo_subgroup world_new in
      match recv_subgroup writer' r' theirs with
      | Some (Ok _, theirs) =>
          (read_out theirs <$> Serving.shelf (SubgroupReader.state reader') theirs) =
            [Some (Return (Ok [x61; x62]))]
      | _ => False
      end.
Proof.
  split; [exact demo_cut_run|]. eexists. split; [vm_compute; reflexivity|].
  split; [vm_compute; reflexivity|]. split; [vm_compute; reflexivity|].
  eexists. split; [vm_compute; reflexivity|]. vm_compute. reflexivity.
Qed.

Lemma pointwise {A} (f g : A -> N) (l : list A) : f <$> l = g <$> l -> Forall (fun x => f x = g x) l.
Proof. induction l as [|x l IH]; simpl; intros; simplify_eq; constructor; auto. Qed.

Lemma subgroup_transfer_witness :
  let r := Reader.new [Data (take 7 demo_bytes); Data (drop 7 demo_bytes)] in
  exists r', Reader.decode decode r = (Ok (Data.Header.Subgroup demo_header), r') /\
    let '((writer', reader'), theirs1) := SubgroupWriter.produce demo_subgroup world_new in
    exists theirs2, recv_subgroup writer' r' theirs1 = Some (Ok tt, theirs2) /\
      (read_out theirs2 <$> Serving.shelf (SubgroupReader.state reader') theirs2) =
        [Some (Return (Ok [x61; x62])); Some (Return (Ok []))].
Proof.
  cbv zeta.
  assert (E : ServeSubgroup.at_ (Serving.task demo_end) = ServeSubgroup.Finished (Some demo_writer) (Ok tt))
    by (vm_compute; reflexivity).
  refine (subgroup_transfer demo_header (snd (fst demo_group)) (snd demo_group) _ demo_end demo_writer
    (Reader.new [Data (take 7 demo_bytes); Data (drop 7 demo_bytes)]) demo_subgroup world_new demo_listed
    _ eq_refl demo_run E _ _ _).
  - vm_compute. reflexivity.
  - apply pointwise. vm_compute. reflexivity.
  - constructor; [eexists _, _; reflexivity|]. constructor; [eexists _, _; reflexivity|constructor].
  - vm_compute. reflexivity.
Defined.
