(* ===== verification/Subscriptions.v ===== *)
(** * A subscription of ours

    [moq-transport/src/session/subscribe.rs]: what the application holds of a
    subscription, [Subscribe], and what the session holds, [SubscribeRecv], which
    writes what arrives into the track. They share a [SubscribeState]. *)
From Stdlib Require Import NArith Lia Bool.
From stdpp Require Import base list gmap option numbers.
From S2P Require Import Prelude Buffers VarInt Utf8 Coding Setup Data Subscribes Errors Watch Serve.
From S2P Require Import Subgroup Groups StreamTrack Objects Tracks.

Module SubscribeInfo.
Record t := mk { namespace : Tuple.t; name : String }.
End SubscribeInfo.

Module SubscribeState.
Record t := mk { ok : bool; closed : option ServeError }.
Definition default : t := mk false None.

#[export] Instance closable : Closable t :=
  {| Serve.closed := closed; set_closed r s := mk (ok s) r; closed_set r s := eq_refl |}.
End SubscribeState.
Export (hints) SubscribeState.

(** ** [SubscribeRecv] *)

Module SubscribeRecv.
Record t := mk { state : Handle; writer : option TrackWriterMode.t }.

Definition with_writer (w : option TrackWriterMode.t) (self : t) : t := mk (state self) w.

(** OK twice is an error; OK for a subscription the application has dropped is not. *)
Definition ok (c : Cell SubscribeState.t) : outcome ServeError unit * Cell SubscribeState.t :=
  if SubscribeState.ok (lock c) then (Err ServeErr.Duplicate, c)
  else (Ok tt, snd (with_mut (fun s => (tt, SubscribeState.mk true (SubscribeState.closed s))) c)).

(** The fields go out of scope. *)
Definition drop (self : t) (st : Arena SubscribeState.t) (s : Store.t) : Arena SubscribeState.t * Store.t :=
  (snd (drop_handle (state self) st),
   match writer self with Some w => TrackWriterMode.drop w s | None => s end).

(** [error] consumes the subscription; it returns early if the writer cannot be
    closed. *)
Definition error (err : ServeError) (self : t) (st : Arena SubscribeState.t) (s : Store.t) :
    outcome ServeError unit * (Arena SubscribeState.t * Store.t) :=
  let '(r, s) := match writer self with
                 | Some w => TrackWriterMode.close err w s
                 | None => (Ok tt, s)
                 end in
  match r with
  | Ok _ =>
      let (r, st) := on_cell (state self) (close_cell err) st in
      (r, (snd (drop_handle (state self) st), s))
  | r => (r, (snd (drop_handle (state self) st), s))
  end.

(** [stream.clone()] *)
Definition clone_stream (w : StreamTrack.StreamWriter.t) (s : Store.t) : StreamTrack.StreamWriter.t * Store.t :=
  let (h, a) := clone_handle (StreamTrack.StreamWriter.state w)
    (StreamTrack.StreamWorld.tops (Store.streams s)) in
  (StreamTrack.StreamWriter.mk h (StreamTrack.StreamWriter.info w),
   Store.with_streams (StreamTrack.StreamWorld.with_tops a (Store.streams s)) s).

(** A stream for the whole track. The writer is taken out; it comes back only on
    success. *)
Definition track (header : Data.TrackHeader.t) : M (t * Store.t) ServeError StreamTrack.StreamWriter.t :=
  fun '(self, s) =>
    match writer self with
    | None => (Err ServeErr.Done, (self, s))
    | Some (TrackWriterMode.Track init) =>
        let self := with_writer None self in
        match TrackWrite.stream (Data.TrackHeader.publisher_priority header) init s with
        | (Ok stream, s) =>
            let (clone, s) := clone_stream stream s in
            (Ok stream, (with_writer (Some (TrackWriterMode.Stream clone)) self, s))
        | (Err e, s) => (Err e, (self, s))
        | (Panic, s) => (Panic, (self, s))
        end
    | Some w => (Err ServeErr.Mode, (with_writer None self, TrackWriterMode.drop w s))
    end.

(** A stream for one subgroup. *)
Definition subgroup (header : Data.SubgroupHeader.t) : M (t * Store.t) ServeError SubgroupWriter.t :=
  fun '(self, s) =>
    let create (subgroups : SubgroupsWriter.t) (s : Store.t) :=
      let self := with_writer None self in
      match SubgroupsWriter.create
              (Subgroup.mk (Data.SubgroupHeader.group_id header) (Data.SubgroupHeader.subgroup_id header)
                 (Data.SubgroupHeader.publisher_priority header)) (subgroups, Store.subgroups s) with
      | (Ok writer, (subgroups, w)) =>
          (Ok writer, (with_writer (Some (TrackWriterMode.Subgroups subgroups)) self, Store.with_subgroups w s))
      | (Err e, (subgroups, w)) =>
          (Err e, (self, Store.with_subgroups (SubgroupsWriter.drop subgroups w) s))
      | (Panic, (subgroups, w)) => (Panic, (self, Store.with_subgroups w s))
      end in
    match writer self with
    | None => (Err ServeErr.Done, (self, s))
    | Some (TrackWriterMode.Track init) =>
        match TrackWrite.groups init s with
        | (Ok subgroups, s) => create subgroups s
        | (Err e, s) => (Err e, (with_writer None self, s))
        | (Panic, s) => (Panic, (with_writer None self, s))
        end
    | Some (TrackWriterMode.Subgroups subgroups) => create subgroups s
    | Some w => (Err ServeErr.Mode, (with_writer None self, TrackWriterMode.drop w s))
    end.

(** One datagram. The writer is not put back in any case. *)
Definition datagram (d : Data.Datagram.t) : M (t * Store.t) ServeError unit := fun '(self, s) =>
  let write (datagrams : DatagramsWriter.t) (s : Store.t) :=
    let h := DatagramsWriter.state datagrams in
    let (r, a) := on_cell h (DatagramsWriter.write
      (Datagram.mk (Data.Datagram.group_id d) (Data.Datagram.object_id d)
         (Data.Datagram.publisher_priority d) (Data.Datagram.object_status d) (Data.Datagram.payload d)))
      (Store.datagrams s) in
    (r, (with_writer None self, Store.with_datagrams (snd (drop_handle h a)) s)) in
  match writer self with
  | None => (Err ServeErr.Done, (self, s))
  | Some (TrackWriterMode.Track init) =>
      match TrackWrite.datagrams init s with
      | (Ok datagrams, s) => write datagrams s
      | (Err e, s) => (Err e, (with_writer None self, s))
      | (Panic, s) => (Panic, (with_writer None self, s))
      end
  | Some (TrackWriterMode.Datagrams datagrams) => write datagrams s
  | Some w => (Err ServeErr.Mode, (with_writer None self, TrackWriterMode.drop w s))
  end.
End SubscribeRecv.

(** ** [Subscribe] *)

Module Subscribe.
Record t := mk { state : Handle; id : N; info : SubscribeInfo.t }.

(** The message [new] sends. *)
Definition request (id : N) (track : Track.t) : Subscribes.Subscribe.t :=
  Subscribes.Subscribe.mk id id (Track.namespace track) (Track.name track) (bn 127) GroupOrder.Publisher
    FilterType.LatestGroup
    (Some (SubscribePair.mk (SubscribeLocation.Latest 0) (SubscribeLocation.Absolute 0)))
    (Some (SubscribePair.mk SubscribeLocation.None SubscribeLocation.None)) Params.new.

(** The two ends [new] returns, after the message. *)
Definition new (id : N) (track : TrackWriter.t) (st : Arena SubscribeState.t) :
    (t * SubscribeRecv.t) * Arena SubscribeState.t :=
  let '((send, recv), st) := default_split SubscribeState.default st in
  let info := TrackWriter.info track in
  ((mk send id (SubscribeInfo.mk (Track.namespace info) (Track.name info)),
    SubscribeRecv.mk recv (Some (TrackWriterMode.Track track))), st).

(** One turn of [closed]. *)
Definition closed_turn (self : t) (st : Arena SubscribeState.t) : turn unit :=
  idle (cell_of (state self) st) (Ok tt).
End Subscribe.
