(* ===== verification/SubscriberHalf.v ===== *)
(** * The subscriber half of a session

    [moq-transport/src/session/subscriber.rs] and [announced.rs]: the namespaces
    the peer has announced, the subscriptions of ours, and the messages, streams
    and datagrams that drive them.

    The fields of [Subscriber] are shared by its clones, so the half is one state;
    a method is one step of it, except the loops that receive a stream, see
    [recv_stream]. How many clones of [Subscriber] there are is not counted: the
    two queues are cells somebody else may shut. *)
From Stdlib Require Import NArith Lia Bool.
From stdpp Require Import base list gmap option numbers countable.
From S2P Require Import Prelude Buffers VarInt Utf8 Coding Setup Data Announces Subscribes Messages.
From S2P Require Import Errors Streams Watch Session Serve Subgroup Groups StreamTrack Objects Tracks.
From S2P Require Import Receiving Subscriptions.

#[export] Instance TupleField_countable : Countable TupleField.t.
Proof. refine (inj_countable' TupleField.value TupleField.mk _). by intros []. Defined.

#[export] Instance Tuple_countable : Countable Tuple.t.
Proof. refine (inj_countable' Tuple.fields Tuple.mk _). by intros []. Defined.

(** [""] *)
Definition empty_string : String := mk_String [] eq_refl.

(** ** State *)

Module AnnounceInfo.
Record t := mk { namespace : Tuple.t }.
End AnnounceInfo.

(** [AnnouncedState] has no fields; only its being shut says something. *)
Module Announced.
Record t := mk { state : Handle; info : AnnounceInfo.t; ok : bool; error : option ServeError }.
End Announced.

Module AnnouncedRecv.
Record t := mk { _state : Handle }.
End AnnouncedRecv.

Module SubscriberHalf.
Record t := mk {
  store : Store.t;
  announced : gmap Tuple.t AnnouncedRecv.t;
  announced_states : Arena unit;
  announced_queue : Cell (list Announced.t);
  subscribes : gmap N SubscribeRecv.t;
  subscribe_states : Arena SubscribeState.t;
  subscribe_next : N;
  outgoing : Cell (list Message.t);
}.

Definition new (outgoing : Cell (list Message.t)) : t :=
  mk Store.new ∅ (arena_new tt) (snd Queue.new) ∅ (arena_new SubscribeState.default) 0 outgoing.

Definition with_store (x : Store.t) (s : t) : t :=
  mk x (announced s) (announced_states s) (announced_queue s) (subscribes s) (subscribe_states s)
     (subscribe_next s) (outgoing s).
Definition with_announced (x : gmap Tuple.t AnnouncedRecv.t) (s : t) : t :=
  mk (store s) x (announced_states s) (announced_queue s) (subscribes s) (subscribe_states s)
     (subscribe_next s) (outgoing s).
Definition with_announced_states (x : Arena unit) (s : t) : t :=
  mk (store s) (announced s) x (announced_queue s) (subscribes s) (subscribe_states s)
     (subscribe_next s) (outgoing s).
Definition with_announced_queue (x : Cell (list Announced.t)) (s : t) : t :=
  mk (store s) (announced s) (announced_states s) x (subscribes s) (subscribe_states s)
     (subscribe_next s) (outgoing s).
Definition with_subscribes (x : gmap N SubscribeRecv.t) (s : t) : t :=
  mk (store s) (announced s) (announced_states s) (announced_queue s) x (subscribe_states s)
     (subscribe_next s) (outgoing s).
Definition with_subscribe_states (x : Arena SubscribeState.t) (s : t) : t :=
  mk (store s) (announced s) (announced_states s) (announced_queue s) (subscribes s) x
     (subscribe_next s) (outgoing s).
Definition with_subscribe_next (x : N) (s : t) : t :=
  mk (store s) (announced s) (announced_states s) (announced_queue s) (subscribes s) (subscribe_states s)
     x (outgoing s).
Definition with_outgoing (x : Cell (list Message.t)) (s : t) : t :=
  mk (store s) (announced s) (announced_states s) (announced_queue s) (subscribes s) (subscribe_states s)
     (subscribe_next s) x.

(** ** Sending *)

(** An [AnnouncedRecv] goes out of scope. *)
Definition drop_recv (r : AnnouncedRecv.t) (s : t) : t :=
  with_announced_states (snd (drop_handle (AnnouncedRecv._state r) (announced_states s))) s.

Definition drop_announce (namespace : Tuple.t) (s : t) : t :=
  match announced s !! namespace with
  | Some r => drop_recv r (with_announced (delete namespace (announced s)) s)
  | None => s
  end.

(** A message that ends a namespace takes its entry with it; a message that
    cannot be queued is dropped. *)
Definition send_message (msg : Subscriber.t) (s : t) : t :=
  let s := match msg with
           | Subscriber.AnnounceCancel m => drop_announce (AnnounceCancel.namespace m) s
           | Subscriber.AnnounceError m => drop_announce (AnnounceError.namespace m) s
           | _ => s
           end in
  with_outgoing (snd (Queue.push (Subscriber.into_message msg) (outgoing s))) s.

(** ** [Announced], which the application holds *)

Section Display.
Context (to_string : ServeError -> String).

(** [Announced::new] *)
Definition announce (namespace : Tuple.t) (s : t) : (Announced.t * AnnouncedRecv.t) * t :=
  let '((send, recv), a) := default_split tt (announced_states s) in
  ((Announced.mk send (AnnounceInfo.mk namespace) false None, AnnouncedRecv.mk recv),
   with_announced_states a s).

Definition announced_namespace (self : Announced.t) : Tuple.t := AnnounceInfo.namespace (Announced.info self).

(** [Announced::ok] *)
Definition announced_ok (self : Announced.t) (s : t) : outcome ServeError unit * (Announced.t * t) :=
  if Announced.ok self then (Err ServeErr.Duplicate, (self, s))
  else
    (Ok tt, (Announced.mk (Announced.state self) (Announced.info self) true (Announced.error self),
             send_message (Subscriber.AnnounceOk (AnnounceOk.mk (announced_namespace self))) s)).

(** One turn of [Announced::closed]; it never returns [Ok]. *)
Definition announced_closed_turn (self : Announced.t) (s : t) : turn unit :=
  match modified (cell_of (Announced.state self) (announced_states s)) with
  | Some since => Wait since
  | None => Return (Err ServeErr.Cancel)
  end.

(** [Drop::drop] of [Announced], then its fields. *)
Definition announced_drop (self : Announced.t) (s : t) : t :=
  let err := default ServeErr.Done (Announced.error self) in
  let namespace := announced_namespace self in
  let s := send_message
    (if Announced.ok self then
       Subscriber.AnnounceCancel (AnnounceCancel.mk namespace 0 empty_string)
     else
       Subscriber.AnnounceError (AnnounceError.mk namespace (code err) (to_string err))) s in
  with_announced_states (snd (drop_handle (Announced.state self) (announced_states s))) s.

(** [Announced::close] consumes it. *)
Definition announced_close (err : ServeError) (self : Announced.t) (s : t) : outcome ServeError unit * t :=
  (Ok tt, announced_drop (Announced.mk (Announced.state self) (Announced.info self) (Announced.ok self) (Some err)) s).

(** One turn of [Subscriber::announced]. *)
Definition announced_turn (s : t) : @Queue.turn Announced.t * t :=
  let (r, q) := Queue.pop_turn (announced_queue s) in (r, with_announced_queue q s).

(** ** Messages from the peer *)

(** If the queue were shut, [close] would lock [announced] again under its own
    guard; the standard library says that such a call does not return. *)
Definition recv_announce (msg : Announce.t) (s : t) : outcome SessionError unit * t :=
  let namespace := Announce.namespace msg in
  match announced s !! namespace with
  | Some _ => (Err SessionErr.Duplicate, s)
  | None =>
      let '((announced_, recv), s) := announce namespace s in
      match Queue.push announced_ (announced_queue s) with
      | (Ok _, q) => (Ok tt, with_announced (<[namespace := recv]> (announced s)) (with_announced_queue q s))
      | (_, _) => (Panic, s)
      end
  end.

Definition recv_unannounce (msg : Unannounce.t) (s : t) : outcome SessionError unit * t :=
  (Ok tt, drop_announce (Unannounce.namespace msg) s).

Definition recv_subscribe_ok (msg : SubscribeOk.t) (s : t) : outcome SessionError unit * t :=
  match subscribes s !! SubscribeOk.id msg with
  | Some r =>
      let (res, a) := on_cell (SubscribeRecv.state r) SubscribeRecv.ok (subscribe_states s) in
      (SessionErr.from_serve res, with_subscribe_states a s)
  | None => (Ok tt, s)
  end.

(** Take the subscription out and fail it. *)
Definition end_subscribe (id : N) (err : ServeError) (s : t) : outcome ServeError unit * t :=
  match subscribes s !! id with
  | Some r =>
      let '(res, (a, x)) := SubscribeRecv.error err r (subscribe_states s) (store s) in
      (res, with_subscribe_states a (with_store x (with_subscribes (delete id (subscribes s)) s)))
  | None => (Ok tt, s)
  end.

Definition recv_subscribe_error (msg : SubscribeError.t) (s : t) : outcome SessionError unit * t :=
  let (res, s) := end_subscribe (SubscribeError.id msg) (ServeErr.Closed (SubscribeError.code msg)) s in
  (SessionErr.from_serve res, s).

Definition recv_subscribe_done (msg : SubscribeDone.t) (s : t) : outcome SessionError unit * t :=
  let (res, s) := end_subscribe (SubscribeDone.id msg) (ServeErr.Closed (SubscribeDone.code msg)) s in
  (SessionErr.from_serve res, s).

Definition recv_max_subscribe_id (_msg : MaxSubscribeId.t) (s : t) : outcome SessionError unit * t := (Ok tt, s).
Definition recv_track_status (_msg : TrackStatus.t) (s : t) : outcome SessionError unit * t := (Ok tt, s).

(** Errors of the track cache are logged and do not end the session. *)
Definition contain (res : outcome SessionError unit) : outcome SessionError unit :=
  match res with Err (SessionErr.Serve _) => Ok tt | res => res end.

Definition recv_message (msg : Publisher.t) (s : t) : outcome SessionError unit * t :=
  let (res, s) :=
    match msg with
    | Publisher.Announce msg => recv_announce msg s
    | Publisher.Unannounce msg => recv_unannounce msg s
    | Publisher.SubscribeOk msg => recv_subscribe_ok msg s
    | Publisher.SubscribeError msg => recv_subscribe_error msg s
    | Publisher.SubscribeDone msg => recv_subscribe_done msg s
    | Publisher.MaxSubscribeId msg => recv_max_subscribe_id msg s
    | Publisher.TrackStatus msg => recv_track_status msg s
    | Publisher.FetchOk _ | Publisher.FetchError _ => (Panic, s)
    end in
  (contain res, s).

(** ** Subscribing *)

(** [Subscriber::subscribe] up to its await. The subscription is registered after
    its message was queued; one that had the number before would be dropped. *)
Definition subscribe (track : TrackWriter.t) (s : t) : Subscribe.t * t :=
  let id := subscribe_next s in
  let s := with_subscribe_next ((id + 1) mod 2 ^ 64) s in
  let s := send_message (Subscriber.Subscribe (Subscribe.request id (TrackWriter.info track))) s in
  let '((send, recv), a) := Subscribe.new id track (subscribe_states s) in
  let s := with_subscribe_states a s in
  let old := subscribes s !! id in
  let s := with_subscribes (<[id := recv]> (subscribes s)) s in
  (send,
   match old with
   | Some r =>
       let (a, x) := SubscribeRecv.drop r (subscribe_states s) (store s) in
       with_subscribe_states a (with_store x s)
   | None => s
   end).

(** [Drop::drop] of [Subscribe], then its fields. *)
Definition unsubscribe (self : Subscribe.t) (s : t) : t :=
  let s := send_message (Subscriber.Unsubscribe (Unsubscribe.mk (Subscribe.id self))) s in
  with_subscribe_states (snd (drop_handle (Subscribe.state self) (subscribe_states s))) s.

(** The await of [subscribe]: a turn of [closed]; when it returns, the
    subscription goes. *)
Definition subscribe_turn (self : Subscribe.t) (s : t) : turn unit * t :=
  match Subscribe.closed_turn self (subscribe_states s) with
  | Return r => (Return r, unsubscribe self s)
  | Wait since => (Wait since, s)
  end.

(** ** Streams and datagrams *)

(** What the stream is to be written to. *)
Inductive Writer :=
  | Track (track : StreamTrack.StreamWriter.t)
  | Subgroup (group : SubgroupWriter.t).

(** [recv_stream_inner] under the lock. *)
Definition stream_writer (header : Data.Header.t) (s : t) : outcome ServeError Writer * t :=
  let id := Data.Header.subscribe_id header in
  match subscribes s !! id with
  | None => (Err ServeErr.NotFound, s)
  | Some r =>
      let update (r : SubscribeRecv.t) (x : Store.t) :=
        with_store x (with_subscribes (<[id := r]> (subscribes s)) s) in
      match header with
      | Data.Header.Track h =>
          let '(res, (r, x)) := SubscribeRecv.track h (r, store s) in
          (match res with Ok w => Ok (Track w) | Err e => Err e | Panic => Panic end, update r x)
      | Data.Header.Subgroup h =>
          let '(res, (r, x)) := SubscribeRecv.subgroup h (r, store s) in
          (match res with Ok w => Ok (Subgroup w) | Err e => Err e | Panic => Panic end, update r x)
      end
  end.

Definition recv_stream_inner (reader : Reader.t) (header : Data.Header.t) (s : t) :
    option (outcome SessionError unit * t) :=
  match stream_writer header s with
  | (Ok (Track track), s) =>
      (fun '(res, x) => (res, with_store (Store.with_streams x (store s)) s)) <$>
        recv_track track reader (Store.streams (store s))
  | (Ok (Subgroup group), s) =>
      (fun '(res, x) => (res, with_store (Store.with_subgroups x (store s)) s)) <$>
        recv_subgroup group reader (Store.subgroups (store s))
  | (Err e, s) => Some (Err (SessionErr.Serve e), s)
  | (Panic, s) => Some (Panic, s)
  end.

(** A stream from beginning to end, with nothing else happening meanwhile: the
    loops are those of [Receiving]. Track cache errors end the subscription. *)
Definition recv_stream (stream : recv_stream) (s : t) : option (outcome SessionError unit * t) :=
  match Reader.decode (decode : dec Data.Header.t) (Reader.new stream) with
  | (Ok header, reader) =>
      (fun '(res, s) =>
         match res with
         | Err (SessionErr.Serve err) =>
             match end_subscribe (Data.Header.subscribe_id header) err s with
             | (Ok _, s) => (res, s)
             | (Err e, s) => (Err (SessionErr.Serve e), s)
             | (Panic, s) => (Panic, s)
             end
         | res => (res, s)
         end) <$> recv_stream_inner reader header s
  | (Err e, _) => Some (Err e, s)
  | (Panic, _) => Some (Panic, s)
  end.

(** What follows the datagram in its packet is not looked at. *)
Definition recv_datagram (datagram : list byte) (s : t) : outcome SessionError unit * t :=
  match (decode : dec Data.Datagram.t) datagram with
  | (Ok datagram, _) =>
      let id := Data.Datagram.subscribe_id datagram in
      match subscribes s !! id with
      | Some r =>
          let '(res, (r, x)) := SubscribeRecv.datagram datagram (r, store s) in
          (SessionErr.from_serve res, with_store x (with_subscribes (<[id := r]> (subscribes s)) s))
      | None => (Ok tt, s)
      end
  | (Err e, _) => (Err (SessionErr.Decode e), s)
  | (Panic, _) => (Panic, s)
  end.
End Display.
End SubscriberHalf.

(** ** Namespaces come and go *)

Import SubscriberHalf.

#[local] Arguments drop_announce : simpl never.
#[local] Arguments N.modulo : simpl never.
#[local] Arguments N.pow : simpl never.

(** What an ANNOUNCE for a new namespace does, spelled out. *)
Lemma recv_announce_fresh n params (s : t) :
  announced s !! n = None -> dropped (inner (announced_queue s)) = Some tt ->
  exists s', recv_announce (Announce.mk n params) s = (Ok tt, s') /\
    let h k := {| loc := next_cell (announced_states s); half := k |} in
    announced s' = <[n := AnnouncedRecv.mk (h 1%nat)]> (announced s) /\
    lock (announced_queue s') =
      lock (announced_queue s) ++ [Announced.mk (h 0%nat) (AnnounceInfo.mk n) false None] /\
    dropped (inner (announced_queue s')) = Some tt /\
    next_cell (announced_states s') = S (next_cell (announced_states s)) /\
    drops (cell_of (h 1%nat) (announced_states s')) = {[ 0%nat := 1%nat; 1%nat := 1%nat ]} /\
    dropped (inner (cell_of (h 1%nat) (announced_states s'))) = Some tt /\
    (forall g, (loc g < next_cell (announced_states s))%nat ->
       cell_of g (announced_states s') = cell_of g (announced_states s)).
Proof.
  intros Hn Hq. unfold recv_announce. simpl. rewrite Hn. unfold Queue.push, with_mut. rewrite Hq.
  eexists. split; [reflexivity|]. simpl. unfold cell_of, put. simpl. rewrite decide_True by done.
  do 6 (split; [done|]). intros g Hg. rewrite decide_False by lia. done.
Qed.

(** The peer's half of a namespace goes. *)
Lemma drop_entry n r (s : t) :
  announced s !! n = Some r ->
  drops (cell_of (AnnouncedRecv._state r) (announced_states s)) !! half (AnnouncedRecv._state r) = Some 1%nat ->
  let s' := drop_announce n s in
  announced s' !! n = None /\ announced_queue s' = announced_queue s /\
  next_cell (announced_states s') = next_cell (announced_states s) /\
  dropped (inner (cell_of (AnnouncedRecv._state r) (announced_states s'))) = None /\
  (forall g, loc g <> loc (AnnouncedRecv._state r) ->
     cell_of g (announced_states s') = cell_of g (announced_states s)).
Proof.
  intros Hn Hd. unfold drop_announce. rewrite Hn. unfold drop_recv, drop_handle. simpl.
  rewrite lookup_delete_eq, cell_put_eq. do 3 (split; [done|]). split; [by apply drop_state_last|].
  intros g Hg. by rewrite cell_put_ne.
Qed.

Lemma modified_open {T} (c : Cell T) : dropped (inner c) = Some tt -> modified c = Some (Watch.epoch (inner c)).
Proof. unfold modified. by intros ->. Qed.

(** The life of a namespace of the peer's. A first ANNOUNCE is
    accepted and hands the application one [Announced]; until UNANNOUNCE its
    [closed] waits and a second ANNOUNCE ends the session with [Duplicate] and
    changes nothing; UNANNOUNCE wakes [closed] with [Cancel] and frees the name. *)
Theorem announce_life (to_string : ServeError -> String) (n : Tuple.t) (p p' : Params.t) (s : t) :
  announced s !! n = None -> dropped (inner (announced_queue s)) = Some tt ->
  exists s1 a, recv_announce (Announce.mk n p) s = (Ok tt, s1) /\
    lock (announced_queue s1) = lock (announced_queue s) ++ [a] /\ announced_namespace a = n /\
    (exists since, announced_closed_turn a s1 = Wait since) /\
    recv_announce (Announce.mk n p') s1 = (Err SessionErr.Duplicate, s1) /\
    exists s2, recv_unannounce (Unannounce.mk n) s1 = (Ok tt, s2) /\
      announced_closed_turn a s2 = Return (Err ServeErr.Cancel) /\
      fst (recv_announce (Announce.mk n p') s2) = Ok tt.
Proof.
  intros Hn Hq. destruct (recv_announce_fresh n p s Hn Hq) as (s1 & E & Ha & Hl & Hq1 & Hx & Hd & Hdr & _).
  exists s1. eexists. split; [exact E|]. split; [exact Hl|]. split; [done|].
  assert (Hreg : announced s1 !! n = Some (AnnouncedRecv.mk {| loc := next_cell (announced_states s); half := 1%nat |}))
    by (rewrite Ha; apply lookup_insert_eq).
  split; [|split].
  - unfold announced_closed_turn. simpl. unfold cell_of in *. simpl in *. rewrite modified_open by done. by eexists.
  - unfold recv_announce. simpl. by rewrite Hreg.
  - destruct (drop_entry n _ s1 Hreg) as (Hn2 & Hq2 & _ & Hdr2 & _); [simpl; by rewrite Hd|].
    eexists. split; [reflexivity|]. split.
    + unfold announced_closed_turn, modified. simpl in *. unfold cell_of in *. simpl in *. by rewrite Hdr2.
    + destruct (recv_announce_fresh n p' (drop_announce n s1) Hn2) as (s3 & E3 & _); [by rewrite Hq2|].
      exact (f_equal fst E3).
Qed.

Lemma announce_life_witness :
  let n := Tuple.mk [TupleField.mk [x61]] in
  let s := new (snd Queue.new) in
  exists s1 a, recv_announce (Announce.mk n Params.new) s = (Ok tt, s1) /\ lock (announced_queue s1) = [a] /\
    announced_namespace a = n.
Proof.
  cbv zeta.
  destruct (announce_life (fun _ => empty_string) (Tuple.mk [TupleField.mk [x61]]) Params.new Params.new
    (new (snd Queue.new)) eq_refl eq_refl) as (s1 & a & E & Hl & Hn & _).
  exists s1, a. split; [exact E|]. split; [exact Hl|exact Hn].
Defined.

(** A namespace that goes and comes back while the application
    still holds the first [Announced]: dropping that one, whatever it answered,
    takes the entry of the second, so that the second is told the namespace is
    gone although the peer has not withdrawn it. *)
Theorem announce_again (to_string : ServeError -> String) (n : Tuple.t) (p p' : Params.t) (s : t) :
  announced s !! n = None -> dropped (inner (announced_queue s)) = Some tt ->
  exists s1 first s2 s3 second,
    recv_announce (Announce.mk n p) s = (Ok tt, s1) /\
    lock (announced_queue s1) = lock (announced_queue s) ++ [first] /\
    recv_unannounce (Unannounce.mk n) s1 = (Ok tt, s2) /\
    recv_announce (Announce.mk n p') s2 = (Ok tt, s3) /\
    lock (announced_queue s3) = lock (announced_queue s1) ++ [second] /\
    (exists since, announced_closed_turn second s3 = Wait since) /\
    forall ok error,
      let s4 := announced_drop to_string (Announced.mk (Announced.state first) (Announced.info first) ok error) s3 in
      announced s4 !! n = None /\ announced_closed_turn second s4 = Return (Err ServeErr.Cancel).
Proof.
  intros Hn Hq. destruct (recv_announce_fresh n p s Hn Hq) as (s1 & E1 & Ha1 & Hl1 & Hq1 & Hx1 & Hd1 & _).
  assert (Hreg1 : announced s1 !! n = Some (AnnouncedRecv.mk {| loc := next_cell (announced_states s); half := 1%nat |}))
    by (rewrite Ha1; apply lookup_insert_eq).
  destruct (drop_entry n _ s1 Hreg1) as (Hn2 & Hq2 & Hx2 & _); [simpl; by rewrite Hd1|].
  destruct (recv_announce_fresh n p' (drop_announce n s1) Hn2) as (s3 & E3 & Ha3 & Hl3 & _ & Hx3 & Hd3 & Hdr3 & _);
    [by rewrite Hq2|].
  rewrite Hq2 in Hl3. rewrite Hx2, Hx1 in *.
  eexists s1, _, (drop_announce n s1), s3, _. split; [exact E1|]. split; [exact Hl1|]. split; [done|].
  split; [exact E3|]. split; [exact Hl3|]. split.
  - unfold announced_closed_turn. simpl. unfold cell_of in *. simpl in *. rewrite modified_open by done. by eexists.
  - intros ok error. cbv zeta.
    assert (Hreg3 : announced s3 !! n = Some (AnnouncedRecv.mk {| loc := S (next_cell (announced_states s)); half := 1%nat |}))
      by (rewrite Ha3; apply lookup_insert_eq).
    destruct (drop_entry n _ s3 Hreg3) as (Hn4 & _ & _ & Hdr4 & _); [simpl; by rewrite Hd3|].
    unfold announced_drop, announced_namespace, announced_closed_turn, modified. destruct ok; simpl; (split; [exact Hn4|]).
    all: unfold cell_of, put in *; simpl in *; rewrite decide_False by lia; by rewrite Hdr4.
Qed.

Lemma announce_again_witness :
  let n := Tuple.mk [TupleField.mk [x61]] in
  exists s3 first second s4,
    announced_drop (fun _ => empty_string) first s3 = s4 /\ announced s4 !! n = None /\
    announced_closed_turn second s4 = Return (Err ServeErr.Cancel).
Proof.
  cbv zeta.
  destruct (announce_again (fun _ => empty_string) (Tuple.mk [TupleField.mk [x61]]) Params.new Params.new
    (new (snd Queue.new)) eq_refl eq_refl) as (s1 & first & s2 & s3 & second & _ & _ & _ & _ & _ & _ & H).
  eexists s3, _, second, _. split; [reflexivity|]. exact (H true None).
Defined.

(** ** The table of subscriptions *)

(** What happens to the half, one method at a time. The application drops or
    awaits a [Subscribe] it was given, which is the first half of its state. *)
Inductive step (to_string : ServeError -> String) : t -> t -> Prop :=
  | do_message s msg : step to_string s (snd (recv_message msg s))
  | do_announced s : step to_string s (snd (announced_turn s))
  | do_announced_ok s a : step to_string s (snd (snd (announced_ok a s)))
  | do_announced_drop s a : step to_string s (announced_drop to_string a s)
  | do_subscribe s track : subscribe_next s + 1 < 2 ^ 64 -> step to_string s (snd (subscribe track s))
  | do_subscribe_turn s self :
      half (Subscribe.state self) = 0%nat -> step to_string s (snd (subscribe_turn self s))
  | do_unsubscribe s self : half (Subscribe.state self) = 0%nat -> step to_string s (unsubscribe self s)
  | do_stream s stream o s' : recv_stream stream s = Some (o, s') -> step to_string s s'
  | do_datagram s datagram : step to_string s (snd (recv_datagram datagram s))
  | do_outgoing s q : step to_string s (with_outgoing q s)
  | do_store s x : step to_string s (with_store x s).

(** An entry of the table: its state is open and its half of it is its own. *)
Definition open_entry (st : Arena SubscribeState.t) (r : SubscribeRecv.t) : Prop :=
  let h := SubscribeRecv.state r in
  half h = 1%nat /\ (loc h < next_cell st)%nat /\ closed (lock (cell_of h st)) = None /\
  drops (cell_of h st) !! 1%nat = Some 1%nat.

Record table (subs : gmap N SubscribeRecv.t) (st : Arena SubscribeState.t) (next : N) : Prop := {
  table_next : forall id r, subs !! id = Some r -> id < next;
  table_open : forall id r, subs !! id = Some r -> open_entry st r;
  table_own : forall id id' r r', subs !! id = Some r -> subs !! id' = Some r' ->
    loc (SubscribeRecv.state r) = loc (SubscribeRecv.state r') -> id = id';
}.

Definition tabled (s : t) : Prop := table (subscribes s) (subscribe_states s) (subscribe_next s).

Section Table.
Context (subs : gmap N SubscribeRecv.t) (st : Arena SubscribeState.t) (next : N) (Ht : table subs st next).

(** Changing one cell without closing it or dropping the session's half. *)
Lemma table_cell h c :
  closed (lock c) = closed (lock (cell_of h st)) -> drops c !! 1%nat = drops (cell_of h st) !! 1%nat ->
  table subs (put (loc h) c st) next.
Proof.
  intros Hc Hd. destruct Ht as [Hn Ho Hw]. split; [done| |done]. intros id r Hr.
  destruct (Ho id r Hr) as (Hh & Hl & Hcl & Hdr).
  unfold open_entry. destruct (decide (loc (SubscribeRecv.state r) = loc h)) as [E|E].
  - unfold cell_of in *. rewrite E in *. unfold put. cbn [cells next_cell]. rewrite decide_True by done.
    rewrite Hc, Hd. done.
  - by rewrite cell_put_ne.
Qed.

(** Replacing an entry by one with the same state. *)
Lemma table_same id r w :
  subs !! id = Some r -> table (<[id := SubscribeRecv.with_writer w r]> subs) st next.
Proof.
  intros Hr. destruct Ht as [Hn Ho Hw].
  assert (Hs : forall k x, <[id := SubscribeRecv.with_writer w r]> subs !! k = Some x ->
    exists y, subs !! k = Some y /\ SubscribeRecv.state y = SubscribeRecv.state x).
  { intros k x Hk. apply lookup_insert_Some in Hk as [[<- <-]|[_ Hk]]; eauto. }
  split.
  - intros k x Hk. destruct (Hs k x Hk) as (y & Hy & _). by eapply Hn.
  - intros k x Hk. destruct (Hs k x Hk) as (y & Hy & E). unfold open_entry. rewrite <- E. by eapply Ho.
  - intros k k' x x' Hk Hk' E. destruct (Hs k x Hk) as (y & Hy & Ey). destruct (Hs k' x' Hk') as (y' & Hy' & Ey').
    eapply Hw; [exact Hy|exact Hy'|]. by rewrite Ey, Ey'.
Qed.

(** Taking an entry out: its state is nobody else's. *)
Lemma table_delete id r :
  subs !! id = Some r ->
  table (delete id subs) st next /\
  forall k x, delete id subs !! k = Some x -> loc (SubscribeRecv.state x) <> loc (SubscribeRecv.state r).
Proof.
  intros Hr. destruct Ht as [Hn Ho Hw]. split; [split|].
  - intros k x Hk. apply lookup_delete_Some in Hk as [_ Hk]. by eapply Hn.
  - intros k x Hk. apply lookup_delete_Some in Hk as [_ Hk]. by eapply Ho.
  - intros k k' x x' Hk Hk'. apply lookup_delete_Some in Hk as [_ Hk].
    apply lookup_delete_Some in Hk' as [_ Hk']. by eapply Hw.
  - intros k x Hk E. apply lookup_delete_Some in Hk as [Hne Hk]. apply Hne. by eapply Hw.
Qed.

(** A state outside the table can become anything. *)
Lemma table_gone l c :
  (forall k x, subs !! k = Some x -> loc (SubscribeRecv.state x) <> l) -> table subs (put l c st) next.
Proof.
  intros Hl. destruct Ht as [Hn Ho Hw]. split; [done| |done]. intros k x Hk.
  destruct (Ho k x Hk) as (? & ? & ? & ?). unfold open_entry. rewrite cell_put_ne; [done|by eapply Hl].
Qed.

(** A new subscription. *)
Lemma table_new track :
  let '((_, recv), st') := Subscribe.new next track st in table (<[next := recv]> subs) st' (next + 1).
Proof.
  destruct Ht as [Hn Ho Hw]. unfold Subscribe.new. cbn [default_split state_new split].
  assert (Hfresh : forall k x, subs !! k = Some x -> loc (SubscribeRecv.state x) <> next_cell st).
  { intros k x Hk. destruct (Ho k x Hk) as (_ & ? & _). lia. }
  split.
  - intros k x Hk. apply lookup_insert_Some in Hk as [[<- _]|[_ Hk]]; [lia|]. specialize (Hn k x Hk). lia.
  - intros k x Hk. unfold open_entry, cell_of, put. simpl. apply lookup_insert_Some in Hk as [[<- <-]|[_ Hk]].
    + simpl. rewrite decide_True by done. simpl. split; [done|]. split; [lia|done].
    + destruct (Ho k x Hk) as (? & ? & ? & ?). rewrite decide_False by (by eapply Hfresh).
      split; [done|]. split; [lia|done].
  - intros k k' x x' Hk Hk' E. apply lookup_insert_Some in Hk as [[<- <-]|[_ Hk]];
      apply lookup_insert_Some in Hk' as [[<- <-]|[_ Hk']]; simpl in *; [done| | |by eapply Hw].
    + by destruct (Hfresh k' x' Hk').
    + by destruct (Hfresh k x Hk).
Qed.

(** The number is new, so nothing is displaced. *)
Lemma table_fresh : subs !! next = None.
Proof.
  destruct (subs !! next) as [r|] eqn:E; [|done]. pose proof (table_next _ _ _ Ht next r E). lia.
Qed.
End Table.

(** *** Every method keeps the table *)

Definition table_of (s : t) : gmap N SubscribeRecv.t * Arena SubscribeState.t * N :=
  (subscribes s, subscribe_states s, subscribe_next s).

Lemma tabled_same s s' : table_of s' = table_of s -> tabled s -> tabled s'.
Proof. unfold table_of, tabled. intros E H. by simplify_eq; rewrite H0, H1, H2. Qed.

Lemma drop_announce_same n s : table_of (drop_announce n s) = table_of s.
Proof. unfold drop_announce. by destruct (announced s !! n). Qed.

Lemma send_message_same msg s : table_of (send_message msg s) = table_of s.
Proof. unfold send_message. destruct msg; try done; apply drop_announce_same. Qed.

Lemma recv_announce_same msg s : table_of (snd (recv_announce msg s)) = table_of s.
Proof.
  unfold recv_announce. destruct (announced s !! _); [done|]. simpl. by destruct (Queue.push _ _) as [[u|e|] q].
Qed.

(** What the methods of [SubscribeRecv] return has the state they were called with. *)
Lemma subscribe_recv_state (r : SubscribeRecv.t) (x : Store.t) :
  (forall h, exists w, fst (snd (SubscribeRecv.track h (r, x))) = SubscribeRecv.with_writer w r) /\
  (forall h, exists w, fst (snd (SubscribeRecv.subgroup h (r, x))) = SubscribeRecv.with_writer w r) /\
  (forall d, exists w, fst (snd (SubscribeRecv.datagram d (r, x))) = SubscribeRecv.with_writer w r).
Proof.
  assert (Hid : SubscribeRecv.with_writer (SubscribeRecv.writer r) r = r) by by destruct r.
  split; [|split]; intros h.
  - unfold SubscribeRecv.track. destruct (SubscribeRecv.writer r) as [[]|]; try by eexists.
    destruct (TrackWrite.stream _ _ _) as [[st|e|] x1]; [|by eexists..].
    destruct (SubscribeRecv.clone_stream st x1). by eexists.
  - unfold SubscribeRecv.subgroup. destruct (SubscribeRecv.writer r) as [[]|]; try by eexists.
    + destruct (TrackWrite.groups _ _) as [[g|e|] x1]; [|by eexists..].
      destruct (SubgroupsWriter.create _ _) as [[wr|e|] [g1 w1]]; by eexists.
    + destruct (SubgroupsWriter.create _ _) as [[wr|e|] [g1 w1]]; by eexists.
  - unfold SubscribeRecv.datagram. destruct (SubscribeRecv.writer r) as [[]|]; try by eexists.
    + destruct (TrackWrite.datagrams _ _) as [[g|e|] x1]; [|by eexists..].
      destruct (on_cell _ _ _). by eexists.
    + destruct (on_cell _ _ _). by eexists.
Qed.

Lemma ok_keeps_table s id r :
  tabled s -> subscribes s !! id = Some r ->
  table (subscribes s)
    (snd (on_cell (SubscribeRecv.state r) SubscribeRecv.ok (subscribe_states s))) (subscribe_next s).
Proof.
  intros Ht Hr. unfold on_cell. destruct (SubscribeRecv.ok _) as [o c] eqn:E. simpl.
  replace c with (snd (SubscribeRecv.ok (cell_of (SubscribeRecv.state r) (subscribe_states s)))) by (by rewrite E).
  apply table_cell; [done|..]; unfold SubscribeRecv.ok, with_mut; destruct (SubscribeState.ok _); try done;
    by destruct (dropped _).
Qed.

Lemma end_subscribe_keeps id err s : tabled s -> tabled (snd (end_subscribe id err s)).
Proof.
  intros Ht. unfold end_subscribe. destruct (subscribes s !! id) as [r|] eqn:Hr; [|done].
  destruct (table_delete _ _ _ Ht id r Hr) as [Ht' Hl].
  unfold SubscribeRecv.error. destruct (match SubscribeRecv.writer r with Some w => _ | None => _ end) as [[u|e|] x].
  all: unfold on_cell, drop_handle; try destruct (close_cell _ _) as [o c]; unfold tabled; simpl.
  all: apply table_gone; [|exact Hl]. 1: apply table_gone; [|exact Hl].
  all: exact Ht'.
Qed.

Lemma unsubscribe_keeps self s :
  half (Subscribe.state self) = 0%nat -> tabled s -> tabled (unsubscribe self s).
Proof.
  intros Hh Ht. unfold unsubscribe.
  set (s1 := send_message _ s). assert (H1 : tabled s1) by (exact (tabled_same s _ (send_message_same _ s) Ht)).
  unfold tabled, drop_handle. simpl. apply table_cell; [exact H1|by rewrite drop_state_lock|].
  rewrite Hh. by apply drop_state_other.
Qed.

Lemma stream_writer_keeps header s : tabled s -> tabled (snd (stream_writer header s)).
Proof.
  intros Ht. unfold stream_writer. destruct (subscribes s !! _) as [r|] eqn:Hr; [|done].
  destruct (subscribe_recv_state r (store s)) as (H1 & H2 & _). destruct header as [h|h].
  - destruct (H1 h) as [w E]. destruct (SubscribeRecv.track h _) as [o [r1 x]]. simpl in *. subst r1.
    by apply table_same.
  - destruct (H2 h) as [w E]. destruct (SubscribeRecv.subgroup h _) as [o [r1 x]]. simpl in *. subst r1.
    by apply table_same.
Qed.

Lemma recv_stream_keeps stream s o s' : recv_stream stream s = Some (o, s') -> tabled s -> tabled s'.
Proof.
  unfold recv_stream. destruct (Reader.decode _ _) as [[header|e|] reader]; try (intros; by simplify_eq).
  unfold recv_stream_inner. pose proof (stream_writer_keeps header s) as Hk. intros E Ht. specialize (Hk Ht).
  destruct (stream_writer header s) as [[[track|group]|e|] s1]; simpl in *.
  - destruct (recv_track _ _ _) as [[r x]|]; [|done]. simpl in E.
    assert (H1 : tabled (with_store (Store.with_streams x (store s1)) s1)) by done.
    destruct r as [u|[]|]; simplify_eq/=; try done.
    pose proof (end_subscribe_keeps (Data.Header.subscribe_id header) e _ H1) as H2.
    destruct (end_subscribe _ _ _) as [[] s2]; by simplify_eq.
  - destruct (recv_subgroup _ _ _) as [[r x]|]; [|done]. simpl in E.
    assert (H1 : tabled (with_store (Store.with_subgroups x (store s1)) s1)) by done.
    destruct r as [u|[]|]; simplify_eq/=; try done.
    pose proof (end_subscribe_keeps (Data.Header.subscribe_id header) e _ H1) as H2.
    destruct (end_subscribe _ _ _) as [[] s2]; by simplify_eq.
  - pose proof (end_subscribe_keeps (Data.Header.subscribe_id header) e _ Hk) as H2.
    destruct (end_subscribe _ _ _) as [[] s2]; by simplify_eq.
  - by simplify_eq.
Qed.

Lemma tabled_step to_string s s' : tabled s -> step to_string s s' -> tabled s'.
Proof.
  intros Ht. destruct 1 as [s msg|s|s a|s a|s track Hx|s self Hh|s self Hh|s stream o s' E|s datagram|s q|s x];
    try done.
  - unfold recv_message. destruct msg; try done; simpl.
    + pose proof (tabled_same s _ (recv_announce_same m s) Ht). by destruct (recv_announce m s).
    + exact (tabled_same s _ (drop_announce_same _ s) Ht).
    + unfold recv_subscribe_ok. destruct (subscribes s !! _) as [r|] eqn:Hr; [|done].
      pose proof (ok_keeps_table s _ r Ht Hr). by destruct (on_cell _ _ _).
    + unfold recv_subscribe_error.
      pose proof (end_subscribe_keeps (SubscribeError.id m) (ServeErr.Closed (SubscribeError.code m)) s Ht).
      by destruct (end_subscribe _ _ _).
    + unfold recv_subscribe_done.
      pose proof (end_subscribe_keeps (SubscribeDone.id m) (ServeErr.Closed (SubscribeDone.code m)) s Ht).
      by destruct (end_subscribe _ _ _).
  - unfold announced_turn. by destruct (Queue.pop_turn _).
  - unfold announced_ok. destruct (Announced.ok a); [done|].
    exact (tabled_same s _ (send_message_same _ s) Ht).
  - unfold announced_drop. set (s1 := send_message _ s).
    assert (H1 : tabled s1) by (exact (tabled_same s _ (send_message_same _ s) Ht)). exact H1.
  - unfold subscribe. cbv zeta. set (s1 := send_message _ _).
    assert (H1 : table_of s1 = (subscribes s, subscribe_states s, subscribe_next s + 1))
      by (unfold s1; rewrite send_message_same; unfold table_of; simpl; by rewrite N.mod_small).
    clearbody s1. unfold table_of in H1. injection H1 as Hsub Hst Hnx.
    pose proof (table_new _ _ _ Ht track) as Hnew. pose proof (table_fresh _ _ _ Ht) as Hf.
    rewrite Hst. destruct (Subscribe.new _ _ _) as [[send recv] a]. simpl. rewrite Hsub, Hf.
    unfold tabled. simpl. by rewrite Hnx.
  - unfold subscribe_turn. destruct (Subscribe.closed_turn _ _); [by apply unsubscribe_keeps|done].
  - by apply unsubscribe_keeps.
  - by eapply recv_stream_keeps.
  - unfold recv_datagram. destruct (decode datagram) as [[d|e|] rest]; [|done|done].
    destruct (subscribes s !! _) as [r|] eqn:Hr; [|done].
    destruct (subscribe_recv_state r (store s)) as (_ & _ & H3). destruct (H3 d) as [w E].
    destruct (SubscribeRecv.datagram d _) as [o [r1 x]]. simpl in *. subst r1. by apply table_same.
Qed.

Lemma close_cell_no_panic {T} `{Closable T} err (c : Cell T) : fst (close_cell err c) <> Panic.
Proof. rewrite close_cell_spec. by destruct (closed (lock c)), (dropped (inner c)). Qed.

Lemma mode_close_no_panic err w x : fst (TrackWriterMode.close err w x) <> Panic.
Proof.
  destruct w; simpl; unfold TrackWrite.close, StreamTrack.StreamWriter.close, SubgroupsWriter.close,
    ObjectsWriter.close, DatagramsWriter.close, on_cell;
    match goal with |- context [close_cell ?e ?c] => pose proof (close_cell_no_panic e c) as Hp;
      destruct (close_cell e c) as [[]]; simpl in *; by try apply Hp end.
Qed.

(** What the application sees when the session fails a subscription. *)
Lemma ended_seen id err s r self :
  tabled s -> subscribes s !! id = Some r ->
  Subscribe.state self = {| loc := loc (SubscribeRecv.state r); half := 0%nat |} ->
  dropped (inner (cell_of (SubscribeRecv.state r) (subscribe_states s))) = Some tt ->
  let (res, s') := end_subscribe id err s in
  subscribes s' = delete id (subscribes s) /\
  match res with
  | Ok _ => Subscribe.closed_turn self (subscribe_states s') = Return (Err err)
  | Err e =>
      (exists w x, SubscribeRecv.writer r = Some w /\ TrackWriterMode.close err w (store s) = (Err e, x)) /\
      Subscribe.closed_turn self (subscribe_states s') = Return (Ok tt)
  | Panic => False
  end.
Proof.
  intros Ht Hr Hself Hdr. destruct (table_open _ _ _ Ht id r Hr) as (Hh & Hl & Hcl & Hd).
  unfold end_subscribe. rewrite Hr. unfold SubscribeRecv.error.
  assert (Hcell : forall a : Arena SubscribeState.t,
    cell_of (Subscribe.state self) a = cell_of (SubscribeRecv.state r) a) by (intros a; by rewrite Hself).
  destruct (match SubscribeRecv.writer r with Some w => _ | None => _ end) as [res x] eqn:Ew.
  destruct res as [u|e|].
  - unfold on_cell. rewrite close_cell_spec, Hcl, Hdr. unfold drop_handle. simpl. split; [done|].
    unfold Subscribe.closed_turn. rewrite Hcell, !cell_put_eq, Hh. unfold idle. rewrite drop_state_lock. done.
  - unfold drop_handle. simpl. split; [done|]. split.
    + destruct (SubscribeRecv.writer r) as [w|]; [|done]. eauto.
    + unfold Subscribe.closed_turn. rewrite Hcell, cell_put_eq, Hh. unfold idle, modified.
      rewrite drop_state_lock, Hcl, drop_state_last by done. done.
  - destruct (SubscribeRecv.writer r) as [w|]; [|done].
    by pose proof (mode_close_no_panic err w (store s)) as Hp; rewrite Ew in Hp.
Qed.

Lemma tabled_new outgoing : tabled (new outgoing).
Proof. by split; [intros id r H|intros id r H|intros id id' r r' H]; simpl in H; apply lookup_empty_Some in H. Qed.

Lemma tabled_run to_string s s' : rtc (step to_string) s s' -> tabled s -> tabled s'.
Proof. induction 1 as [|s1 s2 s3 H _ IH]; [done|]. intros Ht. apply IH. by eapply tabled_step. Qed.

(** ** Properties *)

(** C9 (invariant). The table of subscriptions, in any run of the half: numbers
    are given out in increasing order, so a new subscription never displaces one;
    every entry is still open and its state belongs to it alone. *)
Theorem subscriptions_table (to_string : ServeError -> String) (q : Cell (list Message.t)) (s : t) :
  rtc (step to_string) (new q) s ->
  subscribes s !! subscribe_next s = None /\
  (forall id r, subscribes s !! id = Some r ->
     id < subscribe_next s /\
     closed (lock (cell_of (SubscribeRecv.state r) (subscribe_states s))) = None) /\
  (forall id id' r r', subscribes s !! id = Some r -> subscribes s !! id' = Some r' ->
     loc (SubscribeRecv.state r) = loc (SubscribeRecv.state r') -> id = id').
Proof.
  intros Hrun. pose proof (tabled_run _ _ _ Hrun (tabled_new q)) as Ht.
  split; [exact (table_fresh _ _ _ Ht)|]. split; [|apply Ht]. intros id r Hr.
  split; [by eapply Ht|]. by apply (table_open _ _ _ Ht id r Hr).
Qed.

(** How a subscription ends when the peer says so, with
    SUBSCRIBE_ERROR or SUBSCRIBE_DONE: the entry goes, an unknown number is
    ignored, and the application's [closed] returns the code of the message; but
    when the track's writer could not be closed, because nobody reads the track
    or it was closed before, it returns success instead. *)
Theorem subscription_ended (to_string : ServeError -> String) (q : Cell (list Message.t)) (s : t)
    (self : Subscribe.t) (r : SubscribeRecv.t) (msg : Publisher.t) (id c : N) :
  rtc (step to_string) (new q) s ->
  (exists reason, msg = Publisher.SubscribeError reason /\ SubscribeError.id reason = id /\ SubscribeError.code reason = c) \/
  (exists reason, msg = Publisher.SubscribeDone reason /\ SubscribeDone.id reason = id /\ SubscribeDone.code reason = c) ->
  subscribes s !! id = Some r ->
  Subscribe.state self = {| loc := loc (SubscribeRecv.state r); half := 0%nat |} ->
  dropped (inner (cell_of (SubscribeRecv.state r) (subscribe_states s))) = Some tt ->
  exists s', recv_message msg s = (Ok tt, s') /\ subscribes s' = delete id (subscribes s) /\
    recv_message msg s' = (Ok tt, s') /\
    Subscribe.closed_turn self (subscribe_states s') =
      match SubscribeRecv.writer r with
      | Some w => match fst (TrackWriterMode.close (ServeErr.Closed c) w (store s)) with
                  | Ok _ => Return (Err (ServeErr.Closed c))
                  | _ => Return (Ok tt)
                  end
      | None => Return (Err (ServeErr.Closed c))
      end.
Proof.
  intros Hrun Hmsg Hr Hself Hdr. pose proof (tabled_run _ _ _ Hrun (tabled_new q)) as Ht.
  pose proof (ended_seen id (ServeErr.Closed c) s r self Ht Hr Hself Hdr) as H.
  destruct (end_subscribe id (ServeErr.Closed c) s) as [res s'] eqn:E. destruct H as [Hd H].
  assert (Hrecv : forall x, recv_message msg x =
    (contain (SessionErr.from_serve (fst (end_subscribe id (ServeErr.Closed c) x))),
     snd (end_subscribe id (ServeErr.Closed c) x))).
  { intros x. destruct Hmsg as [(m & -> & <- & <-)|(m & -> & <- & <-)];
      unfold recv_message, recv_subscribe_error, recv_subscribe_done; by destruct (end_subscribe _ _ x). }
  assert (Hgone : end_subscribe id (ServeErr.Closed c) s' = (Ok tt, s'))
    by (unfold end_subscribe; by rewrite Hd, lookup_delete_eq).
  exists s'. rewrite !Hrecv, E, Hgone. simpl. split; [|split; [exact Hd|split; [done|]]].
  - destruct res as [[]|e|]; [done|done|by destruct H].
  - destruct res as [u|e|]; [| |by destruct H].
    + rewrite H. unfold end_subscribe in E. rewrite Hr in E. unfold SubscribeRecv.error in E.
      destruct (SubscribeRecv.writer r) as [w|]; [|done].
      destruct (TrackWriterMode.close _ w (store s)) as [[u'|e|] x]; simpl in *; [done|congruence|congruence].
    + destruct H as [(w & x & Hw & Ew) ->]. by rewrite Hw, Ew.
Qed.

(** What a message does to the session: errors of the track cache
    never end it, a namespace announced twice does, the responses to FETCH are a
    panic, and everything else is taken. *)
Theorem recv_message_outcomes (msg : Publisher.t) (s : t) :
  dropped (inner (announced_queue s)) = Some tt ->
  fst (recv_message msg s) =
    match msg with
    | Publisher.Announce m =>
        match announced s !! Announce.namespace m with
        | Some _ => Err SessionErr.Duplicate
        | None => Ok tt
        end
    | Publisher.FetchOk _ | Publisher.FetchError _ => Panic
    | _ => Ok tt
    end.
Proof.
  intros Hq.
  assert (Hend : forall id err, contain (SessionErr.from_serve (fst (end_subscribe id err s))) = Ok tt).
  { intros id err. unfold end_subscribe. destruct (subscribes s !! id) as [r|]; [|done].
    assert (Hp : fst (SubscribeRecv.error err r (subscribe_states s) (store s)) <> Panic).
    { unfold SubscribeRecv.error. destruct (SubscribeRecv.writer r) as [w|].
      - pose proof (mode_close_no_panic err w (store s)) as Hp.
        destruct (TrackWriterMode.close _ _ _) as [[u|e|] x]; [|done|done].
        unfold on_cell. pose proof (close_cell_no_panic err (cell_of (SubscribeRecv.state r) (subscribe_states s))).
        by destruct (close_cell _ _) as [[]].
      - unfold on_cell. pose proof (close_cell_no_panic err (cell_of (SubscribeRecv.state r) (subscribe_states s))).
        by destruct (close_cell _ _) as [[]]. }
    destruct (SubscribeRecv.error _ _ _ _) as [[[]|e|] [a x]]; done. }
  unfold recv_message. destruct msg as [m|m|m|m|m|m|m|m|m]; try done.
  - destruct m as [n p]. simpl. destruct (announced s !! n) as [r|] eqn:Hn.
    + unfold recv_announce. simpl. by rewrite Hn.
    + destruct (recv_announce_fresh n p s Hn Hq) as (s' & -> & _). done.
  - unfold recv_subscribe_ok. destruct (subscribes s !! _) as [r|]; [|done].
    unfold on_cell, SubscribeRecv.ok. by destruct (SubscribeState.ok _).
  - unfold recv_subscribe_error. specialize (Hend (SubscribeError.id m) (ServeErr.Closed (SubscribeError.code m))).
    by destruct (end_subscribe _ _ _).
  - unfold recv_subscribe_done. specialize (Hend (SubscribeDone.id m) (ServeErr.Closed (SubscribeDone.code m))).
    by destruct (end_subscribe _ _ _).
Qed.

Lemma recv_message_outcomes_witness :
  let s := new (snd Queue.new) in
  fst (recv_message (Publisher.Unannounce (Unannounce.mk Tuple.new)) s) = Ok tt.
Proof.
  cbv zeta. exact (recv_message_outcomes (Publisher.Unannounce (Unannounce.mk Tuple.new)) (new (snd Queue.new)) eq_refl).
Defined.

(** A subscription takes one datagram: the writer is not put back
    after it, so the next datagram with its number fails with [Done], and with
    it the loop that receives datagrams, and the session. *)
Theorem datagram_once (s : t) (r : SubscribeRecv.t) (b1 b2 rest1 rest2 : list byte) (d1 d2 : Data.Datagram.t) :
  decode b1 = (Ok d1, rest1) -> decode b2 = (Ok d2, rest2) ->
  Data.Datagram.subscribe_id d2 = Data.Datagram.subscribe_id d1 ->
  subscribes s !! Data.Datagram.subscribe_id d1 = Some r ->
  let '(res1, s1) := recv_datagram b1 s in
  recv_datagram b2 s1 = (Err (SessionErr.Serve ServeErr.Done), s1) /\
  (res1 = Ok tt ->
   Session.run_datagrams true [Session.Datagram res1; Session.Datagram (fst (recv_datagram b2 s1))] =
     Some (Err (SessionErr.Serve ServeErr.Done))).
Proof.
  intros H1 H2 Hid Hr. unfold recv_datagram at 1. rewrite H1, Hr.
  assert (Hw : exists res x, SubscribeRecv.datagram d1 (r, store s) = (res, (SubscribeRecv.with_writer None r, x))).
  { unfold SubscribeRecv.datagram. destruct r as [st [[tw| | | |dw]|]]; simpl; try by eexists _, _.
    - destruct (TrackWrite.datagrams _ _) as [[dw|e|] x]; [|by eexists _, _..].
      destruct (on_cell _ _ _). by eexists _, _.
    - destruct (on_cell _ _ _). by eexists _, _. }
  destruct Hw as (res & x & ->).
  set (s1 := with_store x _).
  assert (E : recv_datagram b2 s1 = (Err (SessionErr.Serve ServeErr.Done), s1)).
  { unfold recv_datagram. rewrite H2, Hid. unfold s1 at 1. simpl. rewrite lookup_insert_eq. simpl.
    f_equal. unfold s1, with_store, with_subscribes. simpl. by rewrite insert_insert_eq. }
  split; [exact E|]. intros Ho. rewrite E. by rewrite Ho.
Qed.

(** ** An example: one subscription *)

Definition demo_track : Track.t := Track.new (Tuple.mk []) empty_string.

Definition demo_subscribed : (TrackReader.t * Subscribe.t) * t :=
  let '((tw, tr), x) := TrackWrite.produce demo_track Store.new in
  let '(sub, s) := subscribe tw (with_store x (new (snd Queue.new))) in ((tr, sub), s).

Definition demo_half : t := snd demo_subscribed.

Lemma demo_half_run to_string : rtc (step to_string) (new (snd Queue.new)) demo_half.
Proof.
  unfold demo_half, demo_subscribed. destruct (TrackWrite.produce demo_track Store.new) as [[tw tr] x].
  pose proof (do_subscribe to_string (with_store x (new (snd Queue.new))) tw eq_refl) as H.
  destruct (subscribe tw (with_store x (new (snd Queue.new)))) as [sub s].
  eapply rtc_l; [apply (do_store to_string _ x)|]. apply rtc_once. exact H.
Qed.

Lemma subscriptions_table_witness : subscribe_next demo_half = 1 /\ subscribes demo_half !! 1 = None.
Proof.
  split; [vm_compute; reflexivity|].
  exact (proj1 (subscriptions_table (fun _ => empty_string) (snd Queue.new) demo_half (demo_half_run _))).
Defined.

Lemma subscription_ended_witness :
  exists s', recv_message (Publisher.SubscribeError (SubscribeError.mk 0 404 empty_string 0)) demo_half = (Ok tt, s') /\
    Subscribe.closed_turn (snd (fst demo_subscribed)) (subscribe_states s') = Return (Err (ServeErr.Closed 404)).
Proof.
  assert (Hr : exists r, subscribes demo_half !! 0 = Some r /\
    Subscribe.state (snd (fst demo_subscribed)) = {| loc := loc (SubscribeRecv.state r); half := 0%nat |} /\
    dropped (inner (cell_of (SubscribeRecv.state r) (subscribe_states demo_half))) = Some tt /\
    match SubscribeRecv.writer r with
    | Some w => match fst (TrackWriterMode.close (ServeErr.Closed 404) w (store demo_half)) with
                | Ok _ => true | _ => false end
    | None => true
    end = true).
  { eexists. split; [reflexivity|]. split; [reflexivity|]. split; [reflexivity|]. vm_compute. reflexivity. }
  destruct Hr as (r & Hr & Hs & Hd & Hw).
  destruct (subscription_ended (fun _ => empty_string) (snd Queue.new) demo_half (snd (fst demo_subscribed)) r
    (Publisher.SubscribeError (SubscribeError.mk 0 404 empty_string 0)) 0 404 (demo_half_run _)
    (or_introl (ex_intro _ _ (conj eq_refl (conj eq_refl eq_refl)))) Hr Hs Hd) as (s' & E & _ & _ & Hc).
  exists s'. split; [exact E|]. rewrite Hc. destruct (SubscribeRecv.writer r) as [w|]; [|reflexivity].
  destruct (fst (TrackWriterMode.close _ w _)); [reflexivity|discriminate Hw|discriminate Hw].
Defined.

Lemma datagram_once_witness :
  let datagram := [x00; x00; x04; x00; x05; x00; x01; x61] in
  let (res, s1) := recv_datagram datagram demo_half in
  res = Ok tt /\ recv_datagram datagram s1 = (Err (SessionErr.Serve ServeErr.Done), s1).
Proof.
  cbv zeta.
  assert (E : fst (recv_datagram [x00; x00; x04; x00; x05; x00; x01; x61] demo_half) = Ok tt)
    by (vm_compute; reflexivity).
  assert (Hr : exists r, subscribes demo_half !! 0 = Some r) by (eexists; reflexivity).
  destruct Hr as [r Hr].
  pose proof (datagram_once demo_half r [x00; x00; x04; x00; x05; x00; x01; x61]
    [x00; x00; x04; x00; x05; x00; x01; x61] _ _ _ _ eq_refl eq_refl eq_refl Hr) as H.
  destruct (recv_datagram _ demo_half) as [res s1]. split; [exact E|]. apply H.
Defined.
