(* ===== verification/Delivery.v ===== *)
(** * A subscription end to end

    What an application that subscribed finds in its track once a stream for the
    subscription has arrived: the halves of [SubscriberHalf], [Subscriptions],
    [Tracks], [Groups] and [Receiving] put together, with the sender of
    [Transfer] on the other side. *)
From Stdlib Require Import NArith ZArith Lia Bool.
From stdpp Require Import base list gmap option numbers.
From S2P Require Import Prelude Buffers VarInt Utf8 Coding Setup Data Messages Errors Streams Watch Serve.
From S2P Require Import Subgroup Groups StreamTrack Objects Tracks Receiving Serving Transfer.
From S2P Require Import Subscriptions SubscriberHalf.

#[local] Arguments N.modulo : simpl never.
#[local] Arguments N.pow : simpl never.

(** ** Fresh cells *)

(** A cell as [default_split] makes it, with another value. *)
Definition pair_cell {T} (c : Cell T) : Prop :=
  dropped (inner c) = Some tt /\ drops c = {[ 0%nat := 1%nat; 1%nat := 1%nat ]}.

Lemma pair_new {T} (v : T) (a : Arena T) :
  let '((h0, h1), a') := default_split v a in
  pair_cell (cell_of h0 a') /\ lock (cell_of h0 a') = v /\ loc h1 = loc h0 /\ half h0 = 0%nat /\ half h1 = 1%nat.
Proof. simpl. unfold cell_of, put. simpl. by rewrite decide_True. Qed.

Lemma pair_mutate {T} (f : T -> T) (c : Cell T) :
  pair_cell c -> exists c', mutate f c = (Ok tt, c') /\ pair_cell c' /\ lock c' = f (lock c).
Proof. intros [Hd Hs]. rewrite mutate_spec, Hd. eexists. split; [reflexivity|]. by repeat split. Qed.

(** One of the halves goes; the value stays. *)
Lemma pair_drop {T} h (c : Cell T) :
  pair_cell c -> h = 0%nat \/ h = 1%nat -> drops (drop_state h c) <> ∅ /\ lock (drop_state h c) = lock c.
Proof.
  intros [_ Hs] Hh. split; [|apply drop_state_lock]. unfold drop_state. rewrite Hs.
  destruct Hh as [-> | ->]; simpl; intros Hn.
  - apply (f_equal (lookup 1%nat)) in Hn. by vm_compute in Hn.
  - apply (f_equal (lookup 0%nat)) in Hn. by vm_compute in Hn.
Qed.

Lemma cell_at {T} (h g : Handle) (a : Arena T) : loc h = loc g -> cell_of h a = cell_of g a.
Proof. unfold cell_of. by intros ->. Qed.

(** ** A track is turned into subgroups *)

Lemma groups_produced info x :
  let '((tw, tr), x1) := TrackWrite.produce info x in
  let '((sw, sr), w) := SubgroupsWriter.produce info (Store.subgroups x) in
  exists x2, TrackWrite.groups tw x1 = (Ok sw, x2) /\ Store.subgroups x2 = w /\
    TrackState.mode (lock (cell_of (TrackReader.state tr) (Store.tracks x2))) = Some (TrackReaderMode.Subgroups sr).
Proof.
  unfold TrackWrite.produce. pose proof (pair_new TrackState.default (Store.tracks x)) as Hp.
  destruct (default_split TrackState.default (Store.tracks x)) as [[th rh] ta].
  destruct Hp as (Hp & Hl & Hrl & Hh & _). unfold TrackWrite.groups. simpl TrackWriter.info.
  cbn [Store.subgroups Store.with_tracks].
  destruct (SubgroupsWriter.produce info (Store.subgroups x)) as [[sw sr] w].
  unfold TrackWrite.set_mode, on_cell. cbn [TrackWriter.state TrackWriter.new Store.tracks Store.with_subgroups Store.with_tracks].
  destruct (pair_mutate (TrackState.set_mode (TrackReaderMode.Subgroups sr)) _ Hp) as (c & -> & Hpc & Hlc).
  eexists. split; [reflexivity|]. unfold TrackWrite.drop, Store.drop_track, drop_handle.
  cbn [TrackWriter.state TrackWriter.new Store.tracks Store.with_subgroups Store.with_tracks].
  rewrite cell_put_eq. destruct (pair_drop (half th) c Hpc (or_introl Hh)) as [Hne Hlk].
  rewrite decide_False by exact Hne. simpl. split; [done|].
  rewrite (cell_at rh th) by done. by rewrite cell_put_eq, Hlk, Hlc.
Qed.

(** ** The first subgroup of a track *)

Lemma create_first info w sub :
  let '((sw, sr), w1) := SubgroupsWriter.produce info w in
  let ginfo := SubgroupInfo.mk info (Subgroup.group_id sub) (Subgroup.subgroup_id sub) (Subgroup.priority sub) in
  exists gw gr sw' w2, SubgroupsWriter.create sub (sw, w1) = (Ok gw, (sw', w2)) /\
    receiving ginfo (SubgroupWriter.state gw) [] gw w2 /\ half (SubgroupWriter.state gw) = 0%nat /\
    loc (SubgroupReader.state gr) = loc (SubgroupWriter.state gw) /\
    SubgroupsState.latest (lock (cell_of (SubgroupsReader.state sr) (tops w2))) = Some gr /\
    (SubgroupsReader.epoch sr =? SubgroupsState.epoch (lock (cell_of (SubgroupsReader.state sr) (tops w2)))) = false.
Proof.
  unfold SubgroupsWriter.produce. pose proof (pair_new SubgroupsState.default (tops w)) as Hp.
  destruct (default_split SubgroupsState.default (tops w)) as [[th rh] ta].
  destruct Hp as ((Hd & Hs) & Hl & Hrl & Hh & _). cbv zeta. unfold SubgroupsWriter.create.
  cbn [SubgroupsWriter.info SubgroupsWriter.new].
  set (ginfo := SubgroupInfo.mk _ _ _ _).
  pose proof (receiving_produce ginfo (with_tops ta w)) as Hrc.
  unfold SubgroupWriter.produce in *.
  pose proof (pair_new SubgroupState.default (groups (with_tops ta w))) as Hg.
  destruct (default_split SubgroupState.default (groups (with_tops ta w))) as [[gh grh] ga].
  destruct Hg as (_ & _ & Hgl & Hgh & _).
  unfold on_cell, with_mut. cbn [SubgroupsWriter.state SubgroupsWriter.new tops with_groups with_tops].
  rewrite Hd. unfold lock in Hl. rewrite Hl. cbn -[N.modulo N.pow].
  eexists _, (SubgroupReader.new grh ginfo), _, _. split; [reflexivity|].
  split; [destruct Hrc as [H1 H2 H3 H4 H5 H6 H7 H8]; split; assumption|]. split; [done|]. split; [done|].
  unfold SubgroupsReader.new. cbn [SubgroupsReader.state SubgroupsReader.epoch tops with_tops].
  rewrite (cell_at rh th) by done. rewrite cell_put_eq. split; [done|]. done.
Qed.

(** ** Reading the track *)

Lemma arrived_stays info ps reader w w' :
  arrived info ps reader w -> all_stay (groups w) (groups w') -> objects w' = objects w ->
  arrived info ps reader w'.
Proof.
  intros (Hi & Hr & Hn) Hs Ho. destruct (Hs (SubgroupReader.state reader)) as [Hl Hd].
  unfold arrived. rewrite Hl. split; [done|]. split.
  - rewrite <- Hr. apply list_fmap_ext. intros i o _. unfold read_out. by rewrite Ho.
  - apply log_turn_None in Hn as (Hn & Hc & Hdr & _). unfold log_turn. rewrite Hl, Hn. unfold idle, modified.
    by rewrite Hl, Hc, Hd.
Qed.

(** A track reader gets at the latest subgroup. *)
Lemma read_latest tr sr gr info ps (x : Store.t) :
  TrackState.mode (lock (cell_of (TrackReader.state tr) (Store.tracks x))) = Some (TrackReaderMode.Subgroups sr) ->
  let c := cell_of (SubgroupsReader.state sr) (tops (Store.subgroups x)) in
  SubgroupsState.latest (lock c) = Some gr ->
  (SubgroupsReader.epoch sr =? SubgroupsState.epoch (lock c)) = false ->
  arrived info ps gr (Store.subgroups x) ->
  exists x2 sr' gr' w2,
    TrackRead.mode_turn tr x = (Return (Ok (TrackReaderMode.Subgroups sr)), x2) /\
    SubgroupsReader.next_turn sr (Store.subgroups x2) = (Return (Ok (Some gr')), (sr', w2)) /\
    SubgroupReader.state gr' = SubgroupReader.state gr /\ arrived info ps gr' w2.
Proof.
  intros Hm c Hl He Ha. unfold TrackRead.mode_turn. rewrite Hm. destruct sr as [i st ep].
  unfold TrackRead.clone_mode, SubgroupsReader.clone, clone_handle, on_cell. simpl.
  eexists _, _, _, _. split; [reflexivity|]. unfold SubgroupsReader.next_turn. simpl.
  rewrite cell_put_eq. unfold c, lock in *. simpl in *. rewrite He, Hl. cbn [negb]. split; [reflexivity|]. split; [done|].
  eapply (arrived_stays _ _ gr); [exact Ha| |done]. apply (all_stay_clone (SubgroupReader.state gr)).
Qed.

(** ** The stream of a subscription *)

(** What the application gets to read: the track is in subgroups, and the latest is
    [info] with [payloads]. *)
Definition delivered (info : SubgroupInfo.t) (payloads : list (list byte)) (tr : TrackReader.t) (x : Store.t) : Prop :=
  exists sr x2 sr' gr w2,
    TrackRead.mode_turn tr x = (Return (Ok (TrackReaderMode.Subgroups sr)), x2) /\
    SubgroupsReader.next_turn sr (Store.subgroups x2) = (Return (Ok (Some gr)), (sr', w2)) /\
    arrived info payloads gr w2.

Lemma recv_stream_subgroup (s : SubscriberHalf.t) info (header : Data.SubgroupHeader.t) stream hb payloads wires :
  tabled s ->
  let '((tw, tr), x) := TrackWrite.produce info (SubscriberHalf.store s) in
  let '(sub, s1) := SubscriberHalf.subscribe tw (SubscriberHalf.with_store x s) in
  Data.SubgroupHeader.subscribe_id header = Subscribe.id sub ->
  whole (Reader.new stream) -> received_bytes stream = hb ++ concat wires ->
  (forall rest, decode (hb ++ rest) = (Ok (Data.Header.Subgroup header), rest)) ->
  Forall2 object_wire payloads wires ->
  exists s2, SubscriberHalf.recv_stream stream s1 = Some (Ok tt, s2) /\
    delivered (SubgroupInfo.mk info (Data.SubgroupHeader.group_id header) (Data.SubgroupHeader.subgroup_id header)
      (Data.SubgroupHeader.publisher_priority header)) payloads tr (SubscriberHalf.store s2).
Proof.
  intros Ht. pose proof (groups_produced info (SubscriberHalf.store s)) as Hg.
  destruct (TrackWrite.produce info (SubscriberHalf.store s)) as [[tw tr] x].
  set (w0 := Store.subgroups (SubscriberHalf.store s)) in *.
  pose proof (create_first info w0 (Subgroup.mk (Data.SubgroupHeader.group_id header)
    (Data.SubgroupHeader.subgroup_id header) (Data.SubgroupHeader.publisher_priority header))) as Hc.
  destruct (SubgroupsWriter.produce info w0) as [[sw sr] w1].
  destruct Hg as (x2 & Hg & Hx2 & Hmode).
  destruct Hc as (gw & gr & sw' & w2 & Hc & Hrc & Hh & Hloc & Hlat & Hep). simpl in Hrc.
  unfold SubscriberHalf.subscribe. cbv zeta. set (s0 := SubscriberHalf.send_message _ _).
  assert (Hs0 : table_of s0 = (SubscriberHalf.subscribes s, SubscriberHalf.subscribe_states s,
      (SubscriberHalf.subscribe_next s + 1) mod 2 ^ 64) /\ SubscriberHalf.store s0 = x)
    by (split; [unfold s0; by rewrite send_message_same|done]).
  clearbody s0. destruct Hs0 as [Hs0 Hst]. unfold table_of in Hs0. injection Hs0 as Hsub Hss Hnx.
  unfold Subscribe.new.
  destruct (default_split SubscribeState.default (SubscriberHalf.subscribe_states s0)) as [[sh rh] sa].
  cbn [SubscriberHalf.with_subscribe_states SubscriberHalf.subscribes SubscriberHalf.subscribe_next
    SubscriberHalf.with_store]. rewrite Hsub, (table_fresh _ _ _ Ht). intros Hid Hw Hb Hhd HF. simpl in Hid.
  unfold SubscriberHalf.recv_stream.
  destruct (decode_whole decode (Data.Header.Subgroup header) hb (concat wires) (Reader.new stream) Hw
    decode_streaming (Hhd _)) as (r1 & -> & Hw1 & Hp1); [by rewrite <- Hb|].
  unfold SubscriberHalf.recv_stream_inner, SubscriberHalf.stream_writer. simpl Data.Header.subscribe_id. rewrite Hid.
  cbn [SubscriberHalf.subscribes SubscriberHalf.with_subscribes]. rewrite lookup_insert_eq.
  unfold SubscribeRecv.subgroup. cbn [SubscribeRecv.writer SubscriberHalf.store SubscriberHalf.with_subscribes
    SubscriberHalf.with_subscribe_states]. rewrite Hst, Hg, Hx2, Hc. simpl.
  destruct (receive_subgroup_from _ _ gw w2 payloads wires r1 gr Hrc Hh Hloc HF Hw1 Hp1) as (w3 & E3 & Harr).
  rewrite E3. simpl. pose proof (recv_subgroup_tops _ _ _ _ _ E3) as Htop.
  edestruct (read_latest tr sr gr (SubgroupInfo.mk info (Data.SubgroupHeader.group_id header)
    (Data.SubgroupHeader.subgroup_id header) (Data.SubgroupHeader.publisher_priority header)) payloads
    (Store.with_subgroups w3 (Store.with_subgroups w2 x2))) as (x4 & sr' & gr' & w4 & Em & En & _ & Harr');
    [exact Hmode|simpl; rewrite Htop; exact Hlat|simpl; rewrite Htop; exact Hep|exact Harr|].
  eexists. split; [reflexivity|]. by exists sr, x4, sr', gr', w4.
Qed.

(** ** Properties *)

(** C1 (refinement). A subscription end to end. The application produces a
    track, subscribes with its writer and keeps its reader, on a half in any state
    it can be in; the publisher serves a subgroup of its own cache for that
    subscription, in any interleaving with its other tasks, and ends without
    error; its bytes arrive in any fragmentation. Then [recv_stream] succeeds, and
    the reader of the track is given subgroups, whose latest is the publisher's,
    with its payloads, object by object, and no more. *)
Theorem subscription_delivery (to_string : ServeError -> String) (q : Cell (list Message.t))
    (s : SubscriberHalf.t) (info : Track.t)
    (header : Data.SubgroupHeader.t) (reader : SubgroupReader.t) (w : World) (c : Cell SubscribedState.t)
    (sender : Serving.t) (writer : Writer.t) (stream : recv_stream) :
  rtc (SubscriberHalf.step to_string) (SubscriberHalf.new q) s ->
  listed w -> (loc (SubgroupReader.state reader) < next_cell (groups w))%nat ->
  SubgroupReader.index reader = 0 ->
  rtc Serving.step (start header reader w c) sender ->
  ServeSubgroup.at_ (Serving.task sender) = ServeSubgroup.Finished (Some writer) (Ok tt) ->
  let os := Serving.shelf (SubgroupReader.state reader) (Serving.world sender) in
  let payloads := Serving.payload (Serving.world sender) <$> os in
  Forall (fun o => SubgroupObject.size (SubgroupObjectReader.info o) =
                   lenN (Serving.payload (Serving.world sender) o)) os ->
  let '((tw, tr), x) := TrackWrite.produce info (SubscriberHalf.store s) in
  let '(sub, s1) := SubscriberHalf.subscribe tw (SubscriberHalf.with_store x s) in
  Data.SubgroupHeader.subscribe_id header = Subscribe.id sub ->
  whole (Reader.new stream) -> received_bytes stream = sent (Writer.stream writer) ->
  exists s2, SubscriberHalf.recv_stream stream s1 = Some (Ok tt, s2) /\
    delivered (SubgroupInfo.mk info (Data.SubgroupHeader.group_id header) (Data.SubgroupHeader.subgroup_id header)
      (Data.SubgroupHeader.publisher_priority header)) payloads tr (SubscriberHalf.store s2).
Proof.
  intros Hrun Hl Hh Hi Hserve Hfin os payloads Hsz.
  destruct (served_wires header reader w c sender writer Hl Hh Hi Hserve Hfin Hsz) as (hb & Hb & Hbs & HF).
  pose proof (tabled_run to_string _ _ Hrun (tabled_new q)) as Ht.
  pose proof (recv_stream_subgroup s info header stream hb payloads (Serving.full (Serving.world sender) <$> os) Ht) as H.
  destruct (TrackWrite.produce info (SubscriberHalf.store s)) as [[tw tr] x].
  destruct (SubscriberHalf.subscribe tw (SubscriberHalf.with_store x s)) as [sub s1].
  intros Hid Hw Hbytes. rewrite Hb in Hbytes. by eapply H.
Qed.

(** The sender of [Transfer]'s example, whose header is for subscription 1, and a
    subscriber that has one subscription, number 0, already. *)
Lemma subscription_delivery_witness :
  let stream := [Data (take 7 demo_bytes); Data (drop 7 demo_bytes)] in
  let '((tw, tr), x) := TrackWrite.produce demo_track (SubscriberHalf.store demo_half) in
  let '(sub, s1) := SubscriberHalf.subscribe tw (SubscriberHalf.with_store x demo_half) in
  exists s2, SubscriberHalf.recv_stream stream s1 = Some (Ok tt, s2) /\
    delivered (SubgroupInfo.mk demo_track 4 0 x05) [[x61; x62]; []] tr (SubscriberHalf.store s2).
Proof.
  cbv zeta.
  assert (E : ServeSubgroup.at_ (Serving.task demo_end) = ServeSubgroup.Finished (Some demo_writer) (Ok tt))
    by (vm_compute; reflexivity).
  assert (Hp : (Serving.payload (Serving.world demo_end) <$>
    Serving.shelf (SubgroupReader.state (snd (fst demo_group))) (Serving.world demo_end)) = [[x61; x62]; []])
    by (vm_compute; reflexivity).
  assert (Hloc : (loc (SubgroupReader.state (snd (fst demo_group))) < next_cell (groups (snd demo_group)))%nat)
    by (vm_compute; reflexivity).
  assert (Hsz : Forall (fun o => SubgroupObject.size (SubgroupObjectReader.info o) =
      lenN (Serving.payload (Serving.world demo_end) o))
    (Serving.shelf (SubgroupReader.state (snd (fst demo_group))) (Serving.world demo_end)))
    by (apply pointwise; vm_compute; reflexivity).
  assert (Hw : whole (Reader.new [Data (take 7 demo_bytes); Data (drop 7 demo_bytes)]))
    by (constructor; [eexists _, _; reflexivity|]; constructor; [eexists _, _; reflexivity|constructor]).
  assert (Hb : received_bytes [Data (take 7 demo_bytes); Data (drop 7 demo_bytes)] = sent (Writer.stream demo_writer))
    by (vm_compute; reflexivity).
  pose proof (subscription_delivery (fun _ => empty_string) (snd Queue.new) demo_half demo_track demo_header
    (snd (fst demo_group)) (snd demo_group) _ demo_end demo_writer
    [Data (take 7 demo_bytes); Data (drop 7 demo_bytes)] (demo_half_run _) demo_listed Hloc eq_refl demo_run E Hsz) as H.
  rewrite Hp in H.
  assert (Hid : Data.SubgroupHeader.subscribe_id demo_header = SubscriberHalf.subscribe_next demo_half)
    by (vm_compute; reflexivity).
  destruct (TrackWrite.produce demo_track (SubscriberHalf.store demo_half)) as [[tw tr] x].
  destruct (SubscriberHalf.subscribe tw (SubscriberHalf.with_store x demo_half)) as [sub s1] eqn:Es.
  apply H; [|exact Hw|exact Hb]. rewrite Hid.
  assert (Hs : sub = fst (SubscriberHalf.subscribe tw (SubscriberHalf.with_store x demo_half))) by (by rewrite Es).
  rewrite Hs. reflexivity.
Defined.
