(* ===== verification/PublisherHalf.v ===== *)
(** * The publisher half of a session

    [moq-transport/src/session/publisher.rs], [announce.rs], [subscribed.rs] and
    [track_status_requested.rs]: the namespaces we announce, the subscriptions of
    the peer, and the messages that drive them. The loops that send a track are in
    [Serving].

    As for the subscriber half, the fields of [Publisher] are shared by its clones
    and the half is one state. Dropping an [AnnounceState] drops the subscriptions
    waiting in it, and dropping a subscription sends a message. *)
From Stdlib Require Import NArith Lia Bool.
From Stdlib.Strings Require Import Byte.
From stdpp Require Import base list gmap option numbers.
From S2P Require Import Prelude Buffers VarInt Utf8 Coding Setup Data Announces Subscribes Messages.
From S2P Require Import Errors Streams Watch Serve Subgroup Groups StreamTrack Objects Tracks Serving.
From S2P Require Import Subscriptions SubscriberHalf.

(** ** State *)

(** A subscription of the peer, as the application or a queue holds it. *)
Module Subscribed.
Record t := mk { state : Handle; msg : Subscribes.Subscribe.t; ok : bool; info : SubscribeInfo.t }.
Definition id (self : t) : N := Subscribes.Subscribe.id (msg self).
Definition with_ok (b : bool) (self : t) : t := mk (state self) (msg self) b (info self).
End Subscribed.

Module SubscribedRecv.
Record t := mk { state : Handle }.
End SubscribedRecv.

Module TrackStatusRequested.
Record t := mk { namespace : Tuple.t; track : String }.
Definition new (msg : TrackStatusRequest.t) : t :=
  mk (TrackStatusRequest.track_namespace msg) (TrackStatusRequest.track_name msg).
End TrackStatusRequested.

Module AnnounceState.
Record t := mk {
  subscribers : list Subscribed.t;
  track_statuses_requested : list TrackStatusRequested.t;
  ok : bool;
  closed : option ServeError;
}.
Definition default : t := mk [] [] false None.

#[export] Instance closable : Closable t :=
  {| Serve.closed := closed;
     set_closed r s := mk (subscribers s) (track_statuses_requested s) (ok s) r; closed_set r s := eq_refl |}.

Definition push_subscriber (x : Subscribed.t) (s : t) : t :=
  mk (subscribers s ++ [x]) (track_statuses_requested s) (ok s) (closed s).
Definition push_status (x : TrackStatusRequested.t) (s : t) : t :=
  mk (subscribers s) (track_statuses_requested s ++ [x]) (ok s) (closed s).
Definition pop_subscriber (s : t) : option Subscribed.t * t :=
  (head (subscribers s), mk (tail (subscribers s)) (track_statuses_requested s) (ok s) (closed s)).
Definition pop_status (s : t) : option TrackStatusRequested.t * t :=
  (head (track_statuses_requested s), mk (subscribers s) (tail (track_statuses_requested s)) (ok s) (closed s)).
End AnnounceState.
Export (hints) AnnounceState.

(** [Announce], which the application holds, and [AnnounceRecv] of the table. *)
Module Announce.
Record t := mk { state : Handle; info : AnnounceInfo.t }.
Definition namespace (self : t) : Tuple.t := AnnounceInfo.namespace (info self).
End Announce.

Module AnnounceRecv.
Record t := mk { state : Handle }.

Definition recv_ok (c : Cell AnnounceState.t) : outcome ServeError unit * Cell AnnounceState.t :=
  match with_mut (fun s =>
      if AnnounceState.ok s then (Err ServeErr.Duplicate, s)
      else (Ok tt, AnnounceState.mk (AnnounceState.subscribers s) (AnnounceState.track_statuses_requested s)
                     true (AnnounceState.closed s))) c with
  | (Some r, c) => (r, c)
  | (None, c) => (Ok tt, c)
  end.

(** [lock_mut().ok_or(ServeError::Done)?] and a push *)
Definition deliver (f : AnnounceState.t -> AnnounceState.t) (c : Cell AnnounceState.t) :
    outcome ServeError unit * Cell AnnounceState.t :=
  match with_mut (fun s => (tt, f s)) c with
  | (Some _, c) => (Ok tt, c)
  | (None, c) => (Err ServeErr.Done, c)
  end.
End AnnounceRecv.

(** [close] of these two types reports a state that is shut as [Done], where the
    track cache says [Cancel]. *)
Definition close_done {T} `{Closable T} (err : ServeError) (c : Cell T) : outcome ServeError unit * Cell T :=
  match closed (lock c) with
  | Some e => (Err e, c)
  | None =>
      match with_mut (fun s => (tt, set_closed (Some err) s)) c with
      | (Some _, c) => (Ok tt, c)
      | (None, c) => (Err ServeErr.Done, c)
      end
  end.

Module PublisherHalf.
Record t := mk {
  store : Store.t;
  announces : gmap Tuple.t AnnounceRecv.t;
  announce_states : Arena AnnounceState.t;
  subscribed : gmap N SubscribedRecv.t;
  subscribed_states : Arena SubscribedState.t;
  unknown : Cell (list Subscribed.t);
  outgoing : Cell (list Message.t);
}.

Definition new (outgoing : Cell (list Message.t)) : t :=
  mk Store.new ∅ (arena_new AnnounceState.default) ∅ (arena_new SubscribedState.default) (snd Queue.new) outgoing.

Definition with_store (x : Store.t) (s : t) : t :=
  mk x (announces s) (announce_states s) (subscribed s) (subscribed_states s) (unknown s) (outgoing s).
Definition with_announces (x : gmap Tuple.t AnnounceRecv.t) (s : t) : t :=
  mk (store s) x (announce_states s) (subscribed s) (subscribed_states s) (unknown s) (outgoing s).
Definition with_announce_states (x : Arena AnnounceState.t) (s : t) : t :=
  mk (store s) (announces s) x (subscribed s) (subscribed_states s) (unknown s) (outgoing s).
Definition with_subscribed (x : gmap N SubscribedRecv.t) (s : t) : t :=
  mk (store s) (announces s) (announce_states s) x (subscribed_states s) (unknown s) (outgoing s).
Definition with_subscribed_states (x : Arena SubscribedState.t) (s : t) : t :=
  mk (store s) (announces s) (announce_states s) (subscribed s) x (unknown s) (outgoing s).
Definition with_unknown (x : Cell (list Subscribed.t)) (s : t) : t :=
  mk (store s) (announces s) (announce_states s) (subscribed s) (subscribed_states s) x (outgoing s).
Definition with_outgoing (x : Cell (list Message.t)) (s : t) : t :=
  mk (store s) (announces s) (announce_states s) (subscribed s) (subscribed_states s) (unknown s) x.

Section Display.
Context (to_string : ServeError -> String) (session_string : SessionError -> String).

(** ** Sending *)

Definition drop_subscribe (id : N) (s : t) : t :=
  match subscribed s !! id with
  | Some r =>
      let s := with_subscribed (delete id (subscribed s)) s in
      with_subscribed_states (snd (drop_handle (SubscribedRecv.state r) (subscribed_states s))) s
  | None => s
  end.

(** [send_message], given what dropping a namespace does. *)
Definition send_with (drop_announce : Tuple.t -> t -> t) (msg : Publisher.t) (s : t) : t :=
  let s := match msg with
           | Publisher.SubscribeDone m => drop_subscribe (SubscribeDone.id m) s
           | Publisher.SubscribeError m => drop_subscribe (SubscribeError.id m) s
           | Publisher.Unannounce m => drop_announce (Unannounce.namespace m) s
           | _ => s
           end in
  with_outgoing (snd (Queue.push (Publisher.into_message msg) (outgoing s))) s.

(** [Drop::drop] of [Subscribed], then its fields. The message is no UNANNOUNCE. *)
Definition farewell (self : Subscribed.t) (st : SubscribedState.t) : Publisher.t :=
  let err := default ServeErr.Done (SubscribedState.closed st) in
  if Subscribed.ok self then
    Publisher.SubscribeDone (SubscribeDone.mk (Subscribed.id self) (code err) (to_string err)
      (SubscribedState.max_group_id st))
  else
    Publisher.SubscribeError (SubscribeError.mk (Subscribed.id self) (code err) (to_string err) 0).

Definition subscribed_drop (self : Subscribed.t) (s : t) : t :=
  let s := send_with (fun _ s => s)
    (farewell self (lock (cell_of (Subscribed.state self) (subscribed_states s)))) s in
  with_subscribed_states (snd (drop_handle (Subscribed.state self) (subscribed_states s))) s.

(** [Subscribed::close] consumes it. *)
Definition subscribed_close (err : ServeError) (self : Subscribed.t) (s : t) : outcome ServeError unit * t :=
  let (r, a) := on_cell (Subscribed.state self) (close_done err) (subscribed_states s) in
  (r, subscribed_drop self (with_subscribed_states a s)).

(** A handle on an [AnnounceState]; with the last one [Drop::drop] of the state
    closes the subscriptions nobody took. *)
Definition drop_announce_handle (h : Handle) (s : t) : t :=
  let (value, a) := drop_handle h (announce_states s) in
  fold_left (fun s x => snd (subscribed_close ServeErr.NotFound x s))
    (match value with Some st => AnnounceState.subscribers st | None => [] end) (with_announce_states a s).

Definition drop_announce (namespace : Tuple.t) (s : t) : t :=
  match announces s !! namespace with
  | Some r => drop_announce_handle (AnnounceRecv.state r) (with_announces (delete namespace (announces s)) s)
  | None => s
  end.

Definition send_message (msg : Publisher.t) (s : t) : t := send_with drop_announce msg s.

(** ** [Announce] *)

(** [Announce::new] *)
Definition announce_new (namespace : Tuple.t) (s : t) : (Announce.t * AnnounceRecv.t) * t :=
  let s := send_message (Publisher.Announce (Announces.Announce.mk namespace Params.new)) s in
  let '((send, recv), a) := default_split AnnounceState.default (announce_states s) in
  ((Announce.mk send (AnnounceInfo.mk namespace), AnnounceRecv.mk recv), with_announce_states a s).

(** [Publisher::announce], up to its loop. *)
Definition announce (namespace : Tuple.t) (s : t) : outcome SessionError Announce.t * t :=
  match announces s !! namespace with
  | Some _ => (Err (SessionErr.Serve ServeErr.Duplicate), s)
  | None =>
      let '((send, recv), s) := announce_new namespace s in
      (Ok send, with_announces (<[namespace := recv]> (announces s)) s)
  end.

Definition announce_cell (self : Announce.t) (s : t) : Cell AnnounceState.t :=
  cell_of (Announce.state self) (announce_states s).

(** One turn of [closed], of [ok]. *)
Definition announce_closed_turn (self : Announce.t) (s : t) : turn unit := idle (announce_cell self s) (Ok tt).

Definition announce_ok_turn (self : Announce.t) (s : t) : turn unit :=
  if AnnounceState.ok (lock (announce_cell self s)) then Return (Ok tt) else idle (announce_cell self s) (Ok tt).

(** One turn of [subscribed] and of [track_status_requested]. A queue that is not
    empty is given up when the state is shut. *)
Definition take_turn {A} (queue : AnnounceState.t -> list A) (pop : AnnounceState.t -> option A * AnnounceState.t)
    (self : Announce.t) (s : t) : turn (option A) * t :=
  let c := announce_cell self s in
  match queue (lock c) with
  | _ :: _ =>
      let (r, a) := on_cell (Announce.state self) (with_mut pop) (announce_states s) in
      (Return (Ok (mjoin r)), with_announce_states a s)
  | [] => (idle c (Ok None), s)
  end.

Definition announce_subscribed_turn : Announce.t -> t -> turn (option Subscribed.t) * t :=
  take_turn AnnounceState.subscribers AnnounceState.pop_subscriber.
Definition announce_status_turn : Announce.t -> t -> turn (option TrackStatusRequested.t) * t :=
  take_turn AnnounceState.track_statuses_requested AnnounceState.pop_status.

(** [Drop::drop] of [Announce], then its fields. *)
Definition announce_drop (self : Announce.t) (s : t) : t :=
  let s := match AnnounceState.closed (lock (announce_cell self s)) with
           | Some _ => s
           | None => send_message (Publisher.Unannounce (Unannounce.mk (Announce.namespace self))) s
           end in
  drop_announce_handle (Announce.state self) s.

(** ** Messages from the peer *)

Definition recv_announce_ok (msg : AnnounceOk.t) (s : t) : outcome SessionError unit * t :=
  match announces s !! AnnounceOk.namespace msg with
  | Some r =>
      let (res, a) := on_cell (AnnounceRecv.state r) AnnounceRecv.recv_ok (announce_states s) in
      (SessionErr.from_serve res, with_announce_states a s)
  | None => (Ok tt, s)
  end.

(** [remove] and [recv_error], which consumes the entry. *)
Definition end_announce (namespace : Tuple.t) (err : ServeError) (s : t) : outcome SessionError unit * t :=
  match announces s !! namespace with
  | Some r =>
      let s := with_announces (delete namespace (announces s)) s in
      let (res, a) := on_cell (AnnounceRecv.state r) (close_done err) (announce_states s) in
      (SessionErr.from_serve res, drop_announce_handle (AnnounceRecv.state r) (with_announce_states a s))
  | None => (Ok tt, s)
  end.

Definition recv_announce_error (msg : AnnounceError.t) (s : t) : outcome SessionError unit * t :=
  end_announce (AnnounceError.namespace msg) (ServeErr.Closed (AnnounceError.error_code msg)) s.

Definition recv_announce_cancel (msg : AnnounceCancel.t) (s : t) : outcome SessionError unit * t :=
  end_announce (AnnounceCancel.namespace msg) ServeErr.Cancel s.

(** [Subscribed::new] *)
Definition subscribed_new (msg : Subscribes.Subscribe.t) (s : t) : (Subscribed.t * SubscribedRecv.t) * t :=
  let '((send, recv), a) := default_split SubscribedState.default (subscribed_states s) in
  ((Subscribed.mk send msg false
      (SubscribeInfo.mk (Subscribes.Subscribe.track_namespace msg) (Subscribes.Subscribe.track_name msg)),
    SubscribedRecv.mk recv), with_subscribed_states a s).

(** To the announce of the namespace if there is one, to the application's queue
    if not. *)
Definition recv_subscribe (msg : Subscribes.Subscribe.t) (s : t) : outcome SessionError unit * t :=
  let namespace := Subscribes.Subscribe.track_namespace msg in
  let id := Subscribes.Subscribe.id msg in
  match subscribed s !! id with
  | Some _ => (Err SessionErr.Duplicate, s)
  | None =>
      let '((send, recv), s) := subscribed_new msg s in
      let s := with_subscribed (<[id := recv]> (subscribed s)) s in
      match announces s !! namespace with
      | Some r =>
          match on_cell (AnnounceRecv.state r) (AnnounceRecv.deliver (AnnounceState.push_subscriber send))
                  (announce_states s) with
          | (Ok _, a) => (Ok tt, with_announce_states a s)
          | (res, a) => (SessionErr.from_serve res, subscribed_drop send (with_announce_states a s))
          end
      | None =>
          match Queue.push send (unknown s) with
          | (Ok _, q) => (Ok tt, with_unknown q s)
          | (_, q) =>
              let (res, s) := subscribed_close ServeErr.NotFound send (with_unknown q s) in
              (SessionErr.from_serve res, s)
          end
      end
  end.

Definition recv_subscribe_update (_msg : SubscribeUpdate.t) (s : t) : outcome SessionError unit * t :=
  (Err SessionErr.Internal, s).

Definition recv_track_status_request (msg : TrackStatusRequest.t) (s : t) : outcome SessionError unit * t :=
  match announces s !! TrackStatusRequest.track_namespace msg with
  | Some r =>
      let (res, a) := on_cell (AnnounceRecv.state r)
        (AnnounceRecv.deliver (AnnounceState.push_status (TrackStatusRequested.new msg))) (announce_states s) in
      (SessionErr.from_serve res, with_announce_states a s)
  | None => (Err SessionErr.Internal, s)
  end.

(** [SubscribedRecv::recv_unsubscribe]; a shut state is fine. *)
Definition recv_unsubscribe_cell (c : Cell SubscribedState.t) : outcome ServeError unit * Cell SubscribedState.t :=
  match closed (lock c) with
  | Some e => (Err e, c)
  | None => (Ok tt, snd (with_mut (fun s => (tt, set_closed (Some ServeErr.Cancel) s)) c))
  end.

Definition recv_unsubscribe (msg : Unsubscribe.t) (s : t) : outcome SessionError unit * t :=
  match subscribed s !! Unsubscribe.id msg with
  | Some r =>
      let (res, a) := on_cell (SubscribedRecv.state r) recv_unsubscribe_cell (subscribed_states s) in
      (SessionErr.from_serve res, with_subscribed_states a s)
  | None => (Ok tt, s)
  end.

(** Errors are logged. *)
Definition recv_message (msg : Subscriber.t) (s : t) : outcome SessionError unit * t :=
  let '(res, s) :=
    match msg with
    | Subscriber.AnnounceOk msg => recv_announce_ok msg s
    | Subscriber.AnnounceError msg => recv_announce_error msg s
    | Subscriber.AnnounceCancel msg => recv_announce_cancel msg s
    | Subscriber.Subscribe msg => recv_subscribe msg s
    | Subscriber.Unsubscribe msg => recv_unsubscribe msg s
    | Subscriber.SubscribeUpdate msg => recv_subscribe_update msg s
    | Subscriber.TrackStatusRequest msg => recv_track_status_request msg s
    | Subscriber.SubscribeNamespace _ | Subscriber.SubscribeNamespaceOk _
    | Subscriber.SubscribeNamespaceError _ | Subscriber.UnsubscribeNamespace _
    | Subscriber.Fetch _ | Subscriber.FetchCancel _ => (Panic, s)
    end in
  (match res with Panic => Panic | _ => Ok tt end, s).

(** One turn of [Publisher::subscribed]. *)
Definition subscribed_turn (s : t) : @Queue.turn Subscribed.t * t :=
  let (r, q) := Queue.pop_turn (unknown s) in (r, with_unknown q s).

(** ** Serving *)

(** [serve_inner] before it waits for the track's mode: SUBSCRIBE_OK. *)
Definition serve_begin (self : Subscribed.t) (s : t) : outcome ServeError unit * (Subscribed.t * t) :=
  let latest := TrackRead.latest in
  let (r, a) := on_cell (Subscribed.state self)
    (mutate (fun st => SubscribedState.mk latest (SubscribedState.closed st))) (subscribed_states s) in
  let s := with_subscribed_states a s in
  match r with
  | Ok _ =>
      (Ok tt, (Subscribed.with_ok true self,
        send_message (Publisher.SubscribeOk
          (SubscribeOk.mk (Subscribed.id self) None GroupOrder.Descending latest)) s))
  | r => (r, (self, s))
  end.

(** The rest of [serve], once [serve_inner] has returned. *)
Definition serve_end (res : outcome SessionError unit) (self : Subscribed.t) (s : t) :
    outcome SessionError unit * t :=
  match res with
  | Err err =>
      let (r, s) := subscribed_close (SessionErr.into_serve session_string err) self s in
      (match r with Ok _ => res | r => SessionErr.from_serve r end, s)
  | res => (res, subscribed_drop self s)
  end.

(** [serve_subscribe] up to the awaits of [serve]: the track to serve, if there
    is one; [tracks], an argument by value, then stays until [serve] is done. *)
Definition serve_subscribe (subscribe : Subscribed.t) (tracks : TracksReader.t) (s : t) :
    outcome SessionError (option (TrackReader.t * Subscribed.t)) * t :=
  let (track, x) := TracksReader.subscribe (SubscribeInfo.name (Subscribed.info subscribe)) tracks (store s) in
  let s := with_store x s in
  match track with
  | Some track => (Ok (Some (track, subscribe)), s)
  | None =>
      let (r, s) := subscribed_close ServeErr.NotFound subscribe s in
      (match SessionErr.from_serve r with Ok _ => Ok None | Err e => Err e | Panic => Panic end,
       with_store (TracksReader.drop tracks (store s)) s)
  end.

(** [serve_track_status] and [TrackStatusRequested::respond]. *)
Definition serve_track_status (request : TrackStatusRequested.t) (tracks : TracksReader.t) (s : t) :
    outcome SessionError unit * t :=
  let name := TrackStatusRequested.track request in
  let (track, x) := TracksReader.subscribe name tracks (store s) in
  let s := with_store x s in
  match track with
  | Some track =>
      let status := TrackRead.latest in
      let response :=
        match status with
        | Some (g, o) => TrackStatus.mk (TrackStatusRequested.namespace request) name TrackStatusCode.InProgress g o
        | None => TrackStatus.mk (TrackStatusRequested.namespace request) name TrackStatusCode.DoesNotExist 0 0
        end in
      let s := send_message (Publisher.TrackStatus response) s in
      (Ok tt, with_store (TracksReader.drop tracks (TrackRead.drop track (store s))) s)
  | None => (Err (SessionErr.Serve ServeErr.NotFound), with_store (TracksReader.drop tracks (store s)) s)
  end.

(** ** Where a SUBSCRIBE goes *)

(** Nobody takes it: it is answered, and the table is as before. *)
Definition refused (id : N) (err : ServeError) (s s' : t) : Prop :=
  subscribed s' = subscribed s /\
  lock (outgoing s') = lock (outgoing s) ++ [Message.SubscribeError (SubscribeError.mk id (code err) (to_string err) 0)].

(** It is in the table, and nothing has been sent. *)
Definition filed (id : N) (s s' : t) : Prop :=
  (exists r, subscribed s' = <[id := r]> (subscribed s)) /\ outgoing s' = outgoing s.

Lemma fresh_state a :
  let p := default_split SubscribedState.default a in
  inner (cell_of (fst (fst p)) (snd p)) = inner_new SubscribedState.default.
Proof. unfold cell_of. simpl. unfold put. simpl. by rewrite decide_True. Qed.

Lemma drop_refuses x recv err s s1 :
  subscribed s !! Subscribed.id x = None -> Subscribed.ok x = false ->
  subscribed s1 = <[Subscribed.id x := recv]> (subscribed s) -> outgoing s1 = outgoing s ->
  dropped (inner (outgoing s)) = Some tt ->
  default ServeErr.Done (SubscribedState.closed (lock (cell_of (Subscribed.state x) (subscribed_states s1)))) = err ->
  refused (Subscribed.id x) err s (subscribed_drop x s1).
Proof.
  intros Hn Hok Hs Ho Hd He. unfold refused, subscribed_drop, farewell. rewrite Hok, He. simpl.
  unfold drop_subscribe. rewrite Hs, lookup_insert_eq. simpl. unfold Queue.push, with_mut. rewrite Ho, Hd. simpl.
  split; [|done]. by rewrite delete_insert_id.
Qed.

(** A SUBSCRIBE never ends the session. One whose number is in
    use changes nothing. Otherwise it goes to the announce of its namespace, and to
    the application when there is none; if that receiver is gone it leaves the
    table again and is answered with SUBSCRIBE_ERROR, [Done] for the announce and
    [NotFound] for the application. *)
Theorem subscribe_routed m s :
  dropped (inner (outgoing s)) = Some tt ->
  let id := Subscribes.Subscribe.id m in
  let s' := snd (recv_message (Subscriber.Subscribe m) s) in
  fst (recv_message (Subscriber.Subscribe m) s) = Ok tt /\
  match subscribed s !! id, announces s !! Subscribes.Subscribe.track_namespace m with
  | Some _, _ => s' = s
  | None, Some r =>
      let c := cell_of (AnnounceRecv.state r) (announce_states s) in
      let c' := cell_of (AnnounceRecv.state r) (announce_states s') in
      match dropped (inner c) with
      | Some _ => filed id s s' /\ unknown s' = unknown s /\ exists x, Subscribed.msg x = m /\
          AnnounceState.subscribers (lock c') = AnnounceState.subscribers (lock c) ++ [x]
      | None => refused id ServeErr.Done s s'
      end
  | None, None =>
      match dropped (inner (unknown s)) with
      | Some _ => filed id s s' /\ announce_states s' = announce_states s /\ exists x, Subscribed.msg x = m /\
          lock (unknown s') = lock (unknown s) ++ [x]
      | None => refused id ServeErr.NotFound s s'
      end
  end.
Proof.
  intros Hd. cbv zeta. unfold recv_message. rewrite (surjective_pairing (recv_subscribe m s)). cbn [fst snd].
  unfold recv_subscribe. destruct (subscribed s !! Subscribes.Subscribe.id m) as [r0|] eqn:Hid; [by split|].
  unfold subscribed_new.
  pose proof (fresh_state (subscribed_states s)) as Hf.
  destruct (default_split SubscribedState.default (subscribed_states s)) as [[sh rh] sa]. simpl in Hf.
  set (x := Subscribed.mk sh m false _). set (h1 := with_subscribed _ _).
  change (announces h1) with (announces s). change (unknown h1) with (unknown s).
  change (announce_states h1) with (announce_states s).
  destruct (announces s !! Subscribes.Subscribe.track_namespace m) as [r|]; simpl.
  - unfold on_cell, AnnounceRecv.deliver, with_mut.
    set (c := cell_of (AnnounceRecv.state r) (announce_states s)).
    destruct (dropped (inner c)) as [u|]; simpl.
    + split; [done|]. split; [by split; [eexists|]|]. split; [done|]. exists x. split; [done|].
      by rewrite cell_put_eq.
    + split; [done|]. eapply (drop_refuses x (SubscribedRecv.mk rh)); try done. simpl. unfold lock. by rewrite Hf.
  - unfold Queue.push, with_mut. destruct (dropped (inner (unknown s))) as [u|]; simpl.
    + split; [done|]. split; [by split; [eexists|]|]. split; [done|]. by exists x.
    + unfold subscribed_close, on_cell, close_done, with_mut, lock. simpl. rewrite Hf. simpl.
      split; [done|]. eapply (drop_refuses x (SubscribedRecv.mk rh)); try done. simpl. by rewrite cell_put_eq.
Qed.

(** Why a subscription that was being served has ended: what closed it first, by
    the peer or by the error of the loop. *)
Definition ending (res : outcome SessionError unit) (c : Cell SubscribedState.t) : ServeError :=
  match SubscribedState.closed (lock c), res, dropped (inner c) with
  | Some err, _, _ => err
  | None, Err err, Some _ => SessionErr.into_serve session_string err
  | None, _, _ => ServeErr.Done
  end.

Lemma drop_done x s :
  Subscribed.ok x = true -> dropped (inner (outgoing s)) = Some tt ->
  let st := lock (cell_of (Subscribed.state x) (subscribed_states s)) in
  let err := default ServeErr.Done (SubscribedState.closed st) in
  subscribed (subscribed_drop x s) = delete (Subscribed.id x) (subscribed s) /\
  lock (outgoing (subscribed_drop x s)) = lock (outgoing s) ++
    [Message.SubscribeDone (SubscribeDone.mk (Subscribed.id x) (code err) (to_string err)
       (SubscribedState.max_group_id st))].
Proof.
  intros Hok Hd. unfold subscribed_drop, farewell. rewrite Hok. simpl. unfold drop_subscribe.
  destruct (subscribed s !! Subscribed.id x) as [r|] eqn:Hx; simpl;
    unfold Queue.push, with_mut; rewrite Hd; (split; [|done]); [done|]. by rewrite delete_id.
Qed.

Lemma close_done_lock err (c : Cell SubscribedState.t) :
  lock (snd (close_done err c)) =
  match closed (lock c), dropped (inner c) with
  | None, Some _ => set_closed (Some err) (lock c)
  | _, _ => lock c
  end.
Proof. unfold close_done, with_mut. destruct (closed (lock c)); [done|]. by destruct (dropped (inner c)). Qed.

Lemma subscribed_close_drop err x s :
  snd (subscribed_close err x s) =
  subscribed_drop x (with_subscribed_states (put (loc (Subscribed.state x))
    (snd (close_done err (cell_of (Subscribed.state x) (subscribed_states s)))) (subscribed_states s)) s).
Proof. unfold subscribed_close, on_cell. by destruct (close_done _ _). Qed.

(** When the loops that serve an accepted subscription have
    returned, whatever they return, it leaves the table and exactly one
    SUBSCRIBE_DONE is queued, with the code and the text of what ended it. *)
Theorem served_done res x s :
  Subscribed.ok x = true -> dropped (inner (outgoing s)) = Some tt ->
  let c := cell_of (Subscribed.state x) (subscribed_states s) in
  let err := ending res c in
  let s' := snd (serve_end res x s) in
  subscribed s' = delete (Subscribed.id x) (subscribed s) /\
  lock (outgoing s') = lock (outgoing s) ++
    [Message.SubscribeDone (SubscribeDone.mk (Subscribed.id x) (code err) (to_string err)
       (SubscribedState.max_group_id (lock c)))].
Proof.
  intros Hok Hd. cbv zeta. pose proof (drop_done x s Hok Hd) as H0. cbv zeta in H0. unfold ending.
  destruct res as [u|e|];
    [by simpl; destruct (SubscribedState.closed _)| |by simpl; destruct (SubscribedState.closed _)].
  set (err := SessionErr.into_serve session_string e).
  assert (H1 : snd (serve_end (Err e) x s) = snd (subscribed_close err x s))
    by (unfold serve_end; fold err; by destruct (subscribed_close err x s) as [[] ?]).
  rewrite H1, subscribed_close_drop. clear H0 H1. set (c := cell_of (Subscribed.state x) (subscribed_states s)).
  destruct (drop_done x (with_subscribed_states (put (loc (Subscribed.state x)) (snd (close_done err c))
    (subscribed_states s)) s) Hok Hd) as [H1 H2].
  split; [exact H1|]. rewrite H2. simpl. rewrite cell_put_eq, close_done_lock. simpl.
  destruct (SubscribedState.closed (lock c)) eqn:E; [by rewrite E|]. destruct (dropped (inner c)); [done|by rewrite E].
Qed.
End Display.

(** A SUBSCRIBE to a namespace nobody announces, to a half that has just been
    made, and the subscription once it has been taken and accepted. *)
Definition demo_subscribe : Subscribes.Subscribe.t :=
  Subscribes.Subscribe.mk 7 1 (Tuple.mk []) empty_string x00 GroupOrder.Publisher FilterType.LatestGroup
    None None Params.new.

Definition demo_half : t := new (snd Queue.new).

Definition demo_accepted : option (Subscribed.t * t) :=
  match subscribed_turn (snd (recv_message (fun _ => empty_string) (Subscriber.Subscribe demo_subscribe) demo_half)) with
  | (Queue.Return (Some x), s) => Some (snd (serve_begin (fun _ => empty_string) x s))
  | _ => None
  end.

Lemma subscribe_routed_witness :
  lock (unknown demo_half) = [] /\
  exists x, Subscribed.msg x = demo_subscribe /\
    lock (unknown (snd (recv_message (fun _ => empty_string) (Subscriber.Subscribe demo_subscribe) demo_half))) = [x].
Proof.
  split; [reflexivity|].
  destruct (subscribe_routed (fun _ => empty_string) demo_subscribe demo_half eq_refl) as (_ & _ & _ & H).
  exact H.
Defined.

Lemma served_done_witness :
  exists x s, demo_accepted = Some (x, s) /\
    Message.id <$> lock (outgoing s) = [4] /\
    let s' := snd (serve_end (fun _ => empty_string) (fun _ => empty_string) (Ok tt) x s) in
    lock (outgoing s') = lock (outgoing s) ++
      [Message.SubscribeDone (SubscribeDone.mk 7 0 empty_string None)].
Proof.
  destruct demo_accepted as [[x s]|] eqn:E; [|discriminate E]. exists x, s. split; [done|].
  assert (Ex : Subscribed.id x = 7 /\ Subscribed.ok x = true /\ dropped (inner (outgoing s)) = Some tt /\
    Message.id <$> lock (outgoing s) = [4] /\
    lock (cell_of (Subscribed.state x) (subscribed_states s)) = SubscribedState.default)
    by (vm_compute in E; injection E as <- <-; repeat split; vm_compute; reflexivity).
  destruct Ex as (Hid & Hok & Hd & Ho & Hl). split; [done|].
  destruct (served_done (fun _ => empty_string) (fun _ => empty_string) (Ok tt) x s Hok Hd) as [_ H].
  unfold ending in H. rewrite Hl, Hid in H. exact H.
Defined.
End PublisherHalf.
