(* ===== verification/Answers.v ===== *)
(** * Every subscription is answered

    The publisher half among the application, the tasks that serve tracks and the
    session's sending loop: a SUBSCRIBE that was accepted stays in the table until
    its [Subscribed] is dropped, and then exactly one SUBSCRIBE_DONE or
    SUBSCRIBE_ERROR is queued for it. *)
From Stdlib Require Import NArith Lia Bool.
From stdpp Require Import base list gmap option numbers.
From S2P Require Import Prelude Buffers VarInt Utf8 Coding Setup Data Announces Subscribes Messages.
From S2P Require Import Errors Streams Watch Serve Subgroup Groups StreamTrack Objects Tracks Serving.
From S2P Require Import Subscriptions SubscriberHalf PublisherHalf.
Import PublisherHalf.

#[local] Arguments N.modulo : simpl never.
#[local] Arguments N.pow : simpl never.
#[local] Arguments PublisherHalf.subscribed_drop : simpl never.
#[local] Arguments PublisherHalf.subscribed_close : simpl never.

Section Answers.
Context (to_string : ServeError -> String) (session_string : SessionError -> String).

#[local] Abbreviation subscribed_drop := (PublisherHalf.subscribed_drop to_string).
#[local] Abbreviation subscribed_close := (PublisherHalf.subscribed_close to_string).
#[local] Abbreviation drop_announce_handle := (PublisherHalf.drop_announce_handle to_string).
#[local] Abbreviation drop_announce := (PublisherHalf.drop_announce to_string).
#[local] Abbreviation send_message := (PublisherHalf.send_message to_string).
#[local] Abbreviation announce := (PublisherHalf.announce to_string).
#[local] Abbreviation announce_drop := (PublisherHalf.announce_drop to_string).
#[local] Abbreviation recv_message := (PublisherHalf.recv_message to_string).
#[local] Abbreviation recv_subscribe := (PublisherHalf.recv_subscribe to_string).
#[local] Abbreviation serve_begin := (PublisherHalf.serve_begin to_string).
#[local] Abbreviation serve_end := (PublisherHalf.serve_end to_string session_string).

(** ** Where subscriptions are *)

Definition ids (l : list Subscribed.t) : list N := Subscribed.id <$> l.

Definition keys (s : t) : list N := (map_to_list (subscribed s)).*1.

(** Those an announce has waiting, while somebody still holds it. *)
Definition waiting_in (c : Cell AnnounceState.t) : list Subscribed.t :=
  if decide (drops c = ∅) then [] else AnnounceState.subscribers (lock c).

Definition waiting (a : Arena AnnounceState.t) : list N :=
  concat ((fun l => ids (waiting_in (cells a l))) <$> seq 0 (next_cell a)).

(** The messages that end a subscription. *)
Definition final (m : Message.t) : list N :=
  match m with
  | Message.SubscribeDone m => [SubscribeDone.id m]
  | Message.SubscribeError m => [SubscribeError.id m]
  | _ => []
  end.

Definition finals (l : list Message.t) : list N := concat (final <$> l).

Definition no_last (m : Message.t) : Prop :=
  match m with Message.SubscribeDone m => SubscribeDone.last m = None | _ => True end.

Definition no_max (a : Arena SubscribedState.t) : Prop :=
  forall h, SubscribedState.max_group_id (lock (cell_of h a)) = None.

Definition open_out (s : t) : Prop := dropped (inner (outgoing s)) = Some tt.

Lemma finals_app l k : finals (l ++ k) = finals l ++ finals k.
Proof. unfold finals. by rewrite fmap_app, concat_app. Qed.

(** *** A waiting list is changed in one cell *)

Lemma concat_seq_split {A} (f : nat -> list A) n l :
  (l < n)%nat -> exists rest, concat (f <$> seq 0 n) ≡ₚ f l ++ rest /\
    forall g, (forall k, k <> l -> g k = f k) -> concat (g <$> seq 0 n) ≡ₚ g l ++ rest.
Proof.
  intros Hl. exists (concat (f <$> seq 0 l) ++ concat (f <$> seq (S l) (n - S l))).
  assert (E : seq 0 n = seq 0 l ++ l :: seq (S l) (n - S l)).
  { replace n with (l + S (n - S l))%nat at 1 by lia. by rewrite seq_app. }
  assert (H : forall g : nat -> list A, concat (g <$> seq 0 n) ≡ₚ g l ++ concat (g <$> seq 0 l) ++ concat (g <$> seq (S l) (n - S l))).
  { intros g. rewrite E, fmap_app, concat_app, fmap_cons. simpl.
    rewrite !app_assoc. apply Permutation_app_tail, Permutation_app_comm. }
  split; [apply H|]. intros g Hg. rewrite H.
  assert (Hext : forall k m, (l < k \/ k + m <= l)%nat -> g <$> seq k m = f <$> seq k m).
  { intros k m Hk. apply list_fmap_ext. intros i x Hx. apply lookup_seq in Hx as [-> Hx]. apply Hg. lia. }
  by rewrite !Hext by lia.
Qed.

Lemma waiting_put h c a :
  (loc h < next_cell a)%nat ->
  exists rest, waiting a ≡ₚ ids (waiting_in (cell_of h a)) ++ rest /\
    waiting (put (loc h) c a) ≡ₚ ids (waiting_in c) ++ rest.
Proof.
  intros Hl. destruct (concat_seq_split (fun l => ids (waiting_in (cells a l))) _ _ Hl) as (rest & H1 & H2).
  exists rest. split; [exact H1|]. unfold waiting.
  rewrite (H2 (fun l => ids (waiting_in (cells (put (loc h) c a) l)))).
  - unfold put. simpl. by rewrite decide_True.
  - intros k Hk. unfold put. simpl. by rewrite decide_False.
Qed.

Lemma waiting_same h c a :
  (loc h < next_cell a)%nat -> ids (waiting_in c) = ids (waiting_in (cell_of h a)) ->
  waiting (put (loc h) c a) ≡ₚ waiting a.
Proof. intros Hl E. destruct (waiting_put h c a Hl) as (rest & -> & ->). by rewrite E. Qed.

Lemma waiting_new v a : AnnounceState.subscribers v = [] -> waiting (snd (default_split v a)) ≡ₚ waiting a.
Proof.
  intros Hv. unfold waiting. change (next_cell (snd (default_split v a))) with (S (next_cell a)).
  rewrite seq_S, fmap_app, concat_app.
  assert (E : forall k, cells (snd (default_split v a)) k =
    if decide (k = next_cell a) then snd (split 0%nat (snd (state_new v))) else cells a k) by done.
  assert (H1 : (fun l => ids (waiting_in (cells (snd (default_split v a)) l))) <$> seq 0 (next_cell a) =
    (fun l => ids (waiting_in (cells a l))) <$> seq 0 (next_cell a)).
  { apply list_fmap_ext. intros i x Hx. apply lookup_seq in Hx as [-> Hx]. by rewrite E, decide_False by lia. }
  rewrite H1, fmap_cons, concat_cons, E, decide_True by lia.
  assert (H2 : ids (waiting_in (snd (split 0%nat (snd (state_new v))))) = []).
  { unfold waiting_in. destruct (decide _); [done|]. unfold lock. simpl. by rewrite Hv. }
  by rewrite H2, !app_nil_r.
Qed.

(** ** What an ending does *)

(** The subscriptions [gone] have left the table, each with its message. *)
Record moved (gone : list N) (s s' : t) : Prop := {
  mv_unknown : unknown s' = unknown s;
  mv_keys : keys s ≡ₚ gone ++ keys s';
  mv_out : exists ms, lock (outgoing s') = lock (outgoing s) ++ ms /\ finals ms = gone /\
    (no_max (subscribed_states s) -> Forall no_last ms);
  mv_open : open_out s';
  mv_max : no_max (subscribed_states s) -> no_max (subscribed_states s');
}.

Lemma moved_none s : open_out s -> moved [] s s.
Proof. intros Ho. split; [done|done| |done|done]. exists []. by rewrite app_nil_r. Qed.

Lemma moved_trans g1 g2 s1 s2 s3 : moved g1 s1 s2 -> moved g2 s2 s3 -> moved (g1 ++ g2) s1 s3.
Proof.
  intros [U1 K1 (m1 & L1 & F1 & N1) O1 M1] [U2 K2 (m2 & L2 & F2 & N2) O2 M2]. split.
  - by rewrite U2.
  - by rewrite K1, K2, app_assoc.
  - exists (m1 ++ m2). rewrite L2, L1, finals_app, F1, F2, app_assoc. split; [done|]. split; [done|].
    intros Hm. apply Forall_app. auto.
  - done.
  - auto.
Qed.

Lemma no_max_put h c a :
  no_max a -> SubscribedState.max_group_id (lock c) = None -> no_max (put (loc h) c a).
Proof.
  intros Ha Hc g. destruct (decide (loc g = loc h)) as [E|E]; [|by rewrite cell_put_ne].
  unfold cell_of. rewrite E. unfold put. cbn [cells]. by rewrite decide_True.
Qed.

Lemma no_max_drop h a : no_max a -> no_max (snd (drop_handle h a)).
Proof. intros Ha. apply no_max_put; [done|]. rewrite drop_state_lock. apply Ha. Qed.

(** Queueing a message, with the queue open. *)
Lemma push_out m s :
  open_out s ->
  let s' := with_outgoing (snd (Queue.push m (outgoing s))) s in
  lock (outgoing s') = lock (outgoing s) ++ [m] /\ open_out s'.
Proof.
  unfold open_out, Queue.push, with_mut. intros Ho. rewrite Ho. simpl. split; [done|exact Ho].
Qed.

Lemma moved_drop x s :
  open_out s -> Subscribed.id x ∈ keys s -> moved [Subscribed.id x] s (subscribed_drop x s).
Proof.
  intros Ho Hk. unfold keys in Hk. apply list_elem_of_fmap in Hk as ([i r] & Hi & Hr). simpl in Hi. subst i.
  apply elem_of_map_to_list in Hr. unfold PublisherHalf.subscribed_drop.
  set (m := farewell to_string x _).
  assert (Hm : finals [Publisher.into_message m] = [Subscribed.id x] /\
    (no_max (subscribed_states s) -> no_last (Publisher.into_message m))).
  { unfold m, farewell. destruct (Subscribed.ok x); simpl; (split; [done|]); [|done]. intros Hn. apply Hn. }
  set (s1 := drop_subscribe (Subscribed.id x) s).
  assert (Hs : send_with (fun _ s => s) m s = with_outgoing (snd (Queue.push (Publisher.into_message m) (outgoing s1))) s1).
  { unfold m, farewell, s1. by destruct (Subscribed.ok x). }
  rewrite Hs. clear Hs. clearbody m.
  assert (H1 : s1 = with_subscribed_states (snd (drop_handle (SubscribedRecv.state r) (subscribed_states s)))
    (with_subscribed (delete (Subscribed.id x) (subscribed s)) s)) by (unfold s1, drop_subscribe; by rewrite Hr).
  rewrite H1. clear H1 s1.
  match goal with |- context [with_outgoing _ ?y] => set (s1 := y) end.
  destruct (push_out (Publisher.into_message m) s1 Ho) as [Hl Hop]. destruct Hm as [Hf Hn]. split; simpl.
  - done.
  - unfold keys. simpl. rewrite <- (map_to_list_delete _ _ _ Hr). done.
  - exists [Publisher.into_message m]. split; [exact Hl|]. split; [done|]. intros Hx. by constructor; [apply Hn|].
  - exact Hop.
  - intros Hx. by apply no_max_drop, no_max_drop.
Qed.

Lemma moved_close err x s :
  open_out s -> Subscribed.id x ∈ keys s -> moved [Subscribed.id x] s (snd (subscribed_close err x s)).
Proof.
  intros Ho Hk. unfold PublisherHalf.subscribed_close, on_cell.
  destruct (close_done err _) as [r c] eqn:E. simpl.
  set (s1 := with_subscribed_states _ s).
  assert (Hmax : no_max (subscribed_states s) -> no_max (subscribed_states s1)).
  { intros Hx. apply no_max_put; [done|]. specialize (Hx (Subscribed.state x)).
    replace c with (snd (close_done err (cell_of (Subscribed.state x) (subscribed_states s)))) by (by rewrite E).
    unfold close_done, with_mut. destruct (closed _); [done|]. by destruct (dropped _). }
  destruct (moved_drop x s1 Ho Hk) as [U K (ms & L & F & N) O M]. split; try done; auto.
  exists ms. auto.
Qed.

(** The announces and their states have no part in it. *)
Definition announced_part (s : t) : gmap Tuple.t AnnounceRecv.t * Arena AnnounceState.t :=
  (announces s, announce_states s).

Lemma drop_part x s : announced_part (subscribed_drop x s) = announced_part s.
Proof.
  unfold PublisherHalf.subscribed_drop, farewell, send_with, drop_subscribe. simpl.
  destruct (Subscribed.ok x); simpl; by destruct (subscribed s !! _).
Qed.

Lemma close_part err x s : announced_part (snd (subscribed_close err x s)) = announced_part s.
Proof.
  unfold PublisherHalf.subscribed_close, on_cell. destruct (close_done _ _). simpl. by rewrite drop_part.
Qed.

Lemma moved_all xs rest s :
  open_out s -> keys s ≡ₚ ids xs ++ rest ->
  let s' := fold_left (fun s x => snd (subscribed_close ServeErr.NotFound x s)) xs s in
  moved (ids xs) s s' /\ announced_part s' = announced_part s.
Proof.
  revert s. induction xs as [|x xs IH]; intros s Ho Hk; [by split; [apply moved_none|]|]. simpl.
  assert (Hm : moved [Subscribed.id x] s (snd (subscribed_close ServeErr.NotFound x s))).
  { apply moved_close; [done|]. rewrite Hk. simpl. by left. }
  destruct (IH (snd (subscribed_close ServeErr.NotFound x s))) as [IH1 IH2].
  - apply Hm.
  - pose proof (mv_keys _ _ _ Hm) as K. rewrite Hk in K. simpl in K. by apply (inj _) in K.
  - split; [|by rewrite IH2, close_part]. exact (moved_trans [Subscribed.id x] _ _ _ _ Hm IH1).
Qed.

(** ** The half at work *)

(** With the subscriptions and announces the application holds, the messages the
    session has taken off the queue, and the numbers of the subscriptions the half
    has accepted, the last two as ghosts. *)
Record Sys := {
  half_ : t;
  held : list Subscribed.t;
  mine : list Announce.t;
  taken : list Message.t;
  accepted : list N;
}.

Definition with_half (h : t) (s : Sys) : Sys :=
  {| half_ := h; held := held s; mine := mine s; taken := taken s; accepted := accepted s |}.
Definition with_held (l : list Subscribed.t) (s : Sys) : Sys :=
  {| half_ := half_ s; held := l; mine := mine s; taken := taken s; accepted := accepted s |}.
Definition with_mine (l : list Announce.t) (s : Sys) : Sys :=
  {| half_ := half_ s; held := held s; mine := l; taken := taken s; accepted := accepted s |}.
Definition accept (l : list N) (s : Sys) : Sys :=
  {| half_ := half_ s; held := held s; mine := mine s; taken := taken s; accepted := accepted s ++ l |}.

(** A SUBSCRIBE with a number that is not in use. *)
Definition fresh_ids (msg : Subscriber.t) (s : t) : list N :=
  match msg with
  | Subscriber.Subscribe m =>
      match subscribed s !! Subscribes.Subscribe.id m with
      | Some _ => []
      | None => [Subscribes.Subscribe.id m]
      end
  | _ => []
  end.

Inductive step : Sys -> Sys -> Prop :=
  | do_message s msg :
      step s (accept (fresh_ids msg (half_ s)) (with_half (snd (recv_message msg (half_ s))) s))
  | do_unknown s :
      step s (let (r, h) := subscribed_turn (half_ s) in
              with_half h match r with Queue.Return (Some x) => with_held (held s ++ [x]) s | _ => s end)
  | do_take s a :
      a ∈ mine s ->
      step s (let (r, h) := announce_subscribed_turn a (half_ s) in
              with_half h match r with Return (Ok (Some x)) => with_held (held s ++ [x]) s | _ => s end)
  | do_status s a :
      a ∈ mine s -> step s (with_half (snd (announce_status_turn a (half_ s))) s)
  | do_drop s l x k :
      held s = l ++ x :: k -> step s (with_held (l ++ k) (with_half (subscribed_drop x (half_ s)) s))
  | do_close s l x k err :
      held s = l ++ x :: k -> step s (with_held (l ++ k) (with_half (snd (subscribed_close err x (half_ s))) s))
  | do_serve s l x k :
      held s = l ++ x :: k ->
      step s (let '(_, (x, h)) := serve_begin x (half_ s) in with_held (l ++ x :: k) (with_half h s))
  | do_served s l x k res :
      held s = l ++ x :: k -> step s (with_held (l ++ k) (with_half (snd (serve_end res x (half_ s))) s))
  | do_update s h group object :
      step s (with_half (with_subscribed_states
        (snd (on_cell h (update group object) (subscribed_states (half_ s)))) (half_ s)) s)
  | do_handles s a :
      all_stay (subscribed_states (half_ s)) a -> step s (with_half (with_subscribed_states a (half_ s)) s)
  | do_store s x : step s (with_half (with_store x (half_ s)) s)
  | do_track_status s request tracks :
      step s (with_half (snd (serve_track_status to_string request tracks (half_ s))) s)
  | do_announce s namespace :
      step s (let (r, h) := announce namespace (half_ s) in
              with_half h match r with Ok a => with_mine (mine s ++ [a]) s | _ => s end)
  | do_unannounce s l a k :
      mine s = l ++ a :: k -> step s (with_mine (l ++ k) (with_half (announce_drop a (half_ s)) s))
  | do_send s :
      step s (let (r, q) := Queue.pop_turn (outgoing (half_ s)) in
              let s' := with_half (with_outgoing q (half_ s)) s in
              {| half_ := half_ s'; held := held s'; mine := mine s';
                 taken := taken s ++ match r with Queue.Return (Some m) => [m] | _ => [] end;
                 accepted := accepted s' |}).

Definition start (q : Cell (list Message.t)) : Sys :=
  {| half_ := new q; held := []; mine := []; taken := []; accepted := [] |}.

(** Everybody who holds an announce state: entries of the table have its second
    half, the application its first. *)
Record handles (ann : gmap Tuple.t AnnounceRecv.t) (mine : list Announce.t) (a : Arena AnnounceState.t) : Prop := {
  hd_entry : forall n r, ann !! n = Some r ->
    half (AnnounceRecv.state r) = 1%nat /\ (loc (AnnounceRecv.state r) < next_cell a)%nat /\
    drops (cell_of (AnnounceRecv.state r) a) !! 1%nat = Some 1%nat;
  hd_mine : forall x, x ∈ mine ->
    half (Announce.state x) = 0%nat /\ (loc (Announce.state x) < next_cell a)%nat /\
    drops (cell_of (Announce.state x) a) !! 0%nat = Some 1%nat;
  hd_entries : forall n n' r r', ann !! n = Some r -> ann !! n' = Some r' ->
    loc (AnnounceRecv.state r) = loc (AnnounceRecv.state r') -> n = n';
  hd_nodup : NoDup ((fun x => loc (Announce.state x)) <$> mine);
}.

Record inv (s : Sys) : Prop := {
  inv_open : open_out (half_ s);
  inv_handles : handles (announces (half_ s)) (mine s) (announce_states (half_ s));
  inv_live : ids (lock (unknown (half_ s))) ++ waiting (announce_states (half_ s)) ++ ids (held s) ≡ₚ keys (half_ s);
  inv_finals : finals (taken s ++ lock (outgoing (half_ s))) ++ keys (half_ s) ≡ₚ accepted s;
  inv_max : no_max (subscribed_states (half_ s));
  inv_last : Forall no_last (taken s ++ lock (outgoing (half_ s)));
}.

(** *** Changing announce states *)

Section Handles.
Context (ann : gmap Tuple.t AnnounceRecv.t) (mn : list Announce.t) (a : Arena AnnounceState.t)
  (Hh : handles ann mn a).

Lemma handles_put h c :
  drops c = drops (cell_of h a) -> handles ann mn (put (loc h) c a).
Proof.
  intros Hd. assert (Hc : forall g, drops (cell_of g (put (loc h) c a)) = drops (cell_of g a)).
  { intros g. destruct (decide (loc g = loc h)) as [E|E]; [|by rewrite cell_put_ne].
    unfold cell_of in *. rewrite E. unfold put. cbn [cells]. by rewrite decide_True. }
  destruct Hh as [H1 H2 H3 H4]. split; [|..|done|done].
  - intros n r Hr. rewrite Hc. by eapply H1.
  - intros x Hx. rewrite Hc. by apply H2.
Qed.

Lemma handles_delete n : handles (delete n ann) mn a.
Proof.
  destruct Hh as [H1 H2 H3 H4]. split; [|done| |done].
  - intros k r Hk. apply lookup_delete_Some in Hk as [_ Hk]. by eapply H1.
  - intros k k' r r' Hk Hk'. apply lookup_delete_Some in Hk as [_ Hk], Hk' as [_ Hk']. by eapply H3.
Qed.

(** An entry's half goes. *)
Lemma handles_drop_entry n r :
  ann !! n = Some r ->
  handles (delete n ann) mn (put (loc (AnnounceRecv.state r))
    (drop_state 1%nat (cell_of (AnnounceRecv.state r) a)) a).
Proof.
  intros Hr. destruct (handles_delete n) as [H1 H2 H3 H4]. split; [| |done|done].
  - intros k x Hk. destruct (H1 k x Hk) as (? & ? & ?). split; [done|]. split; [done|].
    rewrite cell_put_ne; [done|]. intros E. apply lookup_delete_Some in Hk as [Hne Hk].
    apply Hne. by eapply (hd_entries _ _ _ Hh).
  - intros x Hx. destruct (H2 x Hx) as (? & ? & ?). split; [done|]. split; [done|].
    destruct (decide (loc (Announce.state x) = loc (AnnounceRecv.state r))) as [E|E]; [|by rewrite cell_put_ne].
    unfold cell_of in *. rewrite E in *. unfold put. cbn [cells]. rewrite decide_True by done.
    by rewrite drop_state_other.
Qed.
End Handles.

(** An announce of the application goes. *)
Lemma handles_drop_mine ann l x k a :
  handles ann (l ++ x :: k) a ->
  handles ann (l ++ k) (put (loc (Announce.state x)) (drop_state 0%nat (cell_of (Announce.state x) a)) a).
Proof.
  intros [H1 H2 H3 H4]. split; [| |done|].
  - intros n r Hr. destruct (H1 n r Hr) as (? & ? & ?). split; [done|]. split; [done|].
    destruct (decide (loc (AnnounceRecv.state r) = loc (Announce.state x))) as [E|E]; [|by rewrite cell_put_ne].
    unfold cell_of in *. rewrite E in *. unfold put. cbn [cells]. rewrite decide_True by done.
    by rewrite drop_state_other.
  - intros y Hy. assert (Hin : y ∈ l ++ x :: k)
      by (apply elem_of_app in Hy; rewrite elem_of_app, elem_of_cons; tauto).
    destruct (H2 y Hin) as (? & ? & ?). split; [done|]. split; [done|].
    rewrite cell_put_ne; [done|]. intros E. rewrite <- Permutation_middle in H4. simpl in H4.
    apply NoDup_cons in H4 as [Hn _]. apply Hn. rewrite <- E. apply list_elem_of_fmap. eauto.
  - rewrite <- Permutation_middle in H4. simpl in H4. by apply NoDup_cons in H4 as [_ H4].
Qed.

(** *** The invariant is kept *)

Lemma inv_moved s gone h' held' mine' :
  inv s -> moved gone (half_ s) h' -> handles (announces h') mine' (announce_states h') ->
  waiting (announce_states (half_ s)) ++ ids (held s) ≡ₚ gone ++ waiting (announce_states h') ++ ids held' ->
  inv {| half_ := h'; held := held'; mine := mine'; taken := taken s; accepted := accepted s |}.
Proof.
  intros [Ho Hh Hl Hf Hm Hn] [U K (ms & L & F & N) O M] Hh' Hw. split; simpl; try done.
  - rewrite U. rewrite Hw, K in Hl. apply (Permutation_app_inv_l gone). rewrite <- Hl.
    rewrite !app_assoc. f_equiv. f_equiv. apply Permutation_app_comm.
  - rewrite L, app_assoc, finals_app, F, <- app_assoc. by rewrite <- K.
  - auto.
  - rewrite L, app_assoc. apply Forall_app. auto.
Qed.

(** Nothing ends. *)
Lemma inv_quiet s h' :
  inv s -> subscribed h' = subscribed (half_ s) -> unknown h' = unknown (half_ s) ->
  (exists ms, lock (outgoing h') = lock (outgoing (half_ s)) ++ ms /\ finals ms = [] /\ Forall no_last ms) ->
  open_out h' -> no_max (subscribed_states h') ->
  handles (announces h') (mine s) (announce_states h') ->
  waiting (announce_states h') ≡ₚ waiting (announce_states (half_ s)) ->
  inv (with_half h' s).
Proof.
  intros Hi Hs Hu (ms & L & F & N) Ho Hm Hh Hw. apply (inv_moved s []); [done| |done|by rewrite Hw].
  split; [done| |by eexists|done|done]. unfold keys. by rewrite Hs.
Qed.

Lemma inv_states s a :
  inv s -> handles (announces (half_ s)) (mine s) a -> waiting a ≡ₚ waiting (announce_states (half_ s)) ->
  inv (with_half (with_announce_states a (half_ s)) s).
Proof.
  intros Hi Hh Hw. apply inv_quiet; try done; [|apply Hi..]. exists []. by rewrite app_nil_r.
Qed.

(** A change of an announce state that somebody holds. *)
Lemma inv_cell s h c :
  inv s -> (loc h < next_cell (announce_states (half_ s)))%nat ->
  drops c = drops (cell_of h (announce_states (half_ s))) ->
  AnnounceState.subscribers (lock c) =
    AnnounceState.subscribers (lock (cell_of h (announce_states (half_ s)))) ->
  inv (with_half (with_announce_states (put (loc h) c (announce_states (half_ s))) (half_ s)) s).
Proof.
  intros Hi Hl Hd Hs. apply inv_states; [done| |].
  - apply handles_put; [apply Hi|done].
  - apply waiting_same; [done|]. unfold waiting_in. by rewrite Hd, Hs.
Qed.

Lemma inv_subscribed_states s a :
  inv s -> no_max a -> inv (with_half (with_subscribed_states a (half_ s)) s).
Proof. intros Hi Ha. apply inv_quiet; try done; [|apply Hi..]. exists []. by rewrite app_nil_r. Qed.

(** A handle on an announce state goes, and with the last one what waits there. *)
Lemma drop_handle_moved h s rest :
  open_out s -> (loc h < next_cell (announce_states s))%nat ->
  drops (cell_of h (announce_states s)) !! half h = Some 1%nat ->
  keys s ≡ₚ waiting (announce_states s) ++ rest ->
  let s' := drop_announce_handle h s in
  let a' := put (loc h) (drop_state (half h) (cell_of h (announce_states s))) (announce_states s) in
  announced_part s' = (announces s, a') /\
  exists gone, moved gone s s' /\ waiting (announce_states s) ≡ₚ gone ++ waiting a'.
Proof.
  intros Ho Hl Hd Hk. cbv zeta. unfold PublisherHalf.drop_announce_handle, drop_handle.
  set (c := cell_of h (announce_states s)) in *. set (a' := put _ _ _).
  assert (Hne : waiting_in c = AnnounceState.subscribers (lock c)).
  { unfold waiting_in. rewrite decide_False; [done|]. intros E. by rewrite E in Hd. }
  destruct (waiting_put h (drop_state (half h) c) (announce_states s) Hl) as (w & Hw & Hw'). fold c a' in Hw, Hw'.
  rewrite Hne in Hw. rewrite drop_state_lock. unfold waiting_in in Hw'. rewrite drop_state_lock in Hw'.
  destruct (decide (drops (drop_state (half h) c) = ∅)) as [E|E]; simpl.
  - destruct (moved_all (AnnounceState.subscribers (lock c)) (w ++ rest) (with_announce_states a' s) Ho)
      as [Hm Hp]; [by rewrite app_assoc, <- Hw|].
    split; [by rewrite Hp|]. exists (ids (AnnounceState.subscribers (lock c))). split; [|by rewrite Hw, Hw'].
    by destruct Hm; split.
  - split; [done|]. exists []. split; [by destruct (moved_none s Ho); split|]. by rewrite Hw, Hw'.
Qed.

Lemma inv_keys s : inv s ->
  keys (half_ s) ≡ₚ waiting (announce_states (half_ s)) ++ ids (held s) ++ ids (lock (unknown (half_ s))).
Proof. intros Hi. rewrite <- (inv_live _ Hi), Permutation_app_comm. by rewrite app_assoc. Qed.

(** Taking an entry out of the table of announces and dropping it. *)
Lemma inv_drop_entry s n r h1 :
  inv s -> announces (half_ s) !! n = Some r ->
  h1 = with_announces (delete n (announces (half_ s))) (half_ s) ->
  inv (with_half (drop_announce_handle (AnnounceRecv.state r) h1) s).
Proof.
  intros Hi Hr ->. destruct (hd_entry _ _ _ (inv_handles _ Hi) n r Hr) as (Hh & Hl & Hd).
  destruct (drop_handle_moved (AnnounceRecv.state r)
    (with_announces (delete n (announces (half_ s))) (half_ s)) (ids (held s) ++ ids (lock (unknown (half_ s))))
    (inv_open _ Hi) Hl) as (Hp & gone & Hm & Hw); [by rewrite Hh|apply inv_keys, Hi|].
  unfold announced_part in Hp. injection Hp as Hpa Hps. simpl in Hpa, Hps.
  apply (inv_moved s gone); [done|by destruct Hm; split| |].
  - rewrite Hpa, Hps, Hh. by apply handles_drop_entry; [apply Hi|].
  - rewrite Hps. simpl in Hw. by rewrite Hw, app_assoc.
Qed.

Lemma inv_end_announce s n err :
  inv s -> inv (with_half (snd (end_announce to_string n err (half_ s))) s).
Proof.
  intros Hi. unfold end_announce. destruct (announces (half_ s) !! n) as [r|] eqn:Hr; [|by destruct s].
  destruct (hd_entry _ _ _ (inv_handles _ Hi) n r Hr) as (Hh & Hl & Hd).
  unfold on_cell. destruct (close_done err _) as [o c] eqn:E. simpl.
  set (s1 := with_half (with_announce_states (put (loc (AnnounceRecv.state r)) c (announce_states (half_ s))) (half_ s)) s).
  assert (H1 : inv s1).
  { apply inv_cell; [done|done|..];
      replace c with (snd (close_done err (cell_of (AnnounceRecv.state r) (announce_states (half_ s)))))
        by (exact (f_equal snd E));
      unfold close_done, with_mut; (destruct (closed _); [done|]); by destruct (dropped _). }
  exact (inv_drop_entry s1 n r _ H1 Hr eq_refl).
Qed.

Lemma inv_deliver s n r f :
  inv s -> announces (half_ s) !! n = Some r ->
  (forall st, AnnounceState.subscribers (f st) = AnnounceState.subscribers st) ->
  inv (with_half (with_announce_states
    (snd (on_cell (AnnounceRecv.state r) (AnnounceRecv.deliver f) (announce_states (half_ s)))) (half_ s)) s).
Proof.
  intros Hi Hr Hf. destruct (hd_entry _ _ _ (inv_handles _ Hi) n r Hr) as (Hh & Hl & Hd).
  unfold on_cell, AnnounceRecv.deliver, with_mut.
  set (c := cell_of (AnnounceRecv.state r) (announce_states (half_ s))).
  destruct (dropped (inner c)); simpl; (apply inv_cell; [done|done|done|]); [apply Hf|done].
Qed.

(** A subscription that has just been put into the table, [s1], is taken by
    nobody and dropped again. *)
Lemma moved_new m s h1 x :
  open_out s -> subscribed s !! Subscribes.Subscribe.id m = None -> Subscribed.id x = Subscribes.Subscribe.id m ->
  keys h1 ≡ₚ Subscribes.Subscribe.id m :: keys s -> open_out h1 ->
  forall err, moved [Subscribes.Subscribe.id m] h1 (subscribed_drop x h1) /\
    moved [Subscribes.Subscribe.id m] h1 (snd (subscribed_close err x h1)).
Proof.
  intros Ho Hn Hx Hk Ho1 err. rewrite <- Hx in *.
  assert (Hin : Subscribed.id x ∈ keys h1) by (rewrite Hk; by left).
  split; [by apply moved_drop|by apply moved_close].
Qed.

Lemma no_max_new a : no_max a -> no_max (snd (default_split SubscribedState.default a)).
Proof.
  intros Ha g. unfold cell_of. simpl. unfold put. simpl. destruct (decide (loc g = next_cell a)); [done|apply Ha].
Qed.

(** A new subscription has found its place. *)
Lemma inv_added s id recv h' :
  inv s -> subscribed (half_ s) !! id = None -> subscribed h' = <[id := recv]> (subscribed (half_ s)) ->
  outgoing h' = outgoing (half_ s) -> no_max (subscribed_states h') ->
  handles (announces h') (mine s) (announce_states h') ->
  ids (lock (unknown h')) ++ waiting (announce_states h') ≡ₚ
    id :: ids (lock (unknown (half_ s))) ++ waiting (announce_states (half_ s)) ->
  inv (accept [id] (with_half h' s)).
Proof.
  intros [Ho Hh Hl Hf Hm Hn] Hid Hs Hout Hm' Hh' Hw.
  assert (Hk : keys h' ≡ₚ id :: keys (half_ s)) by (unfold keys; rewrite Hs, map_to_list_insert by done; done).
  split; simpl; try done.
  - unfold open_out. by rewrite Hout.
  - by rewrite app_assoc, Hw, Hk, <- Hl, <- app_comm_cons, app_assoc.
  - rewrite Hout, Hk, <- Hf, <- Permutation_middle, <- Permutation_cons_append. done.
  - by rewrite Hout.
Qed.

(** It has not, and is answered at once. *)
Lemma inv_bounced s id recv h1 h2 :
  inv s -> subscribed (half_ s) !! id = None -> subscribed h1 = <[id := recv]> (subscribed (half_ s)) ->
  outgoing h1 = outgoing (half_ s) -> no_max (subscribed_states h1) -> unknown h1 = unknown (half_ s) ->
  moved [id] h1 h2 ->
  handles (announces h2) (mine s) (announce_states h2) ->
  waiting (announce_states h2) ≡ₚ waiting (announce_states (half_ s)) ->
  inv (accept [id] (with_half h2 s)).
Proof.
  intros [Ho Hh Hl Hf Hm Hn] Hid Hs Hout Hm1 Hu [U K (ms & L & F & N) O M] Hh' Hw.
  assert (Hk : keys h2 ≡ₚ keys (half_ s)).
  { apply (inj (cons id)). rewrite <- K. unfold keys. rewrite Hs, map_to_list_insert by done. done. }
  split; simpl; try done.
  - by rewrite U, Hu, Hw, Hk.
  - rewrite L, Hout, app_assoc, finals_app, F, Hk, <- Hf, <- app_assoc. simpl.
    by rewrite <- Permutation_middle, <- Permutation_cons_append.
  - auto.
  - rewrite L, Hout, app_assoc. apply Forall_app. auto.
Qed.

Lemma inv_recv_subscribe s m :
  inv s ->
  inv (accept (fresh_ids (Subscriber.Subscribe m) (half_ s)) (with_half (snd (recv_subscribe m (half_ s))) s)).
Proof.
  intros Hi. unfold PublisherHalf.recv_subscribe. simpl fresh_ids.
  destruct (subscribed (half_ s) !! Subscribes.Subscribe.id m) as [r0|] eqn:Hid.
  { destruct Hi as [Ho Hh Hl Hf Hm Hn]. split; simpl; try done. by rewrite app_nil_r. }
  unfold subscribed_new.
  pose proof (no_max_new _ (inv_max _ Hi)) as Hmax.
  destruct (default_split SubscribedState.default (subscribed_states (half_ s))) as [[sh rh] sa]. simpl in Hmax.
  set (x := Subscribed.mk sh m false _). set (recv := SubscribedRecv.mk rh).
  set (h1 := with_subscribed _ _).
  assert (Hk1 : keys h1 ≡ₚ Subscribes.Subscribe.id m :: keys (half_ s))
    by (unfold keys; simpl; rewrite map_to_list_insert by done; done).
  destruct (moved_new m (half_ s) h1 x (inv_open _ Hi) Hid eq_refl Hk1 (inv_open _ Hi) ServeErr.NotFound)
    as [Hdrop Hclose].
  change (announces h1) with (announces (half_ s)).
  destruct (announces (half_ s) !! Subscribes.Subscribe.track_namespace m) as [r|] eqn:Hr.
  - destruct (hd_entry _ _ _ (inv_handles _ Hi) _ r Hr) as (Hh & Hl & Hd).
    unfold on_cell, AnnounceRecv.deliver, with_mut.
    change (announce_states h1) with (announce_states (half_ s)).
    set (c := cell_of (AnnounceRecv.state r) (announce_states (half_ s))).
    destruct (dropped (inner c)) as [u|] eqn:Hdr; simpl.
    + eapply (inv_added s _ recv); [done|done|done|done|done|by apply handles_put; [apply Hi|]|]. simpl.
      match goal with |- context [waiting (put _ ?c' _)] =>
        destruct (waiting_put (AnnounceRecv.state r) c' (announce_states (half_ s)) Hl) as (w & Hw & ->) end.
      rewrite Hw. fold c. unfold waiting_in. simpl.
      rewrite decide_False by (intros E; fold c in Hd; by rewrite E in Hd).
      rewrite decide_False by (intros E; fold c in Hd; by rewrite E in Hd).
      unfold lock, AnnounceState.push_subscriber, ids. simpl. rewrite fmap_app. simpl.
      rewrite <- !app_assoc. simpl. rewrite <- !Permutation_middle. done.
    + pose proof (drop_part x (with_announce_states (put (loc (AnnounceRecv.state r)) c (announce_states (half_ s))) h1)) as Hp.
      pose proof (f_equal fst Hp) as Hpa. pose proof (f_equal snd Hp) as Hps.
      cbn [fst snd announced_part] in Hpa, Hps.
      apply (inv_bounced s _ recv (with_announce_states (put (loc (AnnounceRecv.state r)) c (announce_states (half_ s))) h1));
        try done.
      * apply (moved_drop x (with_announce_states (put (loc (AnnounceRecv.state r)) c
          (announce_states (half_ s))) h1)); [apply (inv_open _ Hi)|].
        change (Subscribes.Subscribe.id m ∈ keys h1). rewrite Hk1. by left.
      * rewrite Hpa, Hps. by apply handles_put; [apply Hi|].
      * rewrite Hps. by apply waiting_same.
  - unfold Queue.push, with_mut. change (unknown h1) with (unknown (half_ s)).
    destruct (dropped (inner (unknown (half_ s)))) as [u|] eqn:Hdr; simpl.
    + eapply (inv_added s _ recv); [done|done|done|done|done|apply Hi|]. simpl. unfold lock, ids. simpl.
      rewrite fmap_app. simpl. rewrite <- app_assoc. simpl. by rewrite <- Permutation_middle.
    + change (with_unknown (unknown (half_ s)) h1) with h1. rewrite (surjective_pairing (subscribed_close _ x h1)).
      simpl. pose proof (close_part ServeErr.NotFound x h1) as Hp.
      pose proof (f_equal fst Hp) as Hpa. pose proof (f_equal snd Hp) as Hps.
      cbn [fst snd announced_part] in Hpa, Hps.
      apply (inv_bounced s _ recv h1); try done.
      * rewrite Hpa, Hps. apply Hi.
      * by rewrite Hps.
Qed.

Lemma inv_same s : inv s -> inv (with_half (half_ s) s).
Proof. by destruct s. Qed.

Lemma inv_accept_nil s : inv s -> inv (accept [] s).
Proof. intros [Ho Hh Hl Hf Hm Hn]. split; simpl; try done. by rewrite app_nil_r. Qed.

Lemma inv_recv_announce_ok s m : inv s -> inv (with_half (snd (recv_announce_ok m (half_ s))) s).
Proof.
  intros Hi. unfold recv_announce_ok.
  destruct (announces (half_ s) !! AnnounceOk.namespace m) as [r|] eqn:Hr; [|by apply inv_same].
  destruct (hd_entry _ _ _ (inv_handles _ Hi) _ r Hr) as (Hh & Hl & Hd).
  unfold on_cell, AnnounceRecv.recv_ok, with_mut.
  destruct (dropped _); [|by apply inv_cell]. destruct (AnnounceState.ok _); by apply inv_cell.
Qed.

Lemma inv_recv_unsubscribe s m : inv s -> inv (with_half (snd (recv_unsubscribe m (half_ s))) s).
Proof.
  intros Hi. unfold recv_unsubscribe.
  destruct (subscribed (half_ s) !! Unsubscribe.id m) as [r|] eqn:Hr; [|by apply inv_same].
  unfold on_cell. destruct (recv_unsubscribe_cell _) as [res c] eqn:E. simpl.
  apply inv_subscribed_states; [done|]. apply no_max_put; [apply Hi|].
  pose proof (inv_max _ Hi (SubscribedRecv.state r)) as Hx.
  replace c with (snd (recv_unsubscribe_cell (cell_of (SubscribedRecv.state r) (subscribed_states (half_ s)))))
    by (exact (f_equal snd E)).
  unfold recv_unsubscribe_cell, with_mut. destruct (closed _); [done|]. by destruct (dropped _).
Qed.

Lemma inv_recv_track_status s m : inv s -> inv (with_half (snd (recv_track_status_request m (half_ s))) s).
Proof.
  intros Hi. unfold recv_track_status_request.
  destruct (announces (half_ s) !! TrackStatusRequest.track_namespace m) as [r|] eqn:Hr; [|by apply inv_same].
  pose proof (inv_deliver s _ r (AnnounceState.push_status (TrackStatusRequested.new m)) Hi Hr (fun _ => eq_refl)) as H.
  by destruct (on_cell _ _ _).
Qed.

Lemma inv_message s msg :
  inv s -> inv (accept (fresh_ids msg (half_ s)) (with_half (snd (recv_message msg (half_ s))) s)).
Proof.
  intros Hi. unfold PublisherHalf.recv_message.
  destruct msg; try (apply inv_accept_nil; by apply inv_same).
  - rewrite (surjective_pairing (recv_announce_ok _ _)). by apply inv_accept_nil, inv_recv_announce_ok.
  - rewrite (surjective_pairing (recv_announce_error _ _ _)). by apply inv_accept_nil, inv_end_announce.
  - rewrite (surjective_pairing (recv_announce_cancel _ _ _)). by apply inv_accept_nil, inv_end_announce.
  - rewrite (surjective_pairing (PublisherHalf.recv_subscribe _ _ _)). by apply inv_recv_subscribe.
  - rewrite (surjective_pairing (recv_unsubscribe _ _)). by apply inv_accept_nil, inv_recv_unsubscribe.
  - rewrite (surjective_pairing (recv_track_status_request _ _)). by apply inv_accept_nil, inv_recv_track_status.
Qed.

(** Somebody takes a subscription out of a queue. *)
Lemma inv_taken s h' held' :
  inv s -> subscribed h' = subscribed (half_ s) -> outgoing h' = outgoing (half_ s) ->
  subscribed_states h' = subscribed_states (half_ s) ->
  handles (announces h') (mine s) (announce_states h') ->
  ids (lock (unknown h')) ++ waiting (announce_states h') ++ ids held' ≡ₚ
    ids (lock (unknown (half_ s))) ++ waiting (announce_states (half_ s)) ++ ids (held s) ->
  inv (with_half h' (with_held held' s)).
Proof.
  intros [Ho Hh Hl Hf Hm Hn] Hs Hout Hst Hh' Hw. split; simpl.
  - unfold open_out. by rewrite Hout.
  - done.
  - rewrite Hw, Hl. unfold keys. by rewrite Hs.
  - rewrite Hout. unfold keys. by rewrite Hs.
  - by rewrite Hst.
  - by rewrite Hout.
Qed.

Lemma with_held_same s : with_held (held s) s = s.
Proof. by destruct s. Qed.

Lemma ids_snoc l x : ids (l ++ [x]) = ids l ++ [Subscribed.id x].
Proof. unfold ids. by rewrite fmap_app. Qed.

Lemma inv_unknown s :
  inv s ->
  inv (let (r, h) := subscribed_turn (half_ s) in
       with_half h match r with Queue.Return (Some x) => with_held (held s ++ [x]) s | _ => s end).
Proof.
  intros Hi. unfold subscribed_turn, Queue.pop_turn, with_mut.
  assert (Hsame : inv (with_half (with_unknown (unknown (half_ s)) (half_ s)) s))
    by (destruct s as [[] ? ? ? ?]; exact Hi).
  destruct (lock (unknown (half_ s))) as [|x q] eqn:Hq; [by destruct (modified _)|].
  pose proof Hq as Hv. unfold lock in Hv. rewrite Hv. simpl.
  destruct (dropped _); [|done].
  apply inv_taken; [done..|apply Hi|]. rewrite Hq, ids_snoc. unfold lock. simpl. rewrite !(Permutation_app_comm (ids (held s))). simpl.
  by rewrite <- !Permutation_middle.
Qed.

Lemma waiting_held h a n :
  drops (cell_of h a) !! n = Some 1%nat -> waiting_in (cell_of h a) = AnnounceState.subscribers (lock (cell_of h a)).
Proof. intros Hd. unfold waiting_in. rewrite decide_False; [done|]. intros E. by rewrite E in Hd. Qed.

Lemma inv_take s a :
  inv s -> a ∈ mine s ->
  inv (let (r, h) := announce_subscribed_turn a (half_ s) in
       with_half h match r with Return (Ok (Some x)) => with_held (held s ++ [x]) s | _ => s end).
Proof.
  intros Hi Ha. destruct (hd_mine _ _ _ (inv_handles _ Hi) a Ha) as (Hh & Hl & Hd).
  unfold announce_subscribed_turn, take_turn, announce_cell, on_cell, with_mut.
  set (c := cell_of (Announce.state a) (announce_states (half_ s))) in *.
  destruct (AnnounceState.subscribers (lock c)) as [|x q] eqn:Hq.
  { unfold idle. destruct (closed (lock c)); destruct (modified c); by apply inv_same. }
  pose proof Hq as Hv. unfold lock in Hv. unfold AnnounceState.pop_subscriber. rewrite Hv.
  destruct (dropped (inner c)); simpl; [|by apply inv_cell].
  apply inv_taken; [done..|apply handles_put; [apply Hi|done]|]. simpl.
  match goal with |- context [waiting (put _ ?c' _)] =>
    destruct (waiting_put (Announce.state a) c' (announce_states (half_ s)) Hl) as (w & -> & ->) end.
  fold c. rewrite (waiting_held _ _ _ Hd : waiting_in c = _). fold c.
  unfold waiting_in. rewrite decide_False by (intros E; simpl in E; fold c in Hd; by rewrite E in Hd).
  rewrite ids_snoc, Hq. f_equiv. unfold lock. simpl.
  rewrite (app_assoc _ (ids (held s))). symmetry. apply Permutation_cons_append.
Qed.

Lemma inv_status s a :
  inv s -> a ∈ mine s -> inv (with_half (snd (announce_status_turn a (half_ s))) s).
Proof.
  intros Hi Ha. destruct (hd_mine _ _ _ (inv_handles _ Hi) a Ha) as (Hh & Hl & Hd).
  unfold announce_status_turn, take_turn, announce_cell, on_cell, with_mut.
  set (c := cell_of (Announce.state a) (announce_states (half_ s))) in *.
  destruct (AnnounceState.track_statuses_requested (lock c)); [by apply inv_same|].
  destruct (dropped (inner c)); by apply inv_cell.
Qed.

(** A subscription the application holds ends. *)
Lemma inv_ended s l x k h' :
  inv s -> held s = l ++ x :: k -> announced_part h' = announced_part (half_ s) ->
  (open_out (half_ s) -> Subscribed.id x ∈ keys (half_ s) -> moved [Subscribed.id x] (half_ s) h') ->
  inv (with_held (l ++ k) (with_half h' s)).
Proof.
  intros Hi Hk Hp Hm. pose proof (f_equal fst Hp) as Hpa. pose proof (f_equal snd Hp) as Hps.
  cbn [fst snd announced_part] in Hpa, Hps.
  apply (inv_moved s [Subscribed.id x] h' (l ++ k) (mine s)); [done| | |].
  - apply Hm; [apply Hi|]. rewrite inv_keys, Hk by done. unfold ids. rewrite fmap_app. simpl. set_solver.
  - rewrite Hpa, Hps. apply Hi.
  - rewrite Hps, Hk. unfold ids. rewrite !fmap_app. simpl. by rewrite <- !Permutation_middle.
Qed.

Lemma push_no_final m s :
  open_out s -> final m = [] -> no_last m ->
  exists ms, lock (outgoing (with_outgoing (snd (Queue.push m (outgoing s))) s)) = lock (outgoing s) ++ ms /\
    finals ms = [] /\ Forall no_last ms.
Proof.
  intros Ho Hf Hn. exists [m]. split; [by apply push_out|]. split; [|by constructor].
  unfold finals. simpl. by rewrite Hf.
Qed.

Lemma inv_serve s l x k :
  inv s -> held s = l ++ x :: k ->
  inv (let '(_, (x, h)) := serve_begin x (half_ s) in with_held (l ++ x :: k) (with_half h s)).
Proof.
  intros Hi Hk. unfold PublisherHalf.serve_begin, on_cell, mutate, with_mut.
  set (c := cell_of (Subscribed.state x) (subscribed_states (half_ s))).
  pose proof (inv_max _ Hi) as Hm.
  destruct (dropped (inner c)).
  - assert (Hids : forall h y, Subscribed.id y = Subscribed.id x -> inv (with_half h s) ->
      inv (with_held (l ++ y :: k) (with_half h s))).
    { intros h y Hy H. destruct H as [Ho Hh Hl Hf Hx Hn]. split; simpl; try done.
      unfold ids. rewrite fmap_app, fmap_cons, Hy. simpl in Hl. unfold ids in Hl.
      rewrite Hk, fmap_app, fmap_cons in Hl. exact Hl. }
    apply Hids; [done|].
    apply inv_quiet; try done; [| |by apply no_max_put|apply Hi].
    + exact (push_no_final (Message.SubscribeOk _) (with_subscribed_states _ _) (inv_open _ Hi) eq_refl I).
    + exact (proj2 (push_out _ (with_subscribed_states _ _) (inv_open _ Hi))).
  - rewrite <- Hk.
    exact (inv_subscribed_states s _ Hi (no_max_put _ _ _ Hm (Hm (Subscribed.state x)))).
Qed.

Lemma inv_update s h group object :
  inv s ->
  inv (with_half (with_subscribed_states
    (snd (on_cell h (update group object) (subscribed_states (half_ s)))) (half_ s)) s).
Proof.
  intros Hi. pose proof (inv_max _ Hi h) as Hx. apply inv_subscribed_states; [done|].
  unfold on_cell, update, with_mut, SubscribedState.update_max_group_id. unfold lock in Hx. rewrite Hx.
  destruct (dropped _); apply no_max_put; try apply Hi; exact Hx.
Qed.

Lemma all_stay_max a a' : no_max a -> all_stay a a' -> no_max a'.
Proof. intros Ha Hs h. destruct (Hs h) as [-> _]. apply Ha. Qed.

Lemma inv_send s :
  inv s ->
  inv (let (r, q) := Queue.pop_turn (outgoing (half_ s)) in
       let s' := with_half (with_outgoing q (half_ s)) s in
       {| half_ := half_ s'; held := held s'; mine := mine s';
          taken := taken s ++ match r with Queue.Return (Some m) => [m] | _ => [] end;
          accepted := accepted s' |}).
Proof.
  intros [Ho Hh Hl Hf Hm Hn]. pose proof Ho as Hd. unfold open_out in Hd. unfold Queue.pop_turn, with_mut.
  rewrite Hd. destruct (lock (outgoing (half_ s))) as [|m q] eqn:Hq.
  - assert (Hi : inv {| half_ := with_outgoing (outgoing (half_ s)) (half_ s); held := held s; mine := mine s;
      taken := taken s ++ []; accepted := accepted s |}).
    { rewrite app_nil_r. split; simpl; try done; by rewrite ?Hq. }
    by destruct (modified _).
  - pose proof Hq as Hv. unfold lock in Hv. rewrite Hv. split; simpl; try done.
    + by rewrite <- app_assoc.
    + by rewrite <- app_assoc.
Qed.

Lemma cell_new_old {A} (v : A) a h :
  (loc h < next_cell a)%nat -> cell_of h (snd (default_split v a)) = cell_of h a.
Proof. intros Hl. unfold cell_of. simpl. unfold put. simpl. by rewrite decide_False by lia. Qed.

Lemma handles_new ann mn a n v i :
  handles ann mn a -> ann !! n = None ->
  let p := default_split v a in
  handles (<[n := AnnounceRecv.mk (snd (fst p))]> ann) (mn ++ [Announce.mk (fst (fst p)) i]) (snd p).
Proof.
  intros [H1 H2 H3 H4] Hn p.
  assert (Hc : forall h, loc h = next_cell a -> drops (cell_of h (snd p)) = {[0%nat := 1%nat; 1%nat := 1%nat]}).
  { intros h E. unfold cell_of. rewrite E. unfold p. simpl. unfold put. simpl. by rewrite decide_True. }
  assert (Hold : forall h, (loc h < next_cell a)%nat -> cell_of h (snd p) = cell_of h a)
    by (intros; by apply cell_new_old).
  split.
  - intros k r [[<- <-]|[Hne Hr]]%lookup_insert_Some.
    + split; [done|]. split; [simpl; lia|]. by rewrite Hc.
    + destruct (H1 k r Hr) as (? & ? & ?). split; [done|]. split; [simpl; lia|]. by rewrite Hold.
  - intros x [Hx|Hx]%elem_of_app; [|apply list_elem_of_singleton in Hx as ->].
    + destruct (H2 x Hx) as (? & ? & ?). split; [done|]. split; [simpl; lia|]. by rewrite Hold.
    + split; [done|]. split; [simpl; lia|]. by rewrite Hc.
  - intros k k' r r' [[<- <-]|[Hk Hr]]%lookup_insert_Some [[<- <-]|[Hk' Hr']]%lookup_insert_Some E; [done| | |by eapply H3].
    + destruct (H1 k' r' Hr') as (_ & Hl & _). simpl in E. lia.
    + destruct (H1 k r Hr) as (_ & Hl & _). simpl in E. lia.
  - rewrite fmap_app. apply NoDup_app. split; [done|]. split; [|apply NoDup_singleton].
    intros l [x [-> Hx]]%list_elem_of_fmap E. apply list_elem_of_singleton in E.
    destruct (H2 x Hx) as (_ & Hl & _). simpl in E. lia.
Qed.

Lemma inv_announce s namespace :
  inv s ->
  inv (let (r, h) := announce namespace (half_ s) in
       with_half h match r with Ok a => with_mine (mine s ++ [a]) s | _ => s end).
Proof.
  intros Hi. unfold PublisherHalf.announce, announce_new.
  destruct (announces (half_ s) !! namespace) as [r|] eqn:Hn; [by apply inv_same|].
  pose proof (handles_new _ _ _ _ AnnounceState.default (AnnounceInfo.mk namespace) (inv_handles _ Hi) Hn) as Hh.
  pose proof (waiting_new AnnounceState.default (announce_states (half_ s)) eq_refl) as Hw.
  set (m := Message.Announce (Announces.Announce.mk namespace Params.new)).
  destruct (push_out m (half_ s) (inv_open _ Hi)) as [Hl Hop].
  apply (inv_moved s [] _ (held s)); [done| |exact Hh|by rewrite Hw].
  split; [done|done| |exact Hop|done].
  exists [m]. split; [exact Hl|]. split; [done|]. intros _. by constructor.
Qed.

Lemma inv_unannounce s l a k :
  inv s -> mine s = l ++ a :: k -> inv (with_mine (l ++ k) (with_half (announce_drop a (half_ s)) s)).
Proof.
  intros Hi Hk. unfold PublisherHalf.announce_drop. set (h1 := match AnnounceState.closed _ with Some _ => _ | None => _ end).
  assert (H1 : inv (with_half h1 s)).
  { unfold h1. destruct (AnnounceState.closed _); [by apply inv_same|].
    set (m := Message.Unannounce (Unannounce.mk (Announce.namespace a))).
    set (h2 := drop_announce (Announce.namespace a) (half_ s)).
    assert (H2 : inv (with_half h2 s)).
    { unfold h2, PublisherHalf.drop_announce.
      destruct (announces (half_ s) !! _) as [r|] eqn:Hr; [|by apply inv_same].
      by eapply inv_drop_entry. }
    change (inv (with_half (with_outgoing (snd (Queue.push m (outgoing h2))) h2) (with_half h2 s))).
    apply inv_quiet; try done; [|exact (proj2 (push_out m h2 (inv_open _ H2)))|apply H2..].
    exact (push_no_final m h2 (inv_open _ H2) eq_refl I). }
  clearbody h1.
  destruct (hd_mine _ _ _ (inv_handles _ H1) a) as (Hh & Hl & Hd); [simpl; rewrite Hk; set_solver|]. simpl in Hl, Hd.
  destruct (drop_handle_moved (Announce.state a) h1 (ids (held s) ++ ids (lock (unknown h1)))
    (inv_open _ H1) Hl) as (Hp & gone & Hm & Hw); [by rewrite Hh|exact (inv_keys _ H1)|].
  pose proof (f_equal fst Hp) as Hpa. pose proof (f_equal snd Hp) as Hps. cbn [fst snd announced_part] in Hpa, Hps.
  apply (inv_moved (with_half h1 s) gone _ (held s) (l ++ k) H1 Hm).
  - rewrite Hpa, Hps, Hh. apply handles_drop_mine. rewrite <- Hk. apply H1.
  - rewrite Hps. simpl. by rewrite Hw, app_assoc.
Qed.

Lemma inv_store s x : inv s -> inv (with_half (with_store x (half_ s)) s).
Proof. intros [Ho Hh Hl Hf Hm Hn]. by split. Qed.

Lemma inv_track_status s request tracks :
  inv s -> inv (with_half (snd (serve_track_status to_string request tracks (half_ s))) s).
Proof.
  intros Hi. unfold serve_track_status.
  destruct (TracksReader.subscribe _ tracks _) as [[track|] x]; [|by apply inv_store].
  change (inv (with_half (with_store (TracksReader.drop tracks (TrackRead.drop track x))
    (with_outgoing (snd (Queue.push (Message.TrackStatus (TrackStatus.mk (TrackStatusRequested.namespace request)
      (TrackStatusRequested.track request) TrackStatusCode.DoesNotExist 0 0)) (outgoing (half_ s)))) (half_ s))) s)).
  apply inv_quiet; try done; [| |apply Hi..].
  - exact (push_no_final (Message.TrackStatus _) (half_ s) (inv_open _ Hi) eq_refl I).
  - exact (proj2 (push_out _ (half_ s) (inv_open _ Hi))).
Qed.

Lemma answered_step s s' : step s s' -> inv s -> inv s'.
Proof.
  intros Hs Hi. destruct Hs as [s msg|s|s a Ha|s a Ha|s l x k Hk|s l x k err Hk|s l x k Hk|s l x k res Hk
    |s h group object|s a Ha|s x|s request tracks|s namespace|s l a k Hk|s].
  - by apply inv_message.
  - by apply inv_unknown.
  - by apply inv_take.
  - by apply inv_status.
  - apply (inv_ended s l x k); [done|done|apply drop_part|apply moved_drop].
  - apply (inv_ended s l x k); [done|done|apply close_part|apply moved_close].
  - by apply inv_serve.
  - apply (inv_ended s l x k); [done|done|..]; unfold PublisherHalf.serve_end.
    + destruct res; simpl; [apply drop_part| |apply drop_part].
      pose proof (close_part (SessionErr.into_serve session_string e) x (half_ s)) as Hp.
      by destruct (PublisherHalf.subscribed_close _ _ _ _).
    + intros Ho Hx. destruct res; simpl; [by apply moved_drop| |by apply moved_drop].
      pose proof (moved_close (SessionErr.into_serve session_string e) x (half_ s) Ho Hx) as Hm.
      by destruct (PublisherHalf.subscribed_close _ _ _ _).
  - by apply inv_update.
  - apply inv_subscribed_states; [done|]. eapply all_stay_max; [apply Hi|done].
  - by apply inv_store.
  - by apply inv_track_status.
  - by apply inv_announce.
  - by apply inv_unannounce.
  - by apply inv_send.
Qed.

Lemma answered_start q : dropped (inner q) = Some tt -> lock q = [] -> inv (start q).
Proof.
  intros Ho Hq. split; simpl; try done.
  - split; [done|set_solver|done|constructor].
  - by rewrite Hq.
  - by rewrite Hq.
Qed.

(** C2 (invariant). However the peer's messages, the application and the tasks
    that serve tracks interleave, while the session's queue is open: the
    subscriptions in the table are, each once, those in the application's queue,
    those waiting in an announce that somebody holds, and those the application
    has; every SUBSCRIBE ever accepted is in the table or has had exactly one
    SUBSCRIBE_DONE or SUBSCRIBE_ERROR queued, so that with nobody holding one all
    are answered; and no SUBSCRIBE_DONE names a last object, because nothing ever
    sets the largest group. *)
Theorem subscribes_answered q s :
  dropped (inner q) = Some tt -> lock q = [] -> rtc step (start q) s ->
  let live := ids (lock (unknown (half_ s))) ++ waiting (announce_states (half_ s)) ++ ids (held s) in
  let sent := taken s ++ lock (outgoing (half_ s)) in
  live ≡ₚ keys (half_ s) /\
  finals sent ++ keys (half_ s) ≡ₚ accepted s /\
  (live = [] -> finals sent ≡ₚ accepted s) /\
  Forall no_last sent.
Proof.
  intros Ho Hq Hs. assert (Hi : inv s).
  { assert (H : inv (start q)) by (by apply answered_start). clear Ho Hq.
    induction Hs as [|s1 s2 s3 H1 _ IH]; [done|]. by apply IH, (answered_step s1). }
  cbv zeta. split; [apply Hi|]. split; [apply Hi|]. split; [|apply Hi].
  intros E. pose proof (inv_live _ Hi) as Hl. rewrite E in Hl. apply Permutation_nil_l in Hl.
  pose proof (inv_finals _ Hi) as Hf. by rewrite <- Hl, app_nil_r in Hf.
Qed.
End Answers.

(** A SUBSCRIBE to a namespace nobody announces, taken and dropped. *)
Definition demo_held : Sys :=
  let s0 := start (snd Queue.new) in
  let s1 := accept [7] (with_half
    (snd (PublisherHalf.recv_message (fun _ => SubscriberHalf.empty_string) (Subscriber.Subscribe demo_subscribe) (half_ s0))) s0) in
  let (r, h) := subscribed_turn (half_ s1) in
  with_half h match r with Queue.Return (Some x) => with_held (held s1 ++ [x]) s1 | _ => s1 end.

Definition demo_answered : Sys :=
  match held demo_held with
  | x :: _ =>
      with_held [] (with_half (PublisherHalf.subscribed_drop (fun _ => SubscriberHalf.empty_string) x (half_ demo_held)) demo_held)
  | [] => demo_held
  end.

Lemma subscribes_answered_witness :
  finals (lock (outgoing (half_ demo_answered))) = [7] /\ accepted demo_answered = [7] /\
  (ids (lock (unknown (half_ demo_answered))) ++ waiting (announce_states (half_ demo_answered)) ++
    ids (held demo_answered) = [] ->
   finals (taken demo_answered ++ lock (outgoing (half_ demo_answered))) ≡ₚ accepted demo_answered).
Proof.
  split; [vm_compute; reflexivity|]. split; [vm_compute; reflexivity|].
  set (to_string := fun _ : ServeError => SubscriberHalf.empty_string).
  set (session_string := fun _ : SessionError => SubscriberHalf.empty_string).
  assert (Hrun : rtc (step to_string session_string) (start (snd Queue.new)) demo_answered).
  { eapply rtc_l; [exact (do_message to_string session_string _ (Subscriber.Subscribe demo_subscribe))|].
    eapply rtc_l; [exact (do_unknown to_string session_string _)|].
    eapply rtc_l; [|apply rtc_refl].
    exact (do_drop to_string session_string demo_held [] _ [] eq_refl). }
  exact (proj1 (proj2 (proj2 (subscribes_answered to_string session_string (snd Queue.new) demo_answered
    eq_refl eq_refl Hrun)))).
Defined.
