(* ===== verification/Announcing.v ===== *)
(** * The loop of an announce

    [Publisher::announce] of [session/publisher.rs], whole: it collects the
    subscriptions and the status requests of its namespace and runs a task for each
    beside its own loop. The parts it calls are those of [PublisherHalf]; who answers
    which subscription is stated with the counts of [Answers]. *)
From Stdlib Require Import NArith Lia Bool.
From stdpp Require Import base list gmap option numbers relations.
From S2P Require Import Prelude Buffers VarInt Utf8 Coding Setup Data Announces Subscribes Messages.
From S2P Require Import Errors Streams Watch Serve Subgroup Groups StreamTrack Objects Tracks Serving.
From S2P Require Import Subscriptions SubscriberHalf PublisherHalf Answers.
Import PublisherHalf.

#[local] Arguments PublisherHalf.subscribed_drop : simpl never.
#[local] Arguments PublisherHalf.subscribed_close : simpl never.
#[local] Arguments PublisherHalf.serve_begin : simpl never.
#[local] Arguments PublisherHalf.serve_end : simpl never.
#[local] Arguments PublisherHalf.serve_track_status : simpl never.
#[local] Arguments PublisherHalf.announce_drop : simpl never.
#[local] Arguments TracksReader.subscribe : simpl never.

Module AnnounceLoop.
Section Loop.
Context (to_string : ServeError -> String) (session_string : SessionError -> String).

(** A future in [subscribe_tasks]: not polled yet, or inside [Subscribed::serve]. *)
Inductive task :=
  | Accept (x : Subscribed.t) (tracks : TracksReader.t)
  | Serve (x : Subscribed.t) (track : TrackReader.t) (tracks : TracksReader.t).

Definition held_by (x : task) : Subscribed.t := match x with Accept x _ | Serve x _ _ => x end.

Record t := mk {
  announce : Announce.t;
  tracks : TracksReader.t;
  subscribe_tasks : list task;
  status_tasks : list (TrackStatusRequested.t * TracksReader.t);
  subscribe_done : bool;
  status_done : bool;
}.

(** Before the loop. *)
Definition begin (tracks : TracksReader.t) (h : PublisherHalf.t) : outcome SessionError t * PublisherHalf.t :=
  let (r, h) := PublisherHalf.announce to_string (Tracks.namespace (TracksReader.info tracks)) h in
  (match r with Ok a => Ok (mk a tracks [] [] false false) | Err e => Err e | Panic => Panic end, h).

Definition with_tasks (l : list task) (r : t) : t :=
  mk (announce r) (tracks r) l (status_tasks r) (subscribe_done r) (status_done r).
Definition with_status (l : list (TrackStatusRequested.t * TracksReader.t)) (r : t) : t :=
  mk (announce r) (tracks r) (subscribe_tasks r) l (subscribe_done r) (status_done r).
Definition set_subscribe_done (r : t) : t :=
  mk (announce r) (tracks r) (subscribe_tasks r) (status_tasks r) true (status_done r).
Definition set_status_done (r : t) : t :=
  mk (announce r) (tracks r) (subscribe_tasks r) (status_tasks r) (subscribe_done r) true.

(** A task and the half when it was polled: it is done, it goes on, or it panicked. *)
Inductive polled := Done | Goes (x : task) | Panics.

(** The end of [serve], [res] being what [serve_inner] returned, and of the task. *)
Definition finish (res : outcome SessionError unit) (x : Subscribed.t) (track : TrackReader.t) (tracks : TracksReader.t)
    (h : PublisherHalf.t) : polled * PublisherHalf.t :=
  let h := with_store (TrackRead.drop track (store h)) h in
  let (_, h) := serve_end to_string session_string res x h in
  (Done, with_store (TracksReader.drop tracks (store h)) h).

(** A poll; [inner] is what [serve_inner] returns in it, if it does. Its errors are
    logged. *)
Definition poll (inner : option (outcome SessionError unit)) (x : task) (h : PublisherHalf.t) : polled * PublisherHalf.t :=
  match x with
  | Accept x tracks =>
      match serve_subscribe to_string x tracks h with
      | (Ok (Some (track, x)), h) =>
          match serve_begin to_string x h with
          | (Ok _, (x, h)) => (Goes (Serve x track tracks), h)
          | (Err e, (x, h)) => finish (Err (SessionErr.Serve e)) x track tracks h
          | (Panic, (x, h)) => (Panics, h)
          end
      | (_, h) => (Done, h)
      end
  | Serve x track tracks =>
      match inner with
      | Some Panic => (Panics, h)
      | Some res => finish res x track tracks h
      | None => (Goes (Serve x track tracks), h)
      end
  end.

(** The branches of [select!]; [else] when all others are disabled. *)
Inductive branch :=
  | Subscribe
  | Status
  | SubscribeTask (i : nat) (inner : option (outcome SessionError unit))
  | StatusTask (i : nat)
  | Else.

(** What a branch comes to, if it is ready: the loop goes on, or returns. *)
Definition turn (b : branch) (r : t) (h : PublisherHalf.t) :
    option (t * option (outcome SessionError unit) * PublisherHalf.t) :=
  match b with
  | Subscribe =>
      if subscribe_done r then None
      else match announce_subscribed_turn (announce r) h with
           | (Return (Ok (Some x)), h) =>
               let (tracks, s) := TracksReader.clone (tracks r) (store h) in
               Some (with_tasks (subscribe_tasks r ++ [Accept x tracks]) r, None, with_store s h)
           | (Return (Ok None), h) => Some (set_subscribe_done r, None, h)
           | (Return (Err e), h) => Some (r, Some (Err (SessionErr.Serve e)), h)
           | (Return Panic, h) => Some (r, Some Panic, h)
           | (Wait _, _) => None
           end
  | Status =>
      if status_done r then None
      else match announce_status_turn (announce r) h with
           | (Return (Ok (Some x)), h) =>
               let (tracks, s) := TracksReader.clone (tracks r) (store h) in
               Some (with_status (status_tasks r ++ [(x, tracks)]) r, None, with_store s h)
           | (Return (Ok None), h) => Some (set_status_done r, None, h)
           | (Return (Err e), h) => Some (r, Some (Err (SessionErr.Serve e)), h)
           | (Return Panic, h) => Some (r, Some Panic, h)
           | (Wait _, _) => None
           end
  | SubscribeTask i inner =>
      match subscribe_tasks r !! i with
      | Some x =>
          let (p, h) := poll inner x h in
          Some match p with
               | Done => (with_tasks (delete i (subscribe_tasks r)) r, None, h)
               | Goes x => (with_tasks (<[i := x]> (subscribe_tasks r)) r, None, h)
               | Panics => (r, Some Panic, h)
               end
      | None => None
      end
  | StatusTask i =>
      match status_tasks r !! i with
      | Some (request, tracks) =>
          let (_, h) := serve_track_status to_string request tracks h in
          Some (with_status (delete i (status_tasks r)) r, None, h)
      | None => None
      end
  | Else =>
      match subscribe_done r, status_done r, subscribe_tasks r, status_tasks r with
      | true, true, [], [] => Some (r, Some (Ok tt), h)
      | _, _, _, _ => None
      end
  end.

(** The locals are dropped when the loop returns or the future goes: the tasks, in the
    order their collection has, then the announce and the broadcast. *)
Definition drop_task (x : task) (h : PublisherHalf.t) : PublisherHalf.t :=
  match x with
  | Accept x tracks =>
      let h := subscribed_drop to_string x h in with_store (TracksReader.drop tracks (store h)) h
  | Serve x track tracks =>
      let h := with_store (TrackRead.drop track (store h)) h in
      let h := subscribed_drop to_string x h in with_store (TracksReader.drop tracks (store h)) h
  end.

Definition leave (order : list task) (r : t) (h : PublisherHalf.t) : PublisherHalf.t :=
  let h := fold_left (fun h x => with_store (TracksReader.drop (snd x) (store h)) h) (status_tasks r) h in
  let h := fold_left (fun h x => drop_task x h) order h in
  let h := announce_drop to_string (announce r) h in
  with_store (TracksReader.drop (tracks r) (store h)) h.
End Loop.
End AnnounceLoop.

(** ** The loop among the peer, the other tasks and the rest of the application *)

Module AnnounceSys.
Import AnnounceLoop Answers.
Section Sys.
Context (to_string : ServeError -> String) (session_string : SessionError -> String).

#[local] Abbreviation turn := (AnnounceLoop.turn to_string session_string).
#[local] Abbreviation leave := (AnnounceLoop.leave to_string).
#[local] Abbreviation poll := (AnnounceLoop.poll to_string session_string).
#[local] Abbreviation finish := (AnnounceLoop.finish to_string session_string).
#[local] Abbreviation inv := Answers.inv.

(** [base]: the half, with what others of the application hold. *)
Record t := mk { run : option AnnounceLoop.t; base : Answers.Sys }.

Inductive step : t -> t -> Prop :=
  | do_begin s tracks r h : run s = None -> begin to_string tracks (half_ (base s)) = (Ok r, h) ->
      step s (mk (Some r) (with_half h (base s)))
  | do_turn s b r r' h : run s = Some r -> turn b r (half_ (base s)) = Some (r', None, h) ->
      step s (mk (Some r') (with_half h (base s)))
  | do_return s b r r' res order h : run s = Some r -> turn b r (half_ (base s)) = Some (r', Some res, h) ->
      order ≡ₚ subscribe_tasks r' -> step s (mk None (with_half (leave order r' h) (base s)))
  | do_cancel s r order : run s = Some r -> order ≡ₚ subscribe_tasks r ->
      step s (mk None (with_half (leave order r (half_ (base s))) (base s)))
  | do_others s b : Answers.step to_string session_string (base s) b -> step s (mk (run s) b).

Definition start (q : Cell (list Message.t)) : t := mk None (Answers.start q).

(** The subscriptions the tasks of the loop hold, and all that are held. *)
Definition subs (r : AnnounceLoop.t) : list Subscribed.t := held_by <$> subscribe_tasks r.

Definition framed (l : list Subscribed.t) (m : list Announce.t) (s : Answers.Sys) : Answers.Sys :=
  {| half_ := half_ s; held := l ++ held s; mine := m ++ mine s; taken := taken s; accepted := accepted s |}.

Definition whole (o : option AnnounceLoop.t) (s : Answers.Sys) : Answers.Sys :=
  match o with Some r => framed (subs r) [announce r] s | None => s end.

(** Others have nothing to do with what the loop holds. *)
Lemma step_framed l m s s' : Answers.step to_string session_string s s' ->
  Answers.step to_string session_string (framed l m s) (framed l m s').
Proof.
  intros Hs. destruct Hs as [s msg|s|s a Ha|s a Ha|s l0 x k Hk|s l0 x k err Hk|s l0 x k Hk|s l0 x k res Hk
    |s h group object|s a Ha|s x|s request tracks|s namespace|s l0 a k Hk|s].
  - exact (Answers.do_message _ _ (framed l m s) msg).
  - pose proof (Answers.do_unknown to_string session_string (framed l m s)) as H. cbn [half_ framed] in H.
    destruct (subscribed_turn (half_ s)) as [[[x|]|w] h]; try exact H. cbn in H. rewrite <- app_assoc in H. exact H.
  - pose proof (Answers.do_take to_string session_string (framed l m s) a) as H. cbn [half_ framed mine] in H.
    specialize (H ltac:(apply elem_of_app; by right)).
    destruct (announce_subscribed_turn a (half_ s)) as [[[[x|]|e|]|w] h]; try exact H. cbn in H.
    rewrite <- app_assoc in H. exact H.
  - apply (Answers.do_status to_string session_string (framed l m s) a). apply elem_of_app. by right.
  - unfold framed. cbn. rewrite app_assoc. apply (Answers.do_drop _ _ (framed l m s) (l ++ l0) x k).
    cbn. by rewrite Hk, app_assoc.
  - unfold framed. cbn. rewrite app_assoc. apply (Answers.do_close _ _ (framed l m s) (l ++ l0) x k).
    cbn. by rewrite Hk, app_assoc.
  - pose proof (Answers.do_serve to_string session_string (framed l m s) (l ++ l0) x k) as H.
    cbn [half_ framed held] in H. specialize (H ltac:(by rewrite Hk, app_assoc)).
    destruct (serve_begin to_string x (half_ s)) as [o [y h]]. cbn in H. rewrite <- app_assoc in H. exact H.
  - unfold framed. cbn. rewrite app_assoc. apply (Answers.do_served _ _ (framed l m s) (l ++ l0) x k).
    cbn. by rewrite Hk, app_assoc.
  - exact (Answers.do_update _ _ (framed l m s) h group object).
  - exact (Answers.do_handles _ _ (framed l m s) a Ha).
  - exact (Answers.do_store _ _ (framed l m s) x).
  - exact (Answers.do_track_status _ _ (framed l m s) request tracks).
  - pose proof (Answers.do_announce to_string session_string (framed l m s) namespace) as H. cbn [half_ framed] in H.
    destruct (PublisherHalf.announce to_string namespace (half_ s)) as [[a|e|] h]; try exact H. cbn in H.
    rewrite <- app_assoc in H. exact H.
  - unfold framed. cbn. rewrite app_assoc. apply (Answers.do_unannounce _ _ (framed l m s) (m ++ l0) a k).
    cbn. by rewrite Hk, app_assoc.
  - pose proof (Answers.do_send to_string session_string (framed l m s)) as H. cbn [half_ framed] in H. cbn.
    destruct (Queue.pop_turn (outgoing (half_ s))) as [o c]. exact H.
Qed.

(** The order of what is held does not matter. *)
Lemma inv_perm (s s' : Answers.Sys) : half_ s' = half_ s -> held s' ≡ₚ held s -> mine s' ≡ₚ mine s ->
  taken s' = taken s -> accepted s' = accepted s -> inv s -> inv s'.
Proof.
  intros Eh Ed Em Et Ea [Ho [H1 H2 H3 H4] Hl Hf Hm Hn]. split.
  - by rewrite Eh.
  - rewrite Eh. split; [done| |done|by rewrite Em]. intros x Hx. apply H2. by rewrite <- Em.
  - rewrite Eh. unfold ids in *. by rewrite Ed.
  - by rewrite Eh, Et, Ea.
  - by rewrite Eh.
  - by rewrite Eh, Et.
Qed.

Lemma inv_stored s x : inv s -> inv (with_half (with_store x (half_ s)) s).
Proof. apply inv_store. Qed.

(** A subscription that is held ends in one of the ways it can. *)
Lemma finished res x track tracks (s : Answers.Sys) l k :
  inv s -> held s = l ++ x :: k ->
  inv (with_held (l ++ k) (with_half (snd (finish res x track tracks (half_ s))) s)).
Proof.
  intros Hi Hk. unfold AnnounceLoop.finish.
  pose proof (answered_step to_string session_string _ _
    (Answers.do_served to_string session_string (with_half (with_store (TrackRead.drop track (store (half_ s))) (half_ s)) s)
       l x k res Hk) (inv_stored s _ Hi)) as H.
  cbn [half_ with_half] in H. destruct (serve_end _ _ _ _ _) as [o h]. exact (inv_stored _ _ H).
Qed.

Lemma fmap_insert_held i y l k : l !! i = Some k -> held_by <$> <[i := y]> l =
  take i (held_by <$> l) ++ held_by y :: drop (S i) (held_by <$> l).
Proof.
  intros Hl. rewrite list_fmap_insert, insert_take_drop; [done|]. rewrite length_fmap. by eapply lookup_lt_Some.
Qed.

Lemma held_split i l x : l !! i = Some x ->
  held_by <$> l = take i (held_by <$> l) ++ held_by x :: drop (S i) (held_by <$> l).
Proof. intros Hl. rewrite take_drop_middle; [done|]. by rewrite list_lookup_fmap, Hl. Qed.

Lemma fmap_delete_held i (l : list task) : held_by <$> delete i l =
  take i (held_by <$> l) ++ drop (S i) (held_by <$> l).
Proof. rewrite list_fmap_delete. by rewrite delete_take_drop. Qed.

(** A poll keeps the counts, with what it holds after it. *)
Definition still (p : polled) (x : task) : list Subscribed.t :=
  match p with Done => [] | Goes y => [held_by y] | Panics => [held_by x] end.

Lemma polled_inv inner x (s : Answers.Sys) l k p h :
  inv s -> held s = l ++ held_by x :: k -> poll inner x (half_ s) = (p, h) ->
  inv (with_held (l ++ still p x ++ k) (with_half h s)).
Proof.
  intros Hi Hk E. destruct x as [x tracks|x track tracks]; cbn [AnnounceLoop.poll held_by] in *.
  - unfold serve_subscribe in E. destruct (TracksReader.subscribe _ tracks _) as [[track|] st].
    + set (s1 := with_half (with_store st (half_ s)) s) in *.
      assert (H1 : inv s1) by (by apply inv_stored).
      pose proof (answered_step to_string session_string _ _ (Answers.do_serve to_string session_string s1 l x k Hk) H1) as H2.
      change (with_store st (half_ s)) with (half_ s1) in E.
      destruct (serve_begin to_string x (half_ s1)) as [[[]|e|] [y h1]] eqn:Eb.
      * injection E as <- <-. exact H2.
      * set (s2 := with_held (l ++ y :: k) (with_half h1 s1)) in *. change h1 with (half_ s2) in E.
        pose proof (finished (Err (SessionErr.Serve e)) y track tracks s2 l k H2 eq_refl) as H3. rewrite E in H3.
        unfold AnnounceLoop.finish in E. destruct (serve_end _ _ _ _ _). injection E as <- <-. exact H3.
      * injection E as <- <-. apply (inv_perm (with_held (l ++ y :: k) (with_half h1 s1))); try done.
        exfalso. unfold serve_begin, on_cell, mutate, with_mut in Eb. by destruct (dropped _).
    + pose proof (answered_step to_string session_string _ _
        (Answers.do_close to_string session_string (with_half (with_store st (half_ s)) s) l x k ServeErr.NotFound Hk)
        (inv_stored s _ Hi)) as H.
      cbn [half_ with_half] in H. destruct (subscribed_close _ _ _ _) as [o h1].
      assert (E' : (Done, with_store (TracksReader.drop tracks (store h1)) h1) = (p, h)) by (by destruct o).
      injection E' as <- <-. exact (inv_stored _ _ H).
  - destruct inner as [[u|e|]|].
    + pose proof (finished (Ok u) x track tracks s l k Hi Hk) as H. rewrite E in H.
      unfold AnnounceLoop.finish in E. destruct (serve_end _ _ _ _ _). injection E as <- <-. exact H.
    + pose proof (finished (Err e) x track tracks s l k Hi Hk) as H. rewrite E in H.
      unfold AnnounceLoop.finish in E. destruct (serve_end _ _ _ _ _). injection E as <- <-. exact H.
    + injection E as <- <-. cbn. rewrite <- Hk. by destruct s as [[] ? ? ? ?].
    + injection E as <- <-. cbn. rewrite <- Hk. by destruct s as [[] ? ? ? ?].
Qed.

Lemma turn_inv b r o r' h (s : Answers.Sys) :
  turn b r (half_ s) = Some (r', o, h) -> inv (framed (subs r) [announce r] s) ->
  inv (framed (subs r') [announce r'] (with_half h s)) /\ announce r' = announce r.
Proof.
  intros E Hi. set (w := framed (subs r) [announce r] s) in *. change (half_ s) with (half_ w) in E.
  assert (Hin : announce r ∈ mine w) by by left.
  destruct b as [| |i inner|i|]; cbn [AnnounceLoop.turn] in E.
  - destruct (subscribe_done r); [done|].
    pose proof (answered_step to_string session_string _ _ (Answers.do_take to_string session_string w (announce r) Hin) Hi) as H.
    destruct (announce_subscribed_turn (announce r) (half_ w)) as [[[[x|]|e|]|u] h1]; try done.
    + destruct (TracksReader.clone (tracks r) (store h1)) as [tr st]. injection E as <- <- <-. split; [|done].
      apply (inv_perm (with_half (with_store st h1) (with_held (held w ++ [x]) w))); try done.
      * cbn. unfold subs. cbn [subscribe_tasks with_tasks]. rewrite fmap_app. cbn. rewrite <- !app_assoc.
        by rewrite (Permutation_app_comm [x]).
      * exact (inv_stored _ st H).
    + injection E as <- <- <-. split; [|done]. exact H.
    + injection E as <- <- <-. split; [|done]. exact H.
    + injection E as <- <- <-. split; [|done]. exact H.
  - destruct (status_done r); [done|].
    pose proof (answered_step to_string session_string _ _ (Answers.do_status to_string session_string w (announce r) Hin) Hi) as H.
    destruct (announce_status_turn (announce r) (half_ w)) as [[[[x|]|e|]|u] h1]; try done; cbn [snd] in H.
    + destruct (TracksReader.clone (tracks r) (store h1)) as [tr st]. injection E as <- <- <-. split; [|done].
      exact (inv_stored _ st H).
    + injection E as <- <- <-. split; [|done]. exact H.
    + injection E as <- <- <-. split; [|done]. exact H.
    + injection E as <- <- <-. split; [|done]. exact H.
  - destruct (subscribe_tasks r !! i) as [x|] eqn:Hx; [|done].
    destruct (poll inner x (half_ w)) as [p h1] eqn:Ep.
    assert (Hk : held w = take i (subs r) ++ held_by x :: drop (S i) (subs r) ++ held s).
    { cbn [w held framed]. unfold subs. rewrite (held_split i _ x Hx) at 1. by rewrite <- app_assoc. }
    pose proof (polled_inv inner x w _ _ p h1 Hi Hk Ep) as H.
    destruct p as [|y|]; injection E as <- <- <-; (split; [|done]).
    + eapply inv_perm; [| | | | |exact H]; [done| |done..]. cbn. unfold subs. cbn [subscribe_tasks with_tasks].
      by rewrite fmap_delete_held, <- app_assoc.
    + eapply inv_perm; [| | | | |exact H]; [done| |done..]. cbn. unfold subs. cbn [subscribe_tasks with_tasks].
      by rewrite (fmap_insert_held _ _ _ _ Hx), <- app_assoc.
    + eapply inv_perm; [| | | | |exact H]; [done| |done..]. cbn. unfold subs.
      rewrite (held_split i _ x Hx) at 1. by rewrite <- app_assoc.
  - destruct (status_tasks r !! i) as [[request tr]|]; [|done].
    pose proof (inv_track_status to_string w request tr Hi) as H.
    destruct (serve_track_status to_string request tr (half_ w)) as [o1 h1]. injection E as <- <- <-. by split.
  - destruct (subscribe_done r), (status_done r), (subscribe_tasks r), (status_tasks r); try done.
    injection E as <- <- <-. by split.
Qed.

(** *** What is said when the loop ends *)

Definition says (l : list Message.t) (h h' : PublisherHalf.t) : Prop :=
  lock (outgoing h') = lock (outgoing h) ++ l /\ open_out h'.

Lemma says_trans l k h h1 h2 : says l h h1 -> says k h1 h2 -> says (l ++ k) h h2.
Proof. intros [E _] [E' Ho]. split; [|done]. by rewrite E', E, app_assoc. Qed.

Lemma says_nil h : open_out h -> says [] h h.
Proof. intros Ho. split; [by rewrite app_nil_r|done]. Qed.

Lemma drop_says x h : open_out h ->
  exists m, says [m] h (subscribed_drop to_string x h) /\ final m = [Subscribed.id x].
Proof.
  intros Ho. unfold PublisherHalf.subscribed_drop. set (m := farewell to_string x _).
  exists (Publisher.into_message m). split; [|unfold m, farewell; by destruct (Subscribed.ok x)].
  set (s1 := drop_subscribe (Subscribed.id x) h).
  assert (E : send_with (fun _ s => s) m h = with_outgoing (snd (Queue.push (Publisher.into_message m) (outgoing s1))) s1).
  { unfold m, farewell, s1. by destruct (Subscribed.ok x). }
  rewrite E. assert (Eo : outgoing s1 = outgoing h) by (unfold s1, drop_subscribe; by destruct (subscribed h !! _)).
  destruct (push_out (Publisher.into_message m) s1) as [Hl Hop]; [unfold open_out; by rewrite Eo|].
  split; [|exact Hop]. rewrite Eo in Hl. cbn in *. rewrite Eo. exact Hl.
Qed.

Lemma close_says err x h : open_out h -> exists l, says l h (snd (subscribed_close to_string err x h)).
Proof.
  intros Ho. unfold PublisherHalf.subscribed_close. destruct (on_cell _ _ _) as [o a]. cbn [snd].
  destruct (drop_says x (with_subscribed_states a h) Ho) as (m & Hm & _). by exists [m].
Qed.

Lemma handle_says g h : open_out h ->
  announces (drop_announce_handle to_string g h) = announces h /\ exists l, says l h (drop_announce_handle to_string g h).
Proof.
  intros Ho. unfold PublisherHalf.drop_announce_handle. destruct (drop_handle g (announce_states h)) as [v a].
  set (xs := match v with Some st => _ | None => _ end). clearbody xs.
  assert (H : forall h0, open_out h0 -> announces h0 = announces h -> (exists l, says l h h0) ->
    let h1 := fold_left (fun s x => snd (subscribed_close to_string ServeErr.NotFound x s)) xs h0 in
    announces h1 = announces h /\ exists l, says l h h1).
  { induction xs as [|x xs IH]; intros h0 Ho0 Ea (l & Hl); [by split; [|exists l]|]. cbn [fold_left].
    destruct (close_says ServeErr.NotFound x h0 Ho0) as (k & Hk). apply IH.
    - apply Hk.
    - pose proof (f_equal fst (close_part to_string ServeErr.NotFound x h0)) as Hp. cbn in Hp. by rewrite Hp.
    - exists (l ++ k). by eapply says_trans. }
  apply H; [exact Ho|done|]. exists []. apply (says_nil h Ho).
Qed.

Definition unannounce (r : AnnounceLoop.t) : Message.t :=
  Message.Unannounce (Unannounce.mk (Announce.namespace (announce r))).

Lemma announce_drop_says r h : open_out h ->
  exists l, says l h (announce_drop to_string (announce r) h) /\
    (AnnounceState.closed (lock (announce_cell (announce r) h)) = None ->
     unannounce r ∈ l /\ announces (announce_drop to_string (announce r) h) !! Announce.namespace (announce r) = None).
Proof.
  intros Ho. unfold PublisherHalf.announce_drop. destruct (AnnounceState.closed _).
  { destruct (handle_says (Announce.state (announce r)) h Ho) as (_ & l & Hl). by exists l. }
  set (ns := Announce.namespace (announce r)). set (h1 := drop_announce to_string ns h).
  assert (H1 : announces h1 !! ns = None /\ exists l, says l h h1).
  { unfold h1, PublisherHalf.drop_announce. destruct (announces h !! ns) as [e|] eqn:E; [|by split; [|exists []; apply says_nil]].
    destruct (handle_says (AnnounceRecv.state e) (with_announces (delete ns (announces h)) h) Ho) as (Ea & l & Hl).
    split; [by rewrite Ea; apply lookup_delete_eq|by exists l]. }
  destruct H1 as (En & l & Hl).
  change (send_message to_string (Publisher.Unannounce (Unannounce.mk ns)) h) with
    (with_outgoing (snd (Queue.push (unannounce r) (outgoing h1))) h1).
  destruct (push_out (unannounce r) h1 (proj2 Hl)) as [Hp Hop]. set (h2 := with_outgoing _ h1) in *.
  destruct (handle_says (Announce.state (announce r)) h2 Hop) as (Ea & k & Hk).
  exists (l ++ [unannounce r] ++ k). split.
  - eapply says_trans; [exact Hl|]. eapply says_trans; [by split; [exact Hp|exact Hop]|exact Hk].
  - intros _. split; [rewrite !elem_of_app; right; left; by left|]. by rewrite Ea.
Qed.

Lemma status_dropped l h : exists x,
  fold_left (fun h y => with_store (TracksReader.drop (snd y) (store h)) h) l h = with_store x h
  \/ fold_left (fun h (y : TrackStatusRequested.t * TracksReader.t) => with_store (TracksReader.drop (snd y) (store h)) h) l h = h.
Proof.
  revert h. induction l as [|y l IH]; intros h; cbn [fold_left]; [by exists (store h); right|].
  destruct (IH (with_store (TracksReader.drop (snd y) (store h)) h)) as (x & [E|E]); rewrite E; eexists; by left.
Qed.

Lemma dropped_task x (s : Answers.Sys) : exists st st', drop_task to_string x (half_ s) =
  with_store st (subscribed_drop to_string (held_by x) (with_store st' (half_ s))).
Proof.
  destruct x as [x tracks|x track tracks]; cbn [AnnounceLoop.drop_task held_by]; [|by eexists _, _].
  exists (TracksReader.drop tracks (store (subscribed_drop to_string x (half_ s)))), (store (half_ s)).
  assert (E : with_store (store (half_ s)) (half_ s) = half_ s) by (by destruct (half_ s)). by rewrite E.
Qed.

Lemma tasks_dropped order (s : Answers.Sys) m : inv (framed (held_by <$> order) m s) ->
  let h := fold_left (fun h x => drop_task to_string x h) order (half_ s) in
  inv (framed [] m (with_half h s)) /\ announced_part h = announced_part (half_ s) /\
  exists l, says l (half_ s) h /\ finals l = ids (held_by <$> order).
Proof.
  revert s. induction order as [|x order IH]; intros s Hi; cbn [fold_left].
  - assert (E : with_half (half_ s) s = s) by (by destruct s). rewrite E. split; [exact Hi|]. split; [done|].
    exists []. split; [apply says_nil, Hi|done].
  - destruct (dropped_task x s) as (st & st' & E). rewrite E. set (h1 := with_store st' (half_ s)).
    set (h2 := subscribed_drop to_string (held_by x) h1).
    assert (H2 : inv (framed (held_by <$> order) m (with_half (with_store st h2) s))).
    { pose proof (answered_step to_string (fun _ => empty_string) _ _
        (Answers.do_drop to_string (fun _ => empty_string) (with_half h1 (framed (held_by <$> x :: order) m s)) []
           (held_by x) ((held_by <$> order) ++ held s) eq_refl) (inv_stored _ st' Hi)) as H.
      exact (inv_stored _ st H). }
    destruct (IH _ H2) as (Hi' & Hp & l & Hl & Hf). cbn [half_ with_half] in Hi', Hp, Hl.
    split; [exact Hi'|]. split; [rewrite Hp; exact (drop_part to_string (held_by x) h1)|].
    destruct (drop_says (held_by x) h1 (inv_open _ Hi)) as (msg & Hm & Hmf).
    exists (msg :: l). split.
    + apply (says_trans [msg] l _ (with_store st h2)); [exact Hm|exact Hl].
    + unfold finals in *. cbn. by rewrite Hf, Hmf.
Qed.

(** The loop goes, however it ends. *)
Lemma leave_spec order r (s : Answers.Sys) : order ≡ₚ subscribe_tasks r -> inv (framed (subs r) [announce r] s) ->
  inv (with_half (leave order r (half_ s)) s) /\
  exists l, says l (half_ s) (leave order r (half_ s)) /\ ids (subs r) ⊆+ finals l /\
    (AnnounceState.closed (lock (announce_cell (announce r) (half_ s))) = None ->
     unannounce r ∈ l /\ announces (leave order r (half_ s)) !! Announce.namespace (announce r) = None).
Proof.
  intros Hp Hi. unfold AnnounceLoop.leave.
  assert (Hs : exists x, fold_left (fun h y => with_store (TracksReader.drop (snd y) (store h)) h) (status_tasks r) (half_ s) = with_store x (half_ s)).
  { destruct (status_dropped (status_tasks r) (half_ s)) as (x & [E|E]); [by exists x|].
    exists (store (half_ s)). rewrite E. by destruct (half_ s). }
  destruct Hs as (x & ->). set (s1 := with_half (with_store x (half_ s)) s).
  assert (H1 : inv (framed (held_by <$> order) [announce r] s1)).
  { eapply inv_perm; [| | | | |exact (inv_stored _ x Hi)]; [done| |done..]. cbn. unfold subs. by rewrite Hp. }
  destruct (tasks_dropped order s1 _ H1) as (H2 & Hpt & l & Hl & Hf). change (half_ s1) with (with_store x (half_ s)) in *.
  set (h2 := fold_left (fun h x => drop_task to_string x h) order (with_store x (half_ s))) in *.
  pose proof (answered_step to_string (fun _ => empty_string) _ _
    (Answers.do_unannounce to_string (fun _ => empty_string) (framed [] [announce r] (with_half h2 s1)) [] (announce r) (mine s) eq_refl) H2) as H3.
  split; [exact (inv_stored _ _ H3)|].
  destruct (announce_drop_says r h2 (proj2 Hl)) as (k & Hk & Hu).
  exists (l ++ k). split; [exact (says_trans _ _ _ _ _ Hl Hk)|]. split.
  - rewrite finals_app, Hf. apply submseteq_inserts_r, Permutation_submseteq. unfold ids, subs. by rewrite Hp.
  - intros Hc. destruct Hu as [Hu Hn].
    + pose proof (f_equal snd Hpt) as Ea. cbn in Ea. unfold announce_cell in *. by rewrite Ea.
    + split; [apply elem_of_app; by right|exact Hn].
Qed.

(** Nothing happens in the turn in which the loop returns, and it returns for a reason. *)
Lemma turn_returns b r r' res h h' : turn b r h = Some (r', Some res, h') -> r' = r /\ h' = h /\
  match res with
  | Ok _ => subs r = []
  | Err e => exists e', e = SessionErr.Serve e' /\ AnnounceState.closed (lock (announce_cell (announce r) h)) = Some e'
  | Panic => exists i, b = SubscribeTask i (Some Panic)
  end.
Proof.
  intros E.
  assert (Hq : forall A (queue : _ -> list A) pop e h1, take_turn queue pop (announce r) h = (Return (Err e), h1) ->
    h1 = h /\ AnnounceState.closed (lock (announce_cell (announce r) h)) = Some e).
  { intros A queue pop e h1. unfold take_turn. destruct (queue _).
    - unfold idle. cbn [closed]. destruct (closed (lock (announce_cell (announce r) h))) eqn:Ec.
      + intros [= <- <-]. split; [done|]. exact Ec.
      + by destruct (modified _).
    - by destruct (on_cell _ _ _). }
  assert (Hn : forall A (queue : _ -> list A) pop h1, take_turn queue pop (announce r) h <> (Return Panic, h1)).
  { intros A queue pop h1. unfold take_turn. destruct (queue _); [|by destruct (on_cell _ _ _)].
    unfold idle. destruct (closed _); [done|]. by destruct (modified _). }
  destruct b as [| |i inner|i|]; cbn [AnnounceLoop.turn] in E.
  - destruct (subscribe_done r); [done|]. destruct (announce_subscribed_turn (announce r) h) as [[[[x|]|e|]|u] h1] eqn:Et; try done.
    + injection E as <- <- <-. apply Hq in Et as [-> Ec]. eauto.
    + by apply Hn in Et.
  - destruct (status_done r); [done|]. destruct (announce_status_turn (announce r) h) as [[[[x|]|e|]|u] h1] eqn:Et; try done.
    + injection E as <- <- <-. apply Hq in Et as [-> Ec]. eauto.
    + by apply Hn in Et.
  - destruct (subscribe_tasks r !! i) as [x|] eqn:Hx; [|done].
    destruct (poll inner x h) as [p h1] eqn:Ep. destruct p; try done. injection E as <- <- <-.
    destruct x as [x tr|x track tr]; cbn [AnnounceLoop.poll] in Ep.
    + destruct (serve_subscribe to_string x tr h) as [[[[track y]|]| |] h2]; try done.
      destruct (serve_begin to_string y h2) as [[[]|e|] [z h3]] eqn:Eb; try done.
      * unfold AnnounceLoop.finish in Ep. by destruct (serve_end _ _ _ _ _).
      * exfalso. unfold serve_begin, on_cell, mutate, with_mut in Eb. by destruct (dropped _).
    + destruct inner as [[u|e|]|]; try done; [unfold AnnounceLoop.finish in Ep; by destruct (serve_end _ _ _ _ _)..|].
      injection Ep as <-. eauto.
  - destruct (status_tasks r !! i) as [[request tr]|]; [|done]. by destruct (serve_track_status _ _ _ _).
  - destruct (subscribe_done r), (status_done r), (subscribe_tasks r) eqn:Es, (status_tasks r); try done.
    injection E as <- <- <-. unfold subs. by rewrite Es.
Qed.

Lemma step_whole s s' : step s s' -> inv (whole (run s) (base s)) -> inv (whole (run s') (base s')).
Proof.
  intros Hs Hi. destruct Hs as [s tracks r h Er Eb|s b r r' h Er Et|s b r r' res order h Er Et Ho|s r order Er Ho|s b Hb];
    cbn [run base]; rewrite ?Er in Hi.
  - cbn [whole] in *. unfold begin in Eb.
    pose proof (answered_step to_string session_string _ _ (Answers.do_announce to_string session_string (base s)
      (Tracks.namespace (TracksReader.info tracks))) Hi) as H.
    destruct (PublisherHalf.announce to_string _ (half_ (base s))) as [[a|e|] h1]; try done.
    injection Eb as <- <-. eapply inv_perm; [| | | | |exact H]; [done|done| |done|done]. cbn. apply Permutation_cons_append.
  - apply (turn_inv b r None r' h (base s) Et Hi).
  - apply turn_returns in Et as (-> & -> & _). by apply leave_spec.
  - by apply leave_spec.
  - destruct (run s) as [r|]; [|by eapply answered_step].
    eapply answered_step; [exact (step_framed (subs r) [announce r] _ _ Hb)|exact Hi].
Qed.

Lemma announce_reach_inv q s : dropped (inner q) = Some tt -> lock q = [] -> rtc step (start q) s ->
  inv (whole (run s) (base s)).
Proof.
  intros Ho Hq Hs. revert s Hs. apply rtc_ind_r; [by apply answered_start|].
  intros x y _ Hs Hi. by eapply step_whole.
Qed.

(** C3 (refinement). [announce] in full keeps what the session promises of
    subscriptions, whatever the peer, the tasks and the rest of the application do:
    every subscription in the table waits in a queue, belongs to exactly one task of the
    loop, or is held by others, and every other one has been answered exactly once. The loop
    returns [Ok] only with no task left, and an error only if the peer ended the
    announce, with the peer's error. However it ends, also when its future is
    dropped, each subscription of its tasks is answered then and there,
    and the peer is told UNANNOUNCE, with the namespace free again, unless it was the
    peer who ended it. *)
Theorem announce_answers (q : Cell (list Message.t)) (s : t) :
  dropped (inner q) = Some tt -> lock q = [] -> rtc step (start q) s ->
  let h := half_ (base s) in
  let mine := match run s with Some r => ids (subs r) | None => [] end in
  ids (lock (unknown h)) ++ waiting (announce_states h) ++ mine ++ ids (held (base s)) ≡ₚ keys h /\
  finals (taken (base s) ++ lock (outgoing h)) ++ keys h ≡ₚ accepted (base s) /\
  forall r, run s = Some r ->
    (forall b r' res h', turn b r h = Some (r', Some res, h') ->
       match res with
       | Ok _ => subs r = []
       | Err e => exists e', e = SessionErr.Serve e' /\ AnnounceState.closed (lock (announce_cell (announce r) h)) = Some e'
       | Panic => exists i, b = SubscribeTask i (Some Panic)
       end) /\
    (forall s', step s s' -> run s' = None ->
       exists l, says l h (half_ (base s')) /\ ids (subs r) ⊆+ finals l /\
         (AnnounceState.closed (lock (announce_cell (announce r) h)) = None ->
          unannounce r ∈ l /\ announces (half_ (base s')) !! Announce.namespace (announce r) = None)).
Proof.
  intros Ho Hq Hs. pose proof (announce_reach_inv q s Ho Hq Hs) as Hi. cbv zeta.
  assert (El : ids (held (whole (run s) (base s))) =
    (match run s with Some r => ids (subs r) | None => [] end) ++ ids (held (base s))).
  { destruct (run s); [|done]. cbn. unfold ids. by rewrite fmap_app. }
  pose proof (inv_live _ Hi) as Hl. pose proof (inv_finals _ Hi) as Hf. rewrite El in Hl.
  assert (Eh : half_ (whole (run s) (base s)) = half_ (base s)) by (by destruct (run s)).
  assert (Et : taken (whole (run s) (base s)) = taken (base s)) by (by destruct (run s)).
  assert (Ea : accepted (whole (run s) (base s)) = accepted (base s)) by (by destruct (run s)).
  rewrite Eh in Hl, Hf. rewrite Et, Ea in Hf.
  split; [exact Hl|]. split; [exact Hf|]. intros r Er. rewrite Er in Hi. split.
  - intros b r' res h' E. by apply turn_returns in E as (_ & _ & ?).
  - intros s' Hstep En. destruct Hstep as [s tracks r0 h Er0 Eb|s b r0 r' h Er0 Et'|s b r0 r' res order h Er0 Et' Hp|s r0 order Er0 Hp|s b Hb];
      cbn [run base] in *; try congruence; rewrite Er in Er0; injection Er0 as <-.
    + apply turn_returns in Et' as (-> & -> & _). by apply leave_spec.
    + by apply leave_spec.
Qed.
End Sys.
End AnnounceSys.

(** A broadcast is announced; a SUBSCRIBE for a track of it is taken, served, and cut short. *)
Import AnnounceSys.
#[local] Abbreviation demo_text := (fun _ : ServeError => empty_string).
#[local] Abbreviation demo_session_text := (fun _ : SessionError => empty_string).

Definition demo_produced : (TracksWriter.t * TracksRequest.t * TracksReader.t) * Store.t :=
  produce (Tracks.mk (Subscribes.Subscribe.track_namespace demo_subscribe)) Store.new.
Definition demo_reader : TracksReader.t := snd (fst demo_produced).

Definition demo_0 : t :=
  mk None (Answers.with_half (with_store (snd demo_produced) (Answers.half_ (base (start (snd Queue.new))))) (base (start (snd Queue.new)))).

Definition demo_begun : outcome SessionError AnnounceLoop.t * PublisherHalf.t :=
  AnnounceLoop.begin demo_text demo_reader (Answers.half_ (base demo_0)).

Definition demo_1 : t :=
  mk match fst demo_begun with Ok r => Some r | _ => None end (Answers.with_half (snd demo_begun) (base demo_0)).

Definition demo_2 : t :=
  mk (run demo_1) (Answers.accept [7] (Answers.with_half
    (snd (recv_message demo_text (Subscriber.Subscribe demo_subscribe) (Answers.half_ (base demo_1)))) (base demo_1))).

Definition demo_turn (b : AnnounceLoop.branch) (s : t) : t :=
  match run s with
  | Some r =>
      match AnnounceLoop.turn demo_text demo_session_text b r (Answers.half_ (base s)) with
      | Some (r, None, h) => mk (Some r) (Answers.with_half h (base s))
      | _ => s
      end
  | None => s
  end.

Definition demo_3 : t := demo_turn AnnounceLoop.Subscribe demo_2.
Definition demo_4 : t := demo_turn (AnnounceLoop.SubscribeTask 0 None) demo_3.

Lemma demo_turn_step b s r r' h : run s = Some r ->
  AnnounceLoop.turn demo_text demo_session_text b r (Answers.half_ (base s)) = Some (r', None, h) ->
  step demo_text demo_session_text s (demo_turn b s).
Proof. intros Er Et. unfold demo_turn. rewrite Er, Et. by eapply do_turn. Qed.

Lemma demo_announced_run : rtc (step demo_text demo_session_text) (start (snd Queue.new)) demo_4.
Proof.
  eapply rtc_l; [eapply (do_others _ _ (start (snd Queue.new))); apply Answers.do_store|].
  eapply rtc_l; [eapply (do_begin _ _ demo_0 demo_reader); reflexivity|].
  eapply rtc_l; [eapply (do_others _ _ demo_1); exact (Answers.do_message _ _ (base demo_1) (Subscriber.Subscribe demo_subscribe))|].
  eapply rtc_l; [eapply (demo_turn_step AnnounceLoop.Subscribe demo_2); reflexivity|].
  eapply rtc_l; [eapply (demo_turn_step (AnnounceLoop.SubscribeTask 0 None) demo_3); reflexivity|].
  apply rtc_refl.
Qed.

Lemma announce_answers_witness : exists r, run demo_4 = Some r /\ Answers.ids (subs r) = [7] /\
  (let h := Answers.half_ (base demo_4) in
   Answers.ids (lock (unknown h)) ++ Answers.waiting (announce_states h) ++ Answers.ids (subs r) ++
     Answers.ids (Answers.held (base demo_4)) ≡ₚ Answers.keys h) /\
  forall s', step demo_text demo_session_text demo_4 s' -> run s' = None ->
    exists l, says l (Answers.half_ (base demo_4)) (Answers.half_ (base s')) /\ [7] ⊆+ Answers.finals l.
Proof.
  destruct (run demo_4) as [r|] eqn:Er; [|vm_compute in Er; discriminate Er]. exists r. split; [done|].
  assert (Ei : Answers.ids (subs r) = [7]) by (vm_compute in Er; injection Er as <-; reflexivity).
  split; [exact Ei|].
  destruct (announce_answers demo_text demo_session_text (snd Queue.new) demo_4 eq_refl eq_refl demo_announced_run) as (H1 & _ & H3).
  rewrite Er in H1. split; [exact H1|]. intros s' Hs Hn.
  destruct (proj2 (H3 r Er) s' Hs Hn) as (l & Hl & Hi & _). rewrite Ei in Hi. eauto.
Defined.
