(* ===== verification/Remotes.v ===== *)
(** * Tracks fetched from other relays

    [moq-relay-ietf/src/remote.rs]: a connection per origin, the tracks requested
    over it, and how both are shared. [Remote*] and [Remotes*] are [State]s with
    two halves; a method that locks one is one step. The [Arc] around
    [RemoteTrackDrop] is counted, since its end is what takes a track out of the
    map; the other [Arc]s only hold what never changes. *)
From Stdlib Require Import NArith Lia Bool.
From stdpp Require Import base list gmap option numbers countable relations.
From S2P Require Import Prelude Buffers Utf8 Coding Setup Errors Messages Watch Serve Tracks Subscriptions SubscriberHalf.

(** ** Tracks *)

Module RemoteTrackDrop.
Record t := mk { parent : Handle; key : Tuple.t * String }.
End RemoteTrackDrop.

(** [drop] names the [Arc]. *)
Module RemoteTrackReader.
Record t := mk { reader : TrackReader.t; drop : nat }.
End RemoteTrackReader.

(** The [Weak] names it too, without counting. *)
Module RemoteTrackWeak.
Record t := mk { reader : TrackReader.t; drop : nat }.
End RemoteTrackWeak.

Module RemoteState.
Record t := mk {
  tracks : gmap (Tuple.t * String) RemoteTrackWeak.t;
  requested : list TrackWriter.t;
}.
Definition default : t := mk ∅ [].

Definition insert (key : Tuple.t * String) (track : RemoteTrackWeak.t) (writer : TrackWriter.t) (s : t) :
    option RemoteTrackWeak.t * t :=
  (tracks s !! key, mk (<[key := track]> (tracks s)) (requested s ++ [writer])).

Definition remove (key : Tuple.t * String) (s : t) : option RemoteTrackWeak.t * t :=
  (tracks s !! key, mk (delete key (tracks s)) (requested s)).

Definition pop_front (s : t) : option TrackWriter.t * t :=
  match requested s with [] => (None, s) | x :: q => (Some x, mk (tracks s) q) end.
End RemoteState.

(** The heaps: everything of the cache, the states of the remotes, and the
    [Arc]s with their strong counts. *)
Module RemoteWorld.
Record t := mk {
  store : Store.t;
  states : Arena RemoteState.t;
  arcs : gmap nat (RemoteTrackDrop.t * nat);
  next_arc : nat;
}.

Definition new : t := mk Store.new (arena_new RemoteState.default) ∅ 0.

Definition with_store (x : Store.t) (w : t) : t := mk x (states w) (arcs w) (next_arc w).
Definition with_states (x : Arena RemoteState.t) (w : t) : t := mk (store w) x (arcs w) (next_arc w).
Definition with_arcs (x : gmap nat (RemoteTrackDrop.t * nat)) (w : t) : t :=
  mk (store w) (states w) x (next_arc w).

(** [Arc::new], [Weak::upgrade], and one owner less: the last one is handed the
    value, whose destructor is then to run. *)
Definition arc_new (d : RemoteTrackDrop.t) (w : t) : nat * t :=
  (next_arc w, mk (store w) (states w) (<[next_arc w := (d, 1%nat)]> (arcs w)) (S (next_arc w))).

Definition arc_upgrade (a : nat) (w : t) : option nat * t :=
  match arcs w !! a with
  | Some (d, n) => (Some a, with_arcs (<[a := (d, S n)]> (arcs w)) w)
  | None => (None, w)
  end.

Definition arc_release (a : nat) (w : t) : option RemoteTrackDrop.t * t :=
  match arcs w !! a with
  | Some (d, S (S n)) => (None, with_arcs (<[a := (d, S n)]> (arcs w)) w)
  | Some (d, _) => (Some d, with_arcs (delete a (arcs w)) w)
  | None => (None, w)
  end.

(** A handle on the state of a remote goes, and with the last one the value. *)
Definition drop_state (h : Handle) (w : t) : t :=
  let (value, a) := drop_handle h (states w) in
  let w := with_states a w in
  match value with
  | Some s =>
      let x := fold_right (fun r => TrackRead.drop (RemoteTrackWeak.reader r)) (store w)
                 (map_to_list (RemoteState.tracks s)).*2 in
      with_store (fold_right TrackWrite.drop x (RemoteState.requested s)) w
  | None => w
  end.

(** [Drop::drop] of [RemoteTrackDrop], then its fields. *)
Definition finish_drop (self : RemoteTrackDrop.t) (w : t) : t :=
  let (r, a) := on_cell (RemoteTrackDrop.parent self)
    (with_mut (RemoteState.remove (RemoteTrackDrop.key self))) (states w) in
  let w := with_states a w in
  let w := match mjoin r with
           | Some weak => with_store (TrackRead.drop (RemoteTrackWeak.reader weak) (store w)) w
           | None => w
           end in
  drop_state (RemoteTrackDrop.parent self) w.
End RemoteWorld.

Module RemoteTrackRead.
Import RemoteWorld RemoteTrackReader.

(** [RemoteTrackReader::new] *)
Definition new (reader : TrackReader.t) (parent : Handle) (w : RemoteWorld.t) : t * RemoteWorld.t :=
  let info := TrackReader.info reader in
  let (a, w) := arc_new (RemoteTrackDrop.mk parent (Track.namespace info, Track.name info)) w in
  (mk reader a, w).

Definition downgrade (self : t) (w : RemoteWorld.t) : RemoteTrackWeak.t * RemoteWorld.t :=
  let (r, x) := TrackRead.clone (reader self) (store w) in
  (RemoteTrackWeak.mk r (drop self), with_store x w).

(** [RemoteTrackWeak::upgrade]: the reader is cloned before the [Weak] is asked. *)
Definition upgrade (weak : RemoteTrackWeak.t) (w : RemoteWorld.t) : option t * RemoteWorld.t :=
  let (r, x) := TrackRead.clone (RemoteTrackWeak.reader weak) (store w) in
  match arc_upgrade (RemoteTrackWeak.drop weak) (with_store x w) with
  | (Some a, w) => (Some (mk r a), w)
  | (None, w) => (None, with_store (TrackRead.drop r (store w)) w)
  end.

(** The derived [Clone] *)
Definition clone (self : t) (w : RemoteWorld.t) : t * RemoteWorld.t :=
  let (r, x) := TrackRead.clone (reader self) (store w) in
  (mk r (drop self), with_store x (snd (arc_upgrade (drop self) w))).

(** The fields of a [RemoteTrackReader] go, up to the destructor of the last
    [RemoteTrackDrop], which is a step of its own. *)
Definition release (self : t) (w : RemoteWorld.t) : option RemoteTrackDrop.t * RemoteWorld.t :=
  arc_release (drop self) (with_store (TrackRead.drop (reader self) (store w)) w).
End RemoteTrackRead.

(** ** One remote *)

(** URLs are the [url] crate's; all that is done with them is to compare them. *)
Class UrlKey := {
  Url : Type;
  #[export] Url_eq_dec :: EqDecision Url;
  #[export] Url_countable :: Countable Url;
}.

Module RemoteConsumer.
Section Remote.
Context {U : UrlKey}.
Record t := mk { url : Url; state : Handle }.

Definition clone (self : t) (w : RemoteWorld.t) : t * RemoteWorld.t :=
  let (h, a) := clone_handle (state self) (RemoteWorld.states w) in
  (mk (url self) h, RemoteWorld.with_states a w).

(** Look for the track and make sure of it under one lock. *)
Definition subscribe (namespace : Tuple.t) (name : String) (self : t) (w : RemoteWorld.t) :
    option RemoteTrackReader.t * RemoteWorld.t :=
  let key := (namespace, name) in
  let c := cell_of (state self) (RemoteWorld.states w) in
  let '(found, w) :=
    match RemoteState.tracks (lock c) !! key with
    | Some track => RemoteTrackRead.upgrade track w
    | None => (None, w)
    end in
  match found with
  | Some track => (Some track, w)
  | None =>
      match dropped (inner c) with
      | None => (None, w)
      | Some _ =>
          let '((writer, reader), x) := TrackWrite.produce (Track.new namespace name) (RemoteWorld.store w) in
          let (h, a) := clone_handle (state self) (RemoteWorld.states w) in
          let '(reader, w) :=
            RemoteTrackRead.new reader h (RemoteWorld.with_states a (RemoteWorld.with_store x w)) in
          let (weak, w) := RemoteTrackRead.downgrade reader w in
          let (old, a) := on_cell (state self) (with_mut (RemoteState.insert key weak writer))
            (RemoteWorld.states w) in
          let w := RemoteWorld.with_states a w in
          (Some reader,
           match mjoin old with
           | Some weak =>
               RemoteWorld.with_store (TrackRead.drop (RemoteTrackWeak.reader weak) (RemoteWorld.store w)) w
           | None => w
           end)
      end
  end.
End Remote.
End RemoteConsumer.

Module RemoteProducer.
Section Remote.
Context {U : UrlKey}.
Record t := mk { url : Url; state : Handle }.

(** One turn of [next]; it never fails. *)
Definition next_turn (self : t) (w : RemoteWorld.t) : @Queue.turn TrackWriter.t * RemoteWorld.t :=
  let c := cell_of (state self) (RemoteWorld.states w) in
  match RemoteState.requested (lock c) with
  | _ :: _ =>
      let (r, a) := on_cell (state self) (with_mut RemoteState.pop_front) (RemoteWorld.states w) in
      (Queue.Return (mjoin r), RemoteWorld.with_states a w)
  | [] =>
      match modified c with
      | Some since => (Queue.Wait since, w)
      | None => (Queue.Return None, w)
      end
  end.
End Remote.
End RemoteProducer.

Module Remote.
(** [Remote::produce] *)
Definition produce {U : UrlKey} (url : Url) (w : RemoteWorld.t) :
    (RemoteProducer.t * RemoteConsumer.t) * RemoteWorld.t :=
  let '((send, recv), a) := default_split RemoteState.default (RemoteWorld.states w) in
  ((RemoteProducer.mk url send, RemoteConsumer.mk url recv), RemoteWorld.with_states a w).
End Remote.

(** [RemoteProducer::run], connected: the tracks requested become subscriptions of
    the session, each in a task of its own. *)
Module RemoteRun.
Section Run.
Context {U : UrlKey} {Error : Type}.

(** A task subscribes and then waits for the end of the subscription. *)
Inductive task := Start (track : TrackWriter.t) | Waiting (sub : Subscribe.t).

Inductive point := Loop | Finished (r : outcome Error unit).

Record t := mk {
  remote : RemoteProducer.t;
  subscriber : SubscriberHalf.t;
  tasks : list task;
  done : option (outcome Error unit);
  at_ : point;
}.

Definition with_tasks (x : list task) (self : t) : t :=
  mk (remote self) (subscriber self) x (done self) (at_ self).
Definition with_subscriber (x : SubscriberHalf.t) (self : t) : t :=
  mk (remote self) x (tasks self) (done self) (at_ self).

(** Both connections are made first. *)
Definition start (connected : outcome Error SubscriberHalf.t) (remote : RemoteProducer.t) : outcome Error t :=
  match connected with
  | Ok half => Ok (mk remote half [] None Loop)
  | Err e => Err e
  | Panic => Panic
  end.

(** A method of the half on the common heap. *)
Definition on_half {R} (f : SubscriberHalf.t -> R * SubscriberHalf.t) (self : t) (w : RemoteWorld.t) :
    R * (t * RemoteWorld.t) :=
  let (r, h) := f (SubscriberHalf.with_store (RemoteWorld.store w) (subscriber self)) in
  (r, (with_subscriber h self, RemoteWorld.with_store (SubscriberHalf.store h) w)).

(** A task dropped where it stands. *)
Definition drop_task (k : task) (p : t * RemoteWorld.t) : t * RemoteWorld.t :=
  let (self, w) := p in
  match k with
  | Start track => (self, RemoteWorld.with_store (TrackWrite.drop track (RemoteWorld.store w)) w)
  | Waiting sub => snd (on_half (fun h => (tt, SubscriberHalf.unsubscribe sub h)) self w)
  end.

Definition leave (r : outcome Error unit) (self : t) (w : RemoteWorld.t) : t * RemoteWorld.t :=
  let (self, w) := foldr drop_task (self, w) (tasks self) in
  (mk (remote self) (subscriber self) [] (done self) (Finished r), w).

(** What the [select!] can do: take the next request, poll a task, see the
    session end, or nothing of these. *)
Inductive branch := Next | Poll (i : nat) | Ended (res : outcome Error unit) | Else.

Definition is_empty (l : list task) : bool := match l with [] => true | _ => false end.
Definition is_none {A} (o : option A) : bool := match o with None => true | Some _ => false end.

(** One turn; [None] if the branch is disabled or not ready. *)
Definition turn (b : branch) (self : t) (w : RemoteWorld.t) : option (t * RemoteWorld.t) :=
  match at_ self with
  | Finished _ => None
  | Loop =>
      match b with
      | Next =>
          match done self with
          | Some _ => None
          | None =>
              match RemoteProducer.next_turn (remote self) w with
              | (Queue.Return (Some track), w) => Some (with_tasks (tasks self ++ [Start track]) self, w)
              | (Queue.Return None, w) =>
                  Some (mk (remote self) (subscriber self) (tasks self) (Some (Ok tt)) Loop, w)
              | (Queue.Wait _, _) => None
              end
          end
      | Poll i =>
          match tasks self !! i with
          | Some (Start track) =>
              let '(sub, (self, w)) := on_half (SubscriberHalf.subscribe track) self w in
              Some (with_tasks (<[i := Waiting sub]> (tasks self)) self, w)
          | Some (Waiting sub) =>
              match on_half (SubscriberHalf.subscribe_turn sub) self w with
              | (Return _, (self, w)) => Some (with_tasks (delete i (tasks self)) self, w)
              | (Wait _, _) => None
              end
          | None => None
          end
      | Ended res =>
          if negb (is_empty (tasks self)) || is_none (done self) then Some (leave res self w)
          else None
      | Else =>
          if negb (is_none (done self)) && is_empty (tasks self) then
            Some (leave (match done self with Some r => r | None => Panic end) self w)
          else None
      end
  end.
End Run.
End RemoteRun.

(** ** All remotes *)

Module RemotesState.
Section Remotes.
Context {U : UrlKey}.
Record t := mk { lookup : gmap Url RemoteConsumer.t; requested : list RemoteProducer.t }.
Definition default : t := mk ∅ [].

Definition push (url : Url) (consumer : RemoteConsumer.t) (producer : RemoteProducer.t) (s : t) : unit * t :=
  (tt, mk (<[url := consumer]> (lookup s)) (requested s ++ [producer])).

Definition remove (url : Url) (s : t) : option RemoteConsumer.t * t :=
  (lookup s !! url, mk (delete url (lookup s)) (requested s)).

Definition pop_front (s : t) : option RemoteProducer.t * t :=
  match requested s with [] => (None, s) | x :: q => (Some x, mk (lookup s) q) end.
End Remotes.
End RemotesState.

Module Remotes.
Section Remotes.
Context {U : UrlKey} {ApiError : Type}.

(** The state the producer and the consumers share, and the heaps. *)
Record t := mk { state : Cell RemotesState.t; world : RemoteWorld.t }.

(** [RemotesConsumer::route], once the API has answered. *)
Definition route (origin : outcome ApiError (option Url)) (self : t) :
    outcome ApiError (option RemoteConsumer.t) * t :=
  match origin with
  | Err e => (Err e, self)
  | Panic => (Panic, self)
  | Ok None => (Ok None, self)
  | Ok (Some url) =>
      match RemotesState.lookup (lock (state self)) !! url with
      | Some remote =>
          let (remote, w) := RemoteConsumer.clone remote (world self) in (Ok (Some remote), mk (state self) w)
      | None =>
          match dropped (inner (state self)) with
          | None => (Ok None, self)
          | Some _ =>
              let '((writer, reader), w) := Remote.produce url (world self) in
              let (entry, w) := RemoteConsumer.clone reader w in
              let (_, c) := with_mut (RemotesState.push url entry writer) (state self) in
              (Ok (Some reader), mk c w)
          end
      end
  end.

(** One turn of [RemotesProducer::next]. *)
Definition next_turn (self : t) : @Queue.turn RemoteProducer.t * t :=
  match RemotesState.requested (lock (state self)) with
  | _ :: _ =>
      let (r, c) := with_mut RemotesState.pop_front (state self) in (Queue.Return (mjoin r), mk c (world self))
  | [] =>
      match modified (state self) with
      | Some since => (Queue.Wait since, self)
      | None => (Queue.Return None, self)
      end
  end.

(** [state.lookup.remove(&url)], the consumer it returns goes. *)
Definition remove (url : Url) (self : t) : t :=
  let (r, c) := with_mut (RemotesState.remove url) (state self) in
  mk c (match mjoin r with
        | Some remote => RemoteWorld.drop_state (RemoteConsumer.state remote) (world self)
        | None => world self
        end).
End Remotes.
End Remotes.

(** [RemotesProducer::run]: a task per remote. *)
Module RemotesRun.
Section Run.
Context {U : UrlKey}.

Inductive point := Loop | Finished.

(** The remotes that run, and the URLs of those that have ended and whose result
    has not been taken yet. *)
Record t := mk { running : list RemoteProducer.t; ended : list Url; at_ : point }.

Definition start : t := mk [] [] Loop.

(** The task of a remote ends, whatever it returns: the remote goes. *)
Definition task_end (i : nat) (self : t) (s : Remotes.t) : option (t * Remotes.t) :=
  match running self !! i with
  | Some remote =>
      Some (mk (delete i (running self)) (ended self ++ [RemoteProducer.url remote]) (at_ self),
            Remotes.mk (Remotes.state s)
              (RemoteWorld.drop_state (RemoteProducer.state remote) (Remotes.world s)))
  | None => None
  end.

Inductive branch := Next | Done (i : nat) | Else.

(** One turn of the [select!]; [Else] if [next] is over and there is no task. *)
Definition turn (b : branch) (self : t) (s : Remotes.t) : option (t * Remotes.t) :=
  match at_ self with
  | Finished => None
  | Loop =>
      match b with
      | Next =>
          match Remotes.next_turn s with
          | (Queue.Return (Some remote), s) =>
              Some (mk (running self ++ [remote]) (ended self) Loop, s)
          | _ => None
          end
      | Done i =>
          match ended self !! i with
          | Some url => Some (mk (running self) (delete i (ended self)) Loop, Remotes.remove url s)
          | None => None
          end
      | Else =>
          match Remotes.next_turn s, running self, ended self with
          | (Queue.Return None, s), [], [] => Some (mk [] [] Finished, s)
          | _, _, _ => None
          end
      end
  end.
End Run.
End RemotesRun.

(** ** One connection per origin *)

Section Once.
Context {U : UrlKey}.

(** The map against the remotes that wait, run or have just ended, given by
    their URLs [urls], and the producers [ps] that are alive. *)
Record once (m : gmap Url RemoteConsumer.t) (open : Prop) (urls : list Url) (ps : list RemoteProducer.t) : Prop := {
  once_nodup : NoDup urls;
  once_in : forall u, u ∈ urls -> is_Some (m !! u);
  once_out : open -> forall u, is_Some (m !! u) -> u ∈ urls;
  once_link : forall p, p ∈ ps -> RemoteProducer.url p ∈ urls /\ exists c, m !! RemoteProducer.url p = Some c /\
    RemoteConsumer.url c = RemoteProducer.url p /\ loc (RemoteConsumer.state c) = loc (RemoteProducer.state p);
}.

#[export] Instance once_perm m open : Proper ((≡ₚ) ==> (≡ₚ) ==> iff) (once m open).
Proof.
  assert (H : forall l l' k k', l ≡ₚ l' -> k ≡ₚ k' -> once m open l k -> once m open l' k').
  { intros l l' k k' Hl Hk [H1 H2 H3 H4]. split.
    - by rewrite <- Hl.
    - intros u. rewrite <- Hl. apply H2.
    - intros Ho u. rewrite <- Hl. by apply H3.
    - intros p. rewrite <- Hk, <- Hl. apply H4. }
  intros l l' Hl k k' Hk. split; by apply H.
Qed.

Lemma once_insert m open u c p urls ps :
  once m open urls ps -> u ∉ urls -> open -> RemoteProducer.url p = u -> RemoteConsumer.url c = u ->
  loc (RemoteConsumer.state c) = loc (RemoteProducer.state p) ->
  once (<[u := c]> m) open (u :: urls) (p :: ps).
Proof.
  intros [H1 H2 H3 H4] Hu Ho Hp Hc Hl. split.
  - by constructor.
  - intros v. rewrite elem_of_cons, lookup_insert_is_Some. intros [->|Hv]; [by left|].
    destruct (decide (u = v)) as [->|]; [by left|]. right. auto.
  - intros _ v. rewrite elem_of_cons, lookup_insert_is_Some. intros [->|[_ Hv]]; [by left|]. right. auto.
  - intros q Hq. apply elem_of_cons in Hq as [->|Hq].
    + rewrite Hp. split; [by left|]. exists c. by rewrite lookup_insert_eq.
    + destruct (H4 q Hq) as (Hin & d & Hd & ? & ?). split; [by right|]. exists d.
      rewrite lookup_insert_ne; [done|]. by intros ->.
Qed.

(** A producer goes, its URL stays until the map is told. *)
Lemma once_gone m open p urls ps : once m open urls (p :: ps) -> once m open urls ps.
Proof. intros [H1 H2 H3 H4]. split; [done..|]. intros q Hq. apply H4. by right. Qed.

Lemma once_delete m open u urls ps :
  (forall p, p ∈ ps -> RemoteProducer.url p <> u) ->
  once m open (u :: urls) ps -> once (delete u m) open urls ps /\ (~ open -> once m open urls ps).
Proof.
  intros Hps [H1 H2 H3 H4]. apply NoDup_cons in H1 as [Hu H1]. split; [|intros Hno]; split; try done.
  - intros v Hv. rewrite lookup_delete_ne; [apply H2; by right|]. by intros <-.
  - intros Ho v [c Hc]. apply lookup_delete_Some in Hc as [Hne Hc].
    specialize (H3 Ho v (ex_intro _ c Hc)). by apply elem_of_cons in H3 as [->|].
  - intros p Hp. specialize (Hps p Hp). destruct (H4 p Hp) as [Hin (c & ? & ? & ?)]. split.
    + by apply elem_of_cons in Hin as [?|].
    + exists c. by rewrite lookup_delete_ne.
  - intros v Hv. apply H2. by right.
  - intros p Hp. specialize (Hps p Hp). destruct (H4 p Hp) as [Hin Hc]. split; [|done].
    by apply elem_of_cons in Hin as [?|].
Qed.

Lemma once_shut m (open open' : Prop) urls ps : (open' -> open) -> once m open urls ps -> once m open' urls ps.
Proof. intros Ho [H1 H2 H3 H4]. split; auto. Qed.
End Once.

(** The producer at work, consumers routing, in any order. *)
Module RemotesSys.
Section Sys.
Context {U : UrlKey} {ApiError : Type}.

Record t := mk { run : RemotesRun.t; remotes : Remotes.t }.

(** Others do with the heaps what they like, and with the handles of the common
    state what leaves its value alone. *)
Inductive step : t -> t -> Prop :=
  | do_route s (origin : outcome ApiError (option Url)) :
      step s (mk (run s) (snd (Remotes.route origin (remotes s))))
  | do_turn s b r a : RemotesRun.turn b (run s) (remotes s) = Some (r, a) -> step s (mk r a)
  | do_task_end s i r a : RemotesRun.task_end i (run s) (remotes s) = Some (r, a) -> step s (mk r a)
  | do_world s w : step s (mk (run s) (Remotes.mk (Remotes.state (remotes s)) w))
  | do_handle s c : stays (Remotes.state (remotes s)) c ->
      step s (mk (run s) (Remotes.mk c (Remotes.world (remotes s)))).

Definition start : t := mk RemotesRun.start (Remotes.mk (snd (state_new RemotesState.default)) RemoteWorld.new).

Definition value (s : t) : RemotesState.t := lock (Remotes.state (remotes s)).
Definition open (s : t) : Prop := dropped (inner (Remotes.state (remotes s))) <> None.
Definition producers (s : t) : list RemoteProducer.t := RemotesState.requested (value s) ++ RemotesRun.running (run s).
Definition urls (s : t) : list Url := (RemoteProducer.url <$> producers s) ++ RemotesRun.ended (run s).

Definition inv (s : t) : Prop := once (RemotesState.lookup (value s)) (open s) (urls s) (producers s).

Lemma route_keeps origin s : inv s -> inv (mk (run s) (snd (Remotes.route (ApiError := ApiError) origin (remotes s)))).
Proof.
  intros Hi. unfold Remotes.route. destruct origin as [[u|]|e|]; try done.
  destruct (RemotesState.lookup (lock (Remotes.state (remotes s))) !! u) as [c|] eqn:Hu; [done|].
  destruct (dropped (inner (Remotes.state (remotes s)))) eqn:Hd; [|done].
  cbn [Remote.produce default_split state_new split]. unfold with_mut. rewrite Hd. cbn.
  unfold inv, urls, producers, value, open. cbn. rewrite Hd.
  assert (Hn : u ∉ urls s).
  { intros Hin. apply (once_in _ _ _ _ Hi) in Hin. unfold value in Hin. rewrite Hu in Hin. by destruct Hin. }
  set (p := RemoteProducer.mk u _). set (c := RemoteConsumer.mk u _).
  assert (H : once (<[u := c]> (RemotesState.lookup (value s))) (open s) (u :: urls s) (p :: producers s))
    by (apply once_insert; try done; unfold open; by rewrite Hd).
  unfold open in H. rewrite Hd in H. refine (proj1 (once_perm _ _ _ _ _ _ _ _) H).
  - unfold urls, producers, value, lock. rewrite !fmap_app. cbn. solve_Permutation.
  - unfold producers, value, lock. solve_Permutation.
Qed.

Lemma next_keeps remote a s :
  Remotes.next_turn (remotes s) = (Queue.Return (Some remote), a) -> inv s ->
  inv (mk (RemotesRun.mk (RemotesRun.running (run s) ++ [remote]) (RemotesRun.ended (run s)) RemotesRun.Loop) a).
Proof.
  unfold Remotes.next_turn. intros E Hi.
  destruct (RemotesState.requested (lock (Remotes.state (remotes s)))) as [|p q] eqn:Hq;
    [by destruct (modified _)|].
  unfold with_mut in E. destruct (dropped (inner (Remotes.state (remotes s)))) eqn:Hd; [|done].
  unfold RemotesState.pop_front in E. unfold lock in Hq. rewrite Hq in E. cbn in E.
  assert (p = remote) as <- by congruence. assert (a = Remotes.mk
    (run_notify (set_inner (set_value (RemotesState.mk
      (RemotesState.lookup (lock (Remotes.state (remotes s)))) q) (inner (Remotes.state (remotes s))))
      (Remotes.state (remotes s)))) (Remotes.world (remotes s))) as -> by (unfold lock; congruence).
  unfold inv, urls, producers, value, open, lock in *. cbn. rewrite Hq in Hi. rewrite Hd in *.
  eapply once_perm; [..|exact Hi].
  - rewrite !fmap_app. cbn. solve_Permutation.
  - solve_Permutation.
Qed.

Lemma remove_keeps i url s :
  RemotesRun.ended (run s) !! i = Some url -> inv s ->
  inv (mk (RemotesRun.mk (RemotesRun.running (run s)) (delete i (RemotesRun.ended (run s))) RemotesRun.Loop)
         (Remotes.remove url (remotes s))).
Proof.
  intros Hu Hi. unfold inv in *.
  assert (Hp : urls s ≡ₚ url :: (RemoteProducer.url <$> producers s) ++ delete i (RemotesRun.ended (run s))).
  { unfold urls. rewrite (delete_Permutation _ _ _ Hu) at 1. solve_Permutation. }
  rewrite Hp in Hi.
  assert (Hn : forall p, p ∈ producers s -> RemoteProducer.url p <> url).
  { intros p Hin <-. pose proof (once_nodup _ _ _ _ Hi) as Hnd. apply NoDup_cons in Hnd as [Hnd _].
    apply Hnd, elem_of_app. left. by apply list_elem_of_fmap_2. }
  destruct (once_delete _ _ _ _ _ Hn Hi) as [H1 H2].
  unfold Remotes.remove, with_mut, urls, producers, value, open in *.
  destruct (dropped (inner (Remotes.state (remotes s)))) eqn:Hd; cbn in *; rewrite Hd in *.
  - exact H1.
  - apply H2. by intros [].
Qed.

Lemma task_end_keeps i r a s : RemotesRun.task_end i (run s) (remotes s) = Some (r, a) -> inv s -> inv (mk r a).
Proof.
  unfold RemotesRun.task_end. destruct (RemotesRun.running (run s) !! i) as [p|] eqn:Hp; [|done].
  intros [= <- <-] Hi. unfold inv, open in *. cbn.
  apply (once_gone _ _ p). eapply once_perm; [..|exact Hi].
  - unfold urls, producers, value. cbn. rewrite !fmap_app.
    rewrite (delete_Permutation _ _ _ Hp) at 2. cbn. solve_Permutation.
  - unfold producers, value. cbn. rewrite (delete_Permutation _ _ _ Hp) at 2. solve_Permutation.
Qed.

Lemma remotes_step_inv s s' : step s s' -> inv s -> inv s'.
Proof.
  destruct 1 as [s origin|s b r a E|s i r a E|s w|s c [Hc Ho]]; intros Hi.
  - by apply route_keeps.
  - unfold RemotesRun.turn in E. destruct (RemotesRun.at_ (run s)); [|done]. destruct b as [|i|].
    + destruct (Remotes.next_turn (remotes s)) as [[[remote|]|n] a'] eqn:En; simplify_eq. by eapply next_keeps.
    + destruct (RemotesRun.ended (run s) !! i) as [url|] eqn:Hu; simplify_eq. by apply remove_keeps.
    + destruct (Remotes.next_turn (remotes s)) as [[[remote|]|n] a'] eqn:En; try done.
      destruct (RemotesRun.running (run s)) eqn:Hr; [|done].
      destruct (RemotesRun.ended (run s)) eqn:He; [|done]. simplify_eq.
      assert (Hs : Remotes.state a = Remotes.state (remotes s)).
      { unfold Remotes.next_turn in En. destruct (RemotesState.requested _) as [|p q] eqn:Hq.
        - destruct (modified _); by simplify_eq.
        - unfold with_mut, RemotesState.pop_front in En. unfold lock in Hq. rewrite Hq in En.
          destruct (dropped _); by simplify_eq. }
      unfold inv, urls, producers, value, open in *. cbn. by rewrite Hs, <- Hr, <- He.
  - by eapply task_end_keeps.
  - exact Hi.
  - unfold inv, urls, producers, value, open in *. cbn. rewrite Hc. eapply once_shut; [|exact Hi]. tauto.
Qed.

Lemma start_inv : inv start.
Proof.
  unfold inv, urls, producers, value, open. cbn. split; try done.
  - constructor.
  - intros u Hu. by apply elem_of_nil in Hu.
  - intros _ u [c Hc]. done.
  - intros p Hp. by apply elem_of_nil in Hp.
Qed.

Lemma remotes_reach_inv s : rtc step start s -> inv s.
Proof.
  intros Hr. revert s Hr. apply rtc_ind_r; [apply start_inv|]. intros x y _ Hs Hi. by eapply remotes_step_inv.
Qed.

(** C13 (invariant). However the consumers' [route], the producer's loop and the
    ends of its tasks interleave, and whatever becomes of the tracks and the
    handles: the remotes that wait to run, run, or have just ended all have
    different URLs, so there is never a second connection to one origin; each of
    them is in the map, its consumer being the other half of the very state of
    that remote; and as long as both sides are there nothing else is in the map.
    [route] therefore gives the consumer of the live connection if there is one,
    asking for nothing; else it asks for exactly one connection and enters its
    consumer, so that the next [route] gives it again; a shut state gives [None]
    and an error of the API is passed on. *)
Theorem remotes_once (s : t) (url : Url) (e : ApiError) : rtc step start s ->
  NoDup (urls s) /\
  (forall u, u ∈ urls s -> is_Some (RemotesState.lookup (value s) !! u)) /\
  (open s -> forall u, is_Some (RemotesState.lookup (value s) !! u) -> u ∈ urls s) /\
  (forall p, p ∈ producers s -> exists c, RemotesState.lookup (value s) !! RemoteProducer.url p = Some c /\
    loc (RemoteConsumer.state c) = loc (RemoteProducer.state p)) /\
  Remotes.route (ApiError := ApiError) (Ok None) (remotes s) = (Ok None, remotes s) /\
  Remotes.route (Err e) (remotes s) = (Err e, remotes s) /\
  let '(r, a) := Remotes.route (ApiError := ApiError) (Ok (Some url)) (remotes s) in
  match RemotesState.lookup (value s) !! url with
  | Some c => r = Ok (Some c) /\ lock (Remotes.state a) = value s
  | None =>
      match dropped (inner (Remotes.state (remotes s))) with
      | None => r = Ok None /\ a = remotes s
      | Some _ => exists c p, r = Ok (Some c) /\ RemoteProducer.url p = url /\
          RemotesState.requested (lock (Remotes.state a)) = RemotesState.requested (value s) ++ [p] /\
          RemotesState.lookup (lock (Remotes.state a)) = <[url := c]> (RemotesState.lookup (value s)) /\
          loc (RemoteConsumer.state c) = loc (RemoteProducer.state p) /\
          fst (Remotes.route (ApiError := ApiError) (Ok (Some url)) a) = Ok (Some c)
      end
  end.
Proof.
  intros Hr. destruct (remotes_reach_inv s Hr) as [H1 H2 H3 H4]. split; [done|]. split; [done|]. split; [done|].
  split; [|split; [done|split; [done|]]].
  { intros p Hp. destruct (H4 p Hp) as (_ & c & Hc & _ & Hl). by exists c. }
  unfold Remotes.route at 1, value. unfold value in *.
  destruct (RemotesState.lookup (lock (Remotes.state (remotes s))) !! url) as [c|]; [by destruct c|].
  destruct (dropped (inner (Remotes.state (remotes s)))) eqn:Hd; [|done].
  cbn [Remote.produce default_split state_new split]. unfold with_mut. rewrite Hd. cbn.
  eexists _, _. split; [reflexivity|]. split; [|split; [reflexivity|split; [reflexivity|split; [reflexivity|]]]]; [done|].
  unfold Remotes.route. cbn. by rewrite lookup_insert_eq.
Qed.
End Sys.
End RemotesSys.

(** ** One request per track *)

Module TracksSys.
Import RemoteWorld.

(** Where the map of a remote has its entry for a track. *)
Definition place (d : RemoteTrackDrop.t) : nat * (Tuple.t * String) :=
  (loc (RemoteTrackDrop.parent d), RemoteTrackDrop.key d).

Definition entry (w : RemoteWorld.t) (p : nat * (Tuple.t * String)) : option RemoteTrackWeak.t :=
  RemoteState.tracks (lock (cells (states w) p.1)) !! p.2.

(** The heaps, and the [RemoteTrackDrop]s whose owners are gone but whose
    destructor has not run yet: it has to wait for the lock. *)
Record t := mk { world : RemoteWorld.t; dying : list RemoteTrackDrop.t }.

Section Sys.
Context {U : UrlKey}.

(** Anybody may use what is there. With [prompt], no request is made for a track
    whose destructor is about to run. *)
Inductive step (prompt : bool) : t -> t -> Prop :=
  | do_produce s url : step prompt s (mk (snd (Remote.produce url (world s))) (dying s))
  | do_subscribe s consumer namespace name :
      (loc (RemoteConsumer.state consumer) < next_cell (states (world s)))%nat ->
      (prompt = true -> forall d, d ∈ dying s -> place d <> (loc (RemoteConsumer.state consumer), (namespace, name))) ->
      step prompt s (mk (snd (RemoteConsumer.subscribe namespace name consumer (world s))) (dying s))
  | do_clone s track : step prompt s (mk (snd (RemoteTrackRead.clone track (world s))) (dying s))
  | do_release s track d w : RemoteTrackRead.release track (world s) = (d, w) ->
      step prompt s (mk w (dying s ++ option_list d))
  | do_finish s i d : dying s !! i = Some d ->
      step prompt s (mk (finish_drop d (world s)) (delete i (dying s)))
  | do_next s producer : step prompt s (mk (snd (RemoteProducer.next_turn producer (world s))) (dying s))
  | do_handle s h c : stays (cell_of h (states (world s))) c ->
      step prompt s (mk (with_states (put (loc h) c (states (world s))) (world s)) (dying s))
  | do_drop s h : step prompt s (mk (drop_state h (world s)) (dying s))
  | do_store s x : step prompt s (mk (with_store x (world s)) (dying s)).

Definition start : t := mk RemoteWorld.new [].
End Sys.

(** *** The invariant *)

(** Live [Arc]s own the entry at their place, and nobody dying shares it. *)
Record owned (arcs : gmap nat (RemoteTrackDrop.t * nat)) (fresh cells : nat)
    (e : nat * (Tuple.t * String) -> option RemoteTrackWeak.t) (dying : list RemoteTrackDrop.t) : Prop := {
  owned_live : forall a d n, arcs !! a = Some (d, n) ->
    (a < fresh)%nat /\ ((place d).1 < cells)%nat /\
    exists weak, e (place d) = Some weak /\ RemoteTrackWeak.drop weak = a;
  owned_dying : forall x a d n, x ∈ dying -> arcs !! a = Some (d, n) -> place x <> place d;
  owned_entry : forall p weak, (p.1 < cells)%nat -> e p = Some weak ->
    (RemoteTrackWeak.drop weak < fresh)%nat /\
    forall d n, arcs !! RemoteTrackWeak.drop weak = Some (d, n) -> place d = p;
}.

Definition inv (s : t) : Prop :=
  owned (arcs (world s)) (next_arc (world s)) (next_cell (states (world s))) (entry (world s)) (dying s).

Section Owned.
Context (m : gmap nat (RemoteTrackDrop.t * nat)) (f c : nat)
  (e : nat * (Tuple.t * String) -> option RemoteTrackWeak.t) (l : list RemoteTrackDrop.t) (Ho : owned m f c e l).

(** Two live [Arc]s at one place are the same. *)
Lemma owned_unique a a' d d' n n' :
  m !! a = Some (d, n) -> m !! a' = Some (d', n') -> place d = place d' -> a = a'.
Proof.
  intros Ha Ha' Hp. destruct (owned_live _ _ _ _ _ Ho _ _ _ Ha) as (_ & _ & w & Hw & <-).
  destruct (owned_live _ _ _ _ _ Ho _ _ _ Ha') as (_ & _ & w' & Hw' & <-). rewrite Hp in Hw. congruence.
Qed.

Lemma owned_count a d n n' : m !! a = Some (d, n) -> owned (<[a := (d, n')]> m) f c e l.
Proof.
  intros Ha. destruct Ho as [H1 H2 H3].
  assert (Hs : forall b x k, <[a := (d, n')]> m !! b = Some (x, k) -> exists k', m !! b = Some (x, k')).
  { intros b x k Hb. apply lookup_insert_Some in Hb as [[<- [= <- _]]|[_ Hb]]; eauto. }
  split.
  - intros b x k Hb. destruct (Hs _ _ _ Hb) as [k' Hk]. by eapply H1.
  - intros y b x k Hy Hb. destruct (Hs _ _ _ Hb) as [k' Hk]. by eapply H2.
  - intros p w Hp Hw. destruct (H3 p w Hp Hw) as [? Hd]. split; [done|].
    intros x k Hb. destruct (Hs _ _ _ Hb) as [k' Hk]. by eapply Hd.
Qed.

Lemma owned_die a d n : m !! a = Some (d, n) -> owned (delete a m) f c e (l ++ [d]).
Proof.
  intros Ha. destruct Ho as [H1 H2 H3]. split.
  - intros b x k Hb. apply lookup_delete_Some in Hb as [_ Hb]. by eapply H1.
  - intros y b x k Hy Hb. apply lookup_delete_Some in Hb as [Hne Hb].
    apply elem_of_app in Hy as [Hy|Hy]; [by eapply H2|]. apply list_elem_of_singleton in Hy as ->.
    intros Hp. apply Hne. by eapply owned_unique.
  - intros p w Hp Hw. destruct (H3 p w Hp Hw) as [? Hd]. split; [done|].
    intros x k Hb. apply lookup_delete_Some in Hb as [_ Hb]. by eapply Hd.
Qed.

Lemma owned_same e' l' :
  (forall p, (p.1 < c)%nat -> e' p = e p) -> (forall x, x ∈ l' -> x ∈ l) -> owned m f c e' l'.
Proof.
  intros He Hl. destruct Ho as [H1 H2 H3]. split.
  - intros b x k Hb. destruct (H1 _ _ _ Hb) as (? & Hc & ?). by rewrite He.
  - intros y b x k Hy. apply H2. by apply Hl.
  - intros p w Hp. rewrite He by done. by apply H3.
Qed.

(** The destructor clears its place, which is nobody's. *)
Lemma owned_clear e' l' x :
  x ∈ l -> (forall p, e' p = if decide (p = place x) then None else e p) -> (forall y, y ∈ l' -> y ∈ l) ->
  owned m f c e' l'.
Proof.
  intros Hx He Hl. destruct Ho as [H1 H2 H3]. split.
  - intros b d k Hb. destruct (H1 _ _ _ Hb) as (? & ? & w & Hw & ?). split; [done|]. split; [done|].
    exists w. rewrite He, decide_False; [done|]. intros E. by eapply (H2 x).
  - intros y b d k Hy. apply H2. by apply Hl.
  - intros p w Hp. rewrite He. case_decide; [done|]. by apply H3.
Qed.

(** A new cell has no entries. *)
Lemma owned_cell e' :
  (forall p, e' p = if decide (p.1 = c) then None else e p) -> owned m f (S c) e' l.
Proof.
  intros He. destruct Ho as [H1 H2 H3]. split; [|done|].
  - intros b d k Hb. destruct (H1 _ _ _ Hb) as (? & Hc & w & Hw & ?). split; [done|]. split; [lia|].
    exists w. rewrite He, decide_False; [done|lia].
  - intros p w Hp. rewrite He. case_decide as Hc; [done|]. apply H3. lia.
Qed.

(** A new [Arc] takes a place that is nobody's. *)
Lemma owned_add e' d weak :
  ((place d).1 < c)%nat -> RemoteTrackWeak.drop weak = f ->
  (forall a x n, m !! a = Some (x, n) -> place x <> place d) -> (forall x, x ∈ l -> place x <> place d) ->
  (forall p, e' p = if decide (p = place d) then Some weak else e p) ->
  owned (<[f := (d, 1%nat)]> m) (S f) c e' l.
Proof.
  intros Hc Hw Hm Hl He. destruct Ho as [H1 H2 H3].
  assert (Hf : m !! f = None).
  { destruct (m !! f) as [[x n]|] eqn:E; [|done]. destruct (H1 _ _ _ E) as [? _]. lia. }
  split.
  - intros a x n Ha. rewrite He. apply lookup_insert_Some in Ha as [[<- [= <- <-]]|[Hne Ha]].
    + split; [lia|]. split; [done|]. exists weak. by rewrite decide_True.
    + destruct (H1 _ _ _ Ha) as (? & ? & ?). split; [lia|]. split; [done|].
      rewrite decide_False; [done|by eapply Hm].
  - intros y a x n Hy Ha. apply lookup_insert_Some in Ha as [[<- [= <- <-]]|[Hne Ha]]; [by apply Hl|by eapply H2].
  - intros p w Hp. rewrite He. case_decide as Hd.
    + intros [= <-]. rewrite Hw. split; [lia|]. intros x n. rewrite lookup_insert_eq. by intros [= <- _].
    + intros E. destruct (H3 p w Hp E) as [? Hx]. split; [lia|]. intros x n.
      rewrite lookup_insert_ne by lia. apply Hx.
Qed.
End Owned.

(** *** What the operations do to the entries *)

Lemma entry_put h c w p :
  entry (with_states (put (loc h) c (states w)) w) p =
  if decide (p.1 = loc h) then RemoteState.tracks (lock c) !! p.2 else entry w p.
Proof. unfold entry, put. cbn. by case_decide. Qed.

Lemma entry_stays h c w p :
  stays (cell_of h (states w)) c -> entry (with_states (put (loc h) c (states w)) w) p = entry w p.
Proof. intros [Hs _]. rewrite entry_put. case_decide as E; [|done]. rewrite Hs. unfold entry, cell_of. by rewrite E. Qed.

(** What leaves the [Arc]s and the entries as they are. *)
Record keeps (w w' : RemoteWorld.t) : Prop := {
  keeps_arcs : arcs w' = arcs w;
  keeps_next : next_arc w' = next_arc w;
  keeps_cells : next_cell (states w') = next_cell (states w);
  keeps_entry : forall p, entry w' p = entry w p;
}.

#[export] Instance keeps_preorder : PreOrder keeps.
Proof.
  split; [by intros w|]. intros w1 w2 w3 [A1 A2 A3 A4] [B1 B2 B3 B4].
  split; congruence || (intros p; by rewrite B4).
Qed.

Lemma keeps_store x w : keeps w (with_store x w).
Proof. done. Qed.

Lemma keeps_put h c w : stays (cell_of h (states w)) c -> keeps w (with_states (put (loc h) c (states w)) w).
Proof. intros Hs. split; try done. intros p. by apply entry_stays. Qed.

Lemma keeps_drop h w : keeps w (drop_state h w).
Proof.
  unfold drop_state, drop_handle. transitivity (with_states (put (loc h)
    (Watch.drop_state (half h) (cell_of h (states w))) (states w)) w); [by apply keeps_put, stays_drop|].
  by destruct (decide _).
Qed.

Lemma keeps_producer {U : UrlKey} (p : RemoteProducer.t) w : keeps w (snd (RemoteProducer.next_turn p w)).
Proof.
  unfold RemoteProducer.next_turn. set (c := cell_of _ _).
  destruct (RemoteState.requested (lock c)) as [|x q] eqn:Hq; [by destruct (modified _)|].
  unfold on_cell. fold c. unfold with_mut, RemoteState.pop_front. unfold lock in Hq. rewrite Hq.
  assert (Hk : forall c', RemoteState.tracks (lock c') = RemoteState.tracks (lock c) ->
    keeps w (with_states (put (loc (RemoteProducer.state p)) c' (states w)) w)).
  { intros c' Hc. split; try done. intros k. rewrite entry_put. case_decide as E; [|done].
    rewrite Hc. unfold c, entry, cell_of. by rewrite E. }
  destruct (dropped (inner c)); by apply Hk.
Qed.

Lemma keeps_inv w l s : keeps (world s) w -> (forall x, x ∈ l -> x ∈ dying s) -> inv s -> inv (mk w l).
Proof.
  intros [Ha Hn Hc He] Hl Hi. unfold inv. cbn. rewrite Ha, Hn, Hc. by eapply owned_same.
Qed.

(** The destructor *)
Lemma finish_inv i d s : dying s !! i = Some d -> inv s -> inv (mk (finish_drop d (world s)) (delete i (dying s))).
Proof.
  intros Hd Hi. unfold finish_drop, on_cell, with_mut.
  set (h := RemoteTrackDrop.parent d). set (c := cell_of h (states (world s))).
  assert (Hl : forall x, x ∈ delete i (dying s) -> x ∈ dying s).
  { intros x Hx. rewrite (delete_Permutation _ _ _ Hd). by right. }
  destruct (dropped (inner c)) as [u|] eqn:Ho.
  - cbn [mjoin option_join RemoteState.remove].
    set (c' := run_notify _). set (w := with_states (put (loc h) c' (states (world s))) (world s)).
    assert (Hw : inv (mk w (delete i (dying s)))).
    { unfold inv. cbn. eapply (owned_clear _ _ _ _ _ Hi _ _ d); [by eapply list_elem_of_lookup_2| |done].
      intros [k key]. unfold w. rewrite entry_put. cbn [fst snd]. unfold place. fold h.
      destruct (decide (k = loc h)) as [->|Hne].
      - unfold c', lock. cbn. destruct (decide ((loc h, key) = (loc h, RemoteTrackDrop.key d))) as [E|E].
        + assert (key = RemoteTrackDrop.key d) as -> by congruence. apply lookup_delete_eq.
        + rewrite lookup_delete_ne; [done|]. intros Hk. apply E. by rewrite Hk.
      - rewrite decide_False; [done|]. intros E. congruence. }
    eapply (keeps_inv _ _ (mk w (delete i (dying s)))); [|done|exact Hw]. cbn.
    etransitivity; [|apply keeps_drop]. by destruct (RemoteState.tracks _ !! _).
  - eapply keeps_inv; [|exact Hl|exact Hi]. cbn [mjoin option_join]. etransitivity; [|apply keeps_drop].
    apply keeps_put. done.
Qed.

(** Looking an entry up again. *)
Lemma upgrade_spec weak w :
  match arcs w !! RemoteTrackWeak.drop weak with
  | Some (d, n) =>
      exists w', RemoteTrackRead.upgrade weak w =
        (Some (RemoteTrackReader.mk (RemoteTrackWeak.reader weak) (RemoteTrackWeak.drop weak)), w') /\
        arcs w' = <[RemoteTrackWeak.drop weak := (d, S n)]> (arcs w) /\ next_arc w' = next_arc w /\
        states w' = states w
  | None => exists x, RemoteTrackRead.upgrade weak w = (None, with_store x w)
  end.
Proof.
  unfold RemoteTrackRead.upgrade. destruct (TrackRead.clone (RemoteTrackWeak.reader weak) (store w)) as [r x] eqn:E.
  assert (r = RemoteTrackWeak.reader weak) as ->.
  { unfold TrackRead.clone in E. cbn in E. assert (Hr := f_equal fst E). cbn in Hr. rewrite <- Hr.
    by destruct (RemoteTrackWeak.reader weak). }
  unfold arc_upgrade. cbn [arcs with_store].
  destruct (arcs w !! RemoteTrackWeak.drop weak) as [[d n]|]; [|by eexists].
  eexists. split; [reflexivity|]. done.
Qed.

Lemma downgrade_spec r w :
  exists x, RemoteTrackRead.downgrade r w =
    (RemoteTrackWeak.mk (RemoteTrackReader.reader r) (RemoteTrackReader.drop r), with_store x w).
Proof. destruct r as [[h i] a]. unfold RemoteTrackRead.downgrade. cbn. by eexists. Qed.

Lemma produce_spec track x :
  let '((writer, reader), _) := TrackWrite.produce track x in
  TrackWriter.info writer = track /\ TrackReader.info reader = track /\
  loc (TrackReader.state reader) = loc (TrackWriter.state writer).
Proof. done. Qed.

(** [RemoteConsumer::subscribe] on its three branches. *)
Section Subscribe.
Context {U : UrlKey} (namespace : Tuple.t) (name : String) (self : RemoteConsumer.t) (w : RemoteWorld.t).
Let h := RemoteConsumer.state self.
Let p := (loc h, (namespace, name)).

Definition alive (weak : option RemoteTrackWeak.t) : option (RemoteTrackWeak.t * (RemoteTrackDrop.t * nat)) :=
  match weak with
  | Some weak => pair weak <$> arcs w !! RemoteTrackWeak.drop weak
  | None => None
  end.

Lemma subscribe_alive weak d n : alive (entry w p) = Some (weak, (d, n)) ->
  exists w', RemoteConsumer.subscribe namespace name self w =
    (Some (RemoteTrackReader.mk (RemoteTrackWeak.reader weak) (RemoteTrackWeak.drop weak)), w') /\
    arcs w' = <[RemoteTrackWeak.drop weak := (d, S n)]> (arcs w) /\ next_arc w' = next_arc w /\
    states w' = states w.
Proof.
  unfold alive, RemoteConsumer.subscribe. change (RemoteState.tracks _ !! _) with (entry w p).
  destruct (entry w p) as [wk|]; [|done]. pose proof (upgrade_spec wk w) as Hu.
  destruct (arcs w !! RemoteTrackWeak.drop wk) as [[d' n']|]; [|done]. intros [= <- <- <-].
  destruct Hu as (w' & Hu & Hw). rewrite Hu. by exists w'.
Qed.

Lemma subscribe_dead : alive (entry w p) = None ->
  let '(r, w') := RemoteConsumer.subscribe namespace name self w in
  match dropped (inner (cell_of h (states w))) with
  | None => r = None /\ keeps w w'
  | Some _ => exists reader writer d weak, r = Some (RemoteTrackReader.mk reader (next_arc w)) /\
      arcs w' = <[next_arc w := (d, 1%nat)]> (arcs w) /\ next_arc w' = S (next_arc w) /\
      next_cell (states w') = next_cell (states w) /\ place d = p /\
      RemoteTrackWeak.reader weak = reader /\ RemoteTrackWeak.drop weak = next_arc w /\
      (forall q, entry w' q = if decide (q = p) then Some weak else entry w q) /\
      RemoteState.requested (lock (cell_of h (states w'))) =
        RemoteState.requested (lock (cell_of h (states w))) ++ [writer] /\
      TrackWriter.info writer = Track.new namespace name /\
      loc (TrackReader.state reader) = loc (TrackWriter.state writer)
  end.
Proof.
  intros Ha. unfold RemoteConsumer.subscribe. change (RemoteState.tracks _ !! _) with (entry w p). fold h.
  set (c := cell_of h (states w)).
  assert (Hf : exists x, match entry w p with Some track => RemoteTrackRead.upgrade track w | None => (None, w) end
    = (None, with_store x w)).
  { unfold alive in Ha. destruct (entry w p) as [wk|]; [|exists (store w); by destruct w].
    pose proof (upgrade_spec wk w) as Hu. by destruct (arcs w !! RemoteTrackWeak.drop wk) as [[d n]|]. }
  destruct Hf as [x Hf]. rewrite Hf.
  destruct (dropped (inner c)) as [u|] eqn:Hd; [|done].
  pose proof (produce_spec (Track.new namespace name) (store (with_store x w))) as Hp.
  destruct (TrackWrite.produce _ _) as [[writer reader] x1]. destruct Hp as (Hiw & Hir & Hloc).
  unfold clone_handle, on_cell at 1. cbn [clone states with_store]. fold c.
  set (c1 := {| inner := inner c; drops := _; fresh_drop := _; woken := _ |}).
  unfold RemoteTrackRead.new, arc_new. cbn [next_arc with_states with_store]. rewrite Hir.
  set (w1 := RemoteWorld.mk _ _ _ _). destruct (downgrade_spec (RemoteTrackReader.mk reader (next_arc w)) w1) as [x2 Hdg].
  rewrite Hdg. set (weak := RemoteTrackWeak.mk _ _). unfold on_cell.
  change (states (with_store x2 w1)) with (put (loc h) c1 (states w)). rewrite (cell_put_eq h c1). unfold with_mut. change (dropped (inner c1)) with (dropped (inner c)).
  rewrite Hd. cbn [RemoteState.insert mjoin option_join].
  set (c2 := run_notify _). set (w2 := with_states _ (with_store x2 w1)).
  set (w' := match RemoteState.tracks _ !! _ with Some weak => _ | None => _ end).
  assert (Hk : keeps w2 w') by (unfold w'; by destruct (RemoteState.tracks _ !! _)).
  assert (Hs : states w' = states w2) by (unfold w'; by destruct (RemoteState.tracks _ !! _)).
  exists reader, writer, (RemoteTrackDrop.mk h (namespace, name)), weak.
  split; [done|]. destruct Hk as [-> -> -> He]. do 6 (split; [done|]). split; [|].
  - intros q. rewrite He. destruct q as [k key]. unfold entry, w2, put. cbn. unfold p.
    destruct (decide (k = loc h)) as [->|Hne].
    + unfold c2, c1, lock. cbn. destruct (decide (key = (namespace, name))) as [->|Hne].
      * rewrite decide_True by done. apply lookup_insert_eq.
      * rewrite decide_False by congruence. rewrite lookup_insert_ne by congruence. done.
    + by rewrite decide_False by congruence.
  - rewrite Hs. unfold w2. cbn [states with_states]. rewrite cell_put_eq. done.
Qed.
End Subscribe.

Lemma count_inv s a d n n' w : arcs (world s) !! a = Some (d, n) ->
  arcs w = <[a := (d, n')]> (arcs (world s)) -> next_arc w = next_arc (world s) ->
  states w = states (world s) -> inv s -> inv (mk w (dying s)).
Proof.
  intros Ha Hw Hn Hs Hi. unfold inv, entry. cbn. rewrite Hw, Hn, Hs.
  eapply (owned_count _ _ _ _ _ Hi). exact Ha.
Qed.

Lemma release_inv track d w s : RemoteTrackRead.release track (world s) = (d, w) -> inv s ->
  inv (mk w (dying s ++ option_list d)).
Proof.
  unfold RemoteTrackRead.release, arc_release. set (x := TrackRead.drop _ _). cbn [arcs with_store].
  destruct (arcs (world s) !! RemoteTrackReader.drop track) as [[d' n]|] eqn:Ha.
  - destruct n as [|[|n]]; intros [= <- <-] Hi.
    + exact (owned_die _ _ _ _ _ Hi _ _ _ Ha).
    + exact (owned_die _ _ _ _ _ Hi _ _ _ Ha).
    + rewrite app_nil_r. by eapply (count_inv s _ _ _ (S n)).
  - intros [= <- <-] Hi. rewrite app_nil_r. exact Hi.
Qed.

Section Run.
Context {U : UrlKey}.

Lemma subscribe_inv s (self : RemoteConsumer.t) namespace name :
  (loc (RemoteConsumer.state self) < next_cell (states (world s)))%nat ->
  (forall d, d ∈ dying s -> place d <> (loc (RemoteConsumer.state self), (namespace, name))) ->
  inv s -> inv (mk (snd (RemoteConsumer.subscribe namespace name self (world s))) (dying s)).
Proof.
  intros Hc Hdy Hi. set (p := (loc (RemoteConsumer.state self), (namespace, name))) in *.
  destruct (alive (world s) (entry (world s) p)) as [[weak [d n]]|] eqn:Ha.
  - destruct (subscribe_alive _ _ _ _ weak d n Ha) as (w' & -> & ? & ? & ?). cbn.
    eapply count_inv; [|done..]. unfold alive in Ha. destruct (entry (world s) p) as [wk|]; [|done].
    destruct (arcs (world s) !! RemoteTrackWeak.drop wk) as [[]|] eqn:E; [|done]. cbn in Ha. by simplify_eq.
  - pose proof (subscribe_dead _ _ _ _ Ha) as H. destruct (RemoteConsumer.subscribe _ _ _ _) as [r w']. cbv beta iota in H. cbn [snd].
    destruct (dropped _).
    + destruct H as (reader & writer & d & weak & _ & H1 & H2 & H3 & H4 & _ & H6 & H7 & _).
      fold p in H4. unfold inv. cbn. rewrite H1, H2, H3.
      eapply (owned_add _ _ _ _ _ Hi); [by rewrite H4|exact H6| | |by rewrite H4].
      * intros a x k Hx E. rewrite H4 in E.
        destruct (owned_live _ _ _ _ _ Hi _ _ _ Hx) as (_ & _ & wk & Hwk & Hd). rewrite E in Hwk.
        unfold alive in Ha. rewrite Hwk, Hd, Hx in Ha. done.
      * rewrite H4. exact Hdy.
    + destruct H as [_ Hk]. by eapply keeps_inv.
Qed.

Lemma tracks_step_inv s s' : step true s s' -> inv s -> inv s'.
Proof.
  destruct 1 as [s url|s consumer ns name Hc Hd|s track|s track d w E|s i d E|s p|s h c Hs|s h|s x]; intros Hi.
  - unfold inv. cbn. apply (owned_cell _ _ _ _ _ Hi). intros [k key]. unfold entry, put. cbn.
    by case_decide.
  - by apply subscribe_inv; auto.
  - unfold RemoteTrackRead.clone. destruct (TrackRead.clone _ _) as [r x]. cbn.
    unfold arc_upgrade. destruct (arcs (world s) !! RemoteTrackReader.drop track) as [[d n]|] eqn:E; [|exact Hi].
    by eapply (count_inv s _ _ _ (S n)).
  - by eapply release_inv.
  - by apply finish_inv.
  - eapply keeps_inv; [apply keeps_producer|done|done].
  - eapply keeps_inv; [by apply keeps_put|done|done].
  - eapply keeps_inv; [apply keeps_drop|done|done].
  - exact Hi.
Qed.

Lemma tracks_reach_inv s : rtc (step true) start s -> inv s.
Proof.
  revert s. apply rtc_ind_r; [|intros x y _ Hs Hi; by eapply tracks_step_inv].
  split; [|by intros x a d n Hx; apply elem_of_nil in Hx|]; cbn.
  - intros a d n Ha. by rewrite lookup_empty in Ha.
  - intros p weak Hp. lia.
Qed.

(** The race: the last owner of a track goes, a second request is made before the
    destructor has the lock, the destructor then takes the second entry out, and a
    third request finds none. *)
Section Race.
Context (url : Url).

Definition race_consumer : RemoteConsumer.t := RemoteConsumer.mk url {| loc := 0; half := 1%nat |}.
Definition race_track : RemoteTrackReader.t :=
  RemoteTrackReader.mk (TrackReader.mk {| loc := 0; half := 1%nat |} (Track.new (Tuple.mk []) empty_string)) 0.
Definition race_drop : RemoteTrackDrop.t :=
  RemoteTrackDrop.mk {| loc := 0; half := 1%nat |} (Tuple.mk [], empty_string).

Definition race_ask (w : RemoteWorld.t) : option RemoteTrackReader.t * RemoteWorld.t :=
  RemoteConsumer.subscribe (Tuple.mk []) empty_string race_consumer w.

Definition race_waiting : t :=
  let w := snd (race_ask (snd (Remote.produce url RemoteWorld.new))) in
  mk (snd (RemoteTrackRead.release race_track w)) [race_drop].

Definition race_end : t := mk (snd (race_ask (finish_drop race_drop (snd (race_ask (world race_waiting)))))) [].

Lemma race_first : fst (race_ask (snd (Remote.produce url RemoteWorld.new))) = Some race_track.
Proof. vm_compute. reflexivity. Qed.

Lemma race_run : rtc (step false) start race_end.
Proof.
  set (w1 := snd (Remote.produce url RemoteWorld.new)).
  eapply rtc_l; [apply (do_produce false start url)|].
  eapply rtc_l; [apply (do_subscribe false _ race_consumer (Tuple.mk []) empty_string); [vm_compute; lia|done]|].
  eapply rtc_l; [apply (do_release false _ race_track (Some race_drop) (snd (RemoteTrackRead.release race_track (snd (race_ask w1)))))|].
  { rewrite (surjective_pairing (RemoteTrackRead.release _ _)). f_equal. }
  eapply rtc_l; [apply (do_subscribe false _ race_consumer (Tuple.mk []) empty_string); [vm_compute; lia|done]|].
  eapply rtc_l; [apply (do_finish false _ 0 race_drop); reflexivity|].
  eapply rtc_l; [apply (do_subscribe false _ race_consumer (Tuple.mk []) empty_string); [vm_compute; lia|done]|].
  reflexivity.
Qed.
End Race.

(** C14 (invariant). While a track of a remote has an owner, the map holds its
    entry, so there is one track per name: whatever is requested, cloned, dropped
    and taken, in any order, two live [RemoteTrackDrop]s of one remote and name are
    the same, and a request finds it, gives the very reader that is in the map, and
    queues nothing. This holds if no request comes between the end of the last
    owner and the destructor it starts, which waits for the lock on its own. If
    one does, the destructor takes out the entry of the new track: then there are
    two live tracks of one name, and three requests. *)
Theorem remote_tracks_shared :
  (forall s, rtc (step true) start s ->
    (forall a a' d d' n n', arcs (world s) !! a = Some (d, n) -> arcs (world s) !! a' = Some (d', n') ->
      place d = place d' -> a = a') /\
    forall (consumer : RemoteConsumer.t) namespace name a d n,
      arcs (world s) !! a = Some (d, n) ->
      place d = (loc (RemoteConsumer.state consumer), (namespace, name)) ->
      exists reader w, RemoteConsumer.subscribe namespace name consumer (world s) =
        (Some (RemoteTrackReader.mk reader a), w) /\
      (RemoteTrackWeak.reader <$> entry (world s) (place d)) = Some reader /\
      arcs w = <[a := (d, S n)]> (arcs (world s)) /\ states w = states (world s)) /\
  (forall url, exists s d d', rtc (step false) start s /\
    arcs (world s) !! 1%nat = Some (d, 1%nat) /\ arcs (world s) !! 2%nat = Some (d', 1%nat) /\
    place d = place d' /\
    length (RemoteState.requested (lock (cell_of (RemoteConsumer.state (race_consumer url)) (states (world s))))) = 3%nat).
Proof.
  split.
  - intros s Hr. pose proof (tracks_reach_inv s Hr) as Hi. split.
    + intros a a' d d' n n' Ha Ha' Hp. by eapply (owned_unique _ _ _ _ _ Hi).
    + intros consumer namespace name a d n Ha Hp.
      destruct (owned_live _ _ _ _ _ Hi _ _ _ Ha) as (_ & _ & weak & Hw & Hd).
      assert (Hal : alive (world s) (entry (world s) (loc (RemoteConsumer.state consumer), (namespace, name)))
        = Some (weak, (d, n))) by (rewrite <- Hp, Hw; unfold alive; by rewrite Hd, Ha).
      destruct (subscribe_alive namespace name consumer (world s) weak d n Hal) as (w & E & H1 & _ & H3).
      exists (RemoteTrackWeak.reader weak), w. rewrite E, Hw, Hd in *. done.
  - intros url. exists (race_end url), race_drop, race_drop. split; [apply race_run|].
    split; [vm_compute; reflexivity|]. split; [vm_compute; reflexivity|]. split; [done|]. vm_compute. reflexivity.
Qed.
End Run.
End TracksSys.

(** ** The end of [RemoteProducer::run] *)

Section RunEnds.
Context {U : UrlKey} {Error : Type}.

Lemma on_half_fields {R} (f : SubscriberHalf.t -> R * SubscriberHalf.t) (self : RemoteRun.t (Error := Error)) w :
  let '(_, (self', _)) := RemoteRun.on_half f self w in
  RemoteRun.done self' = RemoteRun.done self /\ RemoteRun.at_ self' = RemoteRun.at_ self /\
  RemoteRun.tasks self' = RemoteRun.tasks self /\ RemoteRun.remote self' = RemoteRun.remote self.
Proof. unfold RemoteRun.on_half. by destruct (f _). Qed.

(** A turn sets [done] once, to [Ok], and ends the loop only when the session has
    ended, with its result, or when nothing is left to do, with [Ok]: the
    [unwrap] is safe. *)
Lemma remote_run_turn b (self : RemoteRun.t (Error := Error)) w self' w' :
  RemoteRun.turn b self w = Some (self', w') ->
  RemoteRun.done self = None \/ RemoteRun.done self = Some (Ok tt) ->
  (RemoteRun.at_ self' = RemoteRun.Loop /\
   (RemoteRun.done self' = RemoteRun.done self \/
    RemoteRun.done self = None /\ RemoteRun.done self' = Some (Ok tt))) \/
  exists res, RemoteRun.at_ self' = RemoteRun.Finished res /\ RemoteRun.tasks self' = [] /\
    (b = RemoteRun.Ended res \/
     b = RemoteRun.Else /\ res = Ok tt /\ RemoteRun.tasks self = [] /\ RemoteRun.done self = Some (Ok tt)).
Proof.
  intros Ht Hd. unfold RemoteRun.turn in Ht. destruct (RemoteRun.at_ self) eqn:Ha; [|done]. destruct b as [|i|res|].
  - destruct (RemoteRun.done self) eqn:Hn; [done|]. left.
    destruct (RemoteProducer.next_turn _ _) as [[[track|]|n] w1]; simplify_eq; cbn; rewrite ?Hn; auto.
  - left. destruct (RemoteRun.tasks self !! i) as [[track|sub]|]; [| |done].
    + pose proof (on_half_fields (SubscriberHalf.subscribe track) self w) as H.
      destruct (RemoteRun.on_half _ _ _) as [sub [self1 w1]]. destruct H as (H1 & H2 & _). simplify_eq.
      cbn. by rewrite H1, H2, Ha; auto.
    + pose proof (on_half_fields (SubscriberHalf.subscribe_turn sub) self w) as H.
      destruct (RemoteRun.on_half _ _ _) as [[r|n] [self1 w1]]; [|done]. destruct H as (H1 & H2 & _). simplify_eq.
      cbn. by rewrite H1, H2, Ha; auto.
  - destruct (_ || _); [|done]. right. exists res. unfold RemoteRun.leave in Ht.
    destruct (foldr _ _ _) as [self1 w1]. simplify_eq. cbn. auto.
  - destruct (negb _ && _) eqn:E; [|done]. apply andb_true_iff in E as [E1 E2]. right. exists (Ok tt).
    destruct (RemoteRun.tasks self); [|done]. destruct (RemoteRun.done self) as [r|]; [|done].
    destruct Hd as [|[= ->]]; [done|]. unfold RemoteRun.leave in Ht. destruct (foldr _ _ _) as [self1 w1].
    simplify_eq. cbn. split; [done|]. split; [done|]. by right.
Qed.
End RunEnds.

(** ** Examples *)

#[local] Instance demo_urls : UrlKey := {| Url := N |}.

Definition demo_url : Url := (7 : @Url demo_urls).

Definition demo_routed : RemotesSys.t :=
  RemotesSys.mk RemotesRun.start
    (snd (Remotes.route (ApiError := unit) (Ok (Some demo_url)) (RemotesSys.remotes RemotesSys.start))).

Lemma demo_routed_run : rtc (RemotesSys.step (ApiError := unit)) RemotesSys.start demo_routed.
Proof. eapply rtc_l; [apply (RemotesSys.do_route RemotesSys.start (Ok (Some demo_url)))|]. reflexivity. Qed.

Lemma remotes_once_witness :
  RemotesSys.urls demo_routed = [demo_url] /\ NoDup (RemotesSys.urls demo_routed).
Proof.
  split; [vm_compute; reflexivity|].
  exact (proj1 (RemotesSys.remotes_once (ApiError := unit) demo_routed demo_url tt demo_routed_run)).
Defined.
