(* ===== verification/Relay.v ===== *)
(** * The relay between its sessions

    [moq-relay-ietf/src/local.rs], [producer.rs] and [consumer.rs]: the namespaces
    announced to this relay, who serves a subscription, and what becomes of an
    announcement. Every session has a [Consumer] over its [SubscriberHalf] and a
    [Producer] over its [PublisherHalf]; all share the table of namespaces, the
    remotes and the heaps. A method is cut where it waits for somebody else: the
    API, the peer, the next request. *)
From Stdlib Require Import NArith Lia Bool.
From stdpp Require Import base list gmap option numbers countable relations.
From S2P Require Import Prelude Buffers Utf8 Coding Setup Announces Subscribes Messages Errors Watch Serve Tracks.
From S2P Require Import Serving Subscriptions SubscriberHalf PublisherHalf Remotes.

(** ** [local.rs] *)

Module Registration.
Record t := mk { namespace : Tuple.t }.
End Registration.

Module Locals.
Record t := mk { lookup : gmap Tuple.t TracksReader.t }.
Definition new : t := mk ∅.

(** A namespace that is taken is refused, and the reader goes. *)
Definition register (tracks : TracksReader.t) (self : t) (x : Store.t) :
    outcome ServeError Registration.t * (t * Store.t) :=
  let namespace := Tracks.namespace (TracksReader.info tracks) in
  match lookup self !! namespace with
  | None => (Ok (Registration.mk namespace), (mk (<[namespace := tracks]> (lookup self)), x))
  | Some _ => (Err ServeErr.Duplicate, (self, TracksReader.drop tracks x))
  end.

Definition route (namespace : Tuple.t) (self : t) (x : Store.t) : option TracksReader.t * Store.t :=
  match lookup self !! namespace with
  | Some tracks => let (tracks, x) := TracksReader.clone tracks x in (Some tracks, x)
  | None => (None, x)
  end.

(** [Drop::drop] of [Registration] *)
Definition unregister (reg : Registration.t) (self : t) (x : Store.t) : t * Store.t :=
  match lookup self !! Registration.namespace reg with
  | Some tracks => (mk (delete (Registration.namespace reg) (lookup self)), TracksReader.drop tracks x)
  | None => (self, x)
  end.
End Locals.

(** ** What the sessions share *)

Module Relay.
Section Relay.
Context {U : UrlKey}.
Record t := mk { locals : Locals.t; remotes : Remotes.t }.

Definition store (w : t) : Store.t := RemoteWorld.store (Remotes.world (remotes w)).
Definition with_store (x : Store.t) (w : t) : t :=
  mk (locals w) (Remotes.mk (Remotes.state (remotes w)) (RemoteWorld.with_store x (Remotes.world (remotes w)))).
Definition with_remotes (x : Remotes.t) (w : t) : t := mk (locals w) x.
Definition with_world (x : RemoteWorld.t) (w : t) : t :=
  mk (locals w) (Remotes.mk (Remotes.state (remotes w)) x).

(** A method on the heaps of the cache, on the table, and one of a session's half
    on the common heaps. *)
Definition on_store {R} (f : Store.t -> R * Store.t) (w : t) : R * t :=
  let (r, x) := f (store w) in (r, with_store x w).

Definition on_locals {R} (f : Locals.t -> Store.t -> R * (Locals.t * Store.t)) (w : t) : R * t :=
  let '(r, (l, x)) := f (locals w) (store w) in (r, with_store x (mk l (remotes w))).

Definition on_subscriber {R} (f : SubscriberHalf.t -> R * SubscriberHalf.t) (h : SubscriberHalf.t) (w : t) :
    R * (SubscriberHalf.t * t) :=
  let (r, h) := f (SubscriberHalf.with_store (store w) h) in (r, (h, with_store (SubscriberHalf.store h) w)).
End Relay.
End Relay.

(** [anyhow::Error], by where it comes from. *)
Inductive error {ApiError : Type} :=
  | FromServe (e : ServeError)
  | FromSession (e : SessionError)
  | FromApi (e : ApiError).
Arguments error : clear implicits.

(** ** [producer.rs]: who serves a subscription *)

Module Producer.
Section Producer.
Context {U : UrlKey} {ApiError : Type}.

(** Whether there are remotes to ask and an upstream session; the half the
    subscriptions come from is the session's. *)
Record t := mk { remotes : bool; upstream : bool }.

(** Where the track comes from, with what stays alive while it is served. The
    writer of an upstream track is the spawned task's. *)
Inductive source :=
  | Local (tracks : TracksReader.t) (track : TrackReader.t)
  | Remote (remote : RemoteConsumer.t) (track : RemoteTrackReader.t)
  | Upstream (track : TrackReader.t) (writer : TrackWriter.t).

(** The reader [subscribe.serve] is given. *)
Definition served (s : source) : TrackReader.t :=
  match s with
  | Local _ track => track
  | Remote _ track => RemoteTrackReader.reader track
  | Upstream track _ => track
  end.

Inductive point := AskApi | Serving (from : source) | Failed (e : error ApiError).

Section Serve.
Context (self : t) (namespace : Tuple.t) (name : String).

Definition try_local (w : Relay.t) : option source * Relay.t :=
  match Relay.on_store (Locals.route namespace (Relay.locals w)) w with
  | (Some local, w) =>
      match Relay.on_store (TracksReader.subscribe name local) w with
      | (Some track, w) => (Some (Local local track), w)
      | (None, w) => (None, Relay.with_store (TracksReader.drop local (Relay.store w)) w)
      end
  | (None, w) => (None, w)
  end.

Definition try_remote (origin : outcome ApiError (option Url)) (w : Relay.t) :
    outcome (error ApiError) (option source) * Relay.t :=
  match Remotes.route origin (Relay.remotes w) with
  | (Err e, a) => (Err (FromApi e), Relay.with_remotes a w)
  | (Panic, a) => (Panic, Relay.with_remotes a w)
  | (Ok None, a) => (Ok None, Relay.with_remotes a w)
  | (Ok (Some remote), a) =>
      let (r, x) := RemoteConsumer.subscribe namespace name remote (Remotes.world a) in
      let w := Relay.with_world x (Relay.with_remotes a w) in
      match r with
      | Some track => (Ok (Some (Remote remote track)), w)
      | None =>
          (Ok None, Relay.with_world (RemoteWorld.drop_state (RemoteConsumer.state remote) x) w)
      end
  end.

Definition try_upstream (w : Relay.t) : point * Relay.t :=
  if upstream self then
    let '((writer, reader), w) := Relay.on_store (TrackWrite.produce (Track.new namespace name)) w in
    (Serving (Upstream reader writer), w)
  else (Failed (FromServe ServeErr.NotFound), w).

(** [serve] up to its first await, and from the answer of the API to the next. *)
Definition serve_start (w : Relay.t) : point * Relay.t :=
  match try_local w with
  | (Some from, w) => (Serving from, w)
  | (None, w) => if remotes self then (AskApi, w) else try_upstream w
  end.

Definition serve_answer (origin : outcome ApiError (option Url)) (w : Relay.t) : outcome (error ApiError) point * Relay.t :=
  match try_remote origin w with
  | (Ok (Some from), w) => (Ok (Serving from), w)
  | (Ok None, w) => let (p, w) := try_upstream w in (Ok p, w)
  | (Err e, w) => (Ok (Failed e), w)
  | (Panic, w) => (Panic, w)
  end.
End Serve.

(** [serve] returns an error: its [subscribe] goes out of scope. *)
Definition serve_failed (to_string : ServeError -> String) (subscribe : Subscribed.t) (h : PublisherHalf.t) :
    PublisherHalf.t := PublisherHalf.subscribed_drop to_string subscribe h.

(** The end of [serve], after [subscribe.serve], which has taken the track. *)
Definition serve_leave (from : source) (w : Relay.t) : Relay.t :=
  match from with
  | Local tracks _ => Relay.with_store (TracksReader.drop tracks (Relay.store w)) w
  | Remote remote track =>
      let (d, x) := RemoteWorld.arc_release (RemoteTrackReader.drop track) (Remotes.world (Relay.remotes w)) in
      let x := match d with Some d => RemoteWorld.finish_drop d x | None => x end in
      Relay.with_world (RemoteWorld.drop_state (RemoteConsumer.state remote) x) w
  | Upstream _ _ => w
  end.
End Producer.
End Producer.

(** ** [consumer.rs]: what becomes of an announcement *)

Module Consumer.
Section Consumer.
Context {U : UrlKey} {ApiError : Type} (to_string : ServeError -> String).

(** Whether announcements are forwarded. *)
Record t := mk { forward : bool }.

(** The locals of [serve]. *)
Record Serve := {
  announce : Announced.t;
  request : TracksRequest.t;
  reader : TracksReader.t;
}.

(** The broadcast is made, its writer goes at once. *)
Definition serve_start (announce : Announced.t) (w : Relay.t) : Serve * Relay.t :=
  let '((writer, request, reader), x) :=
    produce (Tracks.new (SubscriberHalf.announced_namespace announce)) (Relay.store w) in
  ({| announce := announce; request := request; reader := reader |},
   Relay.with_store (TracksWriter.drop writer x) w).

(** Leaving [serve]: the registration first, if there is one, the announcement
    last. *)
Definition serve_leave (reg : option Registration.t) (s : Serve) (h : SubscriberHalf.t) (w : Relay.t) :
    outcome ServeError unit * (SubscriberHalf.t * Relay.t) :=
  let w := match reg with
           | Some reg => snd (Relay.on_locals (fun l x => (tt, Locals.unregister reg l x)) w)
           | None => w
           end in
  let w := Relay.with_store (TracksReader.drop (reader s) (Relay.store w)) w in
  let (r, w) := Relay.on_store (TracksRequest.drop (request s)) w in
  let '(_, p) := Relay.on_subscriber (fun h => (tt, SubscriberHalf.announced_drop to_string (announce s) h)) h w in
  (r, p).

(** The outcome of the part before the loop: [serve] runs, and a clone of the
    reader goes to the forwarding task, or it has left. *)
Inductive begun := Running (reg : Registration.t) (s : Serve) (forwarded : option TracksReader.t)
  | Left (e : error ApiError).

(** The leave of an error; the [Panic] is that of [TracksRequest::drop]. *)
Definition fail (e : error ApiError) (reg : option Registration.t) (s : Serve) (h : SubscriberHalf.t) (w : Relay.t) :
    outcome Empty_set begun * (SubscriberHalf.t * Relay.t) :=
  match serve_leave reg s h w with
  | (Panic, p) => (Panic, p)
  | (_, p) => (Ok (Left e), p)
  end.

(** From the answer of the API, if there is one to ask, to the loop. *)
Definition serve_begin (self : t) (set_origin : option (outcome ApiError unit)) (s : Serve)
    (h : SubscriberHalf.t) (w : Relay.t) : outcome Empty_set begun * (SubscriberHalf.t * Relay.t) :=
  match set_origin with
  | Some (Err e) => fail (FromApi e) None s h w
  | Some Panic => (Panic, (h, w))
  | _ =>
      let (tracks, w) := Relay.on_store (TracksReader.clone (reader s)) w in
      match Relay.on_locals (Locals.register tracks) w with
      | (Ok reg, w) =>
          let '(res, ((announced, h), w)) :=
            let '(p, (h, w)) := Relay.on_subscriber (fun h =>
                let '(r, (a, h)) := SubscriberHalf.announced_ok (announce s) h in ((r, a), h)) h w in
            (fst p, ((snd p, h), w)) in
          let s := {| announce := announced; request := request s; reader := reader s |} in
          match res with
          | Ok _ =>
              if forward self then
                let (tracks, w) := Relay.on_store (TracksReader.clone (reader s)) w in
                (Ok (Running reg s (Some tracks)), (h, w))
              else (Ok (Running reg s None), (h, w))
          | Err e => fail (FromServe e) (Some reg) s h w
          | Panic => (Panic, (h, w))
          end
      | (Err e, w) => fail (FromServe e) None s h w
      | (Panic, w) => (Panic, (h, w))
      end
  end.

(** The two branches of the loop. The announcement ends: [serve] leaves. *)
Definition closed_turn (reg : Registration.t) (s : Serve) (h : SubscriberHalf.t) (w : Relay.t) :
    option (outcome Empty_set begun * (SubscriberHalf.t * Relay.t)) :=
  match SubscriberHalf.announced_closed_turn (announce s) h with
  | Wait _ => None
  | Return (Err e) => Some (fail (FromServe e) (Some reg) s h w)
  | Return _ => None
  end.

(** A track is requested: the task that is spawned subscribes to it. *)
Definition request_turn (s : Serve) (h : SubscriberHalf.t) (w : Relay.t) :
    option (Subscribe.t * (SubscriberHalf.t * Relay.t)) :=
  match Relay.on_store (TracksRequest.next_turn (request s)) w with
  | (Queue.Return (Some track), w) => Some (Relay.on_subscriber (SubscriberHalf.subscribe track) h w)
  | _ => None
  end.
End Consumer.
End Consumer.

(** ** The table of namespaces *)

Module LocalsSys.

(** The table and the registrations that are held. *)
Record t := mk { locals : Locals.t; held : list Registration.t }.

Inductive step : t -> t -> Prop :=
  | do_register s tracks x r l x' : Locals.register tracks (locals s) x = (r, (l, x')) ->
      step s (mk l (held s ++ match r with Ok reg => [reg] | _ => [] end))
  | do_drop s i reg x : held s !! i = Some reg ->
      step s (mk (fst (Locals.unregister reg (locals s) x)) (delete i (held s))).

Definition start : t := mk Locals.new [].

Definition names (s : t) : list Tuple.t := Registration.namespace <$> held s.

Record inv (s : t) : Prop := {
  inv_nodup : NoDup (names s);
  inv_held : forall ns, is_Some (Locals.lookup (locals s) !! ns) <-> ns ∈ names s;
  inv_key : forall ns r, Locals.lookup (locals s) !! ns = Some r -> Tracks.namespace (TracksReader.info r) = ns;
}.

Lemma locals_step_inv s s' : step s s' -> inv s -> inv s'.
Proof.
  destruct 1 as [s tracks x r l x' E|s i reg x E]; intros [H1 H2 H3].
  - unfold Locals.register in E. set (ns := Tracks.namespace (TracksReader.info tracks)) in *.
    destruct (Locals.lookup (locals s) !! ns) eqn:Hl; simplify_eq; [by rewrite app_nil_r; destruct s|].
    assert (Hn : ns ∉ names s) by (intros Hin; apply H2 in Hin as [? Hx]; congruence).
    unfold names in *. split; unfold names; cbn; rewrite ?fmap_app; cbn.
    + apply NoDup_app. split; [done|]. split; [|apply NoDup_singleton].
      intros k Hk Hs. apply list_elem_of_singleton in Hs as ->. done.
    + intros k. rewrite lookup_insert_is_Some, elem_of_app, list_elem_of_singleton.
      specialize (H2 k). destruct (decide (ns = k)) as [->|]; [tauto|]. split; [intros [->|[_ Hx]]; tauto|].
      intros [Hx| ->]; tauto.
    + intros k r0 Hk. apply lookup_insert_Some in Hk as [[<- <-]|[_ Hk]]; [done|by apply H3].
  - assert (Hp : names s ≡ₚ Registration.namespace reg :: (Registration.namespace <$> delete i (held s))).
    { unfold names. rewrite (delete_Permutation _ _ _ E) at 1. done. }
    set (ns := Registration.namespace reg) in *.
    assert (Hs : is_Some (Locals.lookup (locals s) !! ns)) by (apply H2; rewrite Hp; by left).
    rewrite Hp in H1. apply NoDup_cons in H1 as [Hn H1].
    unfold Locals.unregister. fold ns. destruct Hs as [r Hr]. rewrite Hr. split; unfold names; cbn.
    + exact H1.
    + intros k. specialize (H2 k). rewrite Hp, elem_of_cons in H2. split.
      * intros [y Hy]. apply lookup_delete_Some in Hy as [Hne Hy].
        destruct (proj1 H2 (ex_intro _ y Hy)) as [->|]; done.
      * intros Hk. destruct (proj2 H2 (or_intror Hk)) as [y Hy]. exists y.
        rewrite lookup_delete_ne; [done|]. by intros ->.
    + intros k y Hy. apply lookup_delete_Some in Hy as [_ Hy]. by apply H3.
Qed.

Lemma locals_reach_inv s : rtc step start s -> inv s.
Proof.
  revert s. apply rtc_ind_r; [|intros x y _ Hs Hi; by eapply locals_step_inv]. split; cbn.
  - constructor.
  - intros ns. rewrite lookup_empty. split; [by intros []|]. intros H. by apply elem_of_nil in H.
  - intros ns r. by rewrite lookup_empty.
Qed.

(** C12 (safety). The namespaces in the table are those of the registrations that
    are held, each held once: a second announcement of a namespace is refused as
    Duplicate and changes nothing, and dropping a registration removes its own
    entry and no other, so nobody can take over or remove what another session
    has announced. [route] finds exactly these, and under a namespace the
    broadcast that bears it. *)
Theorem locals_owned (s : t) (tracks : TracksReader.t) (ns : Tuple.t) (x : Store.t) : rtc step start s ->
  NoDup (names s) /\
  (forall k, is_Some (Locals.lookup (locals s) !! k) <-> k ∈ names s) /\
  (let '(r, (l, _)) := Locals.register tracks (locals s) x in
   let own := Tracks.namespace (TracksReader.info tracks) in
   if decide (own ∈ names s) then r = Err ServeErr.Duplicate /\ l = locals s
   else r = Ok (Registration.mk own) /\ fst (Locals.route own l x) = Some tracks /\
     forall k, k <> own -> Locals.lookup l !! k = Locals.lookup (locals s) !! k) /\
  (forall reg, reg ∈ held s -> let '(l, _) := Locals.unregister reg (locals s) x in
   fst (Locals.route (Registration.namespace reg) l x) = None /\
   forall k, k <> Registration.namespace reg -> Locals.lookup l !! k = Locals.lookup (locals s) !! k) /\
  (match fst (Locals.route ns (locals s) x) with
   | Some r => ns ∈ names s /\ Tracks.namespace (TracksReader.info r) = ns
   | None => ns ∉ names s
   end).
Proof.
  intros Hr. destruct (locals_reach_inv s Hr) as [H1 H2 H3]. split; [done|]. split; [done|]. split; [|split].
  - unfold Locals.register. set (own := Tracks.namespace (TracksReader.info tracks)).
    destruct (Locals.lookup (locals s) !! own) eqn:Hl; cbn.
    + rewrite decide_True by (apply H2; by rewrite Hl). done.
    + rewrite decide_False by (intros Hin; apply H2 in Hin as [? Hx]; congruence).
      split; [done|]. split; [unfold Locals.route; cbn; rewrite lookup_insert_eq; by destruct tracks|].
      intros k Hk. by rewrite lookup_insert_ne.
  - intros reg Hin. assert (Hs : is_Some (Locals.lookup (locals s) !! Registration.namespace reg)).
    { apply H2. by apply list_elem_of_fmap_2. }
    destruct Hs as [r Hs]. unfold Locals.unregister. rewrite Hs. split.
    + unfold Locals.route. cbn. by rewrite lookup_delete_eq.
    + intros k Hk. cbn. by rewrite lookup_delete_ne.
  - unfold Locals.route. destruct (Locals.lookup (locals s) !! ns) as [r|] eqn:Hl; cbn.
    + split; [apply H2; by rewrite Hl|by apply H3].
    + intros Hin. apply H2 in Hin as [? Hx]. congruence.
Qed.
End LocalsSys.

(** ** Handles among the methods *)

Lemma inner_clone {T} (g h : Handle) (a : Arena T) :
  inner (cell_of g (snd (clone_handle h a))) = inner (cell_of g a).
Proof.
  unfold clone_handle, on_cell. cbn. destruct (decide (loc g = loc h)) as [E|E].
  - unfold cell_of, put. cbn. rewrite E, decide_True by done. done.
  - by rewrite cell_put_ne.
Qed.

(** What a clone of a reader of a broadcast changes. *)
Lemma clone_reader r x :
  fst (TracksReader.clone r x) = r /\
  (forall g, inner (cell_of g (Store.broadcasts (snd (TracksReader.clone r x)))) = inner (cell_of g (Store.broadcasts x))) /\
  (forall g, inner (cell_of g (Store.queues (snd (TracksReader.clone r x)))) = inner (cell_of g (Store.queues x))) /\
  Store.tracks (snd (TracksReader.clone r x)) = Store.tracks x.
Proof.
  unfold TracksReader.clone. pose proof (fun g => inner_clone g (TracksReader.state r) (Store.broadcasts x)) as H1.
  pose proof (fun g => inner_clone g (TracksReader.queue r) (Store.queues x)) as H2.
  destruct (clone_handle (TracksReader.state r) _) as [h a] eqn:E1.
  destruct (clone_handle (TracksReader.queue r) _) as [q b] eqn:E2. cbn in *.
  unfold clone_handle in E1, E2. cbn in E1, E2. split; [|done].
  assert (h = TracksReader.state r) as -> by congruence. assert (q = TracksReader.queue r) as -> by congruence.
  by destruct r.
Qed.

(** The answer to a request does not depend on who else holds the broadcast. *)
Lemma subscribe_view name r x x' :
  (forall g, inner (cell_of g (Store.broadcasts x')) = inner (cell_of g (Store.broadcasts x))) ->
  (forall g, inner (cell_of g (Store.queues x')) = inner (cell_of g (Store.queues x))) ->
  Store.tracks x' = Store.tracks x ->
  fst (TracksReader.subscribe name r x') = fst (TracksReader.subscribe name r x).
Proof.
  intros Hb Hq Ht. unfold TracksReader.subscribe, lock. rewrite Hb.
  destruct (TracksState.tracks (value (inner (cell_of (TracksReader.state r) (Store.broadcasts x)))) !! name) as [t|];
    [by destruct t|].
  destruct (dropped (inner (cell_of (TracksReader.state r) (Store.broadcasts x)))); [|done].
  unfold TrackWrite.produce. rewrite Ht. cbn [default_split state_new split].
  unfold on_cell, Queue.push, with_mut. cbn [Store.queues Store.with_tracks]. rewrite Hq.
  destruct (dropped (inner (cell_of (TracksReader.queue r) (Store.queues x)))); cbn;
    destruct (dropped _), (dropped _); done.
Qed.

Section Producer.
Context {U : UrlKey} {ApiError : Type}.


(** The local branch. *)
Lemma try_local_spec ns name (w : Relay.t) :
  let '(r, w') := Producer.try_local ns name w in
  match Locals.lookup (Relay.locals w) !! ns with
  | Some tracks => r = Producer.Local tracks <$> fst (TracksReader.subscribe name tracks (Relay.store w))
  | None => r = None /\ w' = Relay.with_store (Relay.store w) w
  end.
Proof.
  unfold Producer.try_local, Relay.on_store, Locals.route.
  destruct (Locals.lookup (Relay.locals w) !! ns) as [tracks|]; [|done].
  destruct (clone_reader tracks (Relay.store w)) as (H1 & H2 & H3 & H4).
  destruct (TracksReader.clone tracks (Relay.store w)) as [r x]. cbn in H1, H2, H3, H4. subst r. cbn.
  pose proof (subscribe_view name tracks _ _ H2 H3 H4) as Hs.
  destruct (TracksReader.subscribe name tracks x) as [[track|] y]; cbn in Hs; by rewrite <- Hs.
Qed.

(** What is left when nobody here has the track. *)
Definition fallback (p : Producer.point (ApiError := ApiError)) (self : Producer.t) (track : Track.t) : Prop :=
  if Producer.upstream self then
    exists reader writer, p = Producer.Serving (Producer.Upstream reader writer) /\
      TrackReader.info reader = track /\ TrackWriter.info writer = track /\
      loc (TrackReader.state reader) = loc (TrackWriter.state writer)
  else p = Producer.Failed (FromServe ServeErr.NotFound).

Lemma try_upstream_spec self ns name (w : Relay.t) :
  fallback (fst (Producer.try_upstream (ApiError := ApiError) self ns name w)) self (Track.new ns name) /\
  Relay.locals (snd (Producer.try_upstream (ApiError := ApiError) self ns name w)) = Relay.locals w.
Proof.
  unfold Producer.try_upstream, fallback. destruct (Producer.upstream self); [|done].
  unfold Relay.on_store. pose proof (TracksSys.produce_spec (Track.new ns name) (Relay.store w)) as H.
  destruct (TrackWrite.produce _ _) as [[writer reader] x]. cbn. split; [|done].
  destruct H as (? & ? & ?). by exists reader, writer.
Qed.

(** C15 (functional, error). Who serves a subscription, in this order: the session
    that has announced the namespace, if it takes the request; else, if there is an
    API, the remote it names, if that is still there; else the upstream session with
    a new track; else nobody, which is NotFound. An error of the API ends the
    search: the upstream session is not tried. Whatever the error, the subscriber is
    told SUBSCRIBE_ERROR with code 0, that of Done, since the subscription is just
    dropped. *)
Theorem producer_serve (self : Producer.t) (ns : Tuple.t) (name : String) (w : Relay.t)
    (origin : outcome ApiError (option Url)) :
  (let p := fst (Producer.serve_start (ApiError := ApiError) self ns name w) in
   match Locals.lookup (Relay.locals w) !! ns ≫= fun tracks =>
     pair tracks <$> fst (TracksReader.subscribe name tracks (Relay.store w)) with
   | Some (tracks, track) => p = Producer.Serving (Producer.Local tracks track)
   | None => if Producer.remotes self then p = Producer.AskApi else fallback p self (Track.new ns name)
   end) /\
  (let p := fst (Producer.serve_answer self ns name origin w) in
   match origin with
   | Err e => p = Ok (Producer.Failed (FromApi e))
   | Panic => p = Panic
   | _ =>
       match Remotes.route origin (Relay.remotes w) with
       | (Ok (Some remote), a) =>
           match fst (RemoteConsumer.subscribe ns name remote (Remotes.world a)) with
           | Some track => p = Ok (Producer.Serving (Producer.Remote remote track))
           | None => exists q, p = Ok q /\ fallback q self (Track.new ns name)
           end
       | _ => exists q, p = Ok q /\ fallback q self (Track.new ns name)
       end
   end) /\
  (forall (to_string : ServeError -> String) (subscribe : Subscribed.t) (h : PublisherHalf.t),
   Subscribed.ok subscribe = false ->
   SubscribedState.closed (lock (cell_of (Subscribed.state subscribe) (PublisherHalf.subscribed_states h))) = None ->
   dropped (inner (PublisherHalf.outgoing h)) = Some tt ->
   lock (PublisherHalf.outgoing (Producer.serve_failed to_string subscribe h)) =
   lock (PublisherHalf.outgoing h) ++
   [Publisher.into_message (Publisher.SubscribeError
      (SubscribeError.mk (Subscribed.id subscribe) 0 (to_string ServeErr.Done) 0))]).
Proof.
  split; [|split].
  - cbv zeta. unfold Producer.serve_start. pose proof (try_local_spec ns name w) as Hl.
    destruct (Producer.try_local ns name w) as [r w'].
    destruct (Locals.lookup (Relay.locals w) !! ns) as [tracks|]; cbn.
    + destruct (fst (TracksReader.subscribe name tracks (Relay.store w))); cbn in *; rewrite Hl; [done|].
      destruct (Producer.remotes self); [done|]. apply try_upstream_spec.
    + destruct Hl as [-> ->]. destruct (Producer.remotes self); [done|]. apply try_upstream_spec.
  - cbv zeta. unfold Producer.serve_answer, Producer.try_remote.
    assert (Hf : forall v, exists q, fst (let (p, w0) := Producer.try_upstream self ns name v in (@Ok (error ApiError) _ p, w0)) = Ok q /\
      fallback q self (Track.new ns name)).
    { intros v. pose proof (proj1 (try_upstream_spec self ns name v)) as H.
      destruct (Producer.try_upstream (ApiError := ApiError) self ns name v) as [q v']. by exists q. }
    destruct origin as [[u|]|e|]; [|apply Hf|done|done].
    destruct (Remotes.route (Ok (Some u)) (Relay.remotes w)) as [[[remote|]|e|] a] eqn:E; [|apply Hf| |].
    + destruct (RemoteConsumer.subscribe ns name remote (Remotes.world a)) as [[track|] x]; [done|apply Hf].
    + exfalso. unfold Remotes.route in E. destruct (_ !! u); [by destruct (RemoteConsumer.clone _ _)|].
      destruct (dropped _); [|done]. destruct (Remote.produce _ _) as [[] ?]. destruct (RemoteConsumer.clone _ _).
      by destruct (with_mut _ _).
    + exfalso. unfold Remotes.route in E. destruct (_ !! u); [by destruct (RemoteConsumer.clone _ _)|].
      destruct (dropped _); [|done]. destruct (Remote.produce _ _) as [[] ?]. destruct (RemoteConsumer.clone _ _).
      by destruct (with_mut _ _).
  - intros to_string sub h Hok Hc Ho. unfold Producer.serve_failed, PublisherHalf.subscribed_drop, PublisherHalf.farewell. rewrite Hok, Hc.
    cbn [default code]. unfold PublisherHalf.send_with, PublisherHalf.drop_subscribe, Queue.push, with_mut. cbn.
    destruct (PublisherHalf.subscribed h !! _); cbn; by rewrite Ho.
Qed.
End Producer.

(** ** An announcement *)

Section Consumer.
Context {U : UrlKey} {ApiError : Type} (to_string : ServeError -> String).

(** A broadcast nobody has asked anything of yet, seen from its request end. *)
Record unasked (ns : Tuple.t) (req : TracksRequest.t) (r : TracksReader.t) (x : Store.t) : Prop := {
  unasked_ns : Tracks.namespace (TracksReader.info r) = ns;
  unasked_loc : loc (TracksRequest.state req) = loc (TracksReader.state r);
  unasked_queue : exists q, TracksRequest.incoming req = Some q /\ loc q = loc (TracksReader.queue r);
  unasked_map : inner (cell_of (TracksReader.state r) (Store.broadcasts x)) = inner_new TracksState.default;
  unasked_list : inner (cell_of (TracksReader.queue r) (Store.queues x)) = inner_new [];
}.

Lemma unasked_view ns req r x x' : unasked ns req r x ->
  (forall g, inner (cell_of g (Store.broadcasts x')) = inner (cell_of g (Store.broadcasts x))) ->
  (forall g, inner (cell_of g (Store.queues x')) = inner (cell_of g (Store.queues x))) -> unasked ns req r x'.
Proof. intros [H1 H2 H3 H4 H5] Hb Hq. split; rewrite ?Hb, ?Hq; done. Qed.

Lemma split_cell {T} (v : T) (a : Arena T) :
  let '((h, g), a') := default_split v a in
  loc g = loc h /\ half h = 0%nat /\ inner (cell_of h a') = inner_new v /\ drops (cell_of h a') !! 0%nat = Some 1%nat.
Proof.
  cbn [default_split state_new split]. split; [done|]. split; [done|]. unfold cell_of, put. cbn.
  rewrite decide_True by done. done.
Qed.

(** Dropping one of several handles of a half. *)
Lemma drop_broadcast_shared h x n : drops (cell_of h (Store.broadcasts x)) !! half h = Some (S (S n)) ->
  (forall g, inner (cell_of g (Store.broadcasts (Store.drop_broadcast h x))) = inner (cell_of g (Store.broadcasts x))) /\
  Store.queues (Store.drop_broadcast h x) = Store.queues x.
Proof.
  intros Hn. unfold Store.drop_broadcast, drop_handle, drop_state. rewrite Hn. cbn.
  rewrite decide_False by (intros E; apply (f_equal (lookup (half h))) in E; rewrite lookup_insert_eq in E; done).
  cbn. split; [|done]. intros g. destruct (decide (loc g = loc h)) as [E|E].
  - unfold cell_of, put. cbn. rewrite E, decide_True; done.
  - by rewrite cell_put_ne.
Qed.

Lemma produce_unasked ns x :
  let '((writer, request, reader), x') := produce (Tracks.new ns) x in
  unasked ns request reader (TracksWriter.drop writer x').
Proof.
  unfold produce. pose proof (split_cell TracksState.default (Store.broadcasts x)) as Hb.
  pose proof (split_cell [] (Store.queues x)) as Hq.
  destruct (default_split TracksState.default _) as [[w r] a]. destruct (default_split [] _) as [[qw qr] b].
  destruct Hb as (Hl & Hh & Hi & Hd). destruct Hq as (Hql & _ & Hqi & _).
  destruct (clone_handle w a) as [w' a'] eqn:E.
  assert (a' = snd (clone_handle w a)) as -> by (by rewrite E). assert (w' = w) as -> by (unfold clone_handle in E; cbn in E; congruence).
  unfold TracksWriter.drop. cbn [TracksWriter.state TracksWriter.new].
  destruct (drop_broadcast_shared w (Store.with_queues b (Store.with_broadcasts (snd (clone_handle w a)) x)) 0) as [H1 H2].
  { unfold clone_handle, on_cell. cbn. rewrite cell_put_eq, Hh. cbn. rewrite lookup_alter_eq. exact (f_equal (fmap S) Hd). }
  split; cbn; [done|done|by exists qw| |].
  - etransitivity; [exact (H1 r)|]. cbn [Store.broadcasts Store.with_queues Store.with_broadcasts].
    rewrite inner_clone.     by rewrite (cell_of_loc r w a Hl).
  - etransitivity; [exact (f_equal (fun a => inner (cell_of qr a)) H2)|]. cbn.
    by rewrite (cell_of_loc qr qw b Hql).
Qed.

Lemma serve_start_spec a (w : Relay.t) :
  let (s, w') := Consumer.serve_start a w in
  Consumer.announce s = a /\ Relay.locals w' = Relay.locals w /\
  unasked (SubscriberHalf.announced_namespace a) (Consumer.request s) (Consumer.reader s) (Relay.store w').
Proof.
  unfold Consumer.serve_start. pose proof (produce_unasked (SubscriberHalf.announced_namespace a) (Relay.store w)) as H.
  destruct (produce _ _) as [[[writer request] reader] x]. done.
Qed.

(** The announcement as the peer's ANNOUNCE has made it. *)
Context (st : Handle) (ns : Tuple.t).
Let announced : Announced.t := Announced.mk st (AnnounceInfo.mk ns) false None.

Definition announce_error (h : SubscriberHalf.t) : list Message.t :=
  lock (SubscriberHalf.outgoing h) ++
  [Subscriber.into_message (Subscriber.AnnounceError (AnnounceError.mk ns 0 (to_string ServeErr.Done)))].

Lemma fail_spec e s (h : SubscriberHalf.t) (w : Relay.t) :
  Consumer.announce s = announced -> is_Some (TracksRequest.incoming (Consumer.request s)) ->
  dropped (inner (SubscriberHalf.outgoing h)) = Some tt ->
  let '(r, (h', w')) := Consumer.fail (ApiError := ApiError) to_string e None s h w in
  r = Ok (Consumer.Left e) /\ Relay.locals w' = Relay.locals w /\
  lock (SubscriberHalf.outgoing h') = announce_error h.
Proof.
  intros Ha [q Hq] Ho. unfold Consumer.fail, Consumer.serve_leave, Relay.on_store, TracksRequest.drop. rewrite Hq.
  destruct (TracksRequest.close_incoming _ _) as [l x]. unfold Relay.on_subscriber. cbn [fst snd]. rewrite Ha.
  unfold SubscriberHalf.announced_drop, SubscriberHalf.send_message, SubscriberHalf.drop_announce, Queue.push, with_mut.
  cbn. by destruct (SubscriberHalf.announced h !! _); cbn; rewrite Ho.
Qed.

(** C16 (functional, error). An announcement: with an API it is first registered
    there, then in the table, and only then accepted. An error of the API, or a
    namespace that is taken, leaves the table as it was; the peer is told
    ANNOUNCE_ERROR with code 0, that of Done, since the announcement is just
    dropped. Otherwise the table maps the namespace to a reader of a new broadcast
    whose requests come to this consumer, both sides of it there and nothing asked
    yet, the peer is sent ANNOUNCE_OK, and a reader is forwarded if announcements
    are. *)
Theorem consumer_announce (self : Consumer.t) (set_origin : option (outcome ApiError unit))
    (h : SubscriberHalf.t) (w : Relay.t) :
  dropped (inner (SubscriberHalf.outgoing h)) = Some tt ->
  let (s, w0) := Consumer.serve_start announced w in
  let '(r, (h', w')) := Consumer.serve_begin to_string self set_origin s h w0 in
  let refused e := r = Ok (Consumer.Left e) /\ Relay.locals w' = Relay.locals w /\
                   lock (SubscriberHalf.outgoing h') = announce_error h in
  match set_origin with
  | Some (Err e) => refused (FromApi e)
  | Some Panic => r = Panic
  | _ =>
      match Locals.lookup (Relay.locals w) !! ns with
      | Some _ => refused (FromServe ServeErr.Duplicate)
      | None => exists reg s' forwarded tracks,
          r = Ok (Consumer.Running reg s' forwarded) /\
          Registration.namespace reg = ns /\
          Locals.lookup (Relay.locals w') = <[ns := tracks]> (Locals.lookup (Relay.locals w)) /\
          unasked ns (Consumer.request s') tracks (Relay.store w') /\
          lock (SubscriberHalf.outgoing h') = lock (SubscriberHalf.outgoing h) ++
            [Subscriber.into_message (Subscriber.AnnounceOk (AnnounceOk.mk ns))] /\
          forwarded = if Consumer.forward self then Some tracks else None
      end
  end.
Proof.
  intros Ho. pose proof (serve_start_spec announced w) as Hs.
  destruct (Consumer.serve_start announced w) as [s w0]. destruct Hs as (Ha & Hl & Hu).
  change (SubscriberHalf.announced_namespace announced) with ns in Hu.
  assert (Hin : is_Some (TracksRequest.incoming (Consumer.request s))).
  { destruct (unasked_queue _ _ _ _ Hu) as (q & -> & _). done. }
  unfold Consumer.serve_begin.
  destruct (clone_reader (Consumer.reader s) (Relay.store w0)) as (H1 & H2 & H3 & _).
  assert (Hu1 := unasked_view _ _ _ _ _ Hu H2 H3).
  unfold Relay.on_store. destruct (TracksReader.clone (Consumer.reader s) (Relay.store w0)) as [tr x].
  cbn in H1, Hu1. subst tr.
  destruct set_origin as [[u|e|]|]; [| |done|].
  2: { pose proof (fail_spec (FromApi e) s h w0 Ha Hin Ho) as Hf.
       destruct (Consumer.fail _ _ _ _ _ _) as [r [h' w']]. by rewrite <- Hl. }
  all: unfold Relay.on_locals, Locals.register; cbn [Relay.locals Relay.with_store];
    rewrite (unasked_ns _ _ _ _ Hu), <- Hl;
    destruct (Locals.lookup (Relay.locals w0) !! ns) eqn:Hns.
  1, 3: match goal with |- context [Consumer.fail _ _ _ _ _ ?v] =>
      pose proof (fail_spec (FromServe ServeErr.Duplicate) s h v Ha Hin Ho) as Hf end;
    destruct (Consumer.fail _ _ _ _ _ _) as [r [h' w']]; destruct Hf as (-> & -> & ->); done.
  all: unfold Relay.on_subscriber, SubscriberHalf.announced_ok; rewrite Ha; cbn [Announced.ok announced fst snd].
  all: destruct (clone_reader (Consumer.reader s) x) as (K1 & K2 & K3 & _).
  all: match goal with |- context [TracksReader.clone _ ?b] => change b with x end.
  all: cbn [Consumer.reader]; assert (Hu2 := unasked_view _ _ _ _ _ Hu1 K2 K3).
  all: destruct (TracksReader.clone (Consumer.reader s) x) as [tr y]; cbn in K1, Hu2; subst tr.
  all: destruct (Consumer.forward self).
  all: eexists _, _, _, _; split; [reflexivity|]; split; [done|];
    split; [reflexivity|]; split; [assumption|]; split; [|done];
    unfold SubscriberHalf.send_message, Queue.push, with_mut; cbn; by rewrite Ho.
Qed.
End Consumer.

(** ** From one session to another *)

(** A request for a track nobody has asked for yet. *)
Lemma subscribe_new name r x :
  TracksState.tracks (lock (cell_of (TracksReader.state r) (Store.broadcasts x))) !! name = None ->
  dropped (inner (cell_of (TracksReader.state r) (Store.broadcasts x))) = Some tt ->
  dropped (inner (cell_of (TracksReader.queue r) (Store.queues x))) = Some tt ->
  exists writer track x', TracksReader.subscribe name r x = (Some track, x') /\
    TrackReader.info track = Track.mk (Tracks.namespace (TracksReader.info r)) name /\
    TrackWriter.info writer = TrackReader.info track /\
    loc (TrackWriter.state writer) = loc (TrackReader.state track) /\
    TracksState.tracks (lock (cell_of (TracksReader.state r) (Store.broadcasts x'))) !! name = Some track /\
    lock (cell_of (TracksReader.queue r) (Store.queues x')) =
      lock (cell_of (TracksReader.queue r) (Store.queues x)) ++ [writer] /\
    dropped (inner (cell_of (TracksReader.queue r) (Store.queues x'))) = Some tt.
Proof.
  intros Hm Hb Hq. unfold TracksReader.subscribe. rewrite Hm, Hb.
  pose proof (TracksSys.produce_spec (Track.mk (Tracks.namespace (TracksReader.info r)) name) x) as Hp.
  set (p := TrackWrite.produce _ _) in *. assert (Hs1 : Store.broadcasts (snd p) = Store.broadcasts x) by done.
  assert (Hs2 : Store.queues (snd p) = Store.queues x) by done.
  destruct p as [[writer reader] x1]. cbn in Hs1, Hs2. destruct Hp as (H1 & H2 & H3).
  unfold on_cell, Queue.push, with_mut. cbn [Store.queues Store.broadcasts Store.with_queues]. rewrite Hs1, Hs2, Hq, Hb.
  cbn [TracksWriter.insert]. eexists writer, _, _. split; [reflexivity|]. cbn. rewrite !cell_put_eq. cbn.
  rewrite H1, H2, H3. repeat (split; [done|]). split; [|done].
  unfold lock. cbn. rewrite lookup_insert_eq, <- H2. by destruct reader.
Qed.

Section Forward.
Context {U : UrlKey} {ApiError : Type}.

(** A reader of a broadcast and the request end of the same. *)
Record connected (ns : Tuple.t) (req : TracksRequest.t) (r : TracksReader.t) (x : Store.t) : Prop := {
  connected_ns : Tracks.namespace (TracksReader.info r) = ns;
  connected_queue : exists q, TracksRequest.incoming req = Some q /\ loc q = loc (TracksReader.queue r);
  connected_open : dropped (inner (cell_of (TracksReader.state r) (Store.broadcasts x))) = Some tt /\
    dropped (inner (cell_of (TracksReader.queue r) (Store.queues x))) = Some tt;
}.

(** Nothing is waiting in the queue. *)
Lemma request_idle (s : Consumer.Serve) h (w : Relay.t) q :
  TracksRequest.incoming (Consumer.request s) = Some q ->
  lock (cell_of q (Store.queues (Relay.store w))) = [] ->
  dropped (inner (cell_of q (Store.queues (Relay.store w)))) = Some tt -> Consumer.request_turn s h w = None.
Proof.
  intros Hq Hl Hd. unfold Consumer.request_turn, Relay.on_store, TracksRequest.next_turn. rewrite Hq.
  unfold on_cell, Queue.pop_turn. rewrite Hl. unfold modified. by rewrite Hd.
Qed.

(** [Subscriber::subscribe] with a number that is not in use. *)
Lemma subscribe_sent track (h : SubscriberHalf.t) :
  SubscriberHalf.subscribes h !! SubscriberHalf.subscribe_next h = None ->
  let h' := snd (SubscriberHalf.subscribe track h) in
  exists r, SubscriberHalf.subscribes h' = <[SubscriberHalf.subscribe_next h := r]> (SubscriberHalf.subscribes h) /\
    SubscribeRecv.writer r = Some (TrackWriterMode.Track track) /\
    (dropped (inner (SubscriberHalf.outgoing h)) = Some tt ->
     lock (SubscriberHalf.outgoing h') = lock (SubscriberHalf.outgoing h) ++
       [Subscriber.into_message (Subscriber.Subscribe
          (Subscribe.request (SubscriberHalf.subscribe_next h) (TrackWriter.info track)))]) /\
    SubscriberHalf.store h' = SubscriberHalf.store h.
Proof.
  intros Hn. cbv zeta. unfold SubscriberHalf.subscribe. cbn [Subscribe.new default_split state_new split].
  change (SubscriberHalf.subscribes (SubscriberHalf.with_subscribe_states _ _)) with (SubscriberHalf.subscribes h).
  rewrite Hn. eexists. split; [reflexivity|]. split; [done|]. split; [|done].
  intros Ho. unfold SubscriberHalf.send_message, Queue.push, with_mut. cbn. by rewrite Ho.
Qed.

(** One request is waiting. *)
Lemma request_one (s : Consumer.Serve) h (w : Relay.t) q writer :
  TracksRequest.incoming (Consumer.request s) = Some q ->
  lock (cell_of q (Store.queues (Relay.store w))) = [writer] ->
  dropped (inner (cell_of q (Store.queues (Relay.store w)))) = Some tt ->
  SubscriberHalf.subscribes h !! SubscriberHalf.subscribe_next h = None ->
  exists sub h' w' r, Consumer.request_turn s h w = Some (sub, (h', w')) /\
    SubscriberHalf.subscribes h' = <[SubscriberHalf.subscribe_next h := r]> (SubscriberHalf.subscribes h) /\
    SubscribeRecv.writer r = Some (TrackWriterMode.Track writer) /\
    (dropped (inner (SubscriberHalf.outgoing h)) = Some tt ->
     lock (SubscriberHalf.outgoing h') = lock (SubscriberHalf.outgoing h) ++
       [Subscriber.into_message (Subscriber.Subscribe
          (Subscribe.request (SubscriberHalf.subscribe_next h) (TrackWriter.info writer)))]) /\
    Relay.locals w' = Relay.locals w /\
    Store.broadcasts (Relay.store w') = Store.broadcasts (Relay.store w) /\
    lock (cell_of q (Store.queues (Relay.store w'))) = [] /\
    dropped (inner (cell_of q (Store.queues (Relay.store w')))) = Some tt.
Proof.
  intros Hq Hl Hd Hn. unfold Consumer.request_turn, Relay.on_store, TracksRequest.next_turn. rewrite Hq.
  unfold on_cell, Queue.pop_turn. rewrite Hl. unfold with_mut. rewrite Hd. unfold lock in Hl. rewrite Hl.
  cbn [Queue.pop_front]. unfold Relay.on_subscriber. set (x := Store.with_queues _ _).
  pose proof (subscribe_sent writer (SubscriberHalf.with_store x h) Hn) as (r & H1 & H2 & H3 & H4).
  change (Relay.store (Relay.with_store x w)) with x.
  destruct (SubscriberHalf.subscribe writer (SubscriberHalf.with_store x h)) as [sub h']. cbn [snd] in *.
  eexists sub, h', _, r. split; [reflexivity|]. split; [exact H1|]. split; [done|]. split; [exact H3|].
  split; [done|]. cbn [Relay.store Relay.with_store Relay.remotes Remotes.world RemoteWorld.store RemoteWorld.with_store].
  rewrite H4. cbn [SubscriberHalf.store SubscriberHalf.with_store]. unfold x. cbn [Store.queues Store.with_queues].
  rewrite cell_put_eq. done.
Qed.

(** C11 (refinement). A relay passes a subscription on. Somebody has announced a
    namespace, so the table has a reader of the broadcast whose requests come to
    that session's consumer. A subscription for a track of it, at any session, is
    served from there; the consumer's next turn finds that very request and sends
    the announcing peer SUBSCRIBE for the namespace and name under a fresh number,
    whose table entry writes the track the subscriber reads. A second subscription,
    at any session, reads the same track, and nothing is asked of the peer again. *)
Theorem relay_forwards (p q : Producer.t) (s : Consumer.Serve) (ns : Tuple.t) (name : String)
    (tracks : TracksReader.t) (h : SubscriberHalf.t) (w : Relay.t) :
  Locals.lookup (Relay.locals w) !! ns = Some tracks ->
  connected ns (Consumer.request s) tracks (Relay.store w) ->
  TracksState.tracks (lock (cell_of (TracksReader.state tracks) (Store.broadcasts (Relay.store w)))) !! name = None ->
  lock (cell_of (TracksReader.queue tracks) (Store.queues (Relay.store w))) = [] ->
  SubscriberHalf.subscribes h !! SubscriberHalf.subscribe_next h = None ->
  dropped (inner (SubscriberHalf.outgoing h)) = Some tt ->
  let '(pt, w1) := Producer.serve_start (ApiError := ApiError) p ns name w in
  exists track writer r sub h2 w2,
    pt = Producer.Serving (Producer.Local tracks track) /\ TrackReader.info track = Track.new ns name /\
    Consumer.request_turn s h w1 = Some (sub, (h2, w2)) /\
    lock (SubscriberHalf.outgoing h2) = lock (SubscriberHalf.outgoing h) ++
      [Subscriber.into_message (Subscriber.Subscribe
        (Subscribe.request (SubscriberHalf.subscribe_next h) (Track.new ns name)))] /\
    SubscriberHalf.subscribes h2 = <[SubscriberHalf.subscribe_next h := r]> (SubscriberHalf.subscribes h) /\
    SubscribeRecv.writer r = Some (TrackWriterMode.Track writer) /\
    loc (TrackWriter.state writer) = loc (TrackReader.state track) /\
    let '(pt', w3) := Producer.serve_start (ApiError := ApiError) q ns name w2 in
    pt' = Producer.Serving (Producer.Local tracks track) /\ Consumer.request_turn s h2 w3 = None.
Proof.
  intros Hl [Hns (qh & Hq & Hql) [Ho1 Ho2]] Hm He Hn Hout.
  unfold Producer.serve_start at 1, Producer.try_local, Relay.on_store, Locals.route. rewrite Hl.
  destruct (clone_reader tracks (Relay.store w)) as (H1 & H2 & H3 & H4).
  destruct (TracksReader.clone tracks (Relay.store w)) as [tr x1]. cbn [fst snd] in *. subst tr.
  change (Relay.store (Relay.with_store x1 w)) with x1. unfold lock in Hm, He. rewrite <- H2 in Hm, Ho1. rewrite <- H3 in He, Ho2.
  destruct (subscribe_new name tracks x1 Hm Ho1 Ho2) as (writer & track & x2 & E & K1 & K2 & K3 & K4 & K5 & K6).
  rewrite E. set (w1 := Relay.with_store x2 (Relay.with_store x1 w)).
  unfold lock in K5 at 2. rewrite He in K5. cbn [app] in K5. rewrite Hns in K1.
  rewrite <- (cell_of_loc _ _ _ Hql) in K5, K6.
  destruct (request_one s h w1 qh writer Hq K5 K6 Hn) as (sub & h2 & w2 & r & R1 & R2 & R3 & R4 & R5 & R6 & R7 & R8).
  exists track, writer, r, sub, h2, w2. split; [done|]. split; [exact K1|]. split; [exact R1|].
  split; [rewrite (R4 Hout), K2, K1; done|]. split; [exact R2|]. split; [done|]. split; [done|].
  unfold Producer.serve_start, Producer.try_local, Relay.on_store, Locals.route. rewrite R5. cbn [Relay.locals w1 Relay.with_store].
  rewrite Hl. destruct (clone_reader tracks (Relay.store w2)) as (L1 & L2 & L3 & L4).
  destruct (TracksReader.clone tracks (Relay.store w2)) as [tr x3]. cbn [fst snd] in *. subst tr.
  change (Relay.store (Relay.with_store x3 w2)) with x3.
  destruct (subscribe_known name tracks x3 track) as (M1 & M2 & M3).
  { unfold lock. rewrite L2, R6. exact K4. }
  destruct (TracksReader.subscribe name tracks x3) as [[t|] x4]; [|done]. cbn in M1, M2. injection M1 as ->.
  split; [done|]. apply (request_idle s h2 _ qh Hq); cbn [Relay.store Relay.with_store Relay.remotes Remotes.world
    RemoteWorld.store RemoteWorld.with_store]; rewrite M2; unfold lock; by rewrite L3.
Qed.
End Forward.

(** ** The end of an announcement *)

Section Ends.
Context {U : UrlKey} {ApiError : Type} (to_string : ServeError -> String).

(** While the peer has not withdrawn its namespace the loop goes on; once it has,
    [serve] leaves with Cancel: the namespace is free again, no other is touched,
    and the peer is sent ANNOUNCE_CANCEL all the same. *)
Theorem consumer_ends (reg : Registration.t) (s : Consumer.Serve) (h : SubscriberHalf.t) (w : Relay.t) :
  is_Some (TracksRequest.incoming (Consumer.request s)) -> Announced.ok (Consumer.announce s) = true ->
  dropped (inner (SubscriberHalf.outgoing h)) = Some tt ->
  match dropped (inner (cell_of (Announced.state (Consumer.announce s)) (SubscriberHalf.announced_states h))) with
  | Some _ => Consumer.closed_turn (ApiError := ApiError) to_string reg s h w = None
  | None => exists h' w',
      Consumer.closed_turn (ApiError := ApiError) to_string reg s h w =
        Some (Ok (Consumer.Left (FromServe ServeErr.Cancel)), (h', w')) /\
      Locals.lookup (Relay.locals w') = delete (Registration.namespace reg) (Locals.lookup (Relay.locals w)) /\
      lock (SubscriberHalf.outgoing h') = lock (SubscriberHalf.outgoing h) ++
        [Subscriber.into_message (Subscriber.AnnounceCancel
          (AnnounceCancel.mk (SubscriberHalf.announced_namespace (Consumer.announce s)) 0 empty_string))]
  end.
Proof.
  intros [q Hq] Hok Ho. unfold Consumer.closed_turn, SubscriberHalf.announced_closed_turn, modified.
  destruct (dropped (inner (cell_of _ _))); [done|].
  unfold Consumer.fail, Consumer.serve_leave, Relay.on_store, TracksRequest.drop. rewrite Hq.
  destruct (TracksRequest.close_incoming _ _) as [l x]. unfold Relay.on_subscriber. cbn [fst snd].
  unfold SubscriberHalf.announced_drop. rewrite Hok. eexists _, _. split; [reflexivity|]. split.
  - unfold Relay.on_locals, Locals.unregister. cbn.
    destruct (Locals.lookup (Relay.locals w) !! Registration.namespace reg) eqn:E; cbn; [done|].
    by rewrite delete_id.
  - unfold SubscriberHalf.send_message, SubscriberHalf.drop_announce, Queue.push, with_mut.
    cbn. by destruct (SubscriberHalf.announced h !! _); cbn; rewrite Ho.
Qed.
End Ends.

(** ** An example: one announcement, one subscription *)

#[local] Instance demo_urls : UrlKey := {| Url := N |}.

Definition demo_namespace : Tuple.t := Tuple.mk [].
Definition demo_announced : Announced.t :=
  Announced.mk {| loc := 0; half := 0%nat |} (AnnounceInfo.mk demo_namespace) false None.
Definition demo_half : SubscriberHalf.t := SubscriberHalf.new (snd Queue.new).
Definition demo_relay : Relay.t :=
  Relay.mk Locals.new (Remotes.mk (snd (state_new RemotesState.default)) RemoteWorld.new).
Definition demo_text : ServeError -> String := fun _ => empty_string.

Definition demo_begun : outcome Empty_set (Consumer.begun (ApiError := unit)) * (SubscriberHalf.t * Relay.t) :=
  let (s, w) := Consumer.serve_start demo_announced demo_relay in
  Consumer.serve_begin demo_text (Consumer.mk false) None s demo_half w.

(** The consumer in its loop, the session's half and the relay. *)
Definition demo_serve : Consumer.Serve :=
  match fst demo_begun with
  | Ok (Consumer.Running _ s _) => s
  | _ => fst (Consumer.serve_start demo_announced demo_relay)
  end.
Definition demo_session : SubscriberHalf.t := fst (snd demo_begun).
Definition demo_world : Relay.t := snd (snd demo_begun).
Definition demo_tracks : TracksReader.t := Consumer.reader demo_serve.

Lemma locals_owned_witness :
  let s := LocalsSys.mk (fst (snd (Locals.register demo_tracks Locals.new Store.new))) [Registration.mk demo_namespace] in
  NoDup (LocalsSys.names s) /\
  fst (Locals.register demo_tracks (LocalsSys.locals s) Store.new) = Err ServeErr.Duplicate.
Proof.
  cbv zeta. set (s := LocalsSys.mk _ _).
  assert (Hr : rtc LocalsSys.step LocalsSys.start s).
  { eapply rtc_l; [|reflexivity].
    exact (LocalsSys.do_register LocalsSys.start demo_tracks Store.new (Ok (Registration.mk demo_namespace)) _ _ eq_refl). }
  split; [|vm_compute; reflexivity].
  exact (proj1 (LocalsSys.locals_owned s demo_tracks demo_namespace Store.new Hr)).
Defined.

Lemma consumer_announce_witness : exists reg s forwarded, fst demo_begun = Ok (Consumer.Running reg s forwarded).
Proof.
  pose proof (consumer_announce (ApiError := unit) demo_text {| loc := 0; half := 0%nat |} demo_namespace
    (Consumer.mk false) None demo_half demo_relay eq_refl) as H.
  unfold demo_begun, demo_announced. destruct (Consumer.serve_start _ demo_relay) as [s w].
  destruct (Consumer.serve_begin _ _ _ _ _ _) as [r [h' w']]. cbn in H.
  destruct H as (reg & s' & fw & tracks & -> & _). exists reg, s', fw. reflexivity.
Defined.

Lemma relay_forwards_witness :
  exists track, fst (Producer.serve_start (ApiError := unit) (Producer.mk false false) demo_namespace empty_string demo_world) =
    Producer.Serving (Producer.Local demo_tracks track).
Proof.
  assert (H1 : Locals.lookup (Relay.locals demo_world) !! demo_namespace = Some demo_tracks) by (vm_compute; reflexivity).
  assert (H2 : connected demo_namespace (Consumer.request demo_serve) demo_tracks (Relay.store demo_world)).
  { split; [vm_compute; reflexivity| |split; vm_compute; reflexivity]. eexists. split; [vm_compute; reflexivity|].
    vm_compute. reflexivity. }
  assert (H3 : TracksState.tracks (lock (cell_of (TracksReader.state demo_tracks)
    (Store.broadcasts (Relay.store demo_world)))) !! empty_string = None) by (vm_compute; reflexivity).
  assert (H4 : lock (cell_of (TracksReader.queue demo_tracks) (Store.queues (Relay.store demo_world))) = [])
    by (vm_compute; reflexivity).
  assert (H5 : SubscriberHalf.subscribes demo_session !! SubscriberHalf.subscribe_next demo_session = None)
    by (vm_compute; reflexivity).
  assert (H6 : dropped (inner (SubscriberHalf.outgoing demo_session)) = Some tt) by (vm_compute; reflexivity).
  pose proof (relay_forwards (ApiError := unit) (Producer.mk false false) (Producer.mk false false) demo_serve
    demo_namespace empty_string demo_tracks demo_session demo_world H1 H2 H3 H4 H5 H6) as H.
  destruct (Producer.serve_start _ _ _ _) as [pt w1]. destruct H as (track & _ & _ & _ & _ & _ & -> & _).
  exists track. reflexivity.
Defined.

Lemma consumer_ends_witness :
  let withdrawn := SubscriberHalf.with_announced_states
    (snd (drop_handle {| loc := 0; half := 0%nat |} (SubscriberHalf.announced_states demo_session))) demo_session in
  exists h w, Consumer.closed_turn (ApiError := unit) demo_text (Registration.mk demo_namespace) demo_serve withdrawn demo_world =
    Some (Ok (Consumer.Left (FromServe ServeErr.Cancel)), (h, w)) /\
  Locals.lookup (Relay.locals w) = delete demo_namespace (Locals.lookup (Relay.locals demo_world)).
Proof.
  cbv zeta. set (withdrawn := SubscriberHalf.with_announced_states _ _).
  assert (H1 : is_Some (TracksRequest.incoming (Consumer.request demo_serve))) by (eexists; vm_compute; reflexivity).
  assert (H2 : Announced.ok (Consumer.announce demo_serve) = true) by (vm_compute; reflexivity).
  assert (H3 : dropped (inner (SubscriberHalf.outgoing withdrawn)) = Some tt) by (vm_compute; reflexivity).
  pose proof (consumer_ends (ApiError := unit) demo_text (Registration.mk demo_namespace) demo_serve withdrawn demo_world H1 H2 H3) as H.
  assert (H4 : dropped (inner (cell_of (Announced.state (Consumer.announce demo_serve))
    (SubscriberHalf.announced_states withdrawn))) = None) by (vm_compute; reflexivity).
  rewrite H4 in H. destruct H as (h & w & E & Hl & _). exists h, w. split; [exact E|exact Hl].
Defined.
