(* ===== verification/RelaySessions.v ===== *)
(** * The sessions of the relay

    [moq-relay-ietf/src/relay.rs] and [session.rs], and the loops of [Producer::run] and
    [Consumer::run]: which session gets which parts, and how the parts of a session run
    next to each other. Sockets, certificates and the accepting of connections are left
    out. *)
From Stdlib Require Import NArith Lia Bool.
From stdpp Require Import base list gmap option numbers countable relations.
From S2P Require Import Prelude Buffers Utf8 Coding Setup Announces Subscribes Messages Errors Watch Serve Tracks.
From S2P Require Import Session Serving Subscriptions SubscriberHalf PublisherHalf Remotes Relay.

(** ** [session.rs] *)

Module RelaySession.

(** The parts of a session: its own task, the producer if it has a publisher half, and the
    consumer with whether it registers origins if it has a subscriber half. *)
Record t := mk { producer : option Producer.t; consumer : option (Consumer.t * bool) }.

(** What the three tasks have come to so far; a part that is not there waits for ever. *)
Record handles := mk_handles {
  session_handle : option (outcome SessionError unit);
  producer_handle : option (outcome SessionError unit);
  consumer_handle : option (outcome SessionError unit);
}.

Definition pending (self : t) (h : handles) : handles :=
  mk_handles (session_handle h)
    (match producer self with Some _ => producer_handle h | None => None end)
    (match consumer self with Some _ => consumer_handle h | None => None end).

(** [select!] takes a task that has ended, any of them, as [Session::run] of the transport
    does. The others go on. *)
Inductive ends (self : t) (h : handles) : outcome SessionError unit -> Prop :=
  | session_ends r : session_handle h = Some r -> ends self h (Session.joined r)
  | producer_ends r : producer_handle (pending self h) = Some r -> ends self h (Session.joined r)
  | consumer_ends r : consumer_handle (pending self h) = Some r -> ends self h (Session.joined r).
End RelaySession.

(** One pass of [Producer::run] and of [Consumer::run]: the next item is spawned as a task
    of its own, and a queue without a writer ends the loop. *)
Definition producer_turn (h : PublisherHalf.t) : option (option Subscribed.t * PublisherHalf.t) :=
  match PublisherHalf.subscribed_turn h with
  | (Queue.Return r, h) => Some (r, h)
  | _ => None
  end.

Definition consumer_turn (h : SubscriberHalf.t) : option (option Announced.t * SubscriberHalf.t) :=
  match SubscriberHalf.announced_turn h with
  | (Queue.Return r, h) => Some (r, h)
  | _ => None
  end.

(** ** [relay.rs] *)

Module RelayServer.
Section Server.
Context {U : UrlKey}.

Record config := mk_config { cfg_announce : option Url; cfg_api : option Url; cfg_node : option Url }.

(** [api]: the address of the API and our own; there are remotes if there is an API. *)
Record t := mk { announce : option Url; api : option (Url * Url); remotes : bool }.

Definition new (c : config) : t :=
  let api := match cfg_api c, cfg_node c with Some url, Some node => Some (url, node) | _, _ => None end in
  mk (cfg_announce c) api (match api with Some _ => true | None => false end).

(** [run] up to its loop: the session to the relay announcements are forwarded to, which
    has both halves, and what the other sessions get of it. *)
Definition forward_session (self : t) : option RelaySession.t :=
  match announce self with
  | Some _ => Some (RelaySession.mk (Some (Producer.mk (remotes self) false)) (Some (Consumer.mk false, false)))
  | None => None
  end.

Definition has_forward (self : t) : bool :=
  match forward_session self with Some s => match RelaySession.producer s with Some _ => true | None => false end | None => false end.
Definition has_upstream (self : t) : bool := match forward_session self with Some _ => true | None => false end.

(** [handle_quic_session] and [handle_ws_session], given the role the handshake has
    left; without a handshake there is no session. *)
Definition handle_session (self : t) (accepted : outcome SessionError Role.t) : option RelaySession.t :=
  match accepted with
  | Ok role =>
      Some (RelaySession.mk
        (if Role.is_publisher role then Some (Producer.mk (remotes self) (has_upstream self)) else None)
        (if Role.is_subscriber role
         then Some (Consumer.mk (has_forward self), match api self with Some _ => true | None => false end) else None))
  | _ => None
  end.
End Server.
End RelayServer.

(** ** What goes to the upstream relay and what does not *)
Section Upstream.
Context {U : UrlKey} {ApiError : Type} (to_string : ServeError -> String).

(** [serve_begin] of the consumer of a session, the API asked if it registers. *)
Definition begin_announce (c : Consumer.t * bool) (set_origin : outcome ApiError unit) (s : Consumer.Serve)
    (h : SubscriberHalf.t) (w : Relay.t) : outcome Empty_set (Consumer.begun (ApiError := ApiError)) * (SubscriberHalf.t * Relay.t) :=
  Consumer.serve_begin to_string (fst c) (if snd c then Some set_origin else None) s h w.

Lemma begin_forwarded c o s h (w : Relay.t) reg s' f :
  fst (begin_announce c o s h w) = Ok (Consumer.Running reg s' f) ->
  (Consumer.forward (fst c) = true <-> is_Some f).
Proof.
  unfold begin_announce, Consumer.serve_begin. intros E.
  assert (Hf : forall e reg0 s0 h0 (w0 : Relay.t), fst (Consumer.fail (ApiError := ApiError) to_string e reg0 s0 h0 w0) <> Ok (Consumer.Running reg s' f)).
  { intros e reg0 s0 h0 w0. unfold Consumer.fail. by destruct (Consumer.serve_leave _ _ _ _ _) as [[[]|e0|] p]. }
  destruct (if snd c then Some o else None) as [[u|e|]|]; [|by apply Hf in E|done|].
  all: destruct (Relay.on_store _ w) as [tr w1]; destruct (Relay.on_locals _ w1) as [[r|e|] w2]; [|by apply Hf in E|done].
  all: destruct (Relay.on_subscriber _ h w2) as [p [h3 w3]]; destruct (fst p) as [u0|e|]; [|by apply Hf in E|done].
  all: destruct (Consumer.forward (fst c)); [destruct (Relay.on_store _ w3) as [tr' w4]|]; injection E as _ _ <-.
  all: split; [done || by eexists|done || by intros [? ?]].
Qed.

(** Nothing goes round. The session to the upstream relay never asks it for a
    track of its own subscriptions, registers no origin and forwards no announcement,
    whatever announcements and subscriptions arrive on it; every other session forwards
    what is announced on it and asks upstream for what nobody here has exactly if an
    upstream relay is configured, and registers origins exactly if the API and our own
    address are. *)
Theorem upstream_apart (c : RelayServer.config) (role : Role.t) :
  let self := RelayServer.new c in
  (forall s, RelayServer.forward_session self = Some s ->
     (forall p ns name w, RelaySession.producer s = Some p ->
        fst (Producer.try_upstream (ApiError := ApiError) p ns name w) = Producer.Failed (FromServe ServeErr.NotFound)) /\
     (forall k o o' x h w, RelaySession.consumer s = Some k -> begin_announce k o x h w = begin_announce k o' x h w) /\
     (forall k o x h w reg x' f, RelaySession.consumer s = Some k ->
        fst (begin_announce k o x h w) = Ok (Consumer.Running reg x' f) -> f = None)) /\
  (forall s, RelayServer.handle_session self (Ok role) = Some s ->
     (forall p ns name w, RelaySession.producer s = Some p ->
        (fst (Producer.try_upstream (ApiError := ApiError) p ns name w) = Producer.Failed (FromServe ServeErr.NotFound) <->
         RelayServer.cfg_announce c = None)) /\
     (forall k, RelaySession.consumer s = Some k ->
        (snd k = true <-> is_Some (RelayServer.cfg_api c) /\ is_Some (RelayServer.cfg_node c)) /\
        forall o x h w reg x' f, fst (begin_announce k o x h w) = Ok (Consumer.Running reg x' f) ->
          (is_Some f <-> is_Some (RelayServer.cfg_announce c)))).
Proof.
  cbv zeta. split.
  - intros s Hs. unfold RelayServer.forward_session in Hs. destruct (RelayServer.announce _); [|done]. injection Hs as <-.
    cbn [RelaySession.producer RelaySession.consumer]. split; [by intros p ns name w [= <-]|]. split.
    + by intros k o o' x h w [= <-].
    + intros k o x h w reg x' f [= <-] E. apply begin_forwarded in E. cbn in E. destruct f; [|done]. destruct E as [_ E].
      specialize (E ltac:(eauto)). discriminate E.
  - intros s [= <-]. cbn [RelaySession.producer RelaySession.consumer]. split.
    + intros p ns name w Hp. destruct (Role.is_publisher role); [|done]. injection Hp as <-.
      unfold Producer.try_upstream. cbn [Producer.upstream].
      unfold RelayServer.has_upstream, RelayServer.forward_session. cbn [RelayServer.new RelayServer.announce].
      destruct (RelayServer.cfg_announce c); [|done].
      destruct (Relay.on_store (TrackWrite.produce (Track.new ns name)) w) as [[wr rd] w1]. by split.
    + intros k Hk. destruct (Role.is_subscriber role); [|done]. injection Hk as <-. cbn [fst snd]. split.
      * cbn. destruct (RelayServer.cfg_api c), (RelayServer.cfg_node c); cbn;
          (split; [intros E; (discriminate E || (split; eauto))|intros [[? E1] [? E2]]; (discriminate || done)]).
      * intros o x h w reg x' f E. apply begin_forwarded in E. rewrite <- E. cbn.
        unfold RelayServer.has_forward, RelayServer.forward_session. cbn. destruct (RelayServer.cfg_announce c); cbn;
          (split; [intros E1; (discriminate E1 || eauto)|intros [? E1]; (discriminate E1 || done)]).
Qed.
End Upstream.
