(* ===== verification/Payloads.v ===== *)
(** * What a group holds

    The payloads of the objects of a group, for the tools that write whole objects
    with [SubgroupWriter::write]: one more object with each write, none with
    anything else that happens to the cache. *)
From Stdlib Require Import NArith Lia Bool.
From stdpp Require Import base list gmap option numbers.
From S2P Require Import Prelude Buffers Utf8 Coding Setup Errors Watch Serve Subgroup Groups Tracks.

Definition object_bytes (w : World) (o : SubgroupObjectReader.t) : list byte :=
  concat (SubgroupObjectState.chunks (lock (cell_of (SubgroupObjectReader.state o) (Groups.objects w)))).

(** The objects of the group behind a handle, and their payloads. *)
Definition listed (w : World) (h : Handle) : list SubgroupObjectReader.t :=
  SubgroupState.objects (lock (cell_of h (groups w))).

Definition payloads (w : World) (h : Handle) : list (list byte) := object_bytes w <$> listed w h.

(** Objects are where objects have been made. *)
Definition allocated (w : World) (h : Handle) : Prop :=
  (loc h < next_cell (groups w))%nat /\
  Forall (fun o => (loc (SubgroupObjectReader.state o) < next_cell (Groups.objects w))%nat) (listed w h).

(** [SubgroupWriter::write]: one more object, with that payload. *)
Lemma write_payload payload g (w : World) :
  let '(r, (g', w')) := SubgroupWriter.write payload (g, w) in
  let h := SubgroupWriter.state g in
  match dropped (inner (cell_of h (groups w))) with
  | None => r = Err ServeErr.Cancel
  | Some _ => r = Ok tt /\ SubgroupWriter.state g' = h /\ tops w' = tops w /\
      (allocated w h -> payloads w' h = payloads w h ++ [payload] /\ allocated w' h)
  end.
Proof.
  unfold SubgroupWriter.write, bind, SubgroupWriter.create.
  set (object := SubgroupObject.mk _ _ _ _). cbn [default_split state_new split].
  set (h := SubgroupWriter.state g). set (k := next_cell (Groups.objects w)).
  set (wh := {| loc := k; half := 0%nat |}). 
  set (rd := SubgroupObjectReader.new _ _). set (oa := {| cells := _; next_cell := _ |}).
  unfold on_cell. cbn [groups with_objects SubgroupWriter.state]. rewrite mutate_spec.
  destruct (dropped (inner (cell_of h (groups w)))) eqn:Hd; cbv beta iota zeta; [|done].
  set (gc := run_notify _). set (w1 := with_groups _ _).
  unfold SubgroupWriter.write_object, SubgroupObjectWriter.write. cbn [SubgroupObjectWriter.new SubgroupObjectWriter.remain
    SubgroupObjectWriter.state SubgroupObject.size object].
  rewrite N.ltb_irrefl, N.sub_diag, mutate_spec.
  set (oc := cell_of wh (Groups.objects w1)).
  assert (Ho : inner oc = inner_new SubgroupObjectState.default).
  { unfold oc, w1, oa, cell_of, put. cbn. by rewrite decide_True. }
  replace (dropped (inner oc)) with (Some tt) by (by rewrite Ho). set (oc' := run_notify _).
  unfold drop_object_writer, on_cell, SubgroupObjectWriter.drop. cbn [SubgroupObjectWriter.remain SubgroupObjectWriter.state N.eqb].
  set (w2 := with_objects _ w1). unfold drop_handle. cbn [snd].
  match goal with |- context [with_objects ?a w2] => set (w3 := with_objects a w2) end.
  split; [done|]. split; [done|]. split; [done|]. intros [Hg Ha].
  assert (Hl : listed w3 h = listed w h ++ [rd]) by (unfold listed, w3; cbn; by rewrite cell_put_eq).
  assert (Hk : forall o, loc (SubgroupObjectReader.state o) <> k -> object_bytes w3 o = object_bytes w o).
  { intros o Hne. unfold object_bytes, w3, w2, w1, oa. cbn [Groups.objects with_objects with_groups].
    rewrite !(cell_put_ne _ (loc wh)) by done. unfold cell_of, put. cbn. by rewrite decide_False. }
  assert (Hr : object_bytes w3 rd = payload).
  { unfold object_bytes, w3. cbn [Groups.objects with_objects].
    rewrite (cell_of_loc _ wh) by done. rewrite cell_put_eq, drop_state_lock, cell_put_eq. unfold w2.
    cbn [Groups.objects with_objects]. rewrite cell_put_eq. unfold oc', lock. cbn. rewrite Ho. cbn. apply app_nil_r. }
  split; [|split].
  - unfold payloads. rewrite Hl, fmap_app. cbn. rewrite Hr. f_equal. apply list_fmap_ext.
    intros j o Hj. apply Hk. rewrite Forall_forall in Ha. apply list_elem_of_lookup_2, Ha in Hj. unfold k. lia.
  - exact Hg.
  - change (next_cell (Groups.objects w3)) with (S k). rewrite Hl. apply Forall_app.
    split; [|by repeat constructor; cbn; lia].
    eapply Forall_impl; [exact Ha|]. intros o Hlt. cbv beta in *. unfold k. lia.
Qed.

Lemma drop_group_handle_next h (w : World) : next_cell (groups (drop_group_handle h w)) = next_cell (groups w).
Proof.
  unfold drop_group_handle. destruct (drop_handle h (groups w)) as [v a] eqn:E.
  rewrite (proj2 (drop_objects_heaps _ _)). cbn. unfold drop_handle in E. by simplify_eq.
Qed.

(** The group a new writer writes to is a new one. *)
Lemma create_fresh sg self (w : World) :
  match SubgroupsWriter.create sg (self, w) with
  | (Ok wr, (_, w')) => loc (SubgroupWriter.state wr) = next_cell (groups w) /\
      next_cell (groups w') = S (next_cell (groups w)) /\ listed w' (SubgroupWriter.state wr) = []
  | _ => True
  end.
Proof.
  unfold SubgroupsWriter.create. set (info := SubgroupInfo.mk _ _ _ _).
  destruct (SubgroupWriter.produce info w) as [[wr rd] w1] eqn:Ep.
  unfold SubgroupWriter.produce in Ep. cbn [default_split state_new split] in Ep. injection Ep as <- <- <-.
  set (wr := SubgroupWriter.new _ _). set (w1 := with_groups _ w).
  assert (H1 : forall a, listed (with_tops a w1) (SubgroupWriter.state wr) = [])
    by (intros a; unfold listed, w1, cell_of, put; cbn; by rewrite decide_True).
  assert (H2 : forall h a, listed (drop_group_handle h (with_tops a w1)) (SubgroupWriter.state wr) = []).
  { intros h a. unfold listed. by rewrite (proj1 (drop_group_handle_stays h (with_tops a w1) (SubgroupWriter.state wr))), <- (H1 a). }
  destruct (on_cell _ _ _) as [[[[] o]|] a]; try done.
  - split; [done|]. destruct o as [old|]; [|by split].
    unfold drop_group_reader. rewrite drop_group_handle_next. by split.
  - split; [done|]. unfold drop_group_reader. rewrite drop_group_handle_next. by split.
Qed.

(** [SubgroupsWriter::append]: if the new group can be written to, it is the
    latest of the track, and empty. *)
Lemma append_latest p groups (w : World) :
  let '(r, (groups', w')) := SubgroupsWriter.append p (groups, w) in
  let top := SubgroupsWriter.state groups in
  match r with
  | Ok g =>
      (exists rd, SubgroupsState.latest (lock (cell_of top (tops w'))) = Some rd /\
        loc (SubgroupReader.state rd) = loc (SubgroupWriter.state g) /\
        SubgroupsWriter.state groups' = top /\ allocated w' (SubgroupWriter.state g) /\
        payloads w' (SubgroupWriter.state g) = []) \/
      forall payload, fst (SubgroupWriter.write payload (g, w')) = Err ServeErr.Cancel
  | Err e => e = ServeErr.Cancel \/ e = ServeErr.Duplicate
  | Panic => False
  end.
Proof.
  unfold SubgroupsWriter.append. set (sg := Subgroup.mk _ _ _).
  pose proof (create_top sg groups w) as Ht. cbv zeta in Ht.
  destruct (SubgroupsWriter.create sg (groups, w)) as [r [groups' w']] eqn:E.
  destruct Ht as [(_ & -> & [(_ & ->)|(_ & l & _ & [(_ & ->)|(_ & wr & -> & _ & Hc)])])|(Ho & _ & Hs & _ & wr & rd & -> & _ & _ & Hl & Hc)];
    [by left|by right| |].
  - right. intros payload. unfold SubgroupWriter.write, bind. specialize (Hc (lenN payload)).
    destruct (SubgroupWriter.create _ _) as [o q]. cbn in Hc. by rewrite Hc.
  - left. exists rd. rewrite Hc. split; [done|]. split; [done|]. split; [done|].
    pose proof (create_fresh sg groups w) as Hf. rewrite E in Hf. destruct Hf as (Hw & Hn & He).
    split; [|unfold payloads; by rewrite He]. split; [lia|]. rewrite He. constructor.
Qed.

(** *** What others may do *)

Lemma payloads_stay h (w w' : World) :
  stays (cell_of h (groups w)) (cell_of h (groups w')) ->
  Forall (fun o => stays (cell_of (SubgroupObjectReader.state o) (Groups.objects w))
                         (cell_of (SubgroupObjectReader.state o) (Groups.objects w'))) (listed w h) ->
  payloads w' h = payloads w h.
Proof.
  intros [Hg _] Ho. unfold payloads.
  assert (Hl : listed w' h = listed w h) by (unfold listed; by rewrite Hg). rewrite Hl.
  apply list_fmap_ext. intros i o Hi. unfold object_bytes.
  rewrite Forall_lookup in Ho. by rewrite (proj1 (Ho i o Hi)).
Qed.

Lemma drop_objects_stay l (w : World) : all_stay (Groups.objects w) (Groups.objects (fold_right drop_object_reader w l)) /\
  next_cell (Groups.objects (fold_right drop_object_reader w l)) = next_cell (Groups.objects w).
Proof.
  induction l as [|o l [IH1 IH2]]; [done|]. cbn. split; [|exact IH2]. etransitivity; [exact IH1|]. apply all_stay_drop.
Qed.

Lemma drop_group_objects h (w : World) :
  all_stay (Groups.objects w) (Groups.objects (drop_group_handle h w)) /\
  next_cell (Groups.objects (drop_group_handle h w)) = next_cell (Groups.objects w).
Proof. unfold drop_group_handle. destruct (drop_handle h (groups w)). apply (drop_objects_stay _ (with_groups _ w)). Qed.

Lemma drop_group_payloads g h (w : World) : allocated w h ->
  payloads (drop_group_handle g w) h = payloads w h /\ allocated (drop_group_handle g w) h.
Proof.
  intros [Hg Ha]. destruct (drop_group_objects g w) as [Hs Hn]. pose proof (drop_group_handle_stays g w) as Hgs.
  split; [apply payloads_stay; [apply Hgs|]; apply Forall_forall; intros o _; apply Hs|].
  split; [by rewrite drop_group_handle_next|]. rewrite Hn. unfold listed. by rewrite (proj1 (Hgs h)).
Qed.

(** ** What a call leaves alone

    [kept P]: the cells there were, apart from those [P] holds of, are within what
    their writers rely on. *)
Definition kept {T} (P : nat -> Prop) (a a' : Arena T) : Prop :=
  (next_cell a <= next_cell a')%nat /\
  forall h, (loc h < next_cell a)%nat -> ~ P (loc h) -> stays (cell_of h a) (cell_of h a').

#[export] Instance kept_preorder {T} (P : nat -> Prop) : PreOrder (@kept T P).
Proof.
  split; [by intros a|]. intros a b c [H1 H2] [H3 H4]. split; [lia|]. intros h Hh Hp.
  transitivity (cell_of h b); [by apply H2|]. apply H4; [lia|done].
Qed.

Lemma kept_put {T} (P : nat -> Prop) l (c : Cell T) a a' :
  kept P a a' -> P l \/ (next_cell a <= l)%nat -> kept P a (put l c a').
Proof.
  intros [H1 H2] Hl. split; [exact H1|]. intros h Hh Hp. rewrite cell_put_ne; [by apply H2|].
  intros E. rewrite E in *. destruct Hl; [done|lia].
Qed.

Lemma kept_drop {T} (P : nat -> Prop) h (a : Arena T) : kept P a (snd (drop_handle h a)).
Proof. split; [done|]. intros g _ _. apply all_stay_drop. Qed.

Lemma kept_split {T} (P : nat -> Prop) (initial : T) (a : Arena T) : kept P a (snd (default_split initial a)).
Proof.
  split; [cbn; lia|]. intros h Hh _. unfold cell_of. cbn. unfold put. cbn. by rewrite decide_False by lia.
Qed.

Lemma kept_weaken {T} (P Q : nat -> Prop) (a a' : Arena T) : (forall l, P l -> Q l) -> kept P a a' -> kept Q a a'.
Proof. intros Hpq [H1 H2]. split; [done|]. intros h Hh Hq. apply H2; [done|]. intros Hp. by apply Hq, Hpq. Qed.

(** Groups that [P] holds of may have changed; objects that were there have not. *)
Definition keeps (P : nat -> Prop) (w w' : World) : Prop :=
  kept P (groups w) (groups w') /\ kept (fun _ => False) (Groups.objects w) (Groups.objects w').

#[export] Instance keeps_preorder P : PreOrder (keeps P).
Proof.
  split; [by intros w; split; reflexivity|]. intros a b c [H1 H2] [H3 H4]. split; by etransitivity.
Qed.

Lemma keeps_weaken (P Q : nat -> Prop) w w' : (forall l, P l -> Q l) -> keeps P w w' -> keeps Q w w'.
Proof. intros Hpq [H1 H2]. split; [by eapply kept_weaken|done]. Qed.

Lemma keeps_payloads P w w' h : keeps P w w' -> ~ P (loc h) -> allocated w h ->
  payloads w' h = payloads w h /\ allocated w' h.
Proof.
  intros [[Hn Hg] [Hm Ho]] Hp [Hal Hobj]. assert (Hs := Hg h Hal Hp). split.
  - apply payloads_stay; [exact Hs|]. eapply Forall_impl; [exact Hobj|]. intros o Hlt. apply Ho; [exact Hlt|tauto].
  - split; [lia|]. unfold listed. rewrite (proj1 Hs). eapply Forall_impl; [exact Hobj|]. intros o Hlt. cbv beta in *. lia.
Qed.

Lemma keeps_drop_object P o w : keeps P w (drop_object_reader o w).
Proof. split; [reflexivity|apply kept_drop]. Qed.

Lemma keeps_drop_group P h w : keeps P w (drop_group_handle h w).
Proof.
  unfold drop_group_handle. destruct (drop_handle h (groups w)) as [v a] eqn:E.
  transitivity (with_groups a w).
  - split; [|reflexivity]. replace a with (snd (drop_handle h (groups w))) by (by rewrite E). apply kept_drop.
  - induction (match v with Some s => SubgroupState.objects s | None => [] end) as [|o l IH]; [reflexivity|].
    cbn. etransitivity; [exact IH|]. apply keeps_drop_object.
Qed.

(** The writer of an object that is new with respect to [w]. *)
Lemma keeps_drop_writer P w w1 o : keeps P w w1 ->
  (next_cell (Groups.objects w) <= loc (SubgroupObjectWriter.state o))%nat -> keeps P w (drop_object_writer o w1).
Proof.
  intros [Hg Ho] Hl. split; [exact Hg|]. unfold drop_object_writer, on_cell. cbn [Groups.objects with_objects].
  etransitivity; [|apply kept_drop]. apply kept_put; auto.
Qed.

Lemma write_object_state o chunk w : let '(_, (o', _)) := SubgroupWriter.write_object o chunk w in
  SubgroupObjectWriter.state o' = SubgroupObjectWriter.state o.
Proof.
  unfold SubgroupWriter.write_object, SubgroupObjectWriter.write. destruct (_ <? _); [done|].
  by destruct (mutate _ _).
Qed.

Lemma keeps_write_object P w w1 o chunk : keeps P w w1 ->
  (next_cell (Groups.objects w) <= loc (SubgroupObjectWriter.state o))%nat ->
  keeps P w (snd (snd (SubgroupWriter.write_object o chunk w1))).
Proof.
  intros [Hg Ho] Hl. unfold SubgroupWriter.write_object. destruct (SubgroupObjectWriter.write _ _) as [r [o' c]].
  split; [exact Hg|]. apply kept_put; auto.
Qed.

Lemma create_object_keeps size g (w : World) :
  let '(r, (_, w')) := SubgroupWriter.create size (g, w) in
  keeps (eq (loc (SubgroupWriter.state g))) w w' /\
  match r with Ok o => loc (SubgroupObjectWriter.state o) = next_cell (Groups.objects w) | _ => True end.
Proof.
  unfold SubgroupWriter.create. set (object := SubgroupObject.mk _ _ _ _). cbn [default_split state_new split].
  set (h := SubgroupWriter.state g).
  set (rd := SubgroupObjectReader.new _ _). set (wr := SubgroupObjectWriter.new _ _).
  set (oa := {| cells := _; next_cell := _ |}).
  assert (H0 : kept (fun _ => False) (Groups.objects w) oa) by apply (kept_split _ SubgroupObjectState.default).
  unfold on_cell. cbn [groups with_objects]. destruct (mutate _ _) as [r c].
  assert (H1 : keeps (eq (loc h)) w (with_groups (put (loc h) c (groups w)) (with_objects oa w))).
  { split; [|exact H0]. apply kept_put; [reflexivity|by left]. }
  destruct r as [[]|e|]; (split; [|done]); [exact H1| |exact H1].
  apply keeps_drop_writer; [|cbn; lia]. etransitivity; [exact H1|apply keeps_drop_object].
Qed.

(** Writing to a group touches no other. *)
Lemma write_keeps payload g (w : World) :
  keeps (eq (loc (SubgroupWriter.state g))) w (snd (snd (SubgroupWriter.write payload (g, w)))).
Proof.
  unfold SubgroupWriter.write, bind. pose proof (create_object_keeps (lenN payload) g w) as Hc.
  destruct (SubgroupWriter.create _ _) as [[o|e|] [g' w1]]; [|apply Hc|apply Hc]. destruct Hc as [Hk Ho].
  pose proof (keeps_write_object _ w w1 o payload Hk ltac:(lia)) as Hw. pose proof (write_object_state o payload w1) as Hs.
  destruct (SubgroupWriter.write_object o payload w1) as [r [o' w2]]. cbn in *.
  apply keeps_drop_writer; [exact Hw|]. rewrite Hs. lia.
Qed.

(** A new group touches none. *)
Lemma append_keeps p groups (w : World) :
  keeps (fun _ => False) w (snd (snd (SubgroupsWriter.append p (groups, w)))).
Proof.
  unfold SubgroupsWriter.append, SubgroupsWriter.create. set (info := SubgroupInfo.mk _ _ _ _).
  destruct (SubgroupWriter.produce info w) as [[wr rd] w1] eqn:Ep.
  assert (H1 : forall a, keeps (fun _ => False) w (with_tops a w1)).
  { unfold SubgroupWriter.produce in Ep. cbn [default_split state_new split] in Ep. injection Ep as _ _ <-.
    intros a. split; [|reflexivity]. apply (kept_split _ SubgroupState.default). }
  assert (H2 : forall h a, keeps (fun _ => False) w (drop_group_handle h (with_tops a w1)))
    by (intros h a; etransitivity; [apply H1|apply keeps_drop_group]).
  destruct (on_cell _ _ _) as [[[[] [o|]]|] a]; cbn [snd]; try apply H2; try apply H1;
    unfold SubgroupWriter.drop; (etransitivity; [apply H2|apply keeps_drop_group]).
Qed.

(** The group of a writer that has just been made was not there. *)
Lemma append_fresh p groups (w : World) :
  match SubgroupsWriter.append p (groups, w) with
  | (Ok g, (_, w')) => loc (SubgroupWriter.state g) = next_cell (Groups.groups w) /\
      allocated w' (SubgroupWriter.state g) /\ payloads w' (SubgroupWriter.state g) = []
  | _ => True
  end.
Proof.
  unfold SubgroupsWriter.append. pose proof (create_fresh (Subgroup.mk (SubgroupsWriter.next_group_id groups) 0 p) groups w) as Hf.
  destruct (SubgroupsWriter.create _ _) as [[g|e|] [groups' w']]; [|done|done].
  destruct Hf as (H1 & H2 & H3). unfold allocated, payloads. rewrite H3. repeat split; try constructor; lia.
Qed.
