(* ===== verification/Listings.v ===== *)
(** * Directory listings

    [moq-dir/src/listing.rs] and [listings.rs]: a listing is a track that tells
    which names there are under a prefix. Its writer starts a group with an object
    of all names and adds an object per change, until a new group is shorter; its
    reader gives the changes. [Listings] keeps a listing per prefix and registers
    names as long as their [Registration]s are held. *)
From Stdlib Require Import NArith Lia Bool.
From stdpp Require Import base list gmap option numbers countable relations.
From S2P Require Import Prelude Buffers Utf8 Coding Setup Errors Watch Serve Subgroup Groups Tracks Payloads.

(** ** What the code leaves open *)

(** A [HashSet] is iterated in some order of its elements. *)
Class SetOrder := {
  set_iter : gset String -> list String;
  set_iter_perm : forall s, set_iter s ≡ₚ elements s;
}.

Definition newline : byte := x0a.
Definition plus : byte := x2b.
Definition minus : byte := x2d.
Definition dot : byte := x2e.

(** ** [listing.rs]: the writer *)

Module ListingWriter.
Section Writer.
Context `{SetOrder}.

Record t := mk {
  track : option TrackWriter.t;
  subgroups : option SubgroupsWriter.t;
  subgroup : option SubgroupWriter.t;
  current : gset String;
}.

Definition new (track : TrackWriter.t) : t := mk (Some track) None None ∅.

Definition with_current (x : gset String) (self : t) : t := mk (track self) (subgroups self) (subgroup self) x.
Definition with_subgroup (x : option SubgroupWriter.t) (self : t) : t :=
  mk (track self) (subgroups self) x (current self).
Definition with_subgroups (x : option SubgroupsWriter.t) (self : t) : t :=
  mk (track self) x (subgroup self) (current self).

Definition len (self : t) : N := N.of_nat (size (current self)).
Definition is_empty (self : t) : bool := len self =? 0.

(** [self.subgroups.take()], or [self.track.take().unwrap().groups()]. *)
Definition take_subgroups : M (t * Store.t) ServeError SubgroupsWriter.t := fun '(self, x) =>
  match subgroups self with
  | Some g => (Ok g, (with_subgroups None self, x))
  | None =>
      match track self with
      | Some tw =>
          let (r, x) := TrackWrite.groups tw x in (r, (mk None None (subgroup self) (current self), x))
      | None => (Panic, (self, x))
      end
  end.

(** Every name on a line of its own. *)
Definition snapshot_bytes (names : gset String) : list byte :=
  concat ((fun name => as_bytes name ++ [newline]) <$> set_iter names).

(** If writing fails, both writers go. *)
Definition snapshot : M (t * Store.t) ServeError SubgroupWriter.t :=
  let! groups := take_subgroups in fun '(self, x) =>
  match SubgroupsWriter.append (bn 127) (groups, Store.subgroups x) with
  | (Ok group, (groups, w)) =>
      match SubgroupWriter.write (snapshot_bytes (current self)) (group, w) with
      | (Ok _, (group, w)) => (Ok group, (with_subgroups (Some groups) self, Store.with_subgroups w x))
      | (Err e, (group, w)) =>
          (Err e, (self, Store.with_subgroups (SubgroupsWriter.drop groups (SubgroupWriter.drop group w)) x))
      | (Panic, (_, w)) => (Panic, (self, Store.with_subgroups w x))
      end
  | (Err e, (groups, w)) => (Err e, (self, Store.with_subgroups (SubgroupsWriter.drop groups w) x))
  | (Panic, (_, w)) => (Panic, (self, Store.with_subgroups w x))
  end.

(** A new group replaces the one so far. *)
Definition renew : M (t * Store.t) ServeError unit :=
  let! group := snapshot in fun '(self, x) =>
  (Ok tt, (with_subgroup (Some group) self,
           match subgroup self with
           | Some old => Store.with_subgroups (SubgroupWriter.drop old (Store.subgroups x)) x
           | None => x
           end)).

(** A change as an object of the group, or a new group if that is no longer. *)
Definition publish (msg : list byte) : M (t * Store.t) ServeError unit := fun '(self, x) =>
  match subgroup self with
  | Some group =>
      if len self <? (2 * SubgroupWriter.len group (Store.subgroups x)) mod 2 ^ 64 then
        let '(r, (group, w)) := SubgroupWriter.write msg (group, Store.subgroups x) in
        (r, (with_subgroup (Some group) self, Store.with_subgroups w x))
      else renew (self, x)
  | None => renew (self, x)
  end.

Definition insert (name : String) : M (t * Store.t) ServeError unit := fun '(self, x) =>
  if decide (name ∈ current self) then (Err ServeErr.Duplicate, (self, x))
  else publish (plus :: as_bytes name) (with_current ({[name]} ∪ current self) self, x).

Definition remove (name : String) : M (t * Store.t) ServeError unit := fun '(self, x) =>
  if decide (name ∈ current self) then
    publish (minus :: as_bytes name) (with_current (current self ∖ {[name]}) self, x)
  else (Err ServeErr.NotFound, (self, x)).

(** Its fields go. *)
Definition drop (self : t) (x : Store.t) : Store.t :=
  let x := match track self with Some tw => TrackWrite.drop tw x | None => x end in
  let x := match subgroups self with
           | Some g => Store.with_subgroups (SubgroupsWriter.drop g (Store.subgroups x)) x
           | None => x
           end in
  match subgroup self with
  | Some g => Store.with_subgroups (SubgroupWriter.drop g (Store.subgroups x)) x
  | None => x
  end.
End Writer.
End ListingWriter.

(** ** [listing.rs]: the reader *)

Module ListingDelta.
Inductive t := Add (name : String) | Rem (name : String).
End ListingDelta.

Module ListingReader.
Section Reader.
Context `{SetOrder}.

(** What [bail!], [context] and [?] give. *)
Inductive error :=
  | Serve (e : ServeError)
  | ExpectedSubgroups
  | EmptyTrack
  | EmptyPayload
  | InvalidDelta.

Record t := mk {
  track : TrackReader.t;
  subgroups : option SubgroupsReader.t;
  subgroup : option SubgroupReader.t;
  current : gset String;
  deltas : list ListingDelta.t;
}.

Definition new (track : TrackReader.t) : t := mk track None None ∅ [].

Definition with_subgroups (x : SubgroupsReader.t) (self : t) : t :=
  mk (track self) (Some x) (subgroup self) (current self) (deltas self).
Definition with_subgroup (x : SubgroupReader.t) (self : t) : t :=
  mk (track self) (subgroups self) (Some x) (current self) (deltas self).
Definition with_deltas (x : list ListingDelta.t) (self : t) : t :=
  mk (track self) (subgroups self) (subgroup self) (current self) x.

(** [set.difference(other)] in the order of [set]. *)
Definition difference (set other : gset String) : list String :=
  filter (fun name => name ∉ other) (set_iter set).

(** A payload has been read: [pos] counts the objects taken from the group. *)
Definition receive (payload : list byte) (pos : N) (self : t) : outcome error (option ListingDelta.t) * t :=
  match payload with
  | [] => (Err EmptyPayload, self)
  | b :: rest =>
      if pos =? 1 then
        let set : gset String := list_to_set (lossy <$> split_on newline payload) in
        let queued := deltas self ++ (ListingDelta.Add <$> difference set (current self))
                                  ++ (ListingDelta.Rem <$> difference (current self) set) in
        let self := mk (track self) (subgroups self) (subgroup self) set queued in
        match queued with
        | delta :: queued => (Ok (Some delta), with_deltas queued self)
        | [] => (Ok None, self)
        end
      else if decide (b = plus) then (Ok (Some (ListingDelta.Add (lossy rest))), self)
      else if decide (b = minus) then (Ok (Some (ListingDelta.Rem (lossy rest))), self)
      else (Err InvalidDelta, self)
  end.

(** A call of [next]: before its loop, or in it, with its two flags and the
    object it is reading. *)
Inductive point :=
  | Begin
  | Loop (subgroup_done subgroups_done : bool) (reading : option (SubgroupObjectReader.t * list (list byte)))
  | Finished (r : outcome error (option ListingDelta.t)).

Inductive branch := NextSubgroup | ReadObject | Else.

(** Waiting for the mode and for the first subgroup; [None] if not ready. *)
Definition begin_turn (self : t) (x : Store.t) : option (point * (t * Store.t)) :=
  match deltas self with
  | delta :: queued => Some (Finished (Ok (Some delta)), (with_deltas queued self, x))
  | [] =>
      match subgroups self, subgroup self with
      | None, _ =>
          match TrackRead.mode_turn (track self) x with
          | (Return (Ok (TrackReaderMode.Subgroups g)), x) => Some (Begin, (with_subgroups g self, x))
          | (Return (Ok mode), x) => Some (Finished (Err ExpectedSubgroups), (self, Store.drop_mode mode x))
          | (Return (Err e), x) => Some (Finished (Err (Serve e)), (self, x))
          | (Return Panic, x) => Some (Finished Panic, (self, x))
          | (Wait _, _) => None
          end
      | Some groups, None =>
          match SubgroupsReader.next_turn groups (Store.subgroups x) with
          | (Return r, (groups, w)) =>
              let p := (with_subgroups groups self, Store.with_subgroups w x) in
              match r with
              | Ok (Some group) => Some (Begin, (with_subgroup group p.1, p.2))
              | Ok None => Some (Finished (Err EmptyTrack), p)
              | Err e => Some (Finished (Err (Serve e)), p)
              | Panic => Some (Finished Panic, p)
              end
          | (Wait _, _) => None
          end
      | Some _, Some _ => Some (Loop false false None, (self, x))
      end
  end.

(** The object that was being read is dropped with the future of [read_next]. *)
Definition forget (reading : option (SubgroupObjectReader.t * list (list byte))) (x : Store.t) : Store.t :=
  match reading with
  | Some (o, _) => Store.with_subgroups (drop_object_reader o (Store.subgroups x)) x
  | None => x
  end.

Definition next_branch (done : bool) (groups : SubgroupsReader.t)
    (reading : option (SubgroupObjectReader.t * list (list byte))) (self : t) (x : Store.t) :
    option (point * (t * Store.t)) :=
  match SubgroupsReader.next_turn groups (Store.subgroups x) with
  | (Return r, (groups, w)) =>
      let self := with_subgroups groups self in
      let x := forget reading (Store.with_subgroups w x) in
      match r with
      | Ok (Some group) =>
          let x := match subgroup self with
                   | Some old => Store.with_subgroups (drop_group_reader old (Store.subgroups x)) x
                   | None => x
                   end in
          Some (Loop false false None, (with_subgroup group self, x))
      | Ok None => Some (Loop done true None, (self, x))
      | Err e => Some (Finished (Err (Serve e)), (self, x))
      | Panic => Some (Finished Panic, (self, x))
      end
  | (Wait _, _) => None
  end.

(** [read_next]: the next object, then its chunks up to the end. *)
Definition read_branch (done : bool) (group : SubgroupReader.t)
    (reading : option (SubgroupObjectReader.t * list (list byte))) (self : t) (x : Store.t) :
    option (point * (t * Store.t)) :=
  match reading with
  | None =>
      match SubgroupRead.next_turn group (Store.subgroups x) with
      | (Return r, (group, w)) =>
          let p := (with_subgroup group self, Store.with_subgroups w x) in
          match r with
          | Ok (Some o) => Some (Loop false done (Some (o, [])), p)
          | Ok None => Some (Loop true done None, p)
          | Err e => Some (Finished (Err (Serve e)), p)
          | Panic => Some (Finished Panic, p)
          end
      | (Wait _, _) => None
      end
  | Some (o, chunks) =>
      match SubgroupObjectReader.read_turn o (cell_of (SubgroupObjectReader.state o) (objects (Store.subgroups x))) with
      | (Return (Ok (Some chunk)), o) => Some (Loop false done (Some (o, chunks ++ [chunk])), (self, x))
      | (Return (Ok None), o) =>
          let (r, self) := receive (concat chunks) (SubgroupReader.pos group) self in
          let x := forget (Some (o, chunks)) x in
          match r with
          | Ok None => Some (Loop false done None, (self, x))
          | r => Some (Finished r, (self, x))
          end
      | (Return (Err e), o) => Some (Finished (Err (Serve e)), (self, forget (Some (o, chunks)) x))
      | (Return Panic, o) => Some (Finished Panic, (self, x))
      | (Wait _, _) => None
      end
  end.

(** One turn of [next]; [None] if the branch is disabled or not ready. *)
Definition turn (b : branch) (p : point) (self : t) (x : Store.t) : option (point * (t * Store.t)) :=
  match p with
  | Finished _ => None
  | Begin => begin_turn self x
  | Loop subgroup_done subgroups_done reading =>
      match b, subgroups self, subgroup self with
      | NextSubgroup, Some groups, _ =>
          if subgroups_done then None else next_branch subgroup_done groups reading self x
      | ReadObject, _, Some group =>
          if subgroup_done then None else read_branch subgroups_done group reading self x
      | Else, _, _ => if subgroup_done && subgroups_done then Some (Finished (Ok None), (self, x)) else None
      | _, _, _ => Some (Finished Panic, (self, x))
      end
  end.

Definition into_inner (self : t) : TrackReader.t := track self.
End Reader.
End ListingReader.

(** ** [listings.rs] *)

(** [str::rfind] of a byte. *)
Fixpoint rfind (b : byte) (l : list byte) : option nat :=
  match l with
  | [] => None
  | c :: l =>
      match rfind b l with
      | Some i => Some (S i)
      | None => if decide (c = b) then Some 0%nat else None
      end
  end.

(** Slicing a string panics inside a character. *)
Definition slice_to (i : nat) (s : String) : outcome Empty_set String :=
  match from_utf8 (take i (as_bytes s)) with Some t => Ok t | None => Panic end.
Definition slice_from (i : nat) (s : String) : outcome Empty_set String :=
  match from_utf8 (skipn i (as_bytes s)) with Some t => Ok t | None => Panic end.

Definition starts_with (prefix s : String) : bool :=
  bool_decide (take (length (as_bytes prefix)) (as_bytes s) = as_bytes prefix).

Definition empty : String := mk_String [] eq_refl.

Module Registration.
Record t := mk { prefix : String; base : String }.
End Registration.

Module Listings.
Section Listings.
Context `{SetOrder}.

(** The state behind the mutex, and the reader. *)
Record t := mk {
  writer : TracksWriter.t;
  active : gmap String ListingWriter.t;
  reader : TracksReader.t;
}.

Definition with_active (x : gmap String ListingWriter.t) (self : t) : t := mk (writer self) x (reader self).

(** The request end goes at once. *)
Definition new (namespace : String) (x : Store.t) : outcome ServeError t * Store.t :=
  let '((writer, request, reader), x) := produce (Tracks.new (Tuple.from_utf8_path namespace)) x in
  let (r, x) := TracksRequest.drop request x in
  (match r with Ok _ => Ok (mk writer ∅ reader) | Err e => Err e | Panic => Panic end, x).

(** Up to the last dot, and the rest. *)
Definition prefix (path : String) : outcome Empty_set (String * String) :=
  match rfind dot (as_bytes path) with
  | Some index =>
      match slice_to (index + 1) path, slice_from (index + 1) path with
      | Ok p, Ok b => Ok (p, b)
      | _, _ => Panic
      end
  | None => Ok (empty, path)
  end.

(** [register] under the mutex, once the path is cut. A listing that has just
    been made goes if it cannot take the name. *)
Definition register_at (prefix base : String) : M (t * Store.t) ServeError (option Registration.t) := fun '(self, x) =>
  match active self !! prefix with
  | Some listing =>
      let '(r, (listing, x)) := ListingWriter.insert base (listing, x) in
      let self := with_active (<[prefix := listing]> (active self)) self in
      match r with
      | Ok _ => (Ok (Some (Registration.mk prefix base)), (self, x))
      | Err e => (Err e, (self, x))
      | Panic => (Panic, (self, x))
      end
  | None =>
      match TracksWriter.create prefix (writer self) x with
      | (None, x) => (Panic, (self, x))
      | (Some track, x) =>
          let '(r, (listing, x)) := ListingWriter.insert base (ListingWriter.new track, x) in
          match r with
          | Ok _ =>
              (Ok (Some (Registration.mk prefix base)), (with_active (<[prefix := listing]> (active self)) self, x))
          | Err e => (Err e, (self, ListingWriter.drop listing x))
          | Panic => (Panic, (self, x))
          end
      end
  end.

(** What is not in our namespace is ignored. *)
Definition register (path : String) : M (t * Store.t) ServeError (option Registration.t) := fun '(self, x) =>
  match prefix path with
  | Ok (prefix, base) =>
      let namespace := Tuple.to_utf8_path (Tracks.namespace (TracksReader.info (reader self))) in
      if starts_with namespace prefix then
        match slice_from (length (as_bytes namespace)) prefix with
        | Ok prefix => register_at prefix base (self, x)
        | _ => (Panic, (self, x))
        end
      else (Ok None, (self, x))
  | _ => (Panic, (self, x))
  end.

(** The last name takes the listing and its track with it. *)
Definition remove (prefix base : String) : M (t * Store.t) ServeError unit := fun '(self, x) =>
  match active self !! prefix with
  | None => (Err ServeErr.NotFound, (self, x))
  | Some listing =>
      let '(r, (listing, x)) := ListingWriter.remove base (listing, x) in
      let self := with_active (<[prefix := listing]> (active self)) self in
      match r with
      | Ok _ =>
          if ListingWriter.is_empty listing then
            let x := ListingWriter.drop listing x in
            let (track, x) := TracksWriter.remove prefix (writer self) x in
            (Ok tt, (with_active (delete prefix (active self)) self,
                     match track with Some r => TrackRead.drop r x | None => x end))
          else (Ok tt, (self, x))
      | r => (r, (self, x))
      end
  end.

(** [Drop::drop] of [Registration]; the result is not looked at. *)
Definition unregister (reg : Registration.t) (self : t) (x : Store.t) : t * Store.t :=
  snd (remove (Registration.prefix reg) (Registration.base reg) (self, x)).

Definition subscribe (name : String) (self : t) (x : Store.t) : option ListingReader.t * Store.t :=
  let (track, x) := TracksReader.subscribe name (reader self) x in (ListingReader.new <$> track, x).

Definition tracks (self : t) (x : Store.t) : TracksReader.t * Store.t := TracksReader.clone (reader self) x.
End Listings.
End Listings.

(** ** Replaying a group

    What a reader is to make of the objects: the names on the lines of the first
    one, then the changes. *)

Definition lines (l : list byte) : list (list byte) := removelast (split_on newline l).

Definition apply_delta (d : list byte) (s : gset (list byte)) : option (gset (list byte)) :=
  match d with
  | b :: name =>
      if decide (b = plus) then Some ({[name]} ∪ s)
      else if decide (b = minus) then Some (s ∖ {[name]}) else None
  | [] => None
  end.

Definition replay (l : list (list byte)) : option (gset (list byte)) :=
  match l with
  | [] => None
  | first :: deltas =>
      foldl (fun acc d => acc ≫= apply_delta d) (Some (list_to_set (lines first))) deltas
  end.

Lemma replay_snoc l d s : replay l = Some s -> replay (l ++ [d]) = apply_delta d s.
Proof.
  destruct l as [|first deltas]; [done|]. cbn. intros Hs. by rewrite foldl_app, Hs.
Qed.

Lemma split_on_line sep p l : sep ∉ p -> split_on sep (p ++ sep :: l) = p :: split_on sep l.
Proof.
  induction p as [|b p IH]; cbn; intros Hp; [by rewrite decide_True|].
  apply not_elem_of_cons in Hp as [Hb Hp]. rewrite decide_False by congruence. by rewrite IH.
Qed.

Lemma lines_of ps : Forall (fun p => newline ∉ p) ps -> lines (concat ((fun p => p ++ [newline]) <$> ps)) = ps.
Proof.
  unfold lines. induction 1 as [|p ps Hp _ IH]; [done|]. cbn. rewrite <- app_assoc. cbn.
  rewrite split_on_line by done. cbn. pose proof (split_on_ne newline (concat ((fun p => p ++ [newline]) <$> ps))) as Hne.
  destruct (split_on newline _) as [|q qs]; [done|]. by rewrite IH.
Qed.

#[export] Instance as_bytes_inj : Inj (=) (=) as_bytes.
Proof. intros s t. apply String_eq. Qed.

Definition names (s : gset String) : gset (list byte) := set_map as_bytes s.

Lemma snapshot_lines `{SetOrder} s : (forall n, n ∈ s -> newline ∉ as_bytes n) ->
  list_to_set (lines (ListingWriter.snapshot_bytes s)) = names s.
Proof.
  intros Hs. unfold ListingWriter.snapshot_bytes.
  replace ((fun name => as_bytes name ++ [newline]) <$> set_iter s)
    with ((fun p => p ++ [newline]) <$> (as_bytes <$> set_iter s)) by (by rewrite <- list_fmap_compose).
  rewrite lines_of.
  - apply set_eq. intros p. unfold names. rewrite elem_of_list_to_set, elem_of_map, list_elem_of_fmap.
    split; intros (n & -> & Hn); exists n; (split; [done|]); revert Hn; rewrite (set_iter_perm s);
      by rewrite elem_of_elements.
  - apply Forall_forall. intros p Hp. apply list_elem_of_fmap in Hp as (n & -> & Hn). apply Hs.
    rewrite (set_iter_perm s) in Hn. by apply elem_of_elements.
Qed.

(** The changes as they are meant, and as they are sent. *)
Definition apply (d : ListingDelta.t) (s : gset String) : gset String :=
  match d with
  | ListingDelta.Add name => {[name]} ∪ s
  | ListingDelta.Rem name => s ∖ {[name]}
  end.

Definition apply_all (ds : list ListingDelta.t) (s : gset String) : gset String := foldl (fun s d => apply d s) s ds.

Definition encode (d : ListingDelta.t) : list byte :=
  match d with
  | ListingDelta.Add name => plus :: as_bytes name
  | ListingDelta.Rem name => minus :: as_bytes name
  end.

Lemma apply_all_app ds ds' s : apply_all (ds ++ ds') s = apply_all ds' (apply_all ds s).
Proof. apply foldl_app. Qed.

Lemma names_add name (s : gset String) : names ({[name]} ∪ s) = {[as_bytes name]} ∪ names s.
Proof. unfold names. by rewrite set_map_union_L, set_map_singleton_L. Qed.

Lemma names_rem name (s : gset String) : names (s ∖ {[name]}) = names s ∖ {[as_bytes name]}.
Proof.
  unfold names. apply set_eq. intros p. rewrite elem_of_difference, !elem_of_map, elem_of_singleton. split.
  - intros (n & -> & Hn). apply elem_of_difference in Hn as [Hn Hne]. rewrite elem_of_singleton in Hne.
    split; [by exists n|]. intros E. by apply Hne, as_bytes_inj.
  - intros [(n & -> & Hn) Hne]. exists n. split; [done|]. apply elem_of_difference. split; [done|].
    rewrite elem_of_singleton. by intros ->.
Qed.

Lemma apply_delta_encode d s : apply_delta (encode d) (names s) = Some (names (apply d s)).
Proof. destruct d as [n|n]; cbn; [by rewrite names_add|by rewrite names_rem]. Qed.

(** A group as a listing writes it: all names of [s], then the changes [ds]. *)
Definition published `{SetOrder} (s : gset String) (ds : list ListingDelta.t) : list (list byte) :=
  ListingWriter.snapshot_bytes s :: (encode <$> ds).

Lemma replay_published `{SetOrder} s ds : (forall n, n ∈ s -> newline ∉ as_bytes n) ->
  replay (published s ds) = Some (names (apply_all ds s)).
Proof.
  intros Hs. unfold replay, published. rewrite snapshot_lines by done. clear Hs. revert s.
  induction ds as [|d ds IH]; intros s; [done|]. cbn [fmap list_fmap foldl].
  change (Some (names s) ≫= apply_delta (encode d)) with (apply_delta (encode d) (names s)).
  rewrite apply_delta_encode. apply IH.
Qed.

Lemma split_on_parts sep l : Forall (fun p => sep ∉ p) (split_on sep l).
Proof.
  assert (H0 : sep ∉ ([] : list byte)) by apply not_elem_of_nil.
  induction l as [|b l IH]; cbn; [by constructor|].
  case_decide as Hb; [by constructor|].
  destruct (split_on sep l) as [|p ps]; inversion_clear IH; (constructor; [|done]);
    apply not_elem_of_cons; (split; [congruence|done]).
Qed.

(** What is read has no newline, but for the names that were added by a change. *)
Lemma replay_members first ds r p :
  replay (first :: (encode <$> ds)) = Some r -> p ∈ r ->
  newline ∉ p \/ exists n, p = as_bytes n /\ ListingDelta.Add n ∈ ds.
Proof.
  unfold replay. assert (Hl : forall q, q ∈ (list_to_set (lines first) : gset (list byte)) -> newline ∉ q).
  { intros q Hq. apply elem_of_list_to_set in Hq. unfold lines in Hq.
    pose proof (split_on_parts newline first) as HF. rewrite Forall_forall in HF. apply HF.
    rewrite (app_removelast_last [] (split_on_ne newline first)). apply elem_of_app. by left. }
  revert Hl. generalize (list_to_set (lines first) : gset (list byte)) as s0. revert r.
  induction ds as [|d ds IH] using rev_ind; intros r s0 Hl; cbn.
  - intros [= <-] Hp. left. by apply Hl.
  - rewrite fmap_app, foldl_app. cbn [fmap list_fmap foldl]. intros E Hp.
    destruct (foldl _ (Some s0) _) as [s1|] eqn:E1; [|done]. cbn in E.
    assert (Hold : p ∈ s1 -> newline ∉ p \/ exists n, p = as_bytes n /\ ListingDelta.Add n ∈ ds ++ [d]).
    { intros Hs1. destruct (IH s1 s0 Hl E1 Hs1) as [?|(n & ? & ?)]; [by left|right]. exists n.
      split; [done|]. apply elem_of_app. by left. }
    destruct d as [n|n]; injection E as <-.
    + apply elem_of_union in Hp as [Hp|Hp]; [|by apply Hold]. apply elem_of_singleton in Hp. right. exists n.
      split; [done|]. apply elem_of_app. right. by apply list_elem_of_singleton.
    + apply elem_of_difference in Hp as [Hp _]. by apply Hold.
Qed.

(** ** A listing at work *)

Module ListingSys.
Section Sys.
Context `{SetOrder}.

(** The listing [self], a group of it being the latest of its track, its objects
    all the names at some time and the changes since. *)
Definition shows (self : ListingWriter.t) (w : World) : Prop :=
  match ListingWriter.subgroup self with
  | None => ListingWriter.current self = ∅
  | Some g => exists groups rd, ListingWriter.subgroups self = Some groups /\
      SubgroupsState.latest (lock (cell_of (SubgroupsWriter.state groups) (tops w))) = Some rd /\
      loc (SubgroupReader.state rd) = loc (SubgroupWriter.state g) /\ allocated w (SubgroupWriter.state g) /\
      exists s ds, payloads w (SubgroupWriter.state g) = published s ds /\
        apply_all ds s = ListingWriter.current self
  end.

(** Others hold no writer of this listing: they do not change what its track's,
    its group's and its objects' cells hold, and otherwise do what they like. *)
Definition env (self : ListingWriter.t) (w w' : World) : Prop :=
  match ListingWriter.subgroups self, ListingWriter.subgroup self with
  | Some groups, Some g =>
      stays (cell_of (SubgroupsWriter.state groups) (tops w)) (cell_of (SubgroupsWriter.state groups) (tops w')) /\
      stays (cell_of (SubgroupWriter.state g) (Groups.groups w)) (cell_of (SubgroupWriter.state g) (Groups.groups w')) /\
      Forall (fun o => stays (cell_of (SubgroupObjectReader.state o) (Groups.objects w))
                             (cell_of (SubgroupObjectReader.state o) (Groups.objects w'))) (listed w (SubgroupWriter.state g)) /\
      (next_cell (Groups.groups w) <= next_cell (Groups.groups w'))%nat /\
      (next_cell (Groups.objects w) <= next_cell (Groups.objects w'))%nat
  | _, _ => True
  end.

Record t := mk { listing : ListingWriter.t; store : Store.t }.

(** The operations that succeed, and the others. *)
Inductive step : t -> t -> Prop :=
  | do_insert s name l x :
      ListingWriter.insert name (listing s, store s) = (Ok tt, (l, x)) -> step s (mk l x)
  | do_remove s name l x :
      ListingWriter.remove name (listing s, store s) = (Ok tt, (l, x)) -> step s (mk l x)
  | do_env s x : env (listing s) (Store.subgroups (store s)) (Store.subgroups x) -> step s (mk (listing s) x).

Definition start (track : TrackWriter.t) (x : Store.t) : t := mk (ListingWriter.new track) x.

Definition inv (s : t) : Prop := shows (listing s) (Store.subgroups (store s)).

(** *** Publishing *)

Lemma snapshot_spec self x :
  match ListingWriter.snapshot (self, x) with
  | (Ok g, (self', x')) => exists groups rd,
      ListingWriter.subgroups self' = Some groups /\ ListingWriter.subgroup self' = ListingWriter.subgroup self /\
      ListingWriter.current self' = ListingWriter.current self /\
      SubgroupsState.latest (lock (cell_of (SubgroupsWriter.state groups) (tops (Store.subgroups x')))) = Some rd /\
      loc (SubgroupReader.state rd) = loc (SubgroupWriter.state g) /\
      allocated (Store.subgroups x') (SubgroupWriter.state g) /\
      payloads (Store.subgroups x') (SubgroupWriter.state g) = [ListingWriter.snapshot_bytes (ListingWriter.current self)]
  | _ => True
  end.
Proof.
  unfold ListingWriter.snapshot, bind.
  assert (Ht : forall r s1 x1, ListingWriter.take_subgroups (self, x) = (r, (s1, x1)) ->
    ListingWriter.subgroup s1 = ListingWriter.subgroup self /\ ListingWriter.current s1 = ListingWriter.current self).
  { unfold ListingWriter.take_subgroups. intros r s1 x1. destruct (ListingWriter.subgroups self); [by intros; simplify_eq|].
    destruct (ListingWriter.track self); [|by intros; simplify_eq]. destruct (TrackWrite.groups _ _). by intros; simplify_eq. }
  destruct (ListingWriter.take_subgroups (self, x)) as [[groups|e|] [s1 x1]]; [|done|done].
  destruct (Ht _ _ _ eq_refl) as [Hg Hc].
  pose proof (append_latest (bn 127) groups (Store.subgroups x1)) as Ha.
  destruct (SubgroupsWriter.append _ _) as [[g|e|] [groups' w]]; [|done|done]. cbv zeta in Ha.
  pose proof (write_payload (ListingWriter.snapshot_bytes (ListingWriter.current s1)) g w) as Hw.
  destruct (SubgroupWriter.write _ _) as [r [g' w']] eqn:Ew. cbv zeta in Hw.
  destruct Ha as [(rd & Hl & Hloc & Hs & Hal & Hp)|Hbad].
  2: { specialize (Hbad (ListingWriter.snapshot_bytes (ListingWriter.current s1))). rewrite Ew in Hbad. cbn in Hbad. by rewrite Hbad. }
  destruct (dropped _); [|by rewrite Hw]. destruct Hw as (-> & Hst & Htop & Hpay).
  destruct (Hpay Hal) as [Hpay1 Hpay2]. exists groups', rd.
  split; [done|]. split; [exact Hg|]. split; [exact Hc|]. cbn [Store.subgroups Store.with_subgroups].
  rewrite Htop, Hs, Hst. split; [exact Hl|]. split; [exact Hloc|]. split; [exact Hpay2|].
  by rewrite Hpay1, Hp, Hc.
Qed.

Lemma renew_shows self x l x' :
  ListingWriter.renew (self, x) = (Ok tt, (l, x')) -> shows l (Store.subgroups x') /\
  ListingWriter.current l = ListingWriter.current self.
Proof.
  unfold ListingWriter.renew, bind. pose proof (snapshot_spec self x) as Hs.
  destruct (ListingWriter.snapshot (self, x)) as [[g|e|] [s1 x1]]; [|done|done].
  destruct Hs as (groups & rd & Hg & Hold & Hc & Hl & Hloc & Hal & Hp). intros [= <- <-].
  split; [|exact Hc]. unfold shows. cbn [ListingWriter.subgroup ListingWriter.subgroups ListingWriter.current ListingWriter.with_subgroup].
  exists groups, rd. split; [exact Hg|].
  assert (Hr : exists s ds, [ListingWriter.snapshot_bytes (ListingWriter.current self)] = published s ds /\
    apply_all ds s = ListingWriter.current s1) by (by exists (ListingWriter.current self), []).
  destruct (ListingWriter.subgroup s1) as [old|]; [|by rewrite Hp].
  cbn [Store.subgroups Store.with_subgroups]. unfold SubgroupWriter.drop.
  destruct (drop_group_payloads (SubgroupWriter.state old) _ _ Hal) as [E1 E2].
  rewrite drop_group_handle_tops, E1, Hp. done.
Qed.

Lemma publish_shows d self old x l x' :
  ListingWriter.subgroup old = ListingWriter.subgroup self ->
  ListingWriter.subgroups old = ListingWriter.subgroups self -> shows old (Store.subgroups x) ->
  apply d (ListingWriter.current old) = ListingWriter.current self ->
  ListingWriter.publish (encode d) (self, x) = (Ok tt, (l, x')) ->
  shows l (Store.subgroups x') /\ ListingWriter.current l = ListingWriter.current self.
Proof.
  intros Hg Hgs Hs Hm. unfold ListingWriter.publish.
  destruct (ListingWriter.subgroup self) as [g|] eqn:Hsub; [|by apply renew_shows].
  destruct (_ <? _); [|by apply renew_shows].
  unfold shows in Hs. rewrite Hg in Hs. destruct Hs as (groups & rd & Hgr & Hl & Hloc & Hal & Hr).
  destruct Hr as (s & ds & Hp & Hc).
  pose proof (write_payload (encode d) g (Store.subgroups x)) as Hw.
  destruct (SubgroupWriter.write (encode d) _) as [r [g' w']]. cbv zeta in Hw. intros E.
  destruct (dropped _); [|by rewrite Hw in E]. destruct Hw as (-> & Hst & Htop & Hpay).
  destruct (Hpay Hal) as [Hp1 Hp2]. injection E as <- <-. split; [|done].
  unfold shows. cbn [ListingWriter.subgroup ListingWriter.subgroups ListingWriter.current ListingWriter.with_subgroup
    Store.subgroups Store.with_subgroups].
  exists groups, rd. rewrite <- Hgs. split; [exact Hgr|]. rewrite Htop, Hst. split; [exact Hl|]. split; [exact Hloc|].
  split; [exact Hp2|]. exists s, (ds ++ [d]). rewrite Hp1, Hp. unfold published. rewrite fmap_app. split; [done|].
  by rewrite apply_all_app, Hc.
Qed.

Lemma env_shows self w w' : env self w w' -> shows self w -> shows self w'.
Proof.
  unfold env, shows. destruct (ListingWriter.subgroup self) as [g|]; [|done].
  destruct (ListingWriter.subgroups self) as [groups|]; [|intros _ (? & ? & ? & _); done].
  intros (Ht & Hg & Ho & Hn1 & Hn2) (gs & rd & [= <-] & Hl & Hloc & [Ha1 Ha2] & Hr). exists groups, rd.
  split; [done|]. split; [by rewrite (proj1 Ht)|]. split; [done|]. split.
  - split; [lia|]. unfold listed. rewrite (proj1 Hg). eapply Forall_impl; [exact Ha2|].
    intros o Hlt. cbv beta in *. lia.
  - by rewrite (payloads_stay _ _ _ Hg Ho).
Qed.

Lemma listing_step_inv s s' : step s s' -> inv s -> inv s'.
Proof.
  destruct 1 as [s name l x E|s name l x E|s x E]; intros Hs.
  - unfold ListingWriter.insert in E. destruct (decide (name ∈ ListingWriter.current (listing s))) as [Hin|Hnin]; [done|].
    by apply (publish_shows (ListingDelta.Add name) _ (listing s) (store s) l x) in E as [H1 _].
  - unfold ListingWriter.remove in E. destruct (decide (name ∈ ListingWriter.current (listing s))) as [Hin|Hnin]; [|done].
    by apply (publish_shows (ListingDelta.Rem name) _ (listing s) (store s) l x) in E as [H1 _].
  - by eapply env_shows.
Qed.

Lemma listing_reach_inv track x s : rtc step (start track x) s -> inv s.
Proof. revert s. apply rtc_ind_r; [done|]. intros y z _ Hs Hi. by eapply listing_step_inv. Qed.

(** C31 (refinement). What a listing publishes is its set of names. After any
    sequence of names added and removed with success, in between which others read,
    clone and drop and do whatever they like elsewhere: the latest group of the
    track is the listing's, its first object is a set of names, a newline after
    each, and the others are changes, which lead in their order from those names to
    the current ones. Replaying the objects by lines
    gives exactly the current names if those of the first object have no newline in
    them. Nothing in the code makes sure of that, and a name with a newline that is
    in the first object is never read back: then the replay is not the current
    names. A name that is there is refused as Duplicate, one that is not cannot be
    removed (NotFound), and neither changes anything. *)
Theorem listing_published (track : TrackWriter.t) (x : Store.t) (s : t) :
  rtc step (start track x) s ->
  match ListingWriter.subgroup (listing s) with
  | None => ListingWriter.current (listing s) = ∅
  | Some _ => exists groups rd first ds, ListingWriter.subgroups (listing s) = Some groups /\
      SubgroupsState.latest (lock (cell_of (SubgroupsWriter.state groups) (tops (Store.subgroups (store s))))) = Some rd /\
      let objects := payloads (Store.subgroups (store s)) (SubgroupReader.state rd) in
      objects = published first ds /\ apply_all ds first = ListingWriter.current (listing s) /\
      ((forall n, n ∈ first -> newline ∉ as_bytes n) ->
        replay objects = Some (names (ListingWriter.current (listing s)))) /\
      (forall n, n ∈ ListingWriter.current (listing s) -> newline ∈ as_bytes n -> ListingDelta.Add n ∉ ds ->
        replay objects <> Some (names (ListingWriter.current (listing s))))
  end /\
  forall name p, p = (listing s, store s) ->
    if decide (name ∈ ListingWriter.current (listing s))
    then ListingWriter.insert name p = (Err ServeErr.Duplicate, p)
    else ListingWriter.remove name p = (Err ServeErr.NotFound, p).
Proof.
  intros Hr. pose proof (listing_reach_inv _ _ _ Hr) as Hs. split.
  - unfold inv, shows in Hs. destruct (ListingWriter.subgroup (listing s)) as [g|]; [|done].
    destruct Hs as (groups & rd & Hg & Hl & Hloc & _ & first & ds & Hp & Hc). exists groups, rd, first, ds.
    split; [done|]. split; [done|]. unfold payloads, listed in *. rewrite (cell_of_loc _ _ _ Hloc), Hp.
    split; [done|]. split; [done|]. rewrite <- Hc. split; [by apply replay_published|].
    intros n Hn Hnl Hadd E. apply (replay_members _ _ _ (as_bytes n)) in E; [|by apply elem_of_map; exists n].
    destruct E as [?|(m & Hm & Hin)]; [done|]. apply as_bytes_inj in Hm as ->. done.
  - intros name p ->. unfold ListingWriter.insert, ListingWriter.remove. by case_decide.
Qed.
End Sys.
End ListingSys.

(** ** Reading a listing *)

Section Reader.
Context `{SetOrder}.

Lemma apply_adds l s : apply_all (ListingDelta.Add <$> l) s = list_to_set l ∪ s.
Proof.
  revert s. induction l as [|n l IH]; intros s; cbn; [by rewrite union_empty_l_L|].
  unfold apply_all in IH. rewrite IH. cbn. apply set_eq. intros m. set_unfold. tauto.
Qed.

Lemma apply_rems l s : apply_all (ListingDelta.Rem <$> l) s = s ∖ list_to_set l.
Proof.
  revert s. induction l as [|n l IH]; intros s; cbn; [by rewrite difference_empty_L|].
  unfold apply_all in IH. rewrite IH. cbn. apply set_eq. intros m. set_unfold. tauto.
Qed.

Lemma elem_of_differences n set other : n ∈ ListingReader.difference set other <-> n ∈ set /\ n ∉ other.
Proof.
  unfold ListingReader.difference. rewrite list_elem_of_filter, (set_iter_perm set), elem_of_elements. tauto.
Qed.

(** The differences lead from one set to the other. *)
Lemma apply_differences (old new : gset String) :
  apply_all ((ListingDelta.Add <$> ListingReader.difference new old) ++
             (ListingDelta.Rem <$> ListingReader.difference old new)) old = new.
Proof.
  unfold apply_all. rewrite foldl_app. fold (apply_all (ListingDelta.Add <$> ListingReader.difference new old) old).
  rewrite apply_adds. fold (apply_all (ListingDelta.Rem <$> ListingReader.difference old new)
    (list_to_set (ListingReader.difference new old) ∪ old)). rewrite apply_rems.
  apply set_eq. intros n. rewrite elem_of_difference, elem_of_union, !elem_of_list_to_set, !elem_of_differences.
  destruct (decide (n ∈ old)), (decide (n ∈ new)); tauto.
Qed.

(** What a reader makes of the objects of one group, told in full: each payload in
    turn, every change that is queued taken before the next. *)
Definition take_deltas (first : option ListingDelta.t) (self : ListingReader.t) : list ListingDelta.t :=
  match first with Some d => d :: ListingReader.deltas self | None => [] end.

Fixpoint follow (l : list (list byte)) (pos : N) (self : ListingReader.t) :
    outcome ListingReader.error (list ListingDelta.t) * ListingReader.t :=
  match l with
  | [] => (Ok [], self)
  | payload :: l =>
      match ListingReader.receive payload pos self with
      | (Ok first, self) =>
          let ds := take_deltas first self in
          let '(r, self) := follow l (pos + 1) (ListingReader.with_deltas [] self) in
          (match r with Ok ds' => Ok (ds ++ ds') | Err e => Err e | Panic => Panic end, self)
      | (Err e, self) => (Err e, self)
      | (Panic, self) => (Panic, self)
      end
  end.

Lemma split_lines ps : Forall (fun p => newline ∉ p) ps ->
  split_on newline (concat ((fun p => p ++ [newline]) <$> ps)) = ps ++ [[]].
Proof.
  induction 1 as [|p ps Hp _ IH]; [done|]. cbn. rewrite <- app_assoc. cbn. by rewrite split_on_line, IH.
Qed.

(** An object of names on lines is read as the names, and an empty one. *)
Lemma snapshot_read s : (forall n, n ∈ s -> newline ∉ as_bytes n) ->
  list_to_set (lossy <$> split_on newline (ListingWriter.snapshot_bytes s)) = ({[empty]} ∪ s : gset String).
Proof.
  intros Hs. unfold ListingWriter.snapshot_bytes.
  replace ((fun name => as_bytes name ++ [newline]) <$> set_iter s)
    with ((fun p => p ++ [newline]) <$> (as_bytes <$> set_iter s)) by (by rewrite <- list_fmap_compose).
  rewrite split_lines.
  - rewrite fmap_app, list_to_set_app_L, <- list_fmap_compose.
    replace ((lossy ∘ as_bytes) <$> set_iter s) with (set_iter s).
    2: { symmetry. rewrite <- (list_fmap_id (set_iter s)) at 2. apply list_fmap_ext. intros i n _. apply lossy_string. }
    apply set_eq. intros n. rewrite !elem_of_union, !elem_of_list_to_set, (set_iter_perm s), elem_of_elements. cbn.
    rewrite list_elem_of_singleton, elem_of_singleton. replace (lossy []) with empty by (by apply String_eq). tauto.
  - apply Forall_forall. intros p Hp. apply list_elem_of_fmap in Hp as (n & -> & Hn). apply Hs.
    rewrite (set_iter_perm s) in Hn. by apply elem_of_elements.
Qed.

Lemma snapshot_ne s : s <> ∅ -> exists b l, ListingWriter.snapshot_bytes s = b :: l.
Proof.
  intros Hs. unfold ListingWriter.snapshot_bytes. pose proof (set_iter_perm s) as Hp.
  destruct (set_iter s) as [|n l].
  - symmetry in Hp. apply Permutation_nil_r, elements_empty_inv in Hp. by apply leibniz_equiv in Hp.
  - cbn. destruct (as_bytes n); cbn; eauto.
Qed.

(** *** A payload at a time *)

Lemma receive_snapshot s self : s <> ∅ -> (forall n, n ∈ s -> newline ∉ as_bytes n) ->
  ListingReader.deltas self = [] ->
  exists first self', ListingReader.receive (ListingWriter.snapshot_bytes s) 1 self = (Ok first, self') /\
    apply_all (take_deltas first self') (ListingReader.current self) = {[empty]} ∪ s /\
    ListingReader.current self' = {[empty]} ∪ s.
Proof.
  intros Hne Hs Hd. destruct (snapshot_ne _ Hne) as (b & l & E). unfold ListingReader.receive.
  pose proof (snapshot_read _ Hs) as Hr. rewrite E in *. cbn [N.eqb Pos.eqb]. rewrite Hr, Hd. cbn [app].
  pose proof (apply_differences (ListingReader.current self) ({[empty]} ∪ s)) as Ha.
  destruct (_ ++ _) as [|d ds]; cbn [take_deltas]; eexists _, _; (split; [done|]); split; [exact Ha|done|exact Ha|done].
Qed.

Lemma receive_delta d pos self : pos <> 1 ->
  ListingReader.receive (encode d) pos self = (Ok (Some d), self).
Proof. intros Hp. apply N.eqb_neq in Hp. destruct d as [n|n]; cbn; by rewrite Hp, lossy_string. Qed.

Lemma follow_deltas ds : forall pos self, 1 < pos -> ListingReader.deltas self = [] ->
  follow (encode <$> ds) pos self = (Ok ds, self).
Proof.
  induction ds as [|d ds IH]; intros pos self Hp Hd; [done|]. cbn [fmap list_fmap follow].
  rewrite receive_delta by lia. cbn [take_deltas]. rewrite Hd.
  replace (ListingReader.with_deltas [] self) with self by (destruct self; cbn in *; by subst).
  by rewrite IH by (done || lia).
Qed.

(** C33 (functional). A reader follows a group. Of any group a listing publishes (an
    object of all names, one line each, then any changes), with a reader whose
    [current] is the set its user has, the changes that [next] returns lead the
    user from that set to what the group says: the names of the first object with
    the changes applied, plus one name that is not there: the empty one, for the
    newline that ends every line. The reader's own [current] stays at the first object. *)
Theorem reader_follows (s : gset String) (ds : list ListingDelta.t) (self : ListingReader.t) :
  s <> ∅ -> (forall n, n ∈ s -> newline ∉ as_bytes n) -> ListingReader.deltas self = [] ->
  exists out self', follow (ListingWriter.snapshot_bytes s :: (encode <$> ds)) 1 self = (Ok out, self') /\
    apply_all out (ListingReader.current self) = apply_all ds ({[empty]} ∪ s) /\
    ListingReader.current self' = {[empty]} ∪ s.
Proof.
  intros Hne Hs Hd. destruct (receive_snapshot s self Hne Hs Hd) as (first & self' & E & Ha & Hc).
  cbn [follow]. rewrite E, follow_deltas by done. eexists _, _. split; [done|].
  by rewrite apply_all_app, Ha.
Qed.

(** What a reader does with an object it does not expect: an empty one
    and one that is not the group's first and starts with neither sign are errors,
    and change nothing; one with a sign is handed on with the invalid parts of its
    name replaced, and is not entered into [current]; none makes it panic. *)
Theorem receive_branches (payload : list byte) (pos : N) (self : ListingReader.t) :
  match payload with
  | [] => ListingReader.receive payload pos self = (Err ListingReader.EmptyPayload, self)
  | b :: name =>
      if pos =? 1 then exists d self', ListingReader.receive payload pos self = (Ok d, self')
      else if decide (b = plus) then ListingReader.receive payload pos self = (Ok (Some (ListingDelta.Add (lossy name))), self)
      else if decide (b = minus) then ListingReader.receive payload pos self = (Ok (Some (ListingDelta.Rem (lossy name))), self)
      else ListingReader.receive payload pos self = (Err ListingReader.InvalidDelta, self)
  end.
Proof.
  destruct payload as [|b name]; [done|]. cbn [ListingReader.receive].
  destruct (pos =? 1); [|by repeat case_decide]. destruct (_ ++ _); eauto.
Qed.

(** After one group [current] is behind its user, and the next one is compared with
    it: a name that was removed in between and comes back with a new group is not
    announced again. *)
Lemma change_lost (s : gset String) a : s <> ∅ -> (forall n, n ∈ s -> newline ∉ as_bytes n) ->
  forall track out self', follow [ListingWriter.snapshot_bytes s; encode (ListingDelta.Rem a)] 1 (ListingReader.new track) = (Ok out, self') ->
  follow [ListingWriter.snapshot_bytes s] 1 self' = (Ok [], self').
Proof.
  intros Hne Hs track out self'.
  destruct (receive_snapshot s (ListingReader.new track) Hne Hs eq_refl) as (first & self1 & E & _ & Hc).
  cbn [follow]. rewrite E, receive_delta by done. intros [= <- <-].
  destruct (snapshot_ne _ Hne) as (b & l & Eb). unfold ListingReader.receive at 1.
  pose proof (snapshot_read _ Hs) as Hr. rewrite Eb in *. cbn [N.eqb Pos.eqb]. rewrite Hr.
  cbn [ListingReader.with_deltas ListingReader.deltas ListingReader.current]. rewrite Hc.
  assert (Hd : ListingReader.difference ({[empty]} ∪ s) ({[empty]} ∪ s) = []).
  { apply elem_of_nil_inv. intros n Hn. apply elem_of_differences in Hn. tauto. }
  rewrite Hd. by rewrite <- Hc.
Qed.
End Reader.

(** ** Cutting a path *)

Lemma rfind_spec b l :
  match rfind b l with
  | Some i => exists p q, l = p ++ b :: q /\ length p = i /\ b ∉ q
  | None => b ∉ l
  end.
Proof.
  induction l as [|c l IH]; cbn; [by apply not_elem_of_nil|]. destruct (rfind b l) as [i|].
  - destruct IH as (p & q & -> & <- & Hq). by exists (c :: p), q.
  - destruct (decide (c = b)) as [->|Hne]; [by exists [], l|]. by apply not_elem_of_cons.
Qed.

(** A valid string is valid on both sides of an ASCII byte. *)
Lemma utf8_run_ascii sep e p q :
  nb sep < 128 -> Forall (fun r => 128 <= r.1) e -> utf8_run e (p ++ sep :: q) = true ->
  utf8_run e (p ++ [sep]) = true /\ utf8_valid q = true.
Proof.
  intros Hsep. assert (Hsl : utf8_lead sep = Some []).
  { unfold utf8_lead. by destruct (N.ltb_spec (nb sep) 128); [|lia]. }
  revert e. induction p as [|b p IH]; intros [|r e] He H; cbn in *.
  - rewrite Hsl in *. by split.
  - exfalso. apply andb_prop in H as [H _]. unfold in_range in H. apply Forall_cons in He as [Hr _].
    apply andb_prop in H as [H _]. apply N.leb_le in H. lia.
  - destruct (utf8_lead b) as [e|] eqn:Hl; [|done]. by apply IH; [eapply utf8_lead_high|].
  - apply andb_prop in H as [-> H]. apply Forall_cons in He as [_ He]. by apply IH.
Qed.

(** [Listings::prefix] never panics and cuts a path in two: nothing
    is lost, the second part has no dot, and the first is empty or ends in one. *)
Theorem prefix_cuts (path : String) : exists p b,
  Listings.prefix path = Ok (p, b) /\ as_bytes path = as_bytes p ++ as_bytes b /\
  (dot ∉ as_bytes b) /\ (p = empty \/ last (as_bytes p) = Some dot).
Proof.
  unfold Listings.prefix. pose proof (rfind_spec dot (as_bytes path)) as Hr.
  destruct (rfind dot (as_bytes path)) as [i|]; [|exists empty, path; cbn; auto].
  destruct Hr as (p & q & E & <- & Hq). pose proof (utf8_ok path) as Hv. rewrite E in Hv.
  destruct (utf8_run_ascii dot [] p q ltac:(done) ltac:(done) Hv) as [Hp Hv2].
  unfold slice_to, slice_from. rewrite E.
  replace (take (length p + 1) (p ++ dot :: q)) with (as_bytes (mk_String _ Hp)).
  2: { cbn [as_bytes]. rewrite take_app_add. done. }
  replace (skipn (length p + 1) (p ++ dot :: q)) with (as_bytes (mk_String _ Hv2)).
  2: { cbn [as_bytes]. rewrite drop_app_add. done. }
  rewrite !from_utf8_as_bytes. eexists _, _. split; [done|]. cbn [as_bytes].
  rewrite <- app_assoc. split; [done|]. split; [done|]. right. by rewrite last_snoc.
Qed.

(** ** How a listing chooses between a change and a new group *)

Module ListingChoice.
Import ListingSys.
Section Choice.
Context `{SetOrder}.

(** The number of objects a listing's group has. *)
Definition objects_of (s : ListingSys.t) : N :=
  match ListingWriter.subgroup (listing s) with
  | Some g => SubgroupWriter.len g (Store.subgroups (store s))
  | None => 0
  end.

Lemma len_payloads g (w : World) : SubgroupWriter.len g w = lenN (payloads w (SubgroupWriter.state g)).
Proof. unfold SubgroupWriter.len, payloads, lenN. by rewrite length_fmap. Qed.

(** Less than twice as many names, the one to come included, as objects. *)
Definition settled (s : ListingSys.t) : Prop :=
  ListingWriter.len (listing s) + 1 < 2 * objects_of s.

Lemma publish_settled msg self old x l x' g :
  ListingWriter.subgroup self = Some g -> ListingWriter.subgroup old = Some g ->
  shows old (Store.subgroups x) ->
  ListingWriter.len self < 2 * SubgroupWriter.len g (Store.subgroups x) ->
  SubgroupWriter.len g (Store.subgroups x) < 2 ^ 63 ->
  ListingWriter.publish msg (self, x) = (Ok tt, (l, x')) ->
  exists g', ListingWriter.subgroup l = Some g' /\ SubgroupWriter.state g' = SubgroupWriter.state g /\
    ListingWriter.current l = ListingWriter.current self /\
    payloads (Store.subgroups x') (SubgroupWriter.state g) = payloads (Store.subgroups x) (SubgroupWriter.state g) ++ [msg].
Proof.
  intros Hg Ho Hs Hlt Hb. unfold ListingWriter.publish. rewrite Hg, N.mod_small by lia.
  apply N.ltb_lt in Hlt. rewrite Hlt. unfold shows in Hs. rewrite Ho in Hs.
  destruct Hs as (groups & rd & _ & _ & _ & Hal & _).
  pose proof (write_payload msg g (Store.subgroups x)) as Hw.
  destruct (SubgroupWriter.write msg _) as [r [g' w']]. cbv zeta in Hw. intros E.
  destruct (dropped _); [|by rewrite Hw in E]. destruct Hw as (-> & Hst & _ & Hpay).
  injection E as <- <-. exists g'. split; [done|]. split; [done|]. split; [done|]. by apply Hpay.
Qed.

Lemma len_insert name self : name ∉ ListingWriter.current self ->
  ListingWriter.len (ListingWriter.with_current ({[name]} ∪ ListingWriter.current self) self) = ListingWriter.len self + 1.
Proof.
  intros Hn. unfold ListingWriter.len. cbn [ListingWriter.current ListingWriter.with_current].
  rewrite size_union by (intros m Hm; apply elem_of_singleton in Hm as ->; done). rewrite size_singleton. lia.
Qed.

Lemma len_removed name self : name ∈ ListingWriter.current self ->
  ListingWriter.len (ListingWriter.with_current (ListingWriter.current self ∖ {[name]}) self) + 1 = ListingWriter.len self.
Proof.
  intros Hn. unfold ListingWriter.len. cbn [ListingWriter.current ListingWriter.with_current].
  assert (Hs : {[name]} ⊆ ListingWriter.current self) by (intros m Hm; by apply elem_of_singleton in Hm as ->).
  pose proof (size_difference _ _ Hs) as Hd. rewrite size_singleton in Hd.
  pose proof (subseteq_size _ _ Hs) as Hle. rewrite size_singleton in Hle. lia.
Qed.

Lemma len_remove name self :
  ListingWriter.len (ListingWriter.with_current (ListingWriter.current self ∖ {[name]}) self) <= ListingWriter.len self.
Proof.
  unfold ListingWriter.len. cbn [ListingWriter.current ListingWriter.with_current].
  assert (size (ListingWriter.current self ∖ {[name]}) <= size (ListingWriter.current self))%nat; [|lia].
  apply subseteq_size, subseteq_difference_l. done.
Qed.

Lemma settled_step s s' g :
  inv s -> step s s' -> settled s -> ListingWriter.subgroup (listing s) = Some g -> objects_of s < 2 ^ 63 ->
  exists g', ListingWriter.subgroup (listing s') = Some g' /\ SubgroupWriter.state g' = SubgroupWriter.state g /\
    settled s' /\ objects_of s' <= objects_of s + 1 /\
    payloads (Store.subgroups (store s)) (SubgroupWriter.state g) `prefix_of`
    payloads (Store.subgroups (store s')) (SubgroupWriter.state g).
Proof.
  intros Hs Hst Hse Hg Hb. assert (Ho : objects_of s = SubgroupWriter.len g (Store.subgroups (store s)))
    by (unfold objects_of; by rewrite Hg).
  unfold settled in Hse. rewrite Ho in *.
  assert (Hpub : forall msg self l x, ListingWriter.subgroup self = Some g ->
    ListingWriter.len self <= ListingWriter.len (listing s) + 1 ->
    ListingWriter.publish msg (self, store s) = (Ok tt, (l, x)) ->
    exists g', ListingWriter.subgroup l = Some g' /\ SubgroupWriter.state g' = SubgroupWriter.state g /\
      settled (mk l x) /\ objects_of (mk l x) <= SubgroupWriter.len g (Store.subgroups (store s)) + 1 /\
      payloads (Store.subgroups (store s)) (SubgroupWriter.state g) `prefix_of` payloads (Store.subgroups x) (SubgroupWriter.state g)).
  { intros msg self l x Hsub Hlen E.
    destruct (publish_settled msg self (listing s) (store s) l x g) as (g' & H1 & H2 & H3 & H4); try done; [lia|].
    exists g'. split; [done|]. split; [done|]. unfold settled, objects_of. cbn [listing store]. rewrite H1.
    rewrite !len_payloads, H2, H4 in *. unfold lenN in *. rewrite length_app in *.
    cbn [length] in *. unfold ListingWriter.len in *. rewrite H3. split; [lia|]. split; [lia|]. by eexists. }
  destruct Hst as [s name l x E|s name l x E|s x E]; cbn [listing store].
  - unfold ListingWriter.insert in E. destruct (decide _) as [?|Hn]; [done|].
    refine (Hpub _ (ListingWriter.with_current _ _) _ _ Hg _ E). by rewrite len_insert.
  - unfold ListingWriter.remove in E. destruct (decide _) as [Hn|?]; [|done].
    refine (Hpub _ (ListingWriter.with_current _ _) _ _ Hg _ E). pose proof (len_remove name (listing s)). lia.
  - unfold inv, shows in Hs. rewrite Hg in Hs. destruct Hs as (groups & rd & Hgr & _).
    unfold env in E. rewrite Hg, Hgr in E. destruct E as (_ & Hcg & Hco & _).
    exists g. unfold settled, objects_of. cbn [listing store]. rewrite Hg, !len_payloads in *. rewrite (payloads_stay _ _ _ Hcg Hco). repeat split; try done; lia.
Qed.

Lemma settled_steps k s s' g :
  inv s -> nsteps step k s s' -> settled s -> ListingWriter.subgroup (listing s) = Some g ->
  objects_of s + N.of_nat k < 2 ^ 63 ->
  exists g', ListingWriter.subgroup (listing s') = Some g' /\ SubgroupWriter.state g' = SubgroupWriter.state g /\
    payloads (Store.subgroups (store s)) (SubgroupWriter.state g) `prefix_of`
    payloads (Store.subgroups (store s')) (SubgroupWriter.state g).
Proof.
  intros Hi Hn. revert g Hi. induction Hn as [s|k s s1 s' Hst _ IH]; intros g Hi Hse Hg Hb; [by exists g|].
  destruct (settled_step s s1 g) as (g1 & H1 & H2 & H3 & H4 & H5); try done; [lia|].
  destruct (IH g1) as (g' & H6 & H7 & H8); try done; [by eapply listing_step_inv|lia|].
  exists g'. split; [done|]. rewrite <- H2 in *. split; [congruence|]. by etransitivity.
Qed.

(** C34 (bounds). A listing that has begun to send changes never starts a new group.
    Once a listing has, the next one included, fewer than twice as many names as its
    group has objects, every change that succeeds, in any sequence of changes and
    whatever others do in between, is one more object of that same group: it only
    grows (up to 2^63 objects, where the comparison wraps). And as long as a group
    has its first object alone and the change leaves two names or more, neither an
    insertion nor a removal is sent as one: the whole set is sent again as a new
    group. *)
Theorem listing_never_renews (track : TrackWriter.t) (x : Store.t) (s s' : ListingSys.t) (k : nat) g :
  rtc step (start track x) s -> nsteps step k s s' -> ListingWriter.subgroup (listing s) = Some g ->
  let n := SubgroupWriter.len g (Store.subgroups (store s)) in
  (ListingWriter.len (listing s) + 1 < 2 * n -> n + N.of_nat k < 2 ^ 63 ->
   exists g', ListingWriter.subgroup (listing s') = Some g' /\ SubgroupWriter.state g' = SubgroupWriter.state g /\
     payloads (Store.subgroups (store s)) (SubgroupWriter.state g) `prefix_of`
     payloads (Store.subgroups (store s')) (SubgroupWriter.state g)) /\
  (n = 1 -> forall name, name ∉ ListingWriter.current (listing s) -> 1 <= ListingWriter.len (listing s) ->
   ListingWriter.insert name (listing s, store s) =
     ListingWriter.renew (ListingWriter.with_current ({[name]} ∪ ListingWriter.current (listing s)) (listing s), store s)) /\
  (n = 1 -> forall name, name ∈ ListingWriter.current (listing s) -> 3 <= ListingWriter.len (listing s) ->
   ListingWriter.remove name (listing s, store s) =
     ListingWriter.renew (ListingWriter.with_current (ListingWriter.current (listing s) ∖ {[name]}) (listing s), store s)).
Proof.
  intros Hr Hn Hg n. pose proof (listing_reach_inv _ _ _ Hr) as Hi. split; [|split].
  - intros H1 H2. eapply settled_steps; try done; unfold settled, objects_of; by rewrite Hg.
  - intros E name Hni Hlen. unfold ListingWriter.insert, ListingWriter.publish. rewrite decide_False by done.
    rewrite len_insert by done. cbn [ListingWriter.subgroup ListingWriter.with_current]. rewrite Hg. fold n. rewrite E.
    change ((2 * 1) mod 2 ^ 64) with 2. destruct (N.ltb_spec (ListingWriter.len (listing s) + 1) 2); [lia|done].
  - intros E name Hni Hlen. unfold ListingWriter.remove, ListingWriter.publish. rewrite decide_True by done.
    pose proof (len_removed name (listing s) Hni) as Hrem.
    cbn [ListingWriter.subgroup ListingWriter.with_current]. rewrite Hg. fold n. rewrite E.
    change ((2 * 1) mod 2 ^ 64) with 2. destruct (N.ltb_spec (ListingWriter.len
      (ListingWriter.with_current (ListingWriter.current (listing s) ∖ {[name]}) (listing s))) 2); [lia|done].
Qed.
End Choice.
End ListingChoice.

(** ** Registrations *)

Module RegistrationSys.
Section Sys.
Context `{SetOrder}.

#[export] Instance Registration_eq_dec : EqDecision Registration.t.
Proof. solve_decision. Defined.

(** The listings, and the registrations that are held. *)
Record t := mk { listings : Listings.t; held : list Registration.t }.

(** What a call leaves, whatever happens to the cells the listings write to. A
    panic holds the mutex, so nothing follows it. *)
Inductive step : t -> t -> Prop :=
  | do_register s path x reg l x' :
      Listings.register path (listings s, x) = (Ok (Some reg), (l, x')) -> step s (mk l (held s ++ [reg]))
  | do_ignore s path x l x' :
      Listings.register path (listings s, x) = (Ok None, (l, x')) -> step s (mk l (held s))
  | do_fail s path x e l x' :
      Listings.register path (listings s, x) = (Err e, (l, x')) -> step s (mk l (held s))
  | do_drop s reg hs x r l x' : held s ≡ₚ reg :: hs ->
      Listings.remove (Registration.prefix reg) (Registration.base reg) (listings s, x) = (r, (l, x')) ->
      r <> Panic -> step s (mk l hs).

Definition start (l : Listings.t) : t := mk l [].

(** A name is listed under a prefix. *)
Definition listed_at (l : Listings.t) (prefix base : String) : Prop :=
  exists listing, Listings.active l !! prefix = Some listing /\ base ∈ ListingWriter.current listing.

Definition inv (s : t) : Prop :=
  NoDup (held s) /\
  forall reg, reg ∈ held s -> listed_at (listings s) (Registration.prefix reg) (Registration.base reg).

(** *** What an operation does to the names *)

Lemma take_subgroups_current self x :
  ListingWriter.current (fst (snd (ListingWriter.take_subgroups (self, x)))) = ListingWriter.current self.
Proof.
  unfold ListingWriter.take_subgroups. destruct (ListingWriter.subgroups self); [done|].
  destruct (ListingWriter.track self); [|done]. by destruct (TrackWrite.groups _ _).
Qed.

Lemma snapshot_current self x :
  ListingWriter.current (fst (snd (ListingWriter.snapshot (self, x)))) = ListingWriter.current self.
Proof.
  unfold ListingWriter.snapshot, bind. pose proof (take_subgroups_current self x) as Hc.
  destruct (ListingWriter.take_subgroups (self, x)) as [[groups|e|] [s1 x1]]; [|done|done]. cbn in Hc.
  destruct (SubgroupsWriter.append _ _) as [[g|e|] [groups' w]]; [|done|done].
  by destruct (SubgroupWriter.write _ _) as [[?|e|] [g' w']].
Qed.

Lemma publish_current msg self x :
  ListingWriter.current (fst (snd (ListingWriter.publish msg (self, x)))) = ListingWriter.current self.
Proof.
  assert (Hr : ListingWriter.current (fst (snd (ListingWriter.renew (self, x)))) = ListingWriter.current self).
  { unfold ListingWriter.renew, bind. pose proof (snapshot_current self x) as Hc.
    by destruct (ListingWriter.snapshot (self, x)) as [[g|e|] [s1 x1]]. }
  unfold ListingWriter.publish. destruct (ListingWriter.subgroup self) as [g|]; [|done].
  destruct (_ <? _); [|done]. by destruct (SubgroupWriter.write _ _) as [r [g' w']].
Qed.

Lemma insert_current name self x :
  let '(r, (self', _)) := ListingWriter.insert name (self, x) in
  ListingWriter.current self' = {[name]} ∪ ListingWriter.current self /\
  (r = Ok tt -> name ∉ ListingWriter.current self).
Proof.
  unfold ListingWriter.insert. destruct (decide _) as [Hn|Hn].
  - split; [|done]. apply set_eq. intros m. rewrite elem_of_union, elem_of_singleton. split; [by right|]. by intros [->|?].
  - pose proof (publish_current (plus :: as_bytes name)
      (ListingWriter.with_current ({[name]} ∪ ListingWriter.current self) self) x) as Hc.
    by destruct (ListingWriter.publish _ _) as [r [self' x']].
Qed.

Lemma remove_current name self x :
  let '(r, (self', _)) := ListingWriter.remove name (self, x) in
  ListingWriter.current self' = ListingWriter.current self ∖ {[name]}.
Proof.
  unfold ListingWriter.remove. destruct (decide _) as [Hn|Hn].
  - pose proof (publish_current (minus :: as_bytes name)
      (ListingWriter.with_current (ListingWriter.current self ∖ {[name]}) self) x) as Hc.
    by destruct (ListingWriter.publish _ _) as [r [self' x']].
  - apply set_eq. intros m. rewrite elem_of_difference, elem_of_singleton. split; [|by intros [? _]].
    intros Hm. split; [done|]. by intros ->.
Qed.

(** Registering lists one more name, if it succeeds a new one. *)
Lemma register_at_listed prefix base self x r l x' :
  Listings.register_at prefix base (self, x) = (r, (l, x')) -> r <> Panic ->
  (forall p b, listed_at self p b -> listed_at l p b) /\
  (forall reg, r = Ok (Some reg) -> reg = Registration.mk prefix base /\ ~ listed_at self prefix base /\
    listed_at l prefix base).
Proof.
  unfold Listings.register_at, listed_at. intros E Hr. destruct (Listings.active self !! prefix) as [listing|] eqn:Ha.
  - pose proof (insert_current base listing x) as Hi.
    destruct (ListingWriter.insert base (listing, x)) as [ri [listing' xi]]. destruct Hi as [Hc Hn].
    assert (Hl : l = Listings.with_active (<[prefix := listing']> (Listings.active self)) self)
      by (destruct ri; congruence). subst l. cbn [Listings.active Listings.with_active]. split.
    + intros p b (li & Hp & Hb). destruct (decide (p = prefix)) as [->|Hne].
      * exists listing'. rewrite lookup_insert_eq. split; [done|]. rewrite Hc. apply elem_of_union_r. congruence.
      * exists li. by rewrite lookup_insert_ne.
    + intros reg ->. destruct ri as [[]|?|]; simplify_eq. split; [done|]. split.
      * intros (li & Hp & Hb). apply (Hn eq_refl). congruence.
      * exists listing'. rewrite lookup_insert_eq, Hc. split; [done|]. by apply elem_of_union_l, elem_of_singleton.
  - destruct (TracksWriter.create _ _ _) as [[track|] x0]; [|by simplify_eq].
    pose proof (insert_current base (ListingWriter.new track) x0) as Hi.
    destruct (ListingWriter.insert base _) as [ri [listing' xi]]. destruct Hi as [Hc Hn].
    destruct ri as [[]|e|]; [|injection E as <- <- <-; split; [done|done]|congruence].
    injection E as <- <- <-. cbn [Listings.active Listings.with_active]. split.
    + intros p b (li & Hp & Hb). exists li. rewrite lookup_insert_ne by congruence. done.
    + intros reg [= <-]. split; [done|]. split; [intros (li & Hp & _); congruence|].
      exists listing'. rewrite lookup_insert_eq, Hc. split; [done|]. by apply elem_of_union_l, elem_of_singleton.
Qed.

Lemma register_listed path self x r l x' :
  Listings.register path (self, x) = (r, (l, x')) -> r <> Panic ->
  (forall p b, listed_at self p b -> listed_at l p b) /\
  (forall reg, r = Ok (Some reg) -> ~ listed_at self (Registration.prefix reg) (Registration.base reg) /\
    listed_at l (Registration.prefix reg) (Registration.base reg)).
Proof.
  unfold Listings.register. intros E Hr. destruct (Listings.prefix path) as [[p b]|?|]; [|congruence|congruence].
  destruct (starts_with _ p); [|by simplify_eq]. destruct (slice_from _ p) as [p'|?|]; [|congruence|congruence].
  destruct (register_at_listed _ _ _ _ _ _ _ E Hr) as [H1 H2]. split; [done|].
  intros reg Hreg. destruct (H2 _ Hreg) as (-> & H3 & H4). by split.
Qed.

(** Removing takes away that name only. *)
Lemma remove_listed prefix base self x r l x' :
  Listings.remove prefix base (self, x) = (r, (l, x')) ->
  forall p b, listed_at self p b -> (p, b) <> (prefix, base) -> listed_at l p b.
Proof.
  unfold Listings.remove, listed_at. intros E p b (li & Hp & Hb) Hne.
  destruct (Listings.active self !! prefix) as [listing|] eqn:Ha; [|injection E as <- <- <-; by exists li].
  pose proof (remove_current base listing x) as Hc.
  destruct (ListingWriter.remove base (listing, x)) as [ri [listing' xi]].
  assert (Hkeep : p = prefix -> b ∈ ListingWriter.current listing').
  { intros ->. rewrite Hc. apply elem_of_difference. split; [congruence|]. rewrite elem_of_singleton. congruence. }
  assert (Hin : exists li', <[prefix := listing']> (Listings.active self) !! p = Some li' /\ b ∈ ListingWriter.current li').
  { destruct (decide (p = prefix)) as [->|Hn].
    - exists listing'. rewrite lookup_insert_eq. split; [done|]. by apply Hkeep.
    - exists li. by rewrite lookup_insert_ne. }
  destruct ri as [[]|e|]; [|by injection E as <- <- <-|by injection E as <- <- <-].
  destruct (ListingWriter.is_empty listing') eqn:He; [|by injection E as <- <- <-].
  destruct (TracksWriter.remove _ _ _) as [tr xr]. injection E as <- <- <-.
  cbn [Listings.active Listings.with_active] in *.
  destruct (decide (p = prefix)) as [Hpp|Hn].
  - exfalso. specialize (Hkeep Hpp). unfold ListingWriter.is_empty, ListingWriter.len in He. apply N.eqb_eq in He.
    assert (Hz : size (ListingWriter.current listing') = 0%nat) by lia.
    apply size_empty_inv in Hz. by apply (Hz b), elem_of_empty in Hkeep.
  - exists li. rewrite lookup_delete_ne, lookup_insert_ne by done. by split.
Qed.

Lemma registration_step_inv s s' : step s s' -> inv s -> inv s'.
Proof.
  unfold inv. destruct 1 as [s path x reg l x' E|s path x l x' E|s path x e l x' E|s reg hs x r l x' Hp E Hr];
    cbn [held listings]; intros [Hn Hl].
  - destruct (register_listed _ _ _ _ _ _ E ltac:(done)) as [H1 H2]. destruct (H2 reg eq_refl) as [H3 H4]. split.
    + apply NoDup_app. split; [done|]. split; [|apply NoDup_singleton].
      intros reg' Hin Hs. apply list_elem_of_singleton in Hs as ->. by apply H3, Hl.
    + intros reg' Hin. apply elem_of_app in Hin as [Hin|Hin]; [by apply H1, Hl|].
      by apply list_elem_of_singleton in Hin as ->.
  - destruct (register_listed _ _ _ _ _ _ E ltac:(done)) as [H1 _]. split; [done|]. intros reg Hin. by apply H1, Hl.
  - destruct (register_listed _ _ _ _ _ _ E ltac:(done)) as [H1 _]. split; [done|]. intros reg Hin. by apply H1, Hl.
  - rewrite Hp in Hn. apply NoDup_cons in Hn as [Hnin Hn]. split; [done|]. intros reg' Hin.
    eapply remove_listed; [exact E|apply Hl; rewrite Hp; by right|].
    intros Heq. apply Hnin. replace reg with reg'; [done|]. destruct reg, reg'. cbn in Heq. congruence.
Qed.

Lemma registration_reach_inv l s : rtc step (start l) s -> inv s.
Proof.
  revert s. apply rtc_ind_r; [|intros y z _ Hs Hi; by eapply registration_step_inv].
  split; [constructor|]. intros reg Hin. by apply not_elem_of_nil in Hin.
Qed.

(** C32 (safety). A registered name stays listed until its registration is dropped.
    In every run of register and drop, whatever happens to the cache in between and
    whichever of the calls fail: no name is registered twice, every held one is in
    the listing of its prefix, no other registration or failure takes it away, and
    registering it again is refused as Duplicate and changes nothing. *)
Theorem registrations_listed (l : Listings.t) (s : t) :
  rtc step (start l) s ->
  NoDup (held s) /\
  forall reg, reg ∈ held s -> exists listing,
    Listings.active (listings s) !! Registration.prefix reg = Some listing /\
    Registration.base reg ∈ ListingWriter.current listing /\
    forall x, Listings.register_at (Registration.prefix reg) (Registration.base reg) (listings s, x)
      = (Err ServeErr.Duplicate, (listings s, x)).
Proof.
  intros Hr. destruct (registration_reach_inv _ _ Hr) as [Hn Hl]. split; [done|].
  intros reg Hin. destruct (Hl _ Hin) as (listing & Ha & Hb). exists listing. split; [done|]. split; [done|].
  intros x. unfold Listings.register_at, ListingWriter.insert. rewrite Ha, decide_True by done. cbv beta iota zeta.
  rewrite insert_id by done. by destruct (listings s).
Qed.
End Sys.
End RegistrationSys.

(** ** A listing of two names *)

Definition demo_order : SetOrder := {| set_iter := elements; set_iter_perm := fun s => reflexivity _ |}.
#[local] Existing Instance demo_order.

Definition demo_x : String := mk_String [x78] eq_refl.
Definition demo_y : String := mk_String [x79] eq_refl.
Definition demo_prefix : String := mk_String [x78; dot] eq_refl.

Lemma demo_line : (newline ∉ as_bytes demo_x) /\ (newline ∉ as_bytes demo_y).
Proof. split; apply (bool_decide_unpack _); vm_compute; exact I. Qed.

Definition demo_track := TrackWrite.produce (Track.mk (Tuple.mk []) demo_x) Store.new.
Definition demo_start : ListingSys.t := ListingSys.start (fst (fst demo_track)) (snd demo_track).

Definition after (p : outcome ServeError unit * (ListingWriter.t * Store.t)) : ListingSys.t :=
  ListingSys.mk (fst (snd p)) (snd (snd p)).
Definition demo_insert name (s : ListingSys.t) := ListingWriter.insert name (ListingSys.listing s, ListingSys.store s).
Definition demo_remove name (s : ListingSys.t) := ListingWriter.remove name (ListingSys.listing s, ListingSys.store s).

Lemma demo_step_insert name s : fst (demo_insert name s) = Ok tt ->
  ListingSys.step s (after (demo_insert name s)).
Proof.
  unfold demo_insert, after. destruct (ListingWriter.insert _ _) as [r [l x]] eqn:E. cbn. intros ->.
  by eapply ListingSys.do_insert.
Qed.

Lemma demo_step_remove name s : fst (demo_remove name s) = Ok tt -> ListingSys.step s (after (demo_remove name s)).
Proof.
  unfold demo_remove, after. destruct (ListingWriter.remove _ _) as [r [l x]] eqn:E. cbn. intros ->.
  by eapply ListingSys.do_remove.
Qed.

Definition demo_1 := after (demo_insert demo_x demo_start).
Definition demo_2 := after (demo_insert demo_y demo_1).
Definition demo_3 := after (demo_remove demo_y demo_2).
Definition demo_4 := after (demo_insert demo_y demo_3).

Lemma demo_reach_2 : rtc ListingSys.step demo_start demo_2.
Proof.
  eapply rtc_l; [apply (demo_step_insert demo_x); vm_compute; reflexivity|].
  eapply rtc_l; [apply (demo_step_insert demo_y); vm_compute; reflexivity|]. reflexivity.
Qed.

Lemma demo_reach_3 : rtc ListingSys.step demo_start demo_3.
Proof. eapply rtc_r; [exact demo_reach_2|]. apply demo_step_remove. vm_compute. reflexivity. Qed.

(** One name with a newline is published as two, and is not among them. *)
Definition demo_two_lines : String := mk_String [x78; newline; x79] eq_refl.
Definition demo_broken : ListingSys.t := after (demo_insert demo_two_lines demo_start).

Lemma newline_makes_two_names :
  rtc ListingSys.step demo_start demo_broken /\
  bool_decide (ListingWriter.current (ListingSys.listing demo_broken) = {[demo_two_lines]}) = true /\
  match ListingWriter.subgroup (ListingSys.listing demo_broken) with
  | Some g => bool_decide (replay (payloads (Store.subgroups (ListingSys.store demo_broken)) (SubgroupWriter.state g)) =
                Some ({[ [x78]; [x79] ]} : gset (list byte))) = true
  | None => False
  end.
Proof.
  split; [|split; vm_compute; reflexivity]. apply rtc_once, demo_step_insert. vm_compute. reflexivity.
Qed.

Lemma listing_published_witness :
  ListingWriter.remove demo_y (ListingSys.listing demo_3, ListingSys.store demo_3)
    = (Err ServeErr.NotFound, (ListingSys.listing demo_3, ListingSys.store demo_3)) /\
  ListingWriter.len (ListingSys.listing demo_3) = 1.
Proof.
  pose proof (proj2 (ListingSys.listing_published _ _ _ demo_reach_3) demo_y _ eq_refl) as H.
  split; [|vm_compute; reflexivity].
  assert (E : (if decide (demo_y ∈ ListingWriter.current (ListingSys.listing demo_3)) then true else false) = false)
    by (vm_compute; reflexivity).
  destruct (decide _); [done|exact H].
Defined.

Lemma listing_never_renews_witness :
  exists g, ListingWriter.subgroup (ListingSys.listing demo_3) = Some g /\
  exists g', ListingWriter.subgroup (ListingSys.listing demo_4) = Some g' /\
    SubgroupWriter.state g' = SubgroupWriter.state g.
Proof.
  assert (Hn : nsteps ListingSys.step 1 demo_3 demo_4).
  { eapply nsteps_l; [|constructor]. apply demo_step_insert; vm_compute; reflexivity. }
  destruct (ListingWriter.subgroup (ListingSys.listing demo_3)) as [g|] eqn:Hg.
  2: { assert (E : match ListingWriter.subgroup (ListingSys.listing demo_3) with Some _ => true | None => false end = true)
         by (vm_compute; reflexivity). by rewrite Hg in E. }
  exists g. split; [reflexivity|].
  assert (E : match ListingWriter.subgroup (ListingSys.listing demo_3) with
              | Some g => SubgroupWriter.len g (Store.subgroups (ListingSys.store demo_3)) | None => 0 end = 2)
    by (vm_compute; reflexivity).
  rewrite Hg in E.
  destruct (proj1 (ListingChoice.listing_never_renews _ _ _ _ _ g demo_reach_3 Hn Hg)) as (g' & H1 & H2 & _).
  - rewrite E. vm_compute. reflexivity.
  - rewrite E. vm_compute. reflexivity.
  - exists g'. by split.
Defined.

Lemma reader_follows_witness :
  let self := ListingReader.new (snd (fst demo_track)) in
  exists out self', follow [ListingWriter.snapshot_bytes {[demo_x]}; encode (ListingDelta.Rem demo_x)] 1 self = (Ok out, self') /\
    apply_all out ∅ = {[empty]}.
Proof.
  intros self. destruct (reader_follows {[demo_x]} [ListingDelta.Rem demo_x] self) as (out & self' & E & Ha & _).
  - intros Hx. assert (Hin : demo_x ∈ ({[demo_x]} : gset String)) by (by apply elem_of_singleton).
    rewrite Hx in Hin. by apply elem_of_empty in Hin.
  - intros n Hn. apply elem_of_singleton in Hn as ->. apply demo_line.
  - reflexivity.
  - exists out, self'. split; [exact E|]. change (ListingReader.current self) with (∅ : gset String) in Ha.
    rewrite Ha. apply (bool_decide_unpack _). vm_compute. exact I.
Defined.

Definition demo_listings : outcome ServeError Listings.t * Store.t :=
  Listings.new (mk_String [dot] eq_refl) Store.new.
Definition demo_path : String := mk_String [x2f; dot; x78; dot; x79] eq_refl.

Lemma registrations_listed_witness :
  exists l l' reg, fst demo_listings = Ok l /\
    fst (Listings.register demo_path (l, snd demo_listings)) = Ok (Some reg) /\
    fst (snd (Listings.register demo_path (l, snd demo_listings))) = l' /\
    forall x, Listings.register_at demo_prefix demo_y (l', x) = (Err ServeErr.Duplicate, (l', x)).
Proof.
  destruct (fst demo_listings) as [l|e|] eqn:E1; [|exfalso|exfalso].
  2,3: assert (E : match fst demo_listings with Ok _ => true | _ => false end = true) by (vm_compute; reflexivity);
    by rewrite E1 in E.
  destruct (Listings.register demo_path (l, snd demo_listings)) as [r [l' x']] eqn:E2.
  assert (E : match fst demo_listings with
              | Ok l => match fst (Listings.register demo_path (l, snd demo_listings)) with
                        | Ok (Some reg) => bool_decide (Registration.prefix reg = demo_prefix /\ Registration.base reg = demo_y)
                        | _ => false
                        end
              | _ => false
              end = true) by (vm_compute; reflexivity).
  rewrite E1, E2 in E. cbn [fst] in E. destruct r as [[reg|]|e|]; [|done|done|done].
  apply bool_decide_eq_true in E as [Hp Hb].
  exists l, l', reg. split; [reflexivity|]. rewrite E2. split; [reflexivity|]. split; [reflexivity|]. intros x.
  assert (Hr : rtc RegistrationSys.step (RegistrationSys.start l) (RegistrationSys.mk l' [reg])).
  { eapply rtc_l; [|reflexivity]. exact (RegistrationSys.do_register (RegistrationSys.start l) _ _ _ _ _ E2). }
  destruct (proj2 (RegistrationSys.registrations_listed l _ Hr) reg) as (li & _ & _ & H); [by left|].
  rewrite Hp, Hb in H. exact (H x).
Defined.
