(* ===== verification/Directory.v ===== *)
(** * The sessions of the directory

    [moq-dir/src/session.rs]: what a session does with an announcement. It is accepted
    and entered in the listings, and its entry stays until the announcement ends. Every
    session has its own [SubscriberHalf]; all share the listings and the cache they
    write to. *)
From Stdlib Require Import Strings.String NArith Lia Bool.
From stdpp Require Import base list gmap option numbers relations.
From S2P Require Import Prelude Buffers Utf8 Coding Setup Announces Messages Errors Watch Serve Tracks.
From S2P Require Import Subscriptions SubscriberHalf Listings.

#[local] Arguments Listings.register : simpl never.
#[local] Arguments Listings.remove : simpl never.

Module DirSession.
Section Session.
Context `{SetOrder} (to_string : ServeError -> String).

(** [serve_announce] while it waits for the announcement to end. The result of
    [register] lives as long as its [match]. *)
Record Serve := { announce : Announced.t; registration : option Registration.t }.

Inductive begun := Running (s : Serve) | Left (e : ServeError).

(** Up to [closed]. *)
Definition serve_begin (announce : Announced.t) (h : SubscriberHalf.t) :
    M (Listings.t * Store.t) Empty_set (begun * SubscriberHalf.t) := fun '(l, x) =>
  let '(r, (announce, h)) := SubscriberHalf.announced_ok announce h in
  match r with
  | Ok _ =>
      match Listings.register (Tuple.to_utf8_path (SubscriberHalf.announced_namespace announce)) (l, x) with
      | (Ok registration, s) => (Ok (Running {| announce := announce; registration := registration |}, h), s)
      | (Err err, s) =>
          let (r, h) := SubscriberHalf.announced_close to_string err announce h in
          (match r with
           | Ok _ => Ok (Left err, h)
           | Err e => Ok (Left e, h)
           | Panic => Panic
           end, s)
      | (Panic, s) => (Panic, s)
      end
  | Err e => (Ok (Left e, SubscriberHalf.announced_drop to_string announce h), (l, x))
  | Panic => (Panic, (l, x))
  end.

(** Leaving: the registration goes, then the announcement. *)
Definition serve_leave (s : Serve) (h : SubscriberHalf.t) :
    M (Listings.t * Store.t) Empty_set SubscriberHalf.t := fun '(l, x) =>
  let (r, s') :=
    match registration s with
    | Some reg => Listings.remove (Registration.prefix reg) (Registration.base reg) (l, x)
    | None => (Ok tt, (l, x))
    end in
  match r with
  | Panic => (Panic, s')
  | _ => (Ok (SubscriberHalf.announced_drop to_string (announce s) h), s')
  end.

(** A turn of [closed]; with its error [serve_announce] returns. *)
Definition closed_turn (s : Serve) (h : SubscriberHalf.t) : option (begun * Serve) :=
  match SubscriberHalf.announced_closed_turn (announce s) h with
  | Return (Err e) => Some (Left e, s)
  | _ => None
  end.

End Session.
End DirSession.

(** ** The sessions next to each other *)

Module DirSys.
Import DirSession.
Section Sys.
Context `{SetOrder} (to_string : ServeError -> String).

(** The listings, and the announcements being served, whichever session they are of. *)
Record t := mk { dir : Listings.t; tasks : list Serve }.

(** A task starts, is refused, or ends; the halves and the cache are as others left
    them. *)
Inductive step : t -> t -> Prop :=
  | do_announce s a h x task h' l x' :
      serve_begin to_string a h (dir s, x) = (Ok (Running task, h'), (l, x')) -> step s (mk l (tasks s ++ [task]))
  | do_refuse s a h x e h' l x' :
      serve_begin to_string a h (dir s, x) = (Ok (Left e, h'), (l, x')) -> step s (mk l (tasks s))
  | do_end s a task b h x h' l x' : tasks s = a ++ task :: b ->
      serve_leave to_string task h (dir s, x) = (Ok h', (l, x')) -> step s (mk l (a ++ b)).

Definition start (l : Listings.t) : t := mk l [].

Definition registered (s : t) : list Registration.t := omap registration (tasks s).

Definition own_path (l : Listings.t) : String := Tuple.to_utf8_path (Tracks.namespace (TracksReader.info (Listings.reader l))).

(** What a task has to do with the listings of the directory [l]. *)
Definition entered (l : Listings.t) (task : Serve) : Prop :=
  Announced.ok (announce task) = true /\
  exists p b, Listings.prefix (Tuple.to_utf8_path (SubscriberHalf.announced_namespace (announce task))) = Ok (p, b) /\
    match registration task with
    | Some reg => Registration.base reg = b /\ as_bytes p = as_bytes (own_path l) ++ as_bytes (Registration.prefix reg)
    | None => starts_with (own_path l) p = false
    end.

Lemma register_at_reader prefix base self x r l x' :
  Listings.register_at prefix base (self, x) = (r, (l, x')) -> Listings.reader l = Listings.reader self.
Proof.
  unfold Listings.register_at. destruct (Listings.active self !! prefix) as [listing|].
  - destruct (ListingWriter.insert _ _) as [[[]|e|] [li xi]]; by intros [= <- <- <-].
  - destruct (TracksWriter.create _ _ _) as [[track|] y]; [|by intros [= <- <- <-]].
    destruct (ListingWriter.insert _ _) as [[[]|e|] [li xi]]; by intros [= <- <- <-].
Qed.

Lemma register_reader path self x r l x' :
  Listings.register path (self, x) = (r, (l, x')) -> Listings.reader l = Listings.reader self.
Proof.
  unfold Listings.register. destruct (Listings.prefix path) as [[p b]|e|]; [|by intros [= <- <- <-]..].
  destruct (starts_with _ _); [|by intros [= <- <- <-]]. destruct (slice_from _ _); [|by intros [= <- <- <-]..].
  apply register_at_reader.
Qed.

Lemma remove_reader prefix base self x r l x' :
  Listings.remove prefix base (self, x) = (r, (l, x')) -> Listings.reader l = Listings.reader self.
Proof.
  unfold Listings.remove. destruct (Listings.active self !! prefix) as [listing|]; [|by intros [= <- <- <-]].
  destruct (ListingWriter.remove _ _) as [[[]|e|] [li xi]]; [|by intros [= <- <- <-]..].
  destruct (ListingWriter.is_empty _); [|by intros [= <- <- <-]]. destruct (TracksWriter.remove _ _ _). by intros [= <- <- <-].
Qed.

Lemma remove_gone prefix base self x r l x' :
  Listings.remove prefix base (self, x) = (r, (l, x')) -> r <> Panic -> ~ RegistrationSys.listed_at l prefix base.
Proof.
  unfold Listings.remove, RegistrationSys.listed_at. intros E Hr (li & Ha & Hb).
  destruct (Listings.active self !! prefix) as [listing|] eqn:E0; [|injection E as <- <- <-; congruence].
  pose proof (RegistrationSys.remove_current base listing x) as Hc.
  destruct (ListingWriter.remove base (listing, x)) as [ri [listing' xi]].
  assert (Hn : <[prefix := listing']> (Listings.active self) !! prefix = Some li -> False).
  { rewrite lookup_insert_eq. intros [= <-]. rewrite Hc in Hb. by apply elem_of_difference in Hb as [_ []%not_elem_of_singleton]. }
  destruct ri as [[]|e|]; [|by injection E as <- <- <-|congruence].
  destruct (ListingWriter.is_empty listing'); [|by injection E as <- <- <-].
  destruct (TracksWriter.remove _ _ _). injection E as <- <- <-. cbn in Ha. by rewrite lookup_delete_eq in Ha.
Qed.

Lemma register_path path self x reg l x' :
  Listings.register path (self, x) = (Ok reg, (l, x')) -> exists p b, Listings.prefix path = Ok (p, b) /\
    match reg with
    | Some reg => Registration.base reg = b /\ as_bytes p = as_bytes (own_path self) ++ as_bytes (Registration.prefix reg)
    | None => starts_with (own_path self) p = false
    end.
Proof.
  unfold Listings.register. destruct (Listings.prefix path) as [[p b]|e|]; [|done..]. fold (own_path self).
  intros E. exists p, b. split; [done|]. destruct (starts_with (own_path self) p) eqn:Es; [|by injection E as <- <- <-].
  unfold slice_from in E. pose proof (from_utf8_spec (skipn (length (as_bytes (own_path self))) (as_bytes p))) as Hu.
  destruct (from_utf8 _) as [p'|]; [|done].
  destruct (RegistrationSys.register_at_listed _ _ _ _ _ _ _ E ltac:(done)) as [_ Hreg]. destruct reg as [reg|].
  - destruct (Hreg reg eq_refl) as (-> & _). split; [done|]. cbn. rewrite Hu.
    apply bool_decide_eq_true in Es.
    pose proof (take_drop (length (as_bytes (own_path self))) (as_bytes p)) as Ht. rewrite Es in Ht. by rewrite <- Ht at 1.
  - exfalso. unfold Listings.register_at in E. destruct (Listings.active self !! p') as [li|].
    + by destruct (ListingWriter.insert _ _) as [[[]|e|] [? ?]].
    + destruct (TracksWriter.create _ _ _) as [[track|] y]; [|done].
      by destruct (ListingWriter.insert _ _) as [[[]|e|] [? ?]].
Qed.

Lemma begin_running a h (self : Listings.t) x task h' l x' :
  serve_begin to_string a h (self, x) = (Ok (Running task, h'), (l, x')) ->
  Listings.register (Tuple.to_utf8_path (SubscriberHalf.announced_namespace a)) (self, x) = (Ok (registration task), (l, x')) /\
  entered self task /\ announce task = Announced.mk (Announced.state a) (Announced.info a) true (Announced.error a) /\
  h' = SubscriberHalf.send_message (Subscriber.AnnounceOk (AnnounceOk.mk (SubscriberHalf.announced_namespace a))) h.
Proof.
  unfold serve_begin, SubscriberHalf.announced_ok. destruct (Announced.ok a); [done|].
  cbn [SubscriberHalf.announced_namespace Announced.info].
  destruct (Listings.register _ (self, x)) as [[reg|e|] s] eqn:E; [|done..]. intros [= <- <- ->].
  split; [done|]. split; [|done]. split; [done|]. cbn [announce registration].
  destruct (register_path _ _ _ _ _ _ E) as (p & b & Hp & Hm). eauto.
Qed.

(** A refused announcement leaves what is listed. *)
Lemma begin_left a h (self : Listings.t) x e h' l x' :
  serve_begin to_string a h (self, x) = (Ok (Left e, h'), (l, x')) ->
  l = self \/ exists path, Listings.register path (self, x) = (Err e, (l, x')).
Proof.
  unfold serve_begin, SubscriberHalf.announced_ok. destruct (Announced.ok a); [intros [= <- <- <-]; by left|].
  destruct (Listings.register _ (self, x)) as [[reg|e0|] s] eqn:E; [done| |done].
  unfold SubscriberHalf.announced_close. intros [= <- <- ->]. right. eauto.
Qed.

Definition inv (l0 : Listings.t) (s : t) : Prop :=
  rtc RegistrationSys.step (RegistrationSys.start l0) (RegistrationSys.mk (dir s) (registered s)) /\
  Listings.reader (dir s) = Listings.reader l0 /\
  forall task, task ∈ tasks s -> entered l0 task.

Lemma entered_reader l l' task : Listings.reader l' = Listings.reader l -> entered l task -> entered l' task.
Proof. unfold entered, own_path. by intros ->. Qed.

Lemma directory_step_inv l0 s s' : step s s' -> inv l0 s -> inv l0 s'.
Proof.
  intros Hs (Hr & Hd & He). destruct Hs as [s a h x task h' l x' E|s a h x e h' l x' E|s a task b h x h' l x' Hp E].
  - apply begin_running in E as (E & Hen & _). split; [|split].
    + eapply rtc_r; [exact Hr|]. unfold registered. cbn [dir tasks]. rewrite omap_app. cbn.
      destruct (registration task) as [reg|].
      * exact (RegistrationSys.do_register (RegistrationSys.mk (dir s) (omap registration (tasks s))) _ _ _ _ _ E).
      * rewrite app_nil_r. exact (RegistrationSys.do_ignore (RegistrationSys.mk (dir s) (omap registration (tasks s))) _ _ _ _ E).
    + cbn. by rewrite (register_reader _ _ _ _ _ _ E).
    + cbn. intros t0 [Ht|Ht]%elem_of_app; [by apply He|]. apply list_elem_of_singleton in Ht as ->.
      by apply (entered_reader (dir s)).
  - apply begin_left in E as [->|[path E]]; [by split|]. split; [|split; [|exact He]].
    + eapply rtc_r; [exact Hr|].
      exact (RegistrationSys.do_fail (RegistrationSys.mk (dir s) (omap registration (tasks s))) _ _ _ _ _ E).
    + cbn. by rewrite (register_reader _ _ _ _ _ _ E).
  - unfold serve_leave in E.
    assert (Hrest : forall t0, t0 ∈ a ++ b -> entered l0 t0).
    { intros t0 Ht. apply He. rewrite Hp. rewrite elem_of_app, elem_of_cons in *. tauto. }
    unfold registered in *. rewrite Hp in Hr. cbn [dir tasks]. rewrite omap_app in *. cbn in Hr.
    destruct (registration task) as [reg|].
    + destruct (Listings.remove _ _ (dir s, x)) as [r [l1 x1]] eqn:Er.
      assert (Hne : r <> Panic /\ l1 = l) by (destruct r; by simplify_eq). destruct Hne as [Hne ->].
      split; [|split; [|exact Hrest]].
      * eapply rtc_r; [exact Hr|].
        refine (RegistrationSys.do_drop (RegistrationSys.mk (dir s) _) reg _ x r l x1 _ Er Hne).
        unfold registered. cbn [tasks RegistrationSys.held]. rewrite omap_app. symmetry. apply Permutation_middle.
      * cbn [dir]. by rewrite (remove_reader _ _ _ _ _ _ _ Er).
    + injection E as <- <- <-. split; [|by split]. unfold registered. cbn [tasks]. by rewrite omap_app.
Qed.

Lemma directory_reach_inv l0 s : rtc step (start l0) s -> inv l0 s.
Proof.
  revert s. apply rtc_ind_r; [|intros y z _ Hs Hi; by eapply directory_step_inv].
  split; [apply rtc_refl|]. split; [done|]. intros task Ht. by apply not_elem_of_nil in Ht.
Qed.

(** C30 (refinement). In every run of the directory's sessions the registrations of the
    announcements being served are held in a run of the listings. So each of them has been
    accepted; if it lies in the directory's namespace it is listed, by the last part of
    its path under the part before it, no two have the same entry, and if not it is listed
    nowhere, though the peer has been told OK all the same. When one ends its entry is
    gone, and every other stays. *)
Theorem directory_lists (l0 : Listings.t) (s : t) : rtc step (start l0) s ->
  rtc RegistrationSys.step (RegistrationSys.start l0) (RegistrationSys.mk (dir s) (registered s)) /\
  NoDup (registered s) /\
  (forall task, task ∈ tasks s -> entered l0 task /\ forall reg, registration task = Some reg ->
     RegistrationSys.listed_at (dir s) (Registration.prefix reg) (Registration.base reg)) /\
  forall a task b h x h' l x', tasks s = a ++ task :: b ->
    serve_leave to_string task h (dir s, x) = (Ok h', (l, x')) ->
    (forall reg, registration task = Some reg ->
       ~ RegistrationSys.listed_at l (Registration.prefix reg) (Registration.base reg)) /\
    forall other reg, other ∈ a ++ b -> registration other = Some reg ->
      RegistrationSys.listed_at l (Registration.prefix reg) (Registration.base reg).
Proof.
  intros Hr. destruct (directory_reach_inv l0 s Hr) as (Hrun & _ & He).
  destruct (RegistrationSys.registration_reach_inv _ _ Hrun) as [Hn Hl]. split; [exact Hrun|]. split; [exact Hn|].
  assert (Hin : forall s' task reg, task ∈ tasks s' -> registration task = Some reg -> reg ∈ registered s').
  { intros s' task reg Ht Hreg. unfold registered. apply list_elem_of_omap. eauto. }
  split.
  - intros task Ht. split; [by apply He|]. intros reg Hreg. by eapply Hl, Hin.
  - intros a task b h x h' l x' Ht E. split.
    + intros reg Hreg. unfold serve_leave in E. rewrite Hreg in E.
      destruct (Listings.remove _ _ (dir s, x)) as [r [l1 x1]] eqn:Er.
      apply (remove_gone _ _ _ _ _ _ _) in Er; [|by destruct r]. by destruct r; simplify_eq.
    + intros other reg Ho Hreg.
      assert (Hs : step s (mk l (a ++ b))) by (by eapply do_end).
      destruct (directory_reach_inv l0 _ (rtc_r _ _ _ Hr Hs)) as (Hrun' & _ & _).
      destruct (RegistrationSys.registration_reach_inv _ _ Hrun') as [_ Hl'].
      apply Hl'. by eapply (Hin (mk l (a ++ b))).
Qed.
End Sys.
End DirSys.

(** A directory of the namespace [.], and a broadcast announced in it. *)
#[local] Existing Instance demo_order.

Definition demo_room : String := str ".room".
Definition demo_dir : outcome ServeError Listings.t * Store.t := Listings.new (str ".") Store.new.
Definition demo_announced : Announced.t :=
  Announced.mk {| loc := 0%nat; half := 0%nat |} (AnnounceInfo.mk (Tuple.from_utf8_path demo_room)) false None.
Definition demo_text : ServeError -> String := fun _ => empty.
Definition demo_half : SubscriberHalf.t := SubscriberHalf.new (snd Queue.new).

Definition demo_begun (l : Listings.t) :=
  DirSession.serve_begin demo_text demo_announced demo_half (l, snd demo_dir).

Lemma directory_lists_witness : exists l0 s task reg, rtc (DirSys.step demo_text) (DirSys.start l0) s /\
  DirSys.tasks s = [task] /\ DirSession.registration task = Some reg /\ Registration.base reg = str "room" /\
  RegistrationSys.listed_at (DirSys.dir s) (Registration.prefix reg) (Registration.base reg).
Proof.
  destruct (fst demo_dir) as [l0|e|] eqn:E1; [|exfalso|exfalso].
  2,3: assert (E : match fst demo_dir with Ok _ => true | _ => false end = true) by (vm_compute; reflexivity);
    by rewrite E1 in E.
  destruct (demo_begun l0) as [r [l x]] eqn:E2.
  assert (E : match fst demo_dir with
              | Ok l => match fst (demo_begun l) with
                        | Ok (DirSession.Running task, _) =>
                            match DirSession.registration task with
                            | Some reg => bool_decide (Registration.base reg = str "room")
                            | None => false
                            end
                        | _ => false
                        end
              | _ => false
              end = true) by (vm_compute; reflexivity).
  rewrite E1, E2 in E. cbn [fst] in E. destruct r as [[[task|e] h]|e|]; [|done..].
  destruct (DirSession.registration task) as [reg|] eqn:Hreg; [|done]. apply bool_decide_eq_true in E.
  exists l0, (DirSys.mk l [task]), task, reg.
  assert (Hr : rtc (DirSys.step demo_text) (DirSys.start l0) (DirSys.mk l [task])).
  { eapply rtc_l; [|reflexivity]. exact (DirSys.do_announce demo_text (DirSys.start l0) _ _ _ _ _ _ _ E2). }
  split; [exact Hr|]. split; [done|]. split; [exact Hreg|]. split; [exact E|].
  destruct (DirSys.directory_lists demo_text l0 _ Hr) as (_ & _ & H & _).
  apply (H task); [by left|exact Hreg].
Defined.
