(* ===== verification/Catalog.v ===== *)
(** * The catalog of a broadcast

    [moq-catalog/src/lib.rs]: which tracks a broadcast has and how they are to be
    played, and the fields that all tracks share and that are told once. The JSON
    is written by the derived [Serialize]. *)
From Stdlib Require Import Strings.String NArith Lia Bool.
From stdpp Require Import base list option numbers.
From S2P Require Import Prelude Utf8.

Module TrackPackaging.
Inductive t := Cmaf | Loc.
#[global] Instance packaging_eq_dec : EqDecision t.
Proof. solve_decision. Defined.
End TrackPackaging.

Module SelectionParam.
Record t := mk {
  codec : option String;
  mime_type : option String;
  framerate : option N;
  bitrate : option N;
  width : option N;
  height : option N;
  samplerate : option N;
  channel_config : option String;
  display_width : option N;
  display_height : option N;
  language : option String;
}.
Definition default : t := mk None None None None None None None None None None None.
End SelectionParam.

Module CommonTrackFields.
Record t := mk {
  namespace : option String;
  packaging : option TrackPackaging.t;
  render_group : option N;
  alt_group : option N;
}.
Definition default : t := mk None None None None.
End CommonTrackFields.

Module CatalogTrack.
Record t := mk {
  namespace : option String;
  name : String;
  init_track : option String;
  init_data : option String;
  packaging : option TrackPackaging.t;
  render_group : option N;
  alt_group : option N;
  selection_params : SelectionParam.t;
  temporal_id : option N;
  spatial_id : option N;
  depends : option (list String);
}.

(** The four fields that can be common. *)
Definition with_fields ns p r a (self : t) : t :=
  mk ns (name self) (init_track self) (init_data self) p r a
    (selection_params self) (temporal_id self) (spatial_id self) (depends self).

(** [if self.f.is_none() { self.f = common.f }] *)
Definition with_common (common : CommonTrackFields.t) (self : t) : t :=
  with_fields
    (if decide (namespace self = None) then CommonTrackFields.namespace common else namespace self)
    (if decide (packaging self = None) then CommonTrackFields.packaging common else packaging self)
    (if decide (render_group self = None) then CommonTrackFields.render_group common else render_group self)
    (if decide (alt_group self = None) then CommonTrackFields.alt_group common else alt_group self)
    self.
End CatalogTrack.

Module Catalog.
Record t := mk {
  version : N;
  streaming_format : N;
  streaming_format_version : String;
  streaming_delta_updates : bool;
  common_track_fields : CommonTrackFields.t;
  tracks : list CatalogTrack.t;
}.
End Catalog.

Module FromTracks.
Import CatalogTrack.

(** A field of another track: what differs is not common. *)
Definition merge (common : CommonTrackFields.t) (track : t) : CommonTrackFields.t :=
  CommonTrackFields.mk
    (if decide (namespace track = CommonTrackFields.namespace common) then CommonTrackFields.namespace common else None)
    (if decide (packaging track = CommonTrackFields.packaging common) then CommonTrackFields.packaging common else None)
    (if decide (render_group track = CommonTrackFields.render_group common) then CommonTrackFields.render_group common else None)
    (if decide (alt_group track = CommonTrackFields.alt_group common) then CommonTrackFields.alt_group common else None).

(** The namespace goes if it is common, the others if they are there. *)
Definition strip (common : CommonTrackFields.t) (track : t) : t :=
  with_fields
    (if decide (is_Some (CommonTrackFields.namespace common)) then None else namespace track)
    (if decide (is_Some (packaging track)) then None else packaging track)
    (if decide (is_Some (render_group track)) then None else render_group track)
    (if decide (is_Some (alt_group track)) then None else alt_group track)
    track.

Definition from_tracks (tracks : list t) : CommonTrackFields.t * list t :=
  match tracks with
  | [] => (CommonTrackFields.default, tracks)
  | first :: rest =>
      let common := CommonTrackFields.mk (namespace first) (packaging first) (render_group first) (alt_group first) in
      let common := fold_left merge rest common in
      (common, strip common <$> tracks)
  end.
End FromTracks.

(** ** What becomes common *)

Section Common.
Import CatalogTrack FromTracks.

(** [Some] if all tracks have that value. *)
Lemma fold_common {A} `{EqDecision A} (f : t -> option A) (g : CommonTrackFields.t -> option A) :
  (forall c u, g (merge c u) = if decide (f u = g c) then g c else None) ->
  forall rest c x, g (fold_left merge rest c) = Some x <-> g c = Some x /\ Forall (fun u => f u = Some x) rest.
Proof.
  intros Hg rest. induction rest as [|u rest IH]; intros c x; cbn.
  - split; [|by intros [? _]]. intros Hc. split; [done|constructor].
  - rewrite IH, Hg, Forall_cons. destruct (decide (f u = g c)) as [E|E]; rewrite ?E; [tauto|].
    split; [by intros [? _]|]. intros (Hc & Hu & _). congruence.
Qed.

Definition agreed {A} (f : t -> option A) (tracks : list t) (u : t) : Prop := Forall (fun v => f v = f u) tracks.

#[export] Instance agreed_dec {A} `{EqDecision A} (f : t -> option A) tracks u : Decision (agreed f tracks u).
Proof. unfold agreed. apply _. Defined.

(** A field that goes whenever it is there comes back if it is common. *)
Lemma field_back {A} `{EqDecision A} (f : t -> option A) (g : CommonTrackFields.t -> option A) first rest c u :
  (forall c u, g (merge c u) = if decide (f u = g c) then g c else None) -> g c = f first ->
  u ∈ first :: rest ->
  g (fold_left merge rest c) = if decide (agreed f (first :: rest) u) then f u else None.
Proof.
  intros Hg Hc Hu. pose proof (fold_common f g Hg rest c) as Hf. unfold agreed.
  destruct (decide _) as [Ha|Ha].
  - rewrite Forall_cons in Ha. destruct Ha as [H1 H2]. destruct (f u) as [x|] eqn:Ex.
    + apply Hf. split; [congruence|done].
    + destruct (g (fold_left merge rest c)) as [x|] eqn:E; [|done]. apply (fold_common f g Hg) in E as [E _]. congruence.
  - destruct (g (fold_left merge rest c)) as [x|] eqn:E; [|done]. exfalso. apply Ha.
    apply (fold_common f g Hg) in E as [E1 E2]. assert (H0 : Forall (fun v => f v = Some x) (first :: rest)) by (constructor; [congruence|done]).
    rewrite Forall_forall in H0. rewrite (H0 _ Hu). by apply Forall_forall.
Qed.

Lemma common_fields_restored (tracks : list t) i u :
  tracks !! i = Some u ->
  let (common, stripped) := from_tracks tracks in
  with_common common <$> stripped !! i = Some (with_fields (namespace u)
    (if decide (agreed packaging tracks u) then packaging u else None)
    (if decide (agreed render_group tracks u) then render_group u else None)
    (if decide (agreed alt_group tracks u) then alt_group u else None) u).
Proof.
  intros Hi. destruct tracks as [|first rest]; [done|]. unfold from_tracks.
  set (c := CommonTrackFields.mk _ _ _ _). set (common := fold_left merge rest c).
  rewrite list_lookup_fmap, Hi. cbn [fmap option_fmap option_map]. f_equal.
  assert (Hu : u ∈ first :: rest) by (by eapply list_elem_of_lookup_2).
  pose proof (fun A (EQ : EqDecision A) f g H1 H2 => field_back (A := A) f g first rest c u H1 H2 Hu) as Hb.
  assert (Hp := Hb _ _ packaging CommonTrackFields.packaging ltac:(done) eq_refl).
  assert (Hr := Hb _ _ render_group CommonTrackFields.render_group ltac:(done) eq_refl).
  assert (Ha := Hb _ _ alt_group CommonTrackFields.alt_group ltac:(done) eq_refl).
  assert (Hn := Hb _ _ namespace CommonTrackFields.namespace ltac:(done) eq_refl). fold common in Hp, Hr, Ha, Hn.
  assert (Hgone : forall A (x : option A) (H : Decision (is_Some x)), (if H then None else x) = None)
    by (intros A [x|] [H|H]; try done; exfalso; by apply H).
  unfold with_common, strip. cbn [namespace packaging render_group alt_group with_fields].
  rewrite !Hgone, Hp, Hr, Ha. unfold with_fields. f_equal. rewrite Hn.
  destruct (decide (agreed namespace _ u)) as [Hag|Hag].
  - destruct (namespace u) as [x|]; cbn; repeat case_decide; done || (exfalso; naive_solver).
  - cbn. repeat case_decide; done || (exfalso; naive_solver).
Qed.

(** C40 (equivalence). What the common fields stand for. Whoever reads the tracks with
    the common fields filled in finds every track as it was given, its namespace in
    any case. But its packaging, render group and alternate group come back only if
    all tracks agree on them: a value in which tracks differ is taken from all of them. *)
Theorem common_fields_inherited (tracks : list t) i u :
  tracks !! i = Some u ->
  let (common, stripped) := from_tracks tracks in
  with_common common <$> stripped !! i = Some (with_fields (namespace u)
    (if decide (agreed packaging tracks u) then packaging u else None)
    (if decide (agreed render_group tracks u) then render_group u else None)
    (if decide (agreed alt_group tracks u) then alt_group u else None) u).
Proof. apply common_fields_restored. Qed.

(** Tracks that agree on all four fields are read as they were given. *)
Corollary common_fields_agreed tracks i u : tracks !! i = Some u ->
  agreed packaging tracks u -> agreed render_group tracks u -> agreed alt_group tracks u ->
  let (common, stripped) := from_tracks tracks in with_common common <$> stripped !! i = Some u.
Proof.
  intros Hi H1 H2 H3. pose proof (common_fields_restored tracks i u Hi) as H.
  destruct (from_tracks tracks) as [common stripped]. rewrite !decide_True in H by done. rewrite H. by destruct u.
Qed.
End Common.

Definition demo_tracks : list CatalogTrack.t :=
  (fun p => CatalogTrack.mk (Some (str "demo")) (str "1.m4s") None None (Some p) (Some 1) None
     SelectionParam.default None None None) <$> [TrackPackaging.Cmaf; TrackPackaging.Loc].

Lemma common_fields_inherited_witness :
  let (common, stripped) := FromTracks.from_tracks demo_tracks in
  (fun u => (CatalogTrack.packaging u, CatalogTrack.render_group u)) <$>
    (CatalogTrack.with_common common <$> stripped !! 1%nat) = Some (None, Some 1).
Proof.
  destruct (demo_tracks !! 1%nat) as [u|] eqn:Hu; [|by vm_compute in Hu].
  pose proof (common_fields_inherited demo_tracks 1 u Hu) as H.
  destruct (FromTracks.from_tracks demo_tracks) as [common stripped]. rewrite H.
  assert (E : (fun u => ((if decide (agreed CatalogTrack.packaging demo_tracks u) then CatalogTrack.packaging u else None),
                         (if decide (agreed CatalogTrack.render_group demo_tracks u) then CatalogTrack.render_group u else None)))
              <$> (demo_tracks !! 1%nat) = Some (None, Some 1)) by (vm_compute; reflexivity).
  rewrite Hu in E. exact E.
Defined.
