(* ===== verification/Mp4.v ===== *)
(** * What the media tools share

    [moq-pub] writes fragmented MP4 into a broadcast and [moq-sub] reads it back.
    Both parse boxes with the [mp4] crate, whose types are given here as far as the
    tools look at them, with its readers as a class, and both name tracks with
    [format!]. *)
From Stdlib Require Import Strings.String NArith Lia Bool.
From stdpp Require Import base list option numbers.
From S2P Require Import Prelude Utf8 Catalog.

(** ** Integers as text *)

(** [{}] of an integer, and [{:02x}] of a byte. *)
Fixpoint digits (fuel : nat) (n : N) : list byte :=
  match fuel with
  | O => []
  | S fuel => (if n <? 10 then [] else digits fuel (n / 10)) ++ [bn (48 + n mod 10)]
  end.

Definition decimal (n : N) : list byte := digits (S (N.to_nat (N.size n))) n.

Definition hex_digit (n : N) : byte := bn (if n <? 10 then 48 + n else 87 + n).
Definition hex2 (n : N) : list byte := [hex_digit (n / 16 mod 16); hex_digit (n mod 16)].

(** [format!] of pieces of ASCII. *)
Definition text (s : string) : list byte := as_bytes (str s).
#[global] Arguments text s%_string_scope.
Definition format (pieces : list (list byte)) : String := lossy (concat pieces).

(** What the digits say. *)
Definition from_digits (l : list byte) : N := fold_left (fun acc b => acc * 10 + (nb b - 48)) l 0.

Lemma digits_value fuel : forall n, n < 2 ^ N.of_nat fuel -> from_digits (digits (S fuel) n) = n.
Proof.
  unfold from_digits. induction fuel as [|fuel IH]; intros n Hn.
  - change (2 ^ N.of_nat 0) with 1 in Hn. replace n with 0 by lia. done.
  - remember (S fuel) as f. cbn [digits]. rewrite fold_left_app. cbn [fold_left].
    rewrite bn_small by (pose proof (N.mod_lt n 10); lia).
    destruct (N.ltb_spec n 10); cbn [fold_left]; [lia|]. subst f. rewrite IH; [lia|].
    rewrite Nat2N.inj_succ, N.pow_succ_r' in Hn. lia.
Qed.

Lemma decimal_value n : from_digits (decimal n) = n.
Proof. apply digits_value. rewrite N2Nat.id. apply N.size_gt. Qed.

#[export] Instance decimal_inj : Inj (=) (=) decimal.
Proof. intros n m H. by rewrite <- (decimal_value n), <- (decimal_value m), H. Qed.

Lemma digits_ascii fuel n : Forall (fun b => nb b < 128) (digits fuel n).
Proof.
  revert n. induction fuel as [|fuel IH]; intros n; cbn; [constructor|]. apply Forall_app. split.
  - destruct (n <? 10); [constructor|apply IH].
  - repeat constructor. pose proof (N.mod_lt n 10). rewrite bn_small; lia.
Qed.

Lemma ascii_valid l : Forall (fun b => nb b < 128) l -> utf8_valid l = true.
Proof.
  induction 1 as [|b l Hb _ IH]; [done|]. unfold utf8_valid. cbn [utf8_run].
  replace (utf8_lead b) with (Some (@nil (N * N))); [exact IH|].
  unfold utf8_lead. by destruct (N.ltb_spec (nb b) 128); [|lia].
Qed.

Lemma format_bytes pieces : Forall (Forall (fun b => nb b < 128)) pieces -> as_bytes (format pieces) = concat pieces.
Proof.
  intros H. apply from_utf8_lossy_valid, ascii_valid. induction H; [constructor|]. by apply Forall_app.
Qed.

(** [format!("{}.m4s", id)]: the names of different tracks differ. *)
Definition m4s (id : N) : String := format [decimal id; text ".m4s"].

#[export] Instance m4s_inj : Inj (=) (=) m4s.
Proof.
  assert (Hb : forall n, as_bytes (m4s n) = decimal n ++ text ".m4s").
  { intros n. unfold m4s. rewrite format_bytes; [cbn [concat]; by rewrite app_nil_r|].
    constructor; [apply digits_ascii|]. constructor; [|constructor].
    apply (bool_decide_unpack _). vm_compute. exact I. }
  intros n m H. apply (f_equal as_bytes) in H. rewrite !Hb in H. by apply app_inv_tail, decimal_inj in H.
Qed.

(** ** The [mp4] crate *)

Module BoxType.
Inductive t := FtypBox | MoovBox | MoofBox | MdatBox | UnknownBox.
End BoxType.

Module TrackType.
Inductive t := Video | Audio | Subtitle.
#[global] Instance track_type_eq_dec : EqDecision t.
Proof. solve_decision. Defined.
End TrackType.

(** The sample entries of a track: AVC, HEVC, AAC, VP9. *)
Module Avc1.
Record t := mk {
  avc_profile_indication : byte;
  profile_compatibility : byte;
  avc_level_indication : byte;
  width : N;
  height : N;
}.
End Avc1.

Module DecConfig.
Record t := mk {
  object_type_indication : byte;
  profile : byte;
  max_bitrate : N;
  avg_bitrate : N;
}.
End DecConfig.

Module Mp4a.
Record t := mk { esds : option DecConfig.t; channelcount : N; samplerate : N }.
End Mp4a.

Module Trak.
Record t := mk {
  track_id : N;
  timescale : N;
  handler_type : list byte;
  avc1 : option Avc1.t;
  hev1 : option unit;
  mp4a : option Mp4a.t;
  vp09 : option unit;
}.
End Trak.

Module Moov.
Record t := mk { traks : list Trak.t }.
End Moov.

Module Trun.
Record t := mk { sample_count : N; sample_flags : list N; first_sample_flags : option N }.
End Trun.

Module Traf.
Record t := mk {
  track_id : N;
  default_sample_flags : option N;
  base_media_decode_time : option N;
  trun : option Trun.t;
}.
End Traf.

Module Moof.
Record t := mk { trafs : list Traf.t }.
End Moof.

(** Its readers, from the bytes of a box: [BoxHeader::read] gives type, size and
    what follows. A header is eight bytes with the type in the last four, or
    sixteen. Beside it the other crates the publisher formats with: the codec
    string of [rfc6381_codec] and the JSON of [serde_json]. *)
Class Mp4 := {
  read_header : list byte -> option (BoxType.t * N * list byte);
  read_moov : list byte -> N -> option Moov.t;
  read_moof : list byte -> N -> option Moof.t;
  track_type : list byte -> option TrackType.t;
  codec_avc1 : byte -> byte -> byte -> String;
  to_string_pretty : Catalog.t -> option (list byte);
  header_ftyp : forall atom size rest,
    read_header atom = Some (BoxType.FtypBox, size, rest) -> take 4 (skipn 4 atom) = text "ftyp";
  header_moov : forall atom size rest,
    read_header atom = Some (BoxType.MoovBox, size, rest) -> take 4 (skipn 4 atom) = text "moov";
}.
