(* ===== verification/PubMedia.v ===== *)
(** * Publishing fragmented MP4

    [moq-pub/src/media.rs]: the input is cut into boxes; [ftyp] and [moov] become
    the init track and the catalog, every [moof] and [mdat] an object of the track it
    belongs to, and a keyframe of the video starts new groups. A buffer is the
    [BytesMut] of [main.rs], whose bytes are in one piece. *)
From Stdlib Require Import Strings.String NArith Lia Bool.
From stdpp Require Import base list gmap option numbers relations functions.
From S2P Require Import Prelude Buffers Utf8 Coding Setup Errors Watch Serve Subgroup Groups Tracks Payloads Catalog Mp4.

(** What [bail!], [ensure!], [context] and [?] give. *)
Inductive error :=
  | Serve (e : ServeError)
  | Mp4Error
  | Json
  | BroadcastClosed
  | MissingFtyp
  | MissingEsds
  | Unsupported
  | UnknownCodec (track : N)
  | MultipleTracks
  | TimestampTooLarge
  | MissingFragment
  | NoTrack
  | MultipleMoof
  | MissingMoof
  | EofAtom
  | ImpossibleSize (size : N).

Definition from_serve {A} (r : outcome ServeError A) : outcome error A :=
  match r with Ok a => Ok a | Err e => Err (Serve e) | Panic => Panic end.

(** ** Cutting boxes *)

(** The box of that size, if it is all there. *)
Definition cut (size : N) (buf : list byte) : outcome error (option (list byte)) * list byte :=
  if lenN buf <? size then (Ok None, buf)
  else (Ok (Some (take (N.to_nat size) buf)), skipn (N.to_nat size) buf).

(** The extended size is read without looking whether it is there. *)
Definition next_atom (buf : list byte) : outcome error (option (list byte)) * list byte :=
  if lenN buf <? 8 then (Ok None, buf)
  else
    let size := from_be (take 4 buf) in
    if size =? 0 then (Err EofAtom, buf)
    else if size =? 1 then
      if lenN buf <? 16 then (Panic, buf)
      else
        let size_ext := from_be (take 8 (skipn 8 buf)) in
        if 16 <=? size_ext then cut size_ext buf else (Err (ImpossibleSize size_ext), buf)
    else if size <=? 7 then (Err (ImpossibleSize size), buf)
    else cut size buf.

(** ** Fragments *)

Definition sample_timestamp (moof : Moof.t) : option N :=
  match Moof.trafs moof with
  | traf :: _ => Traf.base_media_decode_time traf
  | [] => None
  end.

(** A sample that depends on no other and is not marked as no sync sample. *)
Definition sync_flags (flags : N) : bool :=
  (N.land (N.shiftr flags 24) 0x3 =? 0x2) && negb (N.land (N.shiftr flags 16) 0x1 =? 0x1).

Definition flags_at (default_flags : N) (trun : Trun.t) (i : nat) : N :=
  match i, Trun.first_sample_flags trun with
  | O, Some f => f
  | _, _ => default default_flags (Trun.sample_flags trun !! i)
  end.

Fixpoint sample_keyframe_in (trafs : list Traf.t) : bool :=
  match trafs with
  | [] => false
  | traf :: trafs =>
      let default_flags := default 0 (Traf.default_sample_flags traf) in
      match Traf.trun traf with
      | None => false
      | Some trun =>
          existsb (fun i => sync_flags (flags_at default_flags trun i)) (seq 0 (N.to_nat (Trun.sample_count trun)))
          || sample_keyframe_in trafs
      end
  end.

Definition sample_keyframe (moof : Moof.t) : bool := sample_keyframe_in (Moof.trafs moof).

(** [expect]: there always is such a track where it is called. *)
Definition track_timescale (moov : Moov.t) (track_id : N) : option N :=
  Trak.timescale <$> head (filter (fun trak => Trak.track_id trak = track_id) (Moov.traks moov)).

Module Fragment.
Record t := mk { track : N; timestamp : N; keyframe : bool }.

Definition new (moof : Moof.t) : outcome error t :=
  match Moof.trafs moof with
  | [traf] =>
      match sample_timestamp moof with
      | Some timestamp => Ok (mk (Traf.track_id traf) timestamp (sample_keyframe moof))
      | None => Panic
      end
  | _ => Err MultipleTracks
  end.

(** In milliseconds; a timescale of zero is a division by zero. *)
Definition timestamp_ms (timescale : N) (self : t) : outcome error N :=
  if timescale =? 0 then Panic else Ok ((1000 * timestamp self) mod 2 ^ 64 / timescale).
End Fragment.

(** ** Tracks *)

Module PubTrack.
Record t := mk {
  track : SubgroupsWriter.t;
  current : option SubgroupWriter.t;
  timescale : N;
  handler : TrackType.t;
}.

Definition with_current (x : option SubgroupWriter.t) (self : t) : t :=
  mk (track self) x (timescale self) (handler self).

(** [track.groups().unwrap()] *)
Definition new (track : TrackWriter.t) (handler : TrackType.t) (timescale : N) (x : Store.t) :
    outcome error t * Store.t :=
  match TrackWrite.groups track x with
  | (Ok groups, x) => (Ok (mk groups None timescale handler), x)
  | (_, x) => (Panic, x)
  end.

(** One more object of the group that is open. *)
Definition write_current (raw : list byte) (segment : SubgroupWriter.t) : M (t * Store.t) error unit := fun '(self, x) =>
  let '(r, (segment, w)) := SubgroupWriter.write raw (segment, Store.subgroups x) in
  (from_serve r, (with_current (Some segment) self, Store.with_subgroups w x)).

Definition header (raw : list byte) (fragment : Fragment.t) : M (t * Store.t) error unit := fun '(self, x) =>
  match current self with
  | Some segment => write_current raw segment (self, x)
  | None =>
      match Fragment.timestamp_ms (timescale self) fragment with
      | Ok ms =>
          if ms <? 2 ^ 32 then
            match SubgroupsWriter.append (bn 127) (track self, Store.subgroups x) with
            | (Ok segment, (tr, w)) =>
                let self := mk tr (current self) (timescale self) (handler self) in
                match SubgroupWriter.write raw (segment, w) with
                | (Ok _, (segment, w)) => (Ok tt, (with_current (Some segment) self, Store.with_subgroups w x))
                | (Err e, (segment, w)) => (Err (Serve e), (self, Store.with_subgroups (SubgroupWriter.drop segment w) x))
                | (Panic, (_, w)) => (Panic, (self, Store.with_subgroups w x))
                end
            | (r, (tr, w)) =>
                (match r with Err e => Err (Serve e) | _ => Panic end,
                 (mk tr (current self) (timescale self) (handler self), Store.with_subgroups w x))
            end
          else (Err TimestampTooLarge, (self, x))
      | Err e => (Err e, (self, x))
      | Panic => (Panic, (self, x))
      end
  end.

Definition data (raw : list byte) : M (t * Store.t) error unit := fun '(self, x) =>
  match current self with
  | Some segment => write_current raw segment (self, x)
  | None => (Err MissingFragment, (self, x))
  end.

(** Dropping the writer ends the group. *)
Definition drop_current (self : t) (x : Store.t) : Store.t :=
  match current self with
  | Some segment => Store.with_subgroups (SubgroupWriter.drop segment (Store.subgroups x)) x
  | None => x
  end.

Definition end_group (self : t) (x : Store.t) : t * Store.t := (with_current None self, drop_current self x).

Definition drop (self : t) (x : Store.t) : Store.t :=
  drop_current self (Store.with_subgroups (SubgroupsWriter.drop (track self) (Store.subgroups x)) x).
End PubTrack.

(** [values_mut] visits the tracks in some order. *)
Class TrackOrder := {
  track_order : gmap N PubTrack.t -> list N;
  track_order_perm : forall m, track_order m ≡ₚ (map_to_list m).*1;
}.

(** ** [Media] *)

Module Media.
Section Media.
Context `{Mp4, TrackOrder}.

Record t := mk {
  tracks : gmap N PubTrack.t;
  broadcast : TracksWriter.t;
  init : SubgroupsWriter.t;
  catalog : SubgroupsWriter.t;
  ftyp : option (list byte);
  moov : option Moov.t;
  current : option N;
}.

Definition with_tracks (m : gmap N PubTrack.t) (self : t) : t :=
  mk m (broadcast self) (init self) (catalog self) (ftyp self) (moov self) (current self).
Definition with_init (g : SubgroupsWriter.t) (self : t) : t :=
  mk (tracks self) (broadcast self) g (catalog self) (ftyp self) (moov self) (current self).
Definition with_catalog (g : SubgroupsWriter.t) (self : t) : t :=
  mk (tracks self) (broadcast self) (init self) g (ftyp self) (moov self) (current self).
Definition with_ftyp (f : option (list byte)) (self : t) : t :=
  mk (tracks self) (broadcast self) (init self) (catalog self) f (moov self) (current self).
Definition with_moov (m : option Moov.t) (self : t) : t :=
  mk (tracks self) (broadcast self) (init self) (catalog self) (ftyp self) m (current self).
Definition with_current (c : option N) (self : t) : t :=
  mk (tracks self) (broadcast self) (init self) (catalog self) (ftyp self) (moov self) c.

(** A track of the broadcast, as groups. *)
Definition create_groups (name : String) (broadcast : TracksWriter.t) (x : Store.t) :
    outcome error SubgroupsWriter.t * Store.t :=
  match TracksWriter.create name broadcast x with
  | (Some track, x) => let (r, x) := TrackWrite.groups track x in (from_serve r, x)
  | (None, x) => (Err BroadcastClosed, x)
  end.

Definition new (broadcast : TracksWriter.t) (x : Store.t) : outcome error t * Store.t :=
  match create_groups (str ".catalog") broadcast x with
  | (Ok catalog, x) =>
      match create_groups (str "0.mp4") broadcast x with
      | (Ok init, x) => (Ok (mk ∅ broadcast init catalog None None None), x)
      | (Err e, x) =>
          (Err e, TracksWriter.drop broadcast
                    (Store.with_subgroups (SubgroupsWriter.drop catalog (Store.subgroups x)) x))
      | (Panic, x) => (Panic, x)
      end
  | (Err e, x) => (Err e, TracksWriter.drop broadcast x)
  | (Panic, x) => (Panic, x)
  end.

(** One track that is there. *)
Definition update (id : N) (f : PubTrack.t -> Store.t -> PubTrack.t * Store.t) (m : gmap N PubTrack.t) (x : Store.t) :
    gmap N PubTrack.t * Store.t :=
  match m !! id with
  | Some track => let (track, x) := f track x in (<[id := track]> m, x)
  | None => (m, x)
  end.

Definition end_groups (m : gmap N PubTrack.t) (x : Store.t) : gmap N PubTrack.t * Store.t :=
  fold_left (fun p id => update id PubTrack.end_group p.1 p.2) (track_order m) (m, x).

Definition reset (self : t) (x : Store.t) : t * Store.t :=
  let (m, x) := end_groups (tracks self) x in (with_tracks m self, x).

(** A call on a track of the map. *)
Definition on_track {A} (id : N) (f : M (PubTrack.t * Store.t) error A) : M (t * Store.t) error A := fun '(self, x) =>
  match tracks self !! id with
  | None => (Err NoTrack, (self, x))
  | Some track =>
      let '(r, (track, x)) := f (track, x) in (r, (with_tracks (<[id := track]> (tracks self)) self, x))
  end.

(** [self.g.append(0)?.write(payload)?]: the writer of the group is a temporary. *)
Definition publish_once (payload : list byte) : M (SubgroupsWriter.t * Store.t) error unit := fun '(g, x) =>
  match SubgroupsWriter.append (bn 0) (g, Store.subgroups x) with
  | (Ok segment, (g, w)) =>
      let '(r, (segment, w)) := SubgroupWriter.write payload (segment, w) in
      (from_serve r, (g, Store.with_subgroups (match r with Panic => w | _ => SubgroupWriter.drop segment w end) x))
  | (Err e, (g, w)) => (Err (Serve e), (g, Store.with_subgroups w x))
  | (Panic, (g, w)) => (Panic, (g, Store.with_subgroups w x))
  end.

Definition on_init {A} (f : M (SubgroupsWriter.t * Store.t) error A) : M (t * Store.t) error A := fun '(self, x) =>
  let '(r, (g, x)) := f (init self, x) in (r, (with_init g self, x)).
Definition on_catalog {A} (f : M (SubgroupsWriter.t * Store.t) error A) : M (t * Store.t) error A := fun '(self, x) =>
  let '(r, (g, x)) := f (catalog self, x) in (r, (with_catalog g self, x)).

(** *** [setup] *)

(** How a track is to be played, from its sample entry. *)
Definition selection_params (trak : Trak.t) : outcome error SelectionParam.t :=
  match Trak.avc1 trak with
  | Some avc1 =>
      Ok (SelectionParam.mk
        (Some (codec_avc1 (Avc1.avc_profile_indication avc1) (Avc1.profile_compatibility avc1) (Avc1.avc_level_indication avc1)))
        None None None (Some (Avc1.width avc1)) (Some (Avc1.height avc1)) None None None None None)
  | None =>
      match Trak.hev1 trak, Trak.mp4a trak, Trak.vp09 trak with
      | Some _, _, _ => Err Unsupported
      | None, Some mp4a, _ =>
          match Mp4a.esds mp4a with
          | None => Err MissingEsds
          | Some desc =>
              let bitrate := N.max (DecConfig.max_bitrate desc) (DecConfig.avg_bitrate desc) in
              Ok (SelectionParam.mk
                (Some (format [text "mp4a."; hex2 (nb (DecConfig.object_type_indication desc)); text ".";
                               decimal (nb (DecConfig.profile desc))]))
                None None (if 0 <? bitrate then Some bitrate else None) None None (Some (Mp4a.samplerate mp4a))
                (Some (format [decimal (Mp4a.channelcount mp4a)])) None None None)
          end
      | None, None, Some _ => Err Unsupported
      | None, None, None => Err (UnknownCodec (Trak.track_id trak))
      end
  end.

(** The entry of the catalog, and the track of the broadcast; a track the map had
    under that id is dropped. *)
Definition setup_track (moov : Moov.t) (trak : Trak.t) : M (t * Store.t) error CatalogTrack.t := fun '(self, x) =>
  let id := Trak.track_id trak in
  let name := m4s id in
  match track_timescale moov id, track_type (Trak.handler_type trak) with
  | None, _ => (Panic, (self, x))
  | Some _, None => (Err Mp4Error, (self, x))
  | Some timescale, Some handler =>
      match selection_params trak with
      | Ok params =>
          let entry := CatalogTrack.mk (Some (Tuple.to_utf8_path (Tracks.namespace (TracksWriter.info (broadcast self)))))
            name (Some (Track.name (SubgroupsWriter.info (init self)))) None (Some TrackPackaging.Cmaf) (Some 1) None
            params None None None in
          match TracksWriter.create name (broadcast self) x with
          | (None, x) => (Err BroadcastClosed, (self, x))
          | (Some tw, x) =>
              match PubTrack.new tw handler timescale x with
              | (Ok track, x) =>
                  let x := match tracks self !! id with Some old => PubTrack.drop old x | None => x end in
                  (Ok entry, (with_tracks (<[id := track]> (tracks self)) self, x))
              | (_, x) => (Panic, (self, x))
              end
          end
      | Err e => (Err e, (self, x))
      | Panic => (Panic, (self, x))
      end
  end.

Fixpoint setup_tracks (moov : Moov.t) (traks : list Trak.t) : M (t * Store.t) error (list CatalogTrack.t) :=
  match traks with
  | [] => ret []
  | trak :: traks =>
      let! entry := setup_track moov trak in
      let! entries := setup_tracks moov traks in
      ret (entry :: entries)
  end.

Definition root (entries : list CatalogTrack.t) : Catalog.t :=
  let (common, entries) := FromTracks.from_tracks entries in
  Catalog.mk 1 1 (str "0.2") true common entries.

Definition setup (moov : Moov.t) (raw : list byte) : M (t * Store.t) error unit :=
  let! ftyp := (fun s => ok_or (ftyp s.1) MissingFtyp s) in
  do! on_init (publish_once (ftyp ++ raw)) in
  let! entries := setup_tracks moov (Moov.traks moov) in
  let! catalog := ok_or (to_string_pretty (root entries)) Json in
  on_catalog (publish_once catalog).

(** *** [parse] *)

(** A keyframe of the video ends the groups of all tracks. *)
Definition keyframe (fragment : Fragment.t) : M (t * Store.t) error unit := fun '(self, x) =>
  if Fragment.keyframe fragment then
    match tracks self !! Fragment.track fragment with
    | None => (Err NoTrack, (self, x))
    | Some track =>
        if decide (PubTrack.handler track = TrackType.Video) then
          let (self, x) := reset self x in (Ok tt, (self, x))
        else (Ok tt, (self, x))
    end
  else (Ok tt, (self, x)).

Definition lift {A} (r : outcome error A) : M (t * Store.t) error A := fun s => (r, s).

Definition parse_moof (atom rest : list byte) (size : N) : M (t * Store.t) error unit :=
  let! moof := ok_or (read_moof rest size) Mp4Error in
  let! fragment := lift (Fragment.new moof) in
  let id := Fragment.track fragment in
  do! keyframe fragment in
  fun '(self, x) =>
    match tracks self !! id, current self with
    | None, _ => (Err NoTrack, (self, x))
    | Some _, Some _ => (Err MultipleMoof, (self, x))
    | Some _, None => on_track id (PubTrack.header atom fragment) (with_current (Some id) self, x)
    end.

Definition parse_mdat (atom : list byte) : M (t * Store.t) error unit := fun '(self, x) =>
  match current self with
  | None => (Err MissingMoof, (self, x))
  | Some id => on_track id (PubTrack.data atom) (with_current None self, x)
  end.

Definition parse_moov (atom rest : list byte) (size : N) : M (t * Store.t) error unit := fun '(self, x) =>
  match moov self with
  | Some _ => (Ok tt, (self, x))
  | None =>
      match read_moov rest size with
      | None => (Err Mp4Error, (self, x))
      | Some m =>
          match setup m atom (self, x) with
          | (Ok _, (self, x)) => (Ok tt, (with_moov (Some m) self, x))
          | r => r
          end
      end
  end.

(** What becomes of one box. *)
Definition handle (atom : list byte) : M (t * Store.t) error unit :=
  let! header := ok_or (read_header atom) Mp4Error in
  let '(name, size, rest) := header in
  match name with
  | BoxType.FtypBox => fun '(self, x) =>
      (Ok tt, ((match ftyp self with Some _ => self | None => with_ftyp (Some atom) self end), x))
  | BoxType.MoovBox => parse_moov atom rest size
  | BoxType.MoofBox => parse_moof atom rest size
  | BoxType.MdatBox => parse_mdat atom
  | BoxType.UnknownBox => ret tt
  end.

Definition parse_atom (buf : list byte) (s : t * Store.t) : outcome error bool * (list byte * (t * Store.t)) :=
  match next_atom buf with
  | (Ok (Some atom), buf) =>
      let (r, s) := handle atom s in
      (match r with Ok _ => Ok true | Err e => Err e | Panic => Panic end, (buf, s))
  | (Ok None, buf) => (Ok false, (buf, s))
  | (Err e, buf) => (Err e, (buf, s))
  | (Panic, buf) => (Panic, (buf, s))
  end.

(** [while self.parse_atom(buf)? {}] *)
Fixpoint parse_loop (fuel : nat) (buf : list byte) (s : t * Store.t) :
    option (outcome error unit * (list byte * (t * Store.t))) :=
  match fuel with
  | O => None
  | S fuel =>
      match parse_atom buf s with
      | (Ok true, (buf, s)) => parse_loop fuel buf s
      | (Ok false, (buf, s)) => Some (Ok tt, (buf, s))
      | (Err e, p) => Some (Err e, p)
      | (Panic, p) => Some (Panic, p)
      end
  end.
End Media.
End Media.

(** ** Cutting the input *)

Lemma cut_spec size buf :
  match cut size buf with
  | (Ok (Some atom), rest) => buf = atom ++ rest /\ lenN atom = size
  | (Ok None, buf') => buf' = buf /\ lenN buf < size
  | _ => False
  end.
Proof.
  unfold cut. destruct (N.ltb_spec (lenN buf) size); [done|]. split; [by rewrite take_drop|].
  unfold lenN in *. rewrite length_take. lia.
Qed.

Lemma cut_more size buf more :
  match cut size buf with
  | (Ok (Some atom), rest) => cut size (buf ++ more) = (Ok (Some atom), rest ++ more)
  | _ => True
  end.
Proof.
  unfold cut. destruct (N.ltb_spec (lenN buf) size) as [|Hle]; [done|]. rewrite lenN_app.
  destruct (N.ltb_spec (lenN buf + lenN more) size); [lia|]. unfold lenN in *.
  rewrite take_app_le, drop_app_le by lia. done.
Qed.

(** Every branch of [next_atom]: a box that is cut is the front of the
    buffer, of the size its header says and of eight bytes at least; less than that
    leaves the buffer as it is; sizes 0 and 2 to 7 and an extended size below 16 are
    errors. A buffer that ends inside an extended size is a panic, and nothing else is. *)
Theorem next_atom_branches (buf : list byte) :
  let size := from_be (take 4 buf) in
  let size := if size =? 1 then from_be (take 8 (skipn 8 buf)) else size in
  match next_atom buf with
  | (Ok (Some atom), rest) => buf = atom ++ rest /\ lenN atom = size /\ 8 <= lenN atom
  | (Ok None, buf') => buf' = buf /\ (lenN buf < 8 \/ lenN buf < size)
  | (Err EofAtom, buf') => buf' = buf /\ size = 0
  | (Err (ImpossibleSize n), buf') => buf' = buf /\ n = size /\ n < 16
  | (Err _, _) => False
  | (Panic, buf') => buf' = buf /\ 8 <= lenN buf < 16 /\ from_be (take 4 buf) = 1
  end.
Proof.
  unfold next_atom. destruct (N.ltb_spec (lenN buf) 8); [auto|]. cbv zeta.
  destruct (N.eqb_spec (from_be (take 4 buf)) 0) as [->|H0]; [done|].
  destruct (N.eqb_spec (from_be (take 4 buf)) 1) as [H1|H1].
  - destruct (N.ltb_spec (lenN buf) 16); [done|]. set (size := from_be (take 8 (skipn 8 buf))).
    destruct (N.leb_spec 16 size); [|done]. pose proof (cut_spec size buf) as Hc.
    destruct (cut size buf) as [[[atom|]|?|] rest]; [|tauto|done|done]. destruct Hc as [-> ->]. split; [done|lia].
  - set (size := from_be (take 4 buf)) in *. destruct (N.leb_spec size 7); [split; [done|lia]|].
    pose proof (cut_spec size buf) as Hc.
    destruct (cut size buf) as [[[atom|]|?|] rest]; [|tauto|done|done]. destruct Hc as [-> ->]. split; [done|lia].
Qed.

(** What is decided stays decided when more arrives. *)
Lemma next_atom_more buf more :
  match next_atom buf with
  | (Ok (Some atom), rest) => next_atom (buf ++ more) = (Ok (Some atom), rest ++ more)
  | (Err e, _) => next_atom (buf ++ more) = (Err e, buf ++ more)
  | _ => True
  end.
Proof.
  unfold next_atom. destruct (N.ltb_spec (lenN buf) 8) as [|H8]; [done|].
  assert (H4 : take 4 (buf ++ more) = take 4 buf) by (apply take_app_le; unfold lenN in *; lia).
  rewrite lenN_app, H4. destruct (N.ltb_spec (lenN buf + lenN more) 8); [lia|]. cbv zeta.
  destruct (_ =? 0); [done|]. destruct (_ =? 1).
  - destruct (N.ltb_spec (lenN buf) 16) as [|H16]; [done|]. destruct (N.ltb_spec (lenN buf + lenN more) 16); [lia|].
    replace (take 8 (skipn 8 (buf ++ more))) with (take 8 (skipn 8 buf)).
    2: { rewrite drop_app_le, take_app_le; [done| |]; rewrite ?length_drop; unfold lenN in *; lia. }
    destruct (16 <=? _); [|done]. pose proof (cut_more (from_be (take 8 (skipn 8 buf))) buf more) as Hc.
    pose proof (cut_spec (from_be (take 8 (skipn 8 buf))) buf) as Hs. by destruct (cut _ buf) as [[[atom|]|?|] rest].
  - destruct (_ <=? 7); [done|]. pose proof (cut_more (from_be (take 4 buf)) buf more) as Hc.
    pose proof (cut_spec (from_be (take 4 buf)) buf) as Hs. by destruct (cut _ buf) as [[[atom|]|?|] rest].
Qed.

(** The bytes of an extended size are not all there. *)
Definition short_extended (buf : list byte) : Prop := 8 <= lenN buf < 16 /\ from_be (take 4 buf) = 1.

(** ** Feeding the parser *)

Section Feed.
Context `{Mp4, TrackOrder}.

(** The loop with the fuel it needs: every turn but the last takes eight bytes. *)
Definition parse (buf : list byte) (s : Media.t * Store.t) := Media.parse_loop (S (length buf)) buf s.

(** [run_media] of [main.rs]: what has been read is appended and parsed. *)
Fixpoint feed (pieces : list (list byte)) (buf : list byte) (s : Media.t * Store.t) :
    option (outcome error unit * (list byte * (Media.t * Store.t))) :=
  match pieces with
  | [] => Some (Ok tt, (buf, s))
  | piece :: pieces =>
      match parse (buf ++ piece) s with
      | Some (Ok _, (buf, s)) => feed pieces buf s
      | r => r
      end
  end.

Lemma parse_fuel f : forall buf s, (length buf < f)%nat ->
  Media.parse_loop f buf s = parse buf s /\ is_Some (parse buf s).
Proof.
  induction f as [f IH] using lt_wf_ind. intros buf s Hf. unfold parse.
  destruct f as [|f]; [lia|]. cbn [Media.parse_loop]. unfold Media.parse_atom.
  pose proof (next_atom_branches buf) as Hn. cbv zeta in Hn.
  destruct (next_atom buf) as [[[atom|]|e|] rest]; [|eauto|eauto|eauto].
  destruct Hn as (Hb & _ & H8). destruct (Media.handle atom s) as [[[]|e|] s']; [|eauto|eauto].
  assert (Hl : (length rest < length buf)%nat) by (subst buf; rewrite length_app; unfold lenN in H8; lia).
  destruct (IH f ltac:(lia) rest s' ltac:(lia)) as [-> Hs].
  destruct (IH (length buf) ltac:(lia) rest s' Hl) as [-> _]. done.
Qed.

Lemma parse_more f : forall buf s r buf' s', Media.parse_loop f buf s = Some (r, (buf', s')) ->
  match r with
  | Ok _ => next_atom buf' = (Ok None, buf') /\ forall more, parse (buf ++ more) s = parse (buf' ++ more) s'
  | Err e => forall more, parse (buf ++ more) s = Some (Err e, (buf' ++ more, s'))
  | Panic => short_extended buf' \/ forall more, parse (buf ++ more) s = Some (Panic, (buf' ++ more, s'))
  end.
Proof.
  induction f as [|f IH]; intros buf s r buf' s'; [done|]. cbn [Media.parse_loop]. unfold Media.parse_atom.
  pose proof (next_atom_branches buf) as Hn. cbv zeta in Hn.
  assert (Hm := next_atom_more buf). 
  assert (Hp : forall more, parse (buf ++ more) s = Media.parse_loop (S (length (buf ++ more))) (buf ++ more) s) by done.
  cbn [Media.parse_loop] in Hp. unfold Media.parse_atom in Hp.
  destruct (next_atom buf) as [[[atom|]|e|] rest] eqn:En.
  - destruct Hn as (Hb & _ & H8). destruct (Media.handle atom s) as [[[]|e|] s1] eqn:Eh.
    + intros E. specialize (IH rest s1 r buf' s' E).
      assert (Hq : forall more, parse (buf ++ more) s = parse (rest ++ more) s1).
      { intros more. rewrite Hp, Hm, Eh. apply parse_fuel. subst buf. rewrite !length_app. unfold lenN in H8. lia. }
      destruct r as [[]|e|].
      * destruct IH as [H1 H2]. split; [done|]. intros more. by rewrite Hq.
      * intros more. by rewrite Hq.
      * destruct IH as [Hs|Hs]; [by left|right]. intros more. by rewrite Hq.
    + intros [= <- <- <-] more. by rewrite Hp, Hm, Eh.
    + intros [= <- <- <-]. right. intros more. by rewrite Hp, Hm, Eh.
  - destruct Hn as [Hb _]. intros [= <- <- <-]. split; [congruence|]. by rewrite Hb.
  - intros [= <- <- <-] more. rewrite Hp, Hm. replace rest with buf; [done|].
    destruct e; (done || (destruct Hn as [-> _]; done)).
  - destruct Hn as (-> & Hr). intros [= <- <- <-]. by left.
Qed.

(** C36 (refinement). It does not matter how the input arrives. Fed in any pieces, the
    publisher always returns, and it does with the broadcast exactly what it would do
    with the whole input at once, up to the first error, except that a piece which
    ends inside the extended size of a box makes it panic. *)
Theorem feed_pieces (pieces : list (list byte)) (s : Media.t * Store.t) :
  exists r buf s', feed pieces [] s = Some (r, (buf, s')) /\
  match r with
  | Ok _ => parse (concat pieces) s = Some (Ok tt, (buf, s'))
  | Err e => exists more, parse (concat pieces) s = Some (Err e, (buf ++ more, s'))
  | Panic => short_extended buf \/ exists more, parse (concat pieces) s = Some (Panic, (buf ++ more, s'))
  end.
Proof.
  cut (forall buf, next_atom buf = (Ok None, buf) ->
    exists r buf' s', feed pieces buf s = Some (r, (buf', s')) /\
    match r with
    | Ok _ => parse (buf ++ concat pieces) s = Some (Ok tt, (buf', s'))
    | Err e => exists more, parse (buf ++ concat pieces) s = Some (Err e, (buf' ++ more, s'))
    | Panic => short_extended buf' \/ exists more, parse (buf ++ concat pieces) s = Some (Panic, (buf' ++ more, s'))
    end); [intros Hc; by apply (Hc [])|].
  revert s. induction pieces as [|p ps IH]; intros s buf Hb.
  - exists (Ok tt), buf, s. split; [done|]. cbn [concat]. rewrite app_nil_r. unfold parse. cbn [Media.parse_loop].
    unfold Media.parse_atom. by rewrite Hb.
  - cbn [feed concat]. destruct (parse_fuel (S (length (buf ++ p))) (buf ++ p) s) as [_ [[r [b1 s1]] E]]; [lia|].
    rewrite E. pose proof (parse_more _ _ _ _ _ _ E) as Hm. rewrite app_assoc. destruct r as [[]|e|].
    + destruct Hm as [H1 H2]. rewrite H2. by apply IH.
    + eexists _, _, _. split; [done|]. exists (concat ps). apply Hm.
    + eexists _, _, _. split; [done|]. destruct Hm as [Hm|Hm]; [by left|right]. exists (concat ps). apply Hm.
Qed.
End Feed.

(** ** What is published

    The program told by its successful boxes: per track its groups, each the list of
    its objects; the tracks with a group open; the track of the last [moof]. *)
Inductive event :=
  | Header (fragment : Fragment.t) (raw : list byte)
  | Data (raw : list byte)
  | Other.

Record book := mk_book {
  groups_of : N -> list (list (list byte));
  opened : gset N;
  pending : option N;
}.

Definition set_pending (p : option N) (b : book) : book := mk_book (groups_of b) (opened b) p.

(** One more object of the open group, or of a new one. *)
Definition extend {A} (f : A -> A) (l : list A) : list A :=
  match last l with Some x => removelast l ++ [f x] | None => [] end.

Definition write_book (id : N) (raw : list byte) (b : book) : book :=
  if decide (id ∈ opened b) then mk_book (<[id := extend (fun g => g ++ [raw]) (groups_of b id)]> (groups_of b)) (opened b) (pending b)
  else mk_book (<[id := groups_of b id ++ [[raw]]]> (groups_of b)) ({[id]} ∪ opened b) (pending b).

Definition publish (video : N -> bool) (e : event) (b : book) : book :=
  match e with
  | Header fragment raw =>
      let id := Fragment.track fragment in
      let b := if Fragment.keyframe fragment && video id then mk_book (groups_of b) ∅ (pending b) else b in
      set_pending (Some id) (write_book id raw b)
  | Data raw =>
      match pending b with
      | Some id => set_pending None (write_book id raw b)
      | None => b
      end
  | Other => b
  end.

Definition empty_book : book := mk_book (fun _ => []) ∅ None.

Definition publish_all (video : N -> bool) (es : list event) : book := fold_left (fun b e => publish video e b) es empty_book.

(** The boxes of a track, in order. *)
Fixpoint atoms_of (id : N) (es : list event) (p : option N) : list (list byte) :=
  match es with
  | [] => []
  | Header fragment raw :: es =>
      (if decide (Fragment.track fragment = id) then [raw] else []) ++ atoms_of id es (Some (Fragment.track fragment))
  | Data raw :: es => (if decide (p = Some id) then [raw] else []) ++ atoms_of id es None
  | Other :: es => atoms_of id es p
  end.

Lemma last_removelast {A} (l : list A) x : last l = Some x -> l = removelast l ++ [x].
Proof.
  destruct l as [|y l'] using rev_ind; [done|]. rewrite last_snoc. intros [= ->]. by rewrite removelast_last.
Qed.

(** *** The groups and the boxes *)

Definition book_ok (b : book) : Prop := forall id, id ∈ opened b -> groups_of b id <> [].

Lemma write_book_ok id raw b : book_ok b -> book_ok (write_book id raw b).
Proof.
  intros Hb j. unfold write_book. destruct (decide (id ∈ opened b)) as [Hi|Hi]; cbn [opened groups_of].
  - intros Hj. destruct (decide (j = id)) as [->|Hne]; [|rewrite fn_lookup_insert_ne by done; by apply Hb].
    rewrite fn_lookup_insert. unfold extend. destruct (last _) as [x|] eqn:E; [|by apply last_None in E; apply Hb in E].
    by destruct (removelast _).
  - intros Hj. destruct (decide (j = id)) as [->|Hne].
    + rewrite fn_lookup_insert. by destruct (groups_of b id).
    + rewrite fn_lookup_insert_ne by done. apply Hb. apply elem_of_union in Hj as [Hj|Hj]; [|done].
      by apply elem_of_singleton in Hj.
Qed.

Lemma write_book_atoms id raw b j : book_ok b ->
  concat (groups_of (write_book id raw b) j) = concat (groups_of b j) ++ (if decide (id = j) then [raw] else []).
Proof.
  intros Hb. unfold write_book.
  destruct (decide (id ∈ opened b)) as [Hi|Hi]; cbn [groups_of]; destruct (decide (id = j)) as [<-|Hne];
    rewrite ?fn_lookup_insert, ?app_nil_r; try (by rewrite fn_lookup_insert_ne).
  - unfold extend. destruct (last (groups_of b id)) as [g|] eqn:E; [|by apply last_None in E; apply Hb in E].
    pose proof (last_removelast _ _ E) as El. rewrite El at 2. rewrite !concat_app. cbn [concat]. by rewrite !app_nil_r, app_assoc.
  - rewrite concat_app. cbn [concat]. done.
Qed.

(** Every box of a track is in exactly one object of it, in order. *)
Lemma publish_atoms video id es b : book_ok b ->
  concat (groups_of (fold_left (fun b e => publish video e b) es b) id) = concat (groups_of b id) ++ atoms_of id es (pending b).
Proof.
  revert b. induction es as [|e es IH]; intros b Hb; cbn [fold_left atoms_of]; [by rewrite app_nil_r|].
  destruct e as [f raw|raw|]; cbn [publish atoms_of].
  - set (b1 := if Fragment.keyframe f && video (Fragment.track f) then _ else b). assert (H1 : book_ok b1 /\ groups_of b1 = groups_of b).
    { unfold b1. destruct (_ && _); [|done]. split; [|done]. intros j Hj. by apply elem_of_empty in Hj. }
    destruct H1 as [H1 H2]. rewrite IH by (apply (write_book_ok _ raw _ H1)). cbn [groups_of pending set_pending].
    rewrite write_book_atoms, H2 by done. by rewrite <- app_assoc.
  - destruct (pending b) as [p|] eqn:Ep.
    + rewrite IH by (apply (write_book_ok _ raw _ Hb)). cbn [groups_of pending set_pending].
      rewrite write_book_atoms by done. rewrite <- app_assoc. f_equal. f_equal. repeat case_decide; congruence.
    + rewrite IH, Ep by done. done.
  - by apply IH.
Qed.

(** *** The cache and the book *)

Section Published.
Context `{Mp4, TrackOrder}.

Definition event_of (atom : list byte) : event :=
  match read_header atom with
  | Some (BoxType.MoofBox, size, rest) =>
      match read_moof rest size with
      | Some moof => match Fragment.new moof with Ok fragment => Header fragment atom | _ => Other end
      | None => Other
      end
  | Some (BoxType.MdatBox, _, _) => Data atom
  | _ => Other
  end.

(** Where the groups of each track are, with what they hold. *)
Definition distinct (ent : N -> list (Handle * list (list byte))) : Prop := forall i j p q e f,
  ent i !! p = Some e -> ent j !! q = Some f -> loc e.1 = loc f.1 -> i = j /\ p = q.

Definition stored (w : World) (ent : N -> list (Handle * list (list byte))) : Prop := forall i p e, ent i !! p = Some e ->
  allocated w e.1 /\ payloads w e.1 = e.2.

(** The open group of a track is its last. *)
Definition tracked (m : gmap N PubTrack.t) (b : book) (ent : N -> list (Handle * list (list byte))) : Prop := forall id track, m !! id = Some track ->
  match PubTrack.current track with
  | Some g => id ∈ opened b /\ exists e, last (ent id) = Some e /\ loc e.1 = loc (SubgroupWriter.state g)
  | None => id ∉ opened b
  end.

Definition handlers (video : N -> bool) (m : gmap N PubTrack.t) : Prop := forall id track, m !! id = Some track ->
  video id = bool_decide (PubTrack.handler track = TrackType.Video).

Record shown (video : N -> bool) (mine : list nat) (s : Media.t * Store.t) (b : book) (ent : N -> list (Handle * list (list byte))) : Prop := {
  shown_groups : forall id, snd <$> ent id = groups_of b id;
  shown_distinct : distinct ent;
  shown_stored : stored (Store.subgroups s.2) ent;
  shown_tracked : tracked (Media.tracks s.1) b ent;
  shown_pending : Media.current s.1 = pending b;
  shown_moov : Media.moov s.1 <> None;
  shown_handlers : handlers video (Media.tracks s.1);
  shown_mine : forall i p e, ent i !! p = Some e -> loc e.1 ∈ mine;
}.

Lemma stored_keeps w w' ent : keeps (fun _ => False) w w' -> stored w ent -> stored w' ent.
Proof.
  intros Hk Hs i p e He. destruct (Hs _ _ _ He) as [Ha Hp].
  destruct (keeps_payloads _ _ _ e.1 Hk ltac:(tauto) Ha) as [H1 H2]. split; [done|congruence].
Qed.

(** *** Ending the groups *)

Lemma end_group_keeps P track x :
  keeps P (Store.subgroups x) (Store.subgroups (snd (PubTrack.end_group track x))).
Proof.
  unfold PubTrack.end_group, PubTrack.drop_current. destruct (PubTrack.current track); [apply keeps_drop_group|reflexivity].
Qed.

Lemma end_groups_fold l : forall m x,
  let '(m', x') := fold_left (fun p id => Media.update id PubTrack.end_group p.1 p.2) l (m, x) in
  keeps (fun _ => False) (Store.subgroups x) (Store.subgroups x') /\
  forall id, m' !! id = (if decide (id ∈ l) then PubTrack.with_current None <$> m !! id else m !! id).
Proof.
  induction l as [|k l IH]; intros m x; cbn [fold_left].
  { split; [reflexivity|]. intros id. rewrite decide_False by apply not_elem_of_nil. done. }
  cbn [fst snd]. unfold Media.update at 2. destruct (m !! k) as [track|] eqn:Hk.
  - destruct (PubTrack.end_group track x) as [track1 x1] eqn:E1.
    pose proof (end_group_keeps (fun _ => False) track x) as Hkeep. rewrite E1 in Hkeep.
    specialize (IH (<[k := track1]> m) x1). destruct (fold_left _ l _) as [m' x']. destruct IH as [IH1 IH2].
    split; [by etransitivity|]. intros id. rewrite IH2.
    assert (Ht : track1 = PubTrack.with_current None track) by (unfold PubTrack.end_group in E1; congruence).
    destruct (decide (id = k)) as [->|Hne].
    + rewrite (decide_True (P := k ∈ k :: l)) by (by left). rewrite lookup_insert_eq, Hk. subst track1. by case_decide.
    + rewrite lookup_insert_ne by done. assert (Hi : id ∈ k :: l <-> id ∈ l) by (rewrite elem_of_cons; tauto).
      repeat case_decide; tauto.
  - specialize (IH m x). destruct (fold_left _ l _) as [m' x']. destruct IH as [IH1 IH2]. split; [done|].
    intros id. rewrite IH2. destruct (decide (id = k)) as [->|Hne].
    + rewrite Hk. by repeat case_decide.
    + assert (Hi : id ∈ k :: l <-> id ∈ l) by (rewrite elem_of_cons; tauto). repeat case_decide; tauto.
Qed.

(** All tracks have their group closed, nothing else has changed. *)
Lemma reset_spec self x :
  let '(self', x') := Media.reset self x in
  keeps (fun _ => False) (Store.subgroups x) (Store.subgroups x') /\
  self' = Media.with_tracks (PubTrack.with_current None <$> Media.tracks self) self.
Proof.
  unfold Media.reset, Media.end_groups. pose proof (end_groups_fold (track_order (Media.tracks self)) (Media.tracks self) x) as Hf.
  destruct (fold_left _ _ _) as [m' x']. destruct Hf as [H1 H2]. split; [done|]. f_equal.
  apply map_eq. intros id. rewrite H2, lookup_fmap. destruct (Media.tracks self !! id) as [track|] eqn:E; [|by case_decide].
  rewrite decide_True; [done|]. rewrite track_order_perm. apply list_elem_of_fmap. exists (id, track). split; [done|].
  by apply elem_of_map_to_list.
Qed.

Lemma reset_shown video mine self x b ent :
  shown video mine (self, x) b ent ->
  shown video mine (Media.reset self x) (mk_book (groups_of b) ∅ (pending b)) ent.
Proof.
  intros [H1 H2 H3 H4 H5 H6 H7 H8]. pose proof (reset_spec self x) as Hr.
  destruct (Media.reset self x) as [self' x']. destruct Hr as [Hk ->].
  split; try done; cbn [fst snd Media.tracks Media.with_tracks].
  - by eapply stored_keeps.
  - intros id track. rewrite lookup_fmap. intros Ht. destruct (Media.tracks self !! id); [|done]. cbn in Ht. injection Ht as <-.
    cbn. apply not_elem_of_empty.
  - intros id track. rewrite lookup_fmap. intros Ht. destruct (Media.tracks self !! id) as [tr|] eqn:E; [|done].
    cbn in Ht. injection Ht as <-. by apply (H7 id tr).
Qed.

(** *** Writing an object *)

(** The places with the last of a track changed, or with one more. *)
Lemma update_last (ent : N -> list (Handle * list (list byte))) id e v i p e' : last (ent id) = Some e ->
  <[id := removelast (ent id) ++ [v]]> ent i !! p = Some e' ->
  (i = id /\ p = pred (length (ent id)) /\ e' = v) \/
  (ent i !! p = Some e' /\ ~ (i = id /\ p = pred (length (ent id)))).
Proof.
  intros Hl. pose proof (last_removelast _ _ Hl) as El.
  assert (Hlen : length (removelast (ent id)) = pred (length (ent id))) by (rewrite El at 2; rewrite length_app; cbn; lia).
  destruct (decide (i = id)) as [->|Hne]; [|rewrite fn_lookup_insert_ne by done; intros He; right; split; [exact He|tauto]].
  rewrite fn_lookup_insert. intros He. destruct (decide (p < length (removelast (ent id)))%nat) as [Hlt|Hge].
  - right. rewrite lookup_app_l in He by done. split; [|lia]. rewrite El, lookup_app_l by done. done.
  - left. assert (p = length (removelast (ent id))) as ->.
    { apply lookup_lt_Some in He. rewrite length_app in He. cbn in He. lia. }
    rewrite list_lookup_middle in He by done. by simplify_eq.
Qed.

Lemma insert_next (ent : N -> list (Handle * list (list byte))) id v i p e' :
  <[id := ent id ++ [v]]> ent i !! p = Some e' ->
  (i = id /\ p = length (ent id) /\ e' = v) \/ ent i !! p = Some e'.
Proof.
  destruct (decide (i = id)) as [->|Hne]; [|rewrite fn_lookup_insert_ne by done; auto].
  rewrite fn_lookup_insert. intros He. apply lookup_app_Some in He as [He|[Hge He]]; [by right|left].
  apply list_lookup_singleton_Some in He as [Hz ->]. split; [done|]. split; [lia|done].
Qed.

(** What follows for the tracks of the map from the one that was written to. *)
Lemma tracked_insert m id track' b' ent' b ent :
  tracked m b ent -> match PubTrack.current track' with
    | Some g => id ∈ opened b' /\ exists e, last (ent' id) = Some e /\ loc e.1 = loc (SubgroupWriter.state g)
    | None => id ∉ opened b' end ->
  (forall i, i <> id -> ent' i = ent i /\ (i ∈ opened b' <-> i ∈ opened b)) ->
  tracked (<[id := track']> m) b' ent'.
Proof.
  intros Ht Hid Hi i tr Htr. destruct (decide (i = id)) as [->|Hne].
  - rewrite lookup_insert_eq in Htr. by injection Htr as <-.
  - rewrite lookup_insert_ne in Htr by done. destruct (Hi i Hne) as [-> Ho]. specialize (Ht i tr Htr).
    destruct (PubTrack.current tr); by rewrite Ho.
Qed.

Lemma handlers_insert video m id track track' :
  handlers video m -> m !! id = Some track -> PubTrack.handler track' = PubTrack.handler track ->
  handlers video (<[id := track']> m).
Proof.
  intros Hv Ht Hh i tr Hi. destruct (decide (i = id)) as [->|Hne].
  - rewrite lookup_insert_eq in Hi. injection Hi as <-. rewrite Hh. by apply Hv.
  - rewrite lookup_insert_ne in Hi by done. by apply Hv.
Qed.

(** The open group has one more object. *)
Lemma stored_write ent id e g raw (w : World) segment w' :
  distinct ent -> stored w ent -> last (ent id) = Some e -> loc e.1 = loc (SubgroupWriter.state g) ->
  SubgroupWriter.write raw (g, w) = (Ok tt, (segment, w')) ->
  SubgroupWriter.state segment = SubgroupWriter.state g /\
  stored w' (<[id := removelast (ent id) ++ [(e.1, e.2 ++ [raw])]]> ent).
Proof.
  intros Hd Hs Hl Hloc Hw.
  pose proof (write_keeps raw g w) as Hk. rewrite Hw in Hk. cbn [snd] in Hk.
  pose proof (write_payload raw g w) as Hp. rewrite Hw in Hp. cbv zeta in Hp.
  assert (Hlast : ent id !! pred (length (ent id)) = Some e) by (by rewrite <- last_lookup).
  destruct (Hs _ _ _ Hlast) as [Hal Hpay].
  destruct (dropped _); [|done]. destruct Hp as (_ & Hst & _ & Hp). split; [exact Hst|].
  assert (Hsame : forall v, payloads v (SubgroupWriter.state g) = payloads v e.1 /\ (allocated v (SubgroupWriter.state g) <-> allocated v e.1)).
  { intros v. unfold payloads, allocated, listed. by rewrite (cell_of_loc _ _ _ Hloc), Hloc. }
  destruct Hp as [Hp1 Hp2]; [by apply Hsame|]. rewrite !(proj1 (Hsame _)) in Hp1. apply (proj2 (Hsame w')) in Hp2.
  intros i p e' He'. apply (update_last _ _ e) in He' as [(-> & -> & ->)|[He' Hne]]; [| |done].
  - split; [done|]. cbn. by rewrite Hp1, Hpay.
  - destruct (Hs _ _ _ He') as [Ha Hp']. destruct (keeps_payloads _ _ _ e'.1 Hk) as [K1 K2]; [|done|by rewrite K1].
    intros E. destruct (Hd _ _ _ _ _ _ He' Hlast ltac:(congruence)). by apply Hne.
Qed.

Lemma extend_shown video mine self x b ent id track g raw segment w :
  shown video mine (self, x) b ent -> Media.tracks self !! id = Some track -> PubTrack.current track = Some g ->
  SubgroupWriter.write raw (g, Store.subgroups x) = (Ok tt, (segment, w)) ->
  exists ent', shown video mine
    (Media.with_tracks (<[id := PubTrack.with_current (Some segment) track]> (Media.tracks self)) self, Store.with_subgroups w x)
    (write_book id raw b) ent'.
Proof.
  intros [H1 H2 H3 H4 H5 H6 H7 H8] Ht Hg Hw. cbn [fst snd] in *.
  pose proof (H4 id track Ht) as Hcur. rewrite Hg in Hcur. destruct Hcur as [Hop (e & Hl & Hloc)].
  destruct (stored_write _ _ _ _ _ _ _ _ H2 H3 Hl Hloc Hw) as [Hst H3'].
  set (ent' := <[id := removelast (ent id) ++ [(e.1, e.2 ++ [raw])]]> ent) in *.
  assert (Hf : forall i p e', ent' i !! p = Some e' -> exists e0, ent i !! p = Some e0 /\ loc e0.1 = loc e'.1).
  { intros i p e' He'. apply (update_last _ _ e) in He' as [(-> & -> & ->)|[He' _]]; [|by eauto|done].
    exists e. split; [by rewrite <- last_lookup|done]. }
  exists ent'. unfold write_book. rewrite decide_True by done. split; cbn [fst snd groups_of opened pending]; try done.
  - intros i. unfold ent'. destruct (decide (i = id)) as [->|Hne]; [|rewrite !fn_lookup_insert_ne by done; apply H1].
    rewrite !fn_lookup_insert, <- H1. rewrite (last_removelast _ _ Hl) at 2. unfold extend. rewrite !fmap_app.
    cbn [fmap list_fmap]. by rewrite last_snoc, removelast_last.
  - intros i j p q e1 e2 He1 He2 Hll. apply Hf in He1 as (e1' & He1 & E1). apply Hf in He2 as (e2' & He2 & E2).
    eapply H2; [exact He1|exact He2|congruence].
  - apply (tracked_insert _ _ _ _ _ _ _ H4).
    + cbn. split; [done|]. exists (e.1, e.2 ++ [raw]). unfold ent'. rewrite fn_lookup_insert, last_snoc. split; [done|].
      cbn. by rewrite Hst.
    + intros i Hi. unfold ent'. by rewrite fn_lookup_insert_ne.
  - by apply (handlers_insert _ _ _ track).
  - intros i p e' He'. apply Hf in He' as (e0 & He0 & <-). by eapply H8.
Qed.

(** A new group with its first object. *)
Lemma begin_shown video mine self x b ent id track tr g raw segment w1 w :
  shown video mine (self, x) b ent -> Media.tracks self !! id = Some track -> PubTrack.current track = None ->
  SubgroupsWriter.append (bn 127) (PubTrack.track track, Store.subgroups x) = (Ok g, (tr, w1)) ->
  SubgroupWriter.write raw (g, w1) = (Ok tt, (segment, w)) ->
  exists ent', shown video (loc (SubgroupWriter.state segment) :: mine)
    (Media.with_tracks (<[id := PubTrack.mk tr (Some segment) (PubTrack.timescale track) (PubTrack.handler track)]> (Media.tracks self)) self,
     Store.with_subgroups w x) (write_book id raw b) ent'.
Proof.
  intros [H1 H2 H3 H4 H5 H6 H7 H8] Ht Hg Ha Hw. cbn [fst snd] in *.
  pose proof (H4 id track Ht) as Hcur. rewrite Hg in Hcur.
  pose proof (append_keeps (bn 127) (PubTrack.track track) (Store.subgroups x)) as Hka. rewrite Ha in Hka. cbn [snd] in Hka.
  pose proof (append_fresh (bn 127) (PubTrack.track track) (Store.subgroups x)) as Hf. rewrite Ha in Hf.
  destruct Hf as (Hloc & Hal & Hnil). pose proof (write_keeps raw g w1) as Hk. rewrite Hw in Hk. cbn [snd] in Hk.
  pose proof (write_payload raw g w1) as Hp. rewrite Hw in Hp. cbv zeta in Hp. destruct (dropped _); [|done].
  destruct Hp as (_ & Hst & _ & Hp). destruct (Hp Hal) as [Hp1 Hp2]. rewrite Hnil in Hp1. cbn in Hp1.
  set (v := (SubgroupWriter.state g, [raw])). set (ent' := <[id := ent id ++ [v]]> ent).
  assert (Hlt : forall i p e, ent i !! p = Some e -> (loc e.1 < loc v.1)%nat).
  { intros i p e He. destruct (H3 _ _ _ He) as [[Hlt _] _]. cbn. by rewrite Hloc. }
  exists ent'. unfold write_book. rewrite decide_False by done. split; cbn [fst snd groups_of opened pending]; try done.
  - intros i. unfold ent'. destruct (decide (i = id)) as [->|Hne]; [|rewrite !fn_lookup_insert_ne by done; apply H1].
    rewrite !fn_lookup_insert, <- H1. by rewrite fmap_app.
  - intros i j p q e f He Hf Hll.
    apply insert_next in He as [(-> & -> & ->)|He], Hf as [(-> & -> & ->)|Hf]; [done| | |by eapply H2].
    + apply Hlt in Hf. lia.
    + apply Hlt in He. lia.
  - cbn [Store.subgroups Store.with_subgroups]. intros i p e He.
    apply insert_next in He as [(-> & -> & ->)|He]; [done|]. pose proof (Hlt _ _ _ He) as Hl.
    destruct (stored_keeps _ _ _ Hka H3 _ _ _ He) as [Hae Hpe].
    destruct (keeps_payloads _ _ _ e.1 Hk) as [K1 K2]; [cbn in Hl; lia|done|]. by rewrite K1.
  - apply (tracked_insert _ _ _ _ _ _ _ H4); cbn [PubTrack.current opened].
    + split; [by apply elem_of_union_l, elem_of_singleton|]. exists v. unfold ent'. rewrite fn_lookup_insert, last_snoc. split; [done|]. cbn. by rewrite Hst.
    + intros i Hi. unfold ent'. rewrite fn_lookup_insert_ne by done. split; [done|]. rewrite elem_of_union, elem_of_singleton. tauto.
  - by apply (handlers_insert _ _ _ track).
  - intros i p e He. rewrite Hst. apply insert_next in He as [(-> & -> & ->)|He]; [by left|]. right. by eapply H8.
Qed.

(** *** A box *)

Definition open_groups (m : gmap N PubTrack.t) : list nat :=
  omap (fun p => (fun g => loc (SubgroupWriter.state g)) <$> PubTrack.current p.2) (map_to_list m).

Lemma open_groups_spec m id track g : m !! id = Some track -> PubTrack.current track = Some g ->
  loc (SubgroupWriter.state g) ∈ open_groups m.
Proof.
  intros Ht Hg. unfold open_groups. apply list_elem_of_omap. exists (id, track). split; [by apply elem_of_map_to_list|].
  cbn. by rewrite Hg.
Qed.

Lemma shown_mono video mine mine' s b ent :
  (forall l, l ∈ mine -> l ∈ mine') -> shown video mine s b ent -> shown video mine' s b ent.
Proof. intros Hm [H1 H2 H3 H4 H5 H6 H7 H8]. split; try done. intros i p e He. by eapply Hm, H8. Qed.

Lemma pending_shown video mine self x b ent p :
  shown video mine (self, x) b ent -> shown video mine (Media.with_current p self, x) (set_pending p b) ent.
Proof. intros [H1 H2 H3 H4 H5 H6 H7 H8]. by split. Qed.

(** [header] and [data] of a track that is there. *)
Lemma header_shown video mine self x b ent id track fragment raw track' x' :
  shown video mine (self, x) b ent -> Media.tracks self !! id = Some track ->
  PubTrack.header raw fragment (track, x) = (Ok tt, (track', x')) ->
  let m' := <[id := track']> (Media.tracks self) in
  exists ent', shown video (mine ++ open_groups m') (Media.with_tracks m' self, x') (write_book id raw b) ent'.
Proof.
  intros Hs Ht. unfold PubTrack.header. destruct (PubTrack.current track) as [g|] eqn:Hg.
  - unfold PubTrack.write_current. destruct (SubgroupWriter.write _ _) as [[[]|e|] [segment w]] eqn:Ew; [|done|done].
    intros [= <- <-]. cbv zeta. destruct (extend_shown _ _ _ _ _ _ _ _ _ _ _ _ Hs Ht Hg Ew) as [ent' H']. exists ent'.
    eapply shown_mono; [|exact H']. intros l Hl. apply elem_of_app. by left.
  - destruct (Fragment.timestamp_ms _ _); [|done|done]. destruct (_ <? _); [|done].
    destruct (SubgroupsWriter.append _ _) as [[g|e|] [tr w1]] eqn:Ea; [|done|done].
    destruct (SubgroupWriter.write _ _) as [[[]|e|] [segment w]] eqn:Ew; [|done|done].
    intros [= <- <-]. cbv zeta. destruct (begin_shown _ _ _ _ _ _ _ _ _ _ _ _ _ _ Hs Ht Hg Ea Ew) as [ent' H']. exists ent'.
    eapply shown_mono; [|exact H']. intros l Hl. apply elem_of_app. apply elem_of_cons in Hl as [->|Hl]; [right|by left].
    eapply open_groups_spec; [apply lookup_insert_eq|done].
Qed.

Lemma data_shown video mine self x b ent id track raw track' x' :
  shown video mine (self, x) b ent -> Media.tracks self !! id = Some track ->
  PubTrack.data raw (track, x) = (Ok tt, (track', x')) ->
  let m' := <[id := track']> (Media.tracks self) in
  exists ent', shown video (mine ++ open_groups m') (Media.with_tracks m' self, x') (write_book id raw b) ent'.
Proof.
  intros Hs Ht. unfold PubTrack.data. destruct (PubTrack.current track) as [g|] eqn:Hg; [|done].
  unfold PubTrack.write_current. destruct (SubgroupWriter.write _ _) as [[[]|e|] [segment w]] eqn:Ew; [|done|done].
  intros [= <- <-]. cbv zeta. destruct (extend_shown _ _ _ _ _ _ _ _ _ _ _ _ Hs Ht Hg Ew) as [ent' H']. exists ent'.
  eapply shown_mono; [|exact H']. intros l Hl. apply elem_of_app. by left.
Qed.

(** The groups end for a keyframe of the video. *)
Lemma keyframe_shown video mine self x b ent fragment self' x' :
  shown video mine (self, x) b ent -> Media.keyframe fragment (self, x) = (Ok tt, (self', x')) ->
  shown video mine (self', x')
    (if Fragment.keyframe fragment && video (Fragment.track fragment) then mk_book (groups_of b) ∅ (pending b) else b) ent.
Proof.
  intros Hs. unfold Media.keyframe. destruct (Fragment.keyframe fragment); [|by intros [= <- <-]].
  destruct (Media.tracks self !! _) as [track|] eqn:Ht; [|done]. cbn [andb].
  rewrite (shown_handlers _ _ _ _ _ Hs _ _ Ht). pose proof (reset_shown _ _ _ _ _ _ Hs) as Hr.
  destruct (decide _) as [Hv|Hv].
  - rewrite bool_decide_eq_true_2 by done. destruct (Media.reset self x) as [s1 x1]. intros [= <- <-]. exact Hr.
  - rewrite bool_decide_eq_false_2 by done. by intros [= <- <-].
Qed.

Lemma shown_current video mine s b ent : shown video mine s b ent -> Media.current s.1 = pending b.
Proof. apply shown_pending. Qed.

(** What a box that succeeds does to the book. *)
Lemma handle_shown video mine s b ent atom s' :
  shown video mine s b ent -> Media.handle atom s = (Ok tt, s') ->
  exists ent', shown video (mine ++ open_groups (Media.tracks s'.1)) s' (publish video (event_of atom) b) ent'.
Proof.
  destruct s as [self x]. intros Hs.
  assert (Hstay : forall mine', shown video (mine ++ mine') (self, x) b ent).
  { intros mine'. eapply shown_mono; [|exact Hs]. intros l Hl. apply elem_of_app. by left. }
  unfold Media.handle, bind, ok_or, event_of.
  destruct (read_header atom) as [[[name size] rest]|]; [|done]. cbn [ret raise]. destruct name; cbn [publish].
  - unfold ret. intros [= <-]. exists ent. destruct (Media.ftyp self); [apply Hstay|].
    destruct (Hstay (open_groups (Media.tracks (Media.with_ftyp (Some atom) self)))). by split.
  - unfold ret, Media.parse_moov. pose proof (shown_moov _ _ _ _ _ Hs) as Hm. cbn [fst] in Hm.
    destruct (Media.moov self) as [m|]; [|done]. intros [= <-]. exists ent. apply Hstay.
  - unfold ret, Media.parse_moof, bind, ok_or, Media.lift, ret, raise. destruct (read_moof rest size) as [moof|]; [|done].
    destruct (Fragment.new moof) as [fragment|e|]; [|done|done]. cbn [publish].
    destruct (Media.keyframe fragment (self, x)) as [[[]|e|] [self1 x1]] eqn:Ek; [|done|done].
    apply (keyframe_shown _ _ _ _ _ _ _ _ _ Hs) in Ek. set (b1 := if _ : bool then _ else b) in *.
    destruct (Media.tracks self1 !! Fragment.track fragment) as [track|] eqn:Ht; [|done].
    destruct (Media.current self1); [done|]. unfold Media.on_track. cbn [Media.tracks Media.with_current]. rewrite Ht.
    destruct (PubTrack.header atom fragment (track, x1)) as [[[]|e|] [track' x2]] eqn:Eh; [|done|done]. intros [= <-].
    apply (pending_shown _ _ _ _ _ _ (Some (Fragment.track fragment))) in Ek.
    destruct (header_shown _ _ _ _ _ _ _ _ _ _ _ _ Ek Ht Eh) as [ent' H']. exists ent'.
    cbn [fst Media.tracks Media.with_tracks]. apply (pending_shown _ _ _ _ _ _ (Some (Fragment.track fragment))) in H'. 
    unfold write_book in *. cbn [opened groups_of set_pending] in *. destruct (decide _); exact H'.
  - unfold ret, Media.parse_mdat. pose proof (shown_pending _ _ _ _ _ Hs) as Hp. cbn [fst] in Hp.
    destruct (Media.current self) as [id|]; [|done]. rewrite <- Hp. unfold Media.on_track. cbn [Media.tracks Media.with_current].
    destruct (Media.tracks self !! id) as [track|] eqn:Ht; [|done].
    destruct (PubTrack.data atom (track, x)) as [[[]|e|] [track' x2]] eqn:Eh; [|done|done]. intros [= <-].
    apply (pending_shown _ _ _ _ _ _ None) in Hs.
    destruct (data_shown _ _ _ _ _ _ _ _ _ _ _ Hs Ht Eh) as [ent' H']. exists ent'.
    cbn [fst Media.tracks Media.with_tracks]. apply (pending_shown _ _ _ _ _ _ None) in H'.
    unfold write_book in *. cbn [opened groups_of set_pending] in *. destruct (decide _); exact H'.
  - unfold ret. intros [= <-]. exists ent. apply Hstay.
Qed.
End Published.

(** ** A run of the publisher *)

Module PubSys.
Section Sys.
Context `{Mp4, TrackOrder}.

(** With the boxes that went well so far and the locations of the groups it began. *)
Record t := mk { media : Media.t; store : Store.t; log : list event; mine : list nat }.

(** Others hold no writer of these groups; they read, clone and drop, and do what
    they like elsewhere. *)
Inductive step : t -> t -> Prop :=
  | do_box s atom m x : Media.handle atom (media s, store s) = (Ok tt, (m, x)) ->
      step s (mk m x (log s ++ [event_of atom]) (mine s ++ open_groups (Media.tracks m)))
  | do_env s x : keeps (fun l => l ∉ mine s) (Store.subgroups (store s)) (Store.subgroups x) ->
      step s (mk (media s) x (log s) (mine s)).

Definition start (m : Media.t) (x : Store.t) : t := mk m x [] [].

(** The [moov] has been seen, and no group is open. *)
Definition ready (m : Media.t) : Prop :=
  Media.moov m <> None /\ Media.current m = None /\
  forall id track, Media.tracks m !! id = Some track -> PubTrack.current track = None.

Definition video_of (m : Media.t) (id : N) : bool :=
  match Media.tracks m !! id with
  | Some track => bool_decide (PubTrack.handler track = TrackType.Video)
  | None => false
  end.

Lemma start_shown m x : ready m -> shown (video_of m) [] (m, x) empty_book (fun _ => []).
Proof.
  intros (Hm & Hc & Ht). split; cbn; try done.
  - intros id track Hi. rewrite (Ht _ _ Hi). apply not_elem_of_empty.
  - intros id track Hi. unfold video_of. by rewrite Hi.
Qed.

Lemma published_reach m x s : ready m -> rtc step (start m x) s ->
  exists ent, shown (video_of m) (mine s) (media s, store s) (publish_all (video_of m) (log s)) ent.
Proof.
  intros Hr. revert s. apply rtc_ind_r; [by eexists; apply start_shown|].
  intros y z _ Hs [ent Hi]. destruct Hs as [s atom m' x' E|s x' E]; cbn [media store log mine].
  - destruct (handle_shown _ _ _ _ _ _ _ Hi E) as [ent' H']. exists ent'. unfold publish_all in *. by rewrite fold_left_app.
  - exists ent. destruct Hi as [H1 H2 H3 H4 H5 H6 H7 H8]. split; try done. intros i p e He.
    destruct (H3 _ _ _ He) as [Ha Hp]. destruct (keeps_payloads _ _ _ e.1 E) as [K1 K2]; [|done|split; [done|cbn in *; congruence]].
    intros Hn. by apply Hn, (H8 _ _ _ He).
Qed.

(** C35 (refinement). What a run publishes. From the [moov] on, in any sequence of boxes
    that go well and whatever others do in between, the groups of each track in the
    cache hold exactly what the boxes say: a [moof] and the [mdat] after it are two
    objects of the open group of their track, a keyframe of the video ends the groups of all
    tracks, and the next [moof] of a track begins its next group. Every box of
    a track is one object of it, none is lost and none reordered; the group a
    track has open is its last. *)
Theorem fragments_published (m : Media.t) (x : Store.t) (s : t) :
  ready m -> rtc step (start m x) s ->
  let b := publish_all (video_of m) (log s) in
  exists places : N -> list (Handle * list (list byte)),
    (forall id, snd <$> places id = groups_of b id) /\
    (forall id p e, places id !! p = Some e -> payloads (Store.subgroups (store s)) e.1 = e.2) /\
    (forall id, concat (groups_of b id) = atoms_of id (log s) None) /\
    (forall id track g, Media.tracks (media s) !! id = Some track -> PubTrack.current track = Some g ->
       Some (payloads (Store.subgroups (store s)) (SubgroupWriter.state g)) = last (groups_of b id)).
Proof.
  intros Hr Hs b. destruct (published_reach _ _ _ Hr Hs) as [ent [H1 H2 H3 H4 H5 H6 H7 H8]]. exists ent.
  split; [done|]. split; [intros id p e He; by apply (H3 _ _ _ He)|]. split.
  - intros id. unfold b, publish_all. rewrite publish_atoms; [done|]. intros j Hj. by apply elem_of_empty in Hj.
  - intros id track g Ht Hg. specialize (H4 id track Ht). rewrite Hg in H4. destruct H4 as [_ (e & Hl & Hloc)].
    rewrite last_lookup in Hl. destruct (H3 _ _ _ Hl) as [_ Hp]. rewrite <- last_lookup in Hl.
    rewrite <- H1, fmap_last, Hl. cbn. f_equal. unfold payloads, listed in *. by rewrite (cell_of_loc _ _ _ Hloc) in Hp.
Qed.
End Sys.
End PubSys.

(** *** The start of a run *)

Section Ready.
Context `{Mp4, TrackOrder}.

Definition closed_tracks (m : Media.t) : Prop :=
  forall id track, Media.tracks m !! id = Some track -> PubTrack.current track = None.

Lemma setup_track_closed moov trak self x r m x' :
  closed_tracks self -> Media.setup_track moov trak (self, x) = (r, (m, x')) ->
  closed_tracks m /\ Media.current m = Media.current self.
Proof.
  intros Hc. unfold Media.setup_track. destruct (track_timescale _ _) as [ts|], (track_type (Trak.handler_type trak)) as [h|];
    try (by intros [= <- <- <-]).
  destruct (Media.selection_params trak); try (by intros [= <- <- <-]).
  destruct (TracksWriter.create _ _ _) as [[tw|] x1]; [|by intros [= <- <- <-]].
  unfold PubTrack.new. destruct (TrackWrite.groups tw x1) as [[g|e|] x2]; intros [= <- <- <-]; try done.
  split; [|done]. intros id track. cbn [Media.tracks Media.with_tracks]. intros Hi.
  destruct (decide (id = Trak.track_id trak)) as [->|Hne].
  - rewrite lookup_insert_eq in Hi. by injection Hi as <-.
  - rewrite lookup_insert_ne in Hi by done. by apply (Hc id).
Qed.

Lemma setup_tracks_closed moov traks : forall self x r m x',
  closed_tracks self -> Media.setup_tracks moov traks (self, x) = (r, (m, x')) ->
  closed_tracks m /\ Media.current m = Media.current self.
Proof.
  induction traks as [|trak traks IH]; intros self x r m x' Hc; cbn [Media.setup_tracks]; [by intros [= <- <- <-]|].
  unfold bind. destruct (Media.setup_track moov trak (self, x)) as [r1 [m1 x1]] eqn:E1.
  destruct (setup_track_closed _ _ _ _ _ _ _ Hc E1) as [H1 H2]. destruct r1; [|by intros [= <- <- <-]..].
  destruct (Media.setup_tracks moov traks (m1, x1)) as [r2 [m2 x2]] eqn:E2.
  destruct (IH _ _ _ _ _ H1 E2) as [H3 H4]. destruct r2; intros [= <- <- <-]; (split; [done|congruence]).
Qed.

(** After its [moov] a publisher is ready. *)
Lemma moov_ready self x atom rest size m x' :
  Media.moov self = None -> Media.current self = None -> closed_tracks self ->
  Media.parse_moov atom rest size (self, x) = (Ok tt, (m, x')) -> PubSys.ready m.
Proof.
  intros Hm Hc Ht. unfold Media.parse_moov. rewrite Hm. destruct (read_moov rest size) as [moov|]; [|done].
  destruct (Media.setup moov atom (self, x)) as [[[]|e|] [m1 x1]] eqn:E; [|done|done]. intros [= <- <-].
  split; [done|]. cbn [Media.current Media.tracks Media.with_moov].
  unfold Media.setup, bind, ok_or, ret, raise in E. cbn [fst] in E. destruct (Media.ftyp self) as [ftyp|]; [|done].
  unfold Media.on_init in E. destruct (Media.publish_once _ _) as [[[]|e|] [g x2]]; [|done|done].
  destruct (Media.setup_tracks moov (Moov.traks moov) _) as [[entries|e|] [m2 x3]] eqn:E2; [|done|done].
  destruct (setup_tracks_closed _ _ (Media.with_init g self) _ _ _ _ Ht E2) as [H1 H2].
  destruct (to_string_pretty _); [|done]. unfold Media.on_catalog in E.
  destruct (Media.publish_once _ _) as [r [g' x4]]. injection E as _ <- _. split; [cbn in *; congruence|exact H1].
Qed.
End Ready.

(** A group cannot begin with a timescale of zero, which is a panic, nor 2^32
    milliseconds (less than fifty days) into the film, which is an error. *)
Lemma header_time raw fragment (self : PubTrack.t) x : PubTrack.current self = None ->
  (PubTrack.timescale self = 0 -> PubTrack.header raw fragment (self, x) = (Panic, (self, x))) /\
  (PubTrack.timescale self <> 0 -> 2 ^ 32 <= (1000 * Fragment.timestamp fragment) mod 2 ^ 64 / PubTrack.timescale self ->
   PubTrack.header raw fragment (self, x) = (Err TimestampTooLarge, (self, x))).
Proof.
  intros Hc. unfold PubTrack.header, Fragment.timestamp_ms. rewrite Hc. split; [by intros ->|].
  intros Hz Hlt. destruct (N.eqb_spec (PubTrack.timescale self) 0); [done|].
  destruct (N.ltb_spec ((1000 * Fragment.timestamp fragment) mod 2 ^ 64 / PubTrack.timescale self) (2 ^ 32)); [lia|done].
Qed.

(** ** A film of two fragments *)

Section Demo.

Definition demo_name (atom : list byte) : BoxType.t :=
  let name := take 4 (skipn 4 atom) in
  if decide (name = text "ftyp") then BoxType.FtypBox
  else if decide (name = text "moov") then BoxType.MoovBox
  else if decide (name = text "moof") then BoxType.MoofBox
  else if decide (name = text "mdat") then BoxType.MdatBox
  else BoxType.UnknownBox.

Definition demo_header (atom : list byte) : option (BoxType.t * N * list byte) :=
  if lenN atom <? 8 then None else Some (demo_name atom, from_be (take 4 atom), skipn 8 atom).

Definition demo_trak : Trak.t := Trak.mk 1 1000 (text "vide") (Some (Avc1.mk x64 x00 x1f 16 9)) None None None.

(** The first sample of every fragment is a keyframe. *)
Definition demo_moof : Moof.t :=
  Moof.mk [Traf.mk 1 None (Some 0) (Some (Trun.mk 1 [] (Some 0x02000000)))].

#[local] Instance demo_mp4 : Mp4.
Proof.
  refine {| read_header := demo_header; read_moov := fun _ _ => Some (Moov.mk [demo_trak]);
    read_moof := fun _ _ => Some demo_moof; track_type := fun _ => Some TrackType.Video;
    codec_avc1 := fun _ _ _ => str "avc1"; to_string_pretty := fun _ => Some [] |};
    intros atom size rest; unfold demo_header, demo_name; destruct (_ <? _); try done; intros H; by repeat case_decide.
Defined.

#[local] Instance demo_track_order : TrackOrder := {| track_order := fun m => (map_to_list m).*1; track_order_perm := fun m => reflexivity _ |}.

Definition demo_box (name : string) (body : list byte) : list byte := to_be 4 (8 + lenN body) ++ text name ++ body.

Definition demo_broadcast := Tracks.produce (Tracks.new (Tuple.mk [])) Store.new.

(** The publisher after its [ftyp] and [moov]. *)
Definition demo_ready : option (Media.t * Store.t) :=
  match Media.new (fst (fst (fst demo_broadcast))) (snd demo_broadcast) with
  | (Ok m, x) =>
      match Media.handle (demo_box "ftyp" []) (m, x) with
      | (Ok _, s) => match Media.handle (demo_box "moov" []) s with (Ok _, s) => Some s | _ => None end
      | _ => None
      end
  | _ => None
  end.

Definition demo_film : list (list byte) :=
  [demo_box "moof" [x01]; demo_box "mdat" [x02]; demo_box "moof" [x03]; demo_box "mdat" [x04]].

Fixpoint play (atoms : list (list byte)) (s : PubSys.t) : option PubSys.t :=
  match atoms with
  | [] => Some s
  | atom :: atoms =>
      match Media.handle atom (PubSys.media s, PubSys.store s) with
      | (Ok _, (m, x)) =>
          play atoms (PubSys.mk m x (PubSys.log s ++ [event_of atom]) (PubSys.mine s ++ open_groups (Media.tracks m)))
      | _ => None
      end
  end.

Lemma film_steps atoms : forall s s', play atoms s = Some s' -> rtc PubSys.step s s'.
Proof.
  induction atoms as [|atom atoms IH]; intros s s'; cbn [play]; [by intros [= ->]|].
  destruct (Media.handle _ _) as [[[]|e|] [m x]] eqn:E; [|done|done]. intros H.
  eapply rtc_l; [apply (PubSys.do_box s atom m x E)|]. by apply IH.
Qed.

Definition ready_b (m : Media.t) : bool :=
  match Media.moov m with Some _ => true | None => false end &&
  match Media.current m with Some _ => false | None => true end &&
  forallb (fun p => match PubTrack.current p.2 with Some _ => false | None => true end) (map_to_list (Media.tracks m)).

Lemma ready_b_spec m : ready_b m = true -> PubSys.ready m.
Proof.
  unfold ready_b, PubSys.ready. intros H. apply andb_prop in H as [H H3]. apply andb_prop in H as [H1 H2].
  split; [by destruct (Media.moov m)|]. split; [by destruct (Media.current m)|]. intros id track Ht.
  rewrite forallb_forall in H3. specialize (H3 (id, track)). cbn in H3. destruct (PubTrack.current track); [|done].
  discriminate H3. by apply list_elem_of_In, elem_of_map_to_list.
Qed.

Definition demo_run : option (Media.t * Store.t * PubSys.t) :=
  match demo_ready with
  | Some (m, x) => (fun s => (m, x, s)) <$> play demo_film (PubSys.start m x)
  | None => None
  end.

(** What the book says of the run, and the group that is open. *)
Definition demo_facts : bool :=
  match demo_run with
  | Some (m, x, s) =>
      ready_b m &&
      bool_decide (last (groups_of (publish_all (PubSys.video_of m) (PubSys.log s)) 1) = Some [demo_box "moof" [x03]; demo_box "mdat" [x04]]) &&
      match Media.tracks (PubSys.media s) !! 1 with
      | Some track => match PubTrack.current track with Some _ => true | None => false end
      | None => false
      end
  | None => false
  end.

Lemma demo_facts_hold : demo_facts = true.
Proof. vm_compute. reflexivity. Qed.

Lemma fragments_published_witness :
  exists m x s track g, demo_run = Some (m, x, s) /\
    Media.tracks (PubSys.media s) !! 1 = Some track /\ PubTrack.current track = Some g /\
    payloads (Store.subgroups (PubSys.store s)) (SubgroupWriter.state g) = [demo_box "moof" [x03]; demo_box "mdat" [x04]].
Proof.
  pose proof demo_facts_hold as F. unfold demo_facts in F. destruct demo_run as [[[m x] s]|] eqn:E; [|discriminate F].
  unfold demo_run in E. destruct demo_ready as [[m0 x0]|]; [|discriminate E].
  destruct (play demo_film (PubSys.start m0 x0)) as [s0|] eqn:Ep; [|discriminate E]. cbn in E. injection E as -> -> ->.
  apply andb_prop in F as [F F3]. apply andb_prop in F as [F1 F2]. apply bool_decide_eq_true in F2.
  destruct (Media.tracks (PubSys.media s) !! 1) as [track|] eqn:Ht; [|discriminate F3].
  destruct (PubTrack.current track) as [g|] eqn:Hg; [|discriminate F3].
  destruct (PubSys.fragments_published m x s (ready_b_spec m F1) (film_steps _ _ _ Ep)) as (places & _ & _ & _ & H).
  exists m, x, s, track, g. split; [reflexivity|]. split; [exact Ht|]. split; [exact Hg|].
  specialize (H 1 track g Ht Hg). rewrite F2 in H. congruence.
Defined.
End Demo.
