(* ===== verification/SubMedia.v ===== *)
(** * Playing a broadcast

    [moq-sub/src/media.rs]: the init track tells which tracks there are; the first
    video and the first audio track are subscribed to, and what they bring is
    written to one output, an object at a time. *)
From Stdlib Require Import Strings.String NArith Lia Bool.
From stdpp Require Import base list gmap option numbers relations.
From S2P Require Import Prelude Buffers Utf8 Coding Setup Errors Watch Serve Subgroup Groups Tracks Payloads Mp4.
From S2P Require PubMedia.

Inductive error :=
  | Serve (e : ServeError)
  | CreateFailed
  | NoTrack
  | NoGroup
  | NoFragment
  | ExpectedInit
  | ExpectedFtyp
  | ExpectedMoov
  | Mp4Error
  | Io
  | UnexpectedEof
  | ImpossibleSize (size : N).

(** ** [read_atom]

    From a reader of bytes in memory: [read_exact] fails if there are too few,
    [take] and [read_to_end] give what there is. The eight bytes of an extended size
    are read into the same array as the header, which has been copied before. *)
Definition read_atom (input : list byte) : outcome error (list byte) * list byte :=
  if lenN input <? 8 then (Err UnexpectedEof, [])
  else
    let buf := take 8 input in
    let input := skipn 8 input in
    let size := from_be (take 4 buf) in
    if size =? 0 then (Ok (buf ++ input), [])
    else if size =? 1 then
      if lenN input <? 8 then (Err UnexpectedEof, [])
      else
        let size_large := from_be (take 8 input) in
        let input := skipn 8 input in
        if 16 <=? size_large then
          (Ok (buf ++ take (N.to_nat (size_large - 16)) input), skipn (N.to_nat (size_large - 16)) input)
        else (Err (ImpossibleSize size_large), input)
    else if size <=? 7 then (Err (ImpossibleSize size), input)
    else (Ok (buf ++ take (N.to_nat (size - 8)) input), skipn (N.to_nat (size - 8)) input).

(** ** [Media] *)

Module Player.
Section Player.
Context `{Mp4}.

Record t := mk {
  broadcast : TracksReader.t;
  tracks_writer : TracksWriter.t;
}.

(** The request end of the broadcast goes when [new] returns. *)
Definition new (tracks : Tracks.t) (x : Store.t) : outcome ServeError t * Store.t :=
  let '((writer, request, reader), x) := Tracks.produce tracks x in
  let (r, x) := TracksRequest.drop request x in
  (match r with Ok _ => Ok (mk reader writer) | Err e => Err e | Panic => Panic end, x).

(** A track that is to be subscribed to, with the reader of it. A task is spawned
    that gives the writer to the session's [subscribe]. *)
Definition request (name : String) (self : t) (x : Store.t) :
    outcome error TrackReader.t * (list TrackWriter.t * Store.t) :=
  match TracksWriter.create name (tracks_writer self) x with
  | (None, x) => (Err CreateFailed, ([], x))
  | (Some track, x) =>
      match TracksReader.subscribe name (broadcast self) x with
      | (Some reader, x) => (Ok reader, ([track], x))
      | (None, x) => (Err NoTrack, ([track], x))
      end
  end.

(** *** [recv_object], [recv_group], [recv_track] *)

(** Where a track's task waits: for the mode, a group, an object, a chunk, or for the
    output. *)
Inductive point :=
  | Mode (track : TrackReader.t)
  | NextGroup (track : TrackReader.t) (groups : SubgroupsReader.t)
  | NextObject (track : TrackReader.t) (groups : SubgroupsReader.t) (group : SubgroupReader.t)
  | ReadObject (track : TrackReader.t) (groups : SubgroupsReader.t) (group : SubgroupReader.t)
      (object : SubgroupObjectReader.t) (buf : list byte)
  | WriteObject (track : TrackReader.t) (groups : SubgroupsReader.t) (group : SubgroupReader.t) (buf : list byte)
  | Finished (r : outcome error unit).

Definition drop_groups (groups : SubgroupsReader.t) (x : Store.t) : Store.t :=
  Store.with_subgroups (SubgroupsReader.drop groups (Store.subgroups x)) x.
Definition drop_group (group : SubgroupReader.t) (x : Store.t) : Store.t :=
  Store.with_subgroups (drop_group_reader group (Store.subgroups x)) x.
Definition drop_object (object : SubgroupObjectReader.t) (x : Store.t) : Store.t :=
  Store.with_subgroups (drop_object_reader object (Store.subgroups x)) x.

(** A turn of [object.read()]; the object goes at its end. *)
Definition read_object_turn (object : SubgroupObjectReader.t) (buf : list byte) (x : Store.t) :
    option (outcome ServeError (SubgroupObjectReader.t * list byte + list byte) * Store.t) :=
  match SubgroupObjectReader.read_turn object (cell_of (SubgroupObjectReader.state object) (objects (Store.subgroups x))) with
  | (Return (Ok (Some chunk)), object) => Some (Ok (inl (object, buf ++ chunk)), x)
  | (Return (Ok None), object) => Some (Ok (inr buf), drop_object object x)
  | (Return (Err e), object) => Some (Err e, drop_object object x)
  | (Return Panic, object) => Some (Panic, x)
  | (Wait _, _) => None
  end.

(** [write_all] under the lock of the output: all of it, or [io] bytes and an error. *)
Definition write_all (io : option nat) (buf out : list byte) : outcome error unit * list byte :=
  match io with
  | None => (Ok tt, out ++ buf)
  | Some n => (Err Io, out ++ take n buf)
  end.

(** One turn of a track's task; [None] if it is not ready. An error in a group ends
    that group only. *)
Definition turn (io : option nat) (p : point) (out : list byte) (x : Store.t) : option (point * (list byte * Store.t)) :=
  match p with
  | Finished _ => None
  | Mode track =>
      match TrackRead.mode_turn track x with
      | (Return (Ok (TrackReaderMode.Subgroups groups)), x) => Some (NextGroup track groups, (out, x))
      | (Return (Ok mode), x) => Some (Finished (Ok tt), (out, TrackRead.drop track (Store.drop_mode mode x)))
      | (Return (Err e), x) => Some (Finished (Err (Serve e)), (out, TrackRead.drop track x))
      | (Return Panic, x) => Some (Finished Panic, (out, x))
      | (Wait _, _) => None
      end
  | NextGroup track groups =>
      match SubgroupsReader.next_turn groups (Store.subgroups x) with
      | (Return r, (groups, w)) =>
          let x := Store.with_subgroups w x in
          match r with
          | Ok (Some group) => Some (NextObject track groups group, (out, x))
          | Ok None => Some (Finished (Ok tt), (out, TrackRead.drop track (drop_groups groups x)))
          | Err e => Some (Finished (Err (Serve e)), (out, TrackRead.drop track (drop_groups groups x)))
          | Panic => Some (Finished Panic, (out, x))
          end
      | (Wait _, _) => None
      end
  | NextObject track groups group =>
      match SubgroupRead.next_turn group (Store.subgroups x) with
      | (Return r, (group, w)) =>
          let x := Store.with_subgroups w x in
          match r with
          | Ok (Some object) => Some (ReadObject track groups group object [], (out, x))
          | Panic => Some (Finished Panic, (out, x))
          | _ => Some (NextGroup track groups, (out, drop_group group x))
          end
      | (Wait _, _) => None
      end
  | ReadObject track groups group object buf =>
      match read_object_turn object buf x with
      | Some (Ok (inl (object, buf)), x) => Some (ReadObject track groups group object buf, (out, x))
      | Some (Ok (inr buf), x) => Some (WriteObject track groups group buf, (out, x))
      | Some (Err _, x) => Some (NextGroup track groups, (out, drop_group group x))
      | Some (Panic, x) => Some (Finished Panic, (out, x))
      | None => None
      end
  | WriteObject track groups group buf =>
      match write_all io buf out with
      | (Ok _, out) => Some (NextObject track groups group, (out, x))
      | (_, out) => Some (NextGroup track groups, (out, drop_group group x))
      end
  end.

(** *** [run] *)

(** The init segment: two boxes, of which the second says which tracks there are. *)
Definition parse_init (buf : list byte) : outcome error Moov.t :=
  match read_atom buf with
  | (Ok ftyp, rest) =>
      if decide (take 4 (skipn 4 ftyp) = text "ftyp") then
        match read_atom rest with
        | (Ok moov, _) =>
            if decide (take 4 (skipn 4 moov) = text "moov") then
              match read_header moov with
              | Some (_, size, body) => match read_moov body size with Some m => Ok m | None => Err Mp4Error end
              | None => Err Mp4Error
              end
            else Err ExpectedMoov
        | (Err e, _) => Err e
        | (Panic, _) => Panic
        end
      else Err ExpectedFtyp
  | (Err e, _) => Err e
  | (Panic, _) => Panic
  end.

(** The first track with AVC video and the first with AAC audio. *)
Fixpoint active (has_video has_audio : bool) (traks : list Trak.t) : list N :=
  match traks with
  | [] => []
  | trak :: traks =>
      let video := negb has_video && match Trak.avc1 trak with Some _ => true | None => false end in
      let audio := negb has_audio && match Trak.mp4a trak with Some _ => true | None => false end in
      (if video || audio then [Trak.track_id trak] else []) ++ active (has_video || video) (has_audio || audio) traks
  end.

Fixpoint request_all (ids : list N) (self : t) (x : Store.t) :
    outcome error (list TrackReader.t) * (list TrackWriter.t * Store.t) :=
  match ids with
  | [] => (Ok [], ([], x))
  | id :: ids =>
      match request (m4s id) self x with
      | (Ok track, (ws, x)) =>
          match request_all ids self x with
          | (Ok tracks, (ws', x)) => (Ok (track :: tracks), (ws ++ ws', x))
          | (Err e, (ws', x)) => (Err e, (ws ++ ws', TrackRead.drop track x))
          | (Panic, (ws', x)) => (Panic, (ws ++ ws', x))
          end
      | (Err e, p) => (Err e, p)
      | (Panic, p) => (Panic, p)
      end
  end.

(** A call of [run]: reading the init segment, playing, or over. *)
Inductive state :=
  | InitMode (track : TrackReader.t)
  | InitGroup (track : TrackReader.t) (groups : SubgroupsReader.t)
  | InitObject (track : TrackReader.t) (group : SubgroupReader.t)
  | InitRead (track : TrackReader.t) (group : SubgroupReader.t) (object : SubgroupObjectReader.t) (buf : list byte)
  | Playing (tasks : list point)
  | Over (r : outcome error unit).

Definition start (self : t) (x : Store.t) : state * (list TrackWriter.t * Store.t) :=
  match request (str "0.mp4") self x with
  | (Ok track, p) => (InitMode track, p)
  | (Err e, p) => (Over (Err e), p)
  | (Panic, p) => (Over Panic, p)
  end.

(** The init segment is complete: it is written out and parsed, and a task is
    spawned per track. *)
Definition init_done (io : option nat) (self : t) (buf out : list byte) (x : Store.t) :
    state * (list TrackWriter.t * (list byte * Store.t)) :=
  match write_all io buf out with
  | (Ok _, out) =>
      match parse_init buf with
      | Ok moov =>
          match request_all (active false false (Moov.traks moov)) self x with
          | (Ok tracks, (ws, x)) => (Playing (Mode <$> tracks), (ws, (out, x)))
          | (Err e, (ws, x)) => (Over (Err e), (ws, (out, x)))
          | (Panic, (ws, x)) => (Over Panic, (ws, (out, x)))
          end
      | Err e => (Over (Err e), ([], (out, x)))
      | Panic => (Over Panic, ([], (out, x)))
      end
  | (Err e, out) => (Over (Err e), ([], (out, x)))
  | (Panic, out) => (Over Panic, ([], (out, x)))
  end.

(** One turn of [run] before it plays; [None] if it is not ready. *)
Definition init_turn (io : option nat) (self : t) (p : state) (out : list byte) (x : Store.t) :
    option (state * (list TrackWriter.t * (list byte * Store.t))) :=
  match p with
  | InitMode track =>
      match TrackRead.mode_turn track x with
      | (Return (Ok (TrackReaderMode.Subgroups groups)), x) => Some (InitGroup track groups, ([], (out, x)))
      | (Return (Ok mode), x) => Some (Over (Err ExpectedInit), ([], (out, TrackRead.drop track (Store.drop_mode mode x))))
      | (Return (Err e), x) => Some (Over (Err (Serve e)), ([], (out, TrackRead.drop track x)))
      | (Return Panic, x) => Some (Over Panic, ([], (out, x)))
      | (Wait _, _) => None
      end
  | InitGroup track groups =>
      match SubgroupsReader.next_turn groups (Store.subgroups x) with
      | (Return r, (groups, w)) =>
          let x := drop_groups groups (Store.with_subgroups w x) in
          match r with
          | Ok (Some group) => Some (InitObject track group, ([], (out, x)))
          | Ok None => Some (Over (Err NoGroup), ([], (out, TrackRead.drop track x)))
          | Err e => Some (Over (Err (Serve e)), ([], (out, TrackRead.drop track x)))
          | Panic => Some (Over Panic, ([], (out, x)))
          end
      | (Wait _, _) => None
      end
  | InitObject track group =>
      match SubgroupRead.next_turn group (Store.subgroups x) with
      | (Return r, (group, w)) =>
          let x := Store.with_subgroups w x in
          match r with
          | Ok (Some object) => Some (InitRead track group object [], ([], (out, x)))
          | Ok None => Some (Over (Err NoFragment), ([], (out, TrackRead.drop track (drop_group group x))))
          | Err e => Some (Over (Err (Serve e)), ([], (out, TrackRead.drop track (drop_group group x))))
          | Panic => Some (Over Panic, ([], (out, x)))
          end
      | (Wait _, _) => None
      end
  | InitRead track group object buf =>
      match read_object_turn object buf x with
      | Some (Ok (inl (object, buf)), x) => Some (InitRead track group object buf, ([], (out, x)))
      | Some (Ok (inr buf), x) => Some (init_done io self buf out (TrackRead.drop track (drop_group group x)))
      | Some (Err e, x) => Some (Over (Err (Serve e)), ([], (out, TrackRead.drop track (drop_group group x))))
      | Some (Panic, x) => Some (Over Panic, ([], (out, x)))
      | None => None
      end
  | Playing tasks =>
      if forallb (fun p => match p with Finished _ => true | _ => false end) tasks
      then Some (Over (Ok tt), ([], (out, x))) else None
  | Over _ => None
  end.

(** One turn of the task of a track. *)
Definition task_turn (k : nat) (io : option nat) (p : state) (out : list byte) (x : Store.t) :
    option (state * (list byte * Store.t)) :=
  match p with
  | Playing tasks =>
      match tasks !! k with
      | Some p =>
          match turn io p out x with
          | Some (p, (out, x)) => Some (Playing (<[k := p]> tasks), (out, x))
          | None => None
          end
      | None => None
      end
  | _ => None
  end.
End Player.
End Player.

(** ** The boxes of the publisher *)

Lemma read_atom_next (buf : list byte) :
  match PubMedia.next_atom buf with
  | (Ok (Some atom), rest) =>
      read_atom buf = (Ok (if from_be (take 4 buf) =? 1 then take 8 atom ++ skipn 16 atom else atom), rest)
  | _ => True
  end.
Proof.
  unfold PubMedia.next_atom, read_atom. destruct (N.ltb_spec (lenN buf) 8) as [|H8]; [done|]. cbv zeta.
  rewrite take_take, Nat.min_l by lia. destruct (N.eqb_spec (from_be (take 4 buf)) 0) as [|H0]; [done|].
  assert (Hl : forall n, lenN (skipn n buf) = lenN buf - N.of_nat n) by (intros n; unfold lenN; rewrite length_drop; lia).
  assert (Hcut : forall n k, k <= n -> n <= lenN buf -> 
    take (N.to_nat (n - k)) (skipn (N.to_nat k) buf) = skipn (N.to_nat k) (take (N.to_nat n) buf) /\
    skipn (N.to_nat (n - k)) (skipn (N.to_nat k) buf) = skipn (N.to_nat n) buf).
  { intros n k Hk Hn. split.
    - rewrite firstn_skipn_comm. f_equal. f_equal. lia.
    - rewrite drop_drop. f_equal. lia. }
  destruct (N.eqb_spec (from_be (take 4 buf)) 1) as [E|E].
  - rewrite Hl. destruct (N.ltb_spec (lenN buf) 16) as [|H16]; [done|].
    destruct (N.ltb_spec (lenN buf - N.of_nat 8) 8); [lia|]. set (size := from_be (take 8 (skipn 8 buf))).
    destruct (N.leb_spec 16 size) as [Hs|]; [|done]. unfold PubMedia.cut.
    destruct (N.ltb_spec (lenN buf) size) as [|Hle]; [done|]. rewrite drop_drop.
    destruct (Hcut size 16 Hs Hle) as [H1 H2]. change (N.to_nat 16) with (8 + 8)%nat in H1, H2. rewrite H1, H2.
    rewrite take_take, Nat.min_l by lia. done.
  - destruct (N.leb_spec (from_be (take 4 buf)) 7) as [|H7]; [done|]. set (size := from_be (take 4 buf)) in *.
    unfold PubMedia.cut. destruct (N.ltb_spec (lenN buf) size) as [|Hle]; [done|].
    destruct (Hcut size 8 ltac:(lia) Hle) as [H1 H2]. change (N.to_nat 8) with 8%nat in H1, H2. rewrite H1, H2.
    replace (take 8 buf) with (take 8 (take (N.to_nat size) buf)) by (rewrite take_take; f_equal; lia).
    by rewrite take_drop.
Qed.

(** C39 (equivalence). Publisher and subscriber cut the same boxes. Whatever box the
    publisher cuts from an input, the subscriber reads that box there and goes on
    where the publisher does; but of a box with an extended size it loses the eight
    bytes that hold the size, and keeps the 1 in front that announces them. *)
Theorem read_atom_cuts (buf : list byte) :
  match PubMedia.next_atom buf with
  | (Ok (Some atom), rest) =>
      read_atom buf = (Ok (if from_be (take 4 buf) =? 1 then take 8 atom ++ skipn 16 atom else atom), rest)
  | _ => True
  end.
Proof. apply read_atom_next. Qed.

Section Init.
Context `{Mp4}.

(** A box as the publisher cuts it, with nothing after it; whether its size is an
    extended one; and what the subscriber reads of it. *)
Definition box (atom : list byte) : Prop := PubMedia.next_atom atom = (Ok (Some atom), []).
Definition extended (atom : list byte) : bool := from_be (take 4 atom) =? 1.
Definition as_read (atom : list byte) : list byte :=
  if extended atom then take 8 atom ++ skipn 16 atom else atom.

Lemma box_length atom : box atom -> 8 <= lenN atom.
Proof. intros Hb. pose proof (PubMedia.next_atom_branches atom) as H0. rewrite Hb in H0. apply H0. Qed.

Lemma read_box atom more : box atom -> read_atom (atom ++ more) = (Ok (as_read atom), more).
Proof.
  intros Hn. pose proof (PubMedia.next_atom_more atom more) as Hm. rewrite Hn in Hm. cbn [app] in Hm.
  pose proof (read_atom_next (atom ++ more)) as Hr. rewrite Hm in Hr. rewrite Hr.
  pose proof (box_length atom Hn) as H8. unfold as_read, extended.
  by rewrite take_app_le by (unfold lenN in H8; lia).
Qed.

(** The name of the box is among what is kept. *)
Lemma name_as_read atom : box atom -> take 4 (skipn 4 (as_read atom)) = take 4 (skipn 4 atom).
Proof.
  intros Hb. pose proof (box_length atom Hb) as H8. unfold as_read. destruct (extended atom); [|done].
  unfold lenN in H8. rewrite drop_app_le by (rewrite length_take; lia).
  rewrite take_app_le by (rewrite length_drop, length_take; lia).
  rewrite skipn_firstn_comm, take_take. f_equal.
Qed.

(** C38 (roundtrip). What the subscriber makes of the init segment of the publisher,
    an [ftyp] and a [moov] box written one after the other into the object of the
    init track. If the [moov] has a plain size, it finds the tracks of that [moov],
    exactly as the publisher found them, whatever the size of the [ftyp] is like. A
    [moov] with an extended size, which the publisher takes as well, is handed to
    the mp4 reader without the eight bytes of its size but with the 1 that announces
    them: the first eight bytes of its contents are read for the size. *)
Theorem init_understood (ftyp moov : list byte) size rest fsize frest m :
  box ftyp -> box moov ->
  read_header ftyp = Some (BoxType.FtypBox, fsize, frest) ->
  read_header moov = Some (BoxType.MoovBox, size, rest) -> read_moov rest size = Some m ->
  Player.parse_init (ftyp ++ moov) =
    if extended moov then
      match read_header (take 8 moov ++ skipn 16 moov) with
      | Some (_, size', body) =>
          match read_moov body size' with Some m' => Ok m' | None => Err Mp4Error end
      | None => Err Mp4Error
      end
    else Ok m.
Proof.
  intros Hf Hm Hh1 Hh2 Hr. unfold Player.parse_init. rewrite read_box, (name_as_read ftyp) by done.
  rewrite decide_True by (by eapply header_ftyp).
  pose proof (read_box moov [] Hm) as Hb. rewrite app_nil_r in Hb. rewrite Hb, (name_as_read moov) by done.
  rewrite decide_True by (by eapply header_moov). unfold as_read.
  destruct (extended moov); [done|]. by rewrite Hh2, Hr.
Qed.
End Init.

(** ** What the tasks of the tracks write *)

(** What readers do to the groups and objects: no value changes. *)
Definition reads (w w' : World) : Prop :=
  all_stay (tops w) (tops w') /\ all_stay (groups w) (groups w') /\ all_stay (Groups.objects w) (Groups.objects w').

#[export] Instance reads_preorder : PreOrder reads.
Proof.
  split; [by intros w; split; [|split]|]. intros a b c (H1 & H2 & H3) (H4 & H5 & H6). split; [by etransitivity|]. split; by etransitivity.
Qed.

Lemma reads_drop_group h w : reads w (drop_group_handle h w).
Proof.
  split; [by rewrite drop_group_handle_tops|]. split; [apply drop_group_handle_stays|apply drop_group_objects].
Qed.

Lemma reads_drop_top h w : reads w (drop_top_handle h w).
Proof.
  unfold drop_top_handle. destruct (drop_handle h (tops w)) as [v a] eqn:E.
  assert (Ha : reads w (with_tops a w)).
  { split; [|split; reflexivity]. replace a with (snd (drop_handle h (tops w))) by (by rewrite E). apply all_stay_drop. }
  destruct v as [[[r|] e c]|]; [|exact Ha|exact Ha]. etransitivity; [exact Ha|apply reads_drop_group].
Qed.

Lemma reads_drop_mode m x : reads (Store.subgroups x) (Store.subgroups (Store.drop_mode m x)).
Proof. destruct m; cbn; [reflexivity|apply reads_drop_top|reflexivity]. Qed.

Lemma reads_drop_track r x : reads (Store.subgroups x) (Store.subgroups (TrackRead.drop r x)).
Proof.
  unfold TrackRead.drop, Store.drop_track. destruct (drop_handle _ _) as [[[[m|] c]|] a]; try reflexivity.
  etransitivity; [|apply reads_drop_mode]. reflexivity.
Qed.

Lemma reads_mode_turn r x : reads (Store.subgroups x) (Store.subgroups (snd (TrackRead.mode_turn r x))).
Proof.
  unfold TrackRead.mode_turn. destruct (TrackState.mode _) as [[s|g|d]|]; [| | |reflexivity]; cbn.
  - by destruct (StreamTrack.StreamReader.clone s (Store.streams x)).
  - split; [apply all_stay_clone|split; reflexivity].
  - by destruct (clone_handle (DatagramsReader.state d) (Store.datagrams x)).
Qed.

Lemma reads_next_group g w : reads w (snd (snd (SubgroupsReader.next_turn g w))).
Proof.
  unfold SubgroupsReader.next_turn. destruct (negb _); [|reflexivity].
  destruct (SubgroupsState.latest _); [|reflexivity]. cbn. split; [reflexivity|]. split; [apply all_stay_clone|reflexivity].
Qed.

(** The next group is the latest, read from where the track's own reader of it is. *)
Lemma next_group_latest g w :
  match SubgroupsReader.next_turn g w with
  | (Return (Ok (Some r)), _) => exists rd, SubgroupsState.latest (lock (cell_of (SubgroupsReader.state g) (tops w))) = Some rd /\
      SubgroupReader.index r = SubgroupReader.index rd
  | _ => True
  end.
Proof.
  unfold SubgroupsReader.next_turn. destruct (negb _).
  - destruct (SubgroupsState.latest _) as [rd|] eqn:E; [|done]. cbn. by exists rd.
  - destruct (idle _ _) as [[[r|]|e|]|n] eqn:Ei; try done. exfalso. unfold idle in Ei.
    destruct (closed _); [done|]. by destruct (modified _).
Qed.

(** The next object of a group: the one at the reader's index. *)
Lemma next_object_spec g w :
  let '(r, (g', w')) := SubgroupRead.next_turn g w in
  reads w w' /\ SubgroupReader.state g' = SubgroupReader.state g /\
  match r with
  | Return (Ok (Some o)) => SubgroupReader.index g' = SubgroupReader.index g + 1 /\
      exists o0, listed w (SubgroupReader.state g) !! N.to_nat (SubgroupReader.index g) = Some o0 /\
        SubgroupObjectReader.state o = SubgroupObjectReader.state o0 /\
        SubgroupObjectReader.index o = SubgroupObjectReader.index o0
  | _ => True
  end.
Proof.
  unfold SubgroupRead.next_turn, log_turn, listed.
  destruct (SubgroupState.objects _ !! N.to_nat (SubgroupReader.index g)) as [o|] eqn:E.
  - cbn. split; [split; [reflexivity|split; [reflexivity|apply all_stay_clone]]|]. split; [done|]. split; [done|]. by exists o.
  - destruct (idle _ _) as [[[o|]|e|]|n] eqn:Ei; try (split; [reflexivity|]; by split).
    exfalso. unfold idle in Ei. destruct (closed _); [done|]. by destruct (modified _).
Qed.

(** Reading a chunk changes nothing; the end is reported when there are no more
    chunks and no writer. *)
Lemma read_object_spec o buf x :
  match Player.read_object_turn o buf x with
  | Some (Ok (inl (o', buf')), x') => x' = x /\ SubgroupObjectReader.state o' = SubgroupObjectReader.state o /\
      SubgroupObjectReader.index o' = SubgroupObjectReader.index o + 1 /\
      exists chunk, SubgroupObjectState.chunks (lock (cell_of (SubgroupObjectReader.state o) (Groups.objects (Store.subgroups x))))
          !! N.to_nat (SubgroupObjectReader.index o) = Some chunk /\ buf' = buf ++ chunk
  | Some (Ok (inr buf'), x') => buf' = buf /\ reads (Store.subgroups x) (Store.subgroups x') /\
      let c := cell_of (SubgroupObjectReader.state o) (Groups.objects (Store.subgroups x)) in
      SubgroupObjectState.chunks (lock c) !! N.to_nat (SubgroupObjectReader.index o) = None /\ dropped (inner c) = None
  | Some (_, x') => reads (Store.subgroups x) (Store.subgroups x')
  | None => True
  end.
Proof.
  assert (Hd : forall o, reads (Store.subgroups x) (Store.subgroups (Player.drop_object o x))).
  { intros o'. split; [reflexivity|]. split; [reflexivity|]. apply all_stay_drop. }
  unfold Player.read_object_turn, SubgroupObjectReader.read_turn, log_turn.
  set (c := cell_of _ _). destruct (SubgroupObjectState.chunks (lock c) !! _) as [chunk|] eqn:E.
  - cbn. repeat split; try done. by exists chunk.
  - unfold idle. destruct (closed (lock c)); [apply Hd|]. unfold modified. destruct (dropped (inner c)) eqn:Ed; [done|].
    split; [done|]. split; [apply Hd|]. by split.
Qed.

Module PlaySys.
Section Sys.
Context `{Mp4}.
Import Player.

(** A task, with the groups it has taken so far and what it wrote of each. *)
Record task := mk_task { at_ : point; visits : list (Handle * list (list byte)) }.

(** The tasks, what has been written, and who wrote what. *)
Record t := mk { tasks : list task; out : list byte; store : Store.t; log : list (nat * list byte) }.

Definition visit (p p' : point) (vs : list (Handle * list (list byte))) : list (Handle * list (list byte)) :=
  match p, p' with
  | NextGroup _ _, NextObject _ _ g => vs ++ [(SubgroupReader.state g, [])]
  | WriteObject _ _ g buf, _ => PubMedia.extend (fun v => (v.1, v.2 ++ [buf])) vs
  | _, _ => vs
  end.

Definition written (p : point) : list (list byte) := match p with WriteObject _ _ _ buf => [buf] | _ => [] end.

(** An object that is complete does not change; others may get more chunks. *)
Definition object_grows (w w' : World) (o : SubgroupObjectReader.t) : Prop :=
  let c := cell_of (SubgroupObjectReader.state o) (Groups.objects w) in
  let c' := cell_of (SubgroupObjectReader.state o) (Groups.objects w') in
  (SubgroupObjectState.chunks (lock c) `prefix_of` SubgroupObjectState.chunks (lock c')) /\
  (dropped (inner c) = None -> lock c' = lock c /\ dropped (inner c') = None).

(** What the others may do to the groups that have been taken: more objects, more
    chunks. *)
Definition grows (w w' : World) (vs : list (Handle * list (list byte))) : Prop :=
  forall h, h ∈ vs.*1 -> (listed w h `prefix_of` listed w' h) /\ forall o, o ∈ listed w h -> object_grows w w' o.

(** The readers that the cache keeps of groups and objects have read nothing. *)
Definition untouched (w : World) : Prop :=
  (forall h rd, SubgroupsState.latest (lock (cell_of h (tops w))) = Some rd -> SubgroupReader.index rd = 0) /\
  (forall h, Forall (fun o => SubgroupObjectReader.index o = 0) (listed w h)).

Inductive step : t -> t -> Prop :=
  | do_turn s k tk p o x : tasks s !! k = Some tk -> turn None (at_ tk) (out s) (store s) = Some (p, (o, x)) ->
      step s (mk (<[k := mk_task p (visit (at_ tk) p (visits tk))]> (tasks s)) o x
                 (log s ++ ((fun b => (k, b)) <$> written (at_ tk))))
  | do_env s x : untouched (Store.subgroups x) ->
      (forall tk, tk ∈ tasks s -> grows (Store.subgroups (store s)) (Store.subgroups x) (visits tk)) ->
      step s (mk (tasks s) (out s) x (log s)).

Definition start (tracks : list TrackReader.t) (o : list byte) (x : Store.t) : t :=
  mk ((fun r => mk_task (Mode r) []) <$> tracks) o x [].

(** *** What holds of a task *)

Definition complete (w : World) (o : SubgroupObjectReader.t) : Prop :=
  dropped (inner (cell_of (SubgroupObjectReader.state o) (Groups.objects w))) = None.

(** What was written of a group are its first objects. *)
Definition faithful (w : World) (v : Handle * list (list byte)) : Prop := forall i b, v.2 !! i = Some b ->
  exists o, listed w v.1 !! i = Some o /\ complete w o /\ object_bytes w o = b.

Definition placed (w : World) (p : point) (vs : list (Handle * list (list byte))) : Prop :=
  match p with
  | NextObject _ _ g => exists vs0 l, vs = vs0 ++ [(SubgroupReader.state g, l)] /\ SubgroupReader.index g = lenN l
  | ReadObject _ _ g o buf => exists vs0 l o0, vs = vs0 ++ [(SubgroupReader.state g, l)] /\
      SubgroupReader.index g = lenN l + 1 /\ listed w (SubgroupReader.state g) !! length l = Some o0 /\
      SubgroupObjectReader.state o = SubgroupObjectReader.state o0 /\
      let chunks := SubgroupObjectState.chunks (lock (cell_of (SubgroupObjectReader.state o) (Groups.objects w))) in
      SubgroupObjectReader.index o <= lenN chunks /\ buf = concat (take (N.to_nat (SubgroupObjectReader.index o)) chunks)
  | WriteObject _ _ g buf => exists vs0 l o0, vs = vs0 ++ [(SubgroupReader.state g, l)] /\
      SubgroupReader.index g = lenN l + 1 /\ listed w (SubgroupReader.state g) !! length l = Some o0 /\
      complete w o0 /\ object_bytes w o0 = buf
  | _ => True
  end.

Definition good (w : World) (tk : task) : Prop :=
  Forall (faithful w) (visits tk) /\ placed w (at_ tk) (visits tk).

Lemma reads_grows w w' vs : reads w w' -> grows w w' vs.
Proof.
  intros (_ & Hg & Ho) h _. split; [unfold listed; by rewrite (proj1 (Hg h))|]. intros o _. unfold object_grows.
  destruct (Ho (SubgroupObjectReader.state o)) as [H1 H2]. rewrite H1. split; [done|]. intros Hd. split; [done|]. by apply H2.
Qed.

Lemma reads_untouched w w' : reads w w' -> untouched w -> untouched w'.
Proof.
  intros (Ht & Hg & _) [Hu1 Hu2]. split; [intros h; rewrite (proj1 (Ht h)); apply Hu1|].
  intros h. unfold listed. rewrite (proj1 (Hg h)). apply Hu2.
Qed.

Lemma complete_grows w w' o : object_grows w w' o -> complete w o -> complete w' o /\ object_bytes w' o = object_bytes w o.
Proof. intros [_ H2] Hc. destruct (H2 Hc) as [Hl Hd]. split; [exact Hd|]. unfold object_bytes. by rewrite Hl. Qed.

Lemma listed_grows w w' vs h i o : grows w w' vs -> h ∈ vs.*1 -> listed w h !! i = Some o ->
  listed w' h !! i = Some o /\ object_grows w w' o.
Proof.
  intros Hg Hh Hi. destruct (Hg h Hh) as [Hp Ho]. split; [by eapply prefix_lookup_Some|]. apply Ho. by eapply list_elem_of_lookup_2.
Qed.

Lemma faithful_grows w w' vs v : grows w w' vs -> v ∈ vs -> faithful w v -> faithful w' v.
Proof.
  intros Hg Hv Hf i b Hi. destruct (Hf i b Hi) as (o & Ho & Hc & Hb).
  destruct (listed_grows _ _ _ v.1 _ _ Hg ltac:(by apply list_elem_of_fmap_2) Ho) as [Ho' Hog].
  destruct (complete_grows _ _ _ Hog Hc) as [Hc' Hb']. exists o. split; [done|]. split; [done|congruence].
Qed.

Lemma placed_grows w w' p vs : grows w w' vs -> placed w p vs -> placed w' p vs.
Proof.
  intros Hg. destruct p as [| |tr gs g|tr gs g o buf|tr gs g buf|]; cbn [placed]; try done.
  - intros (vs0 & l & o0 & -> & Hi & Hl & Ho & Hix & Hb). exists vs0, l, o0. split; [done|]. split; [done|].
    destruct (listed_grows _ _ _ (SubgroupReader.state g) _ _ Hg ltac:(rewrite fmap_app; apply elem_of_app; right; by left) Hl) as [Hl' Hog].
    split; [done|]. split; [done|]. unfold object_grows in Hog. rewrite <- Ho in Hog. destruct Hog as [[k Hk] _]. rewrite Hk. split.
    + rewrite lenN_app. lia.
    + rewrite take_app_le; [done|]. unfold lenN in Hix. lia.
  - intros (vs0 & l & o0 & -> & Hi & Hl & Hc & Hb). exists vs0, l, o0. split; [done|]. split; [done|].
    destruct (listed_grows _ _ _ (SubgroupReader.state g) _ _ Hg ltac:(rewrite fmap_app; apply elem_of_app; right; by left) Hl) as [Hl' Hog].
    destruct (complete_grows _ _ _ Hog Hc) as [Hc' Hb']. split; [done|]. split; [done|congruence].
Qed.

Lemma good_grows w w' tk : grows w w' (visits tk) -> good w tk -> good w' tk.
Proof.
  intros Hg [Hf Hp]. split; [|by eapply placed_grows]. rewrite Forall_forall in Hf |- *. intros v Hv.
  eapply faithful_grows; [exact Hg|exact Hv|by apply Hf].
Qed.

(** *** A turn *)

(** The store of a turn, and where it leads. *)
Lemma turn_reads p o x p' o' x' : turn None p o x = Some (p', (o', x')) ->
  reads (Store.subgroups x) (Store.subgroups x') /\ o' = o ++ concat (written p).
Proof.
  destruct p as [tr|tr gs|tr gs g|tr gs g ob buf|tr gs g buf|r]; cbn [turn written concat]; rewrite ?app_nil_r.
  - pose proof (reads_mode_turn tr x) as Hm. destruct (TrackRead.mode_turn tr x) as [[[m|e|]|n] x1]; [| | |done].
    + assert (Hd : reads (Store.subgroups x) (Store.subgroups (TrackRead.drop tr (Store.drop_mode m x1)))).
      { etransitivity; [exact Hm|]. etransitivity; [apply (reads_drop_mode m)|apply reads_drop_track]. }
      destruct m; intros [= <- <- <-]; (split; [|done]); [exact Hd|exact Hm|exact Hd].
    + intros [= <- <- <-]. split; [|done]. etransitivity; [exact Hm|apply reads_drop_track].
    + intros [= <- <- <-]. by split.
  - pose proof (reads_next_group gs (Store.subgroups x)) as Hn. destruct (SubgroupsReader.next_turn _ _) as [[r|n] [gs' w]]; [|done].
    cbn [snd] in Hn. assert (Hd : reads (Store.subgroups x) (Store.subgroups (TrackRead.drop tr (drop_groups gs' (Store.with_subgroups w x))))).
    { etransitivity; [exact Hn|]. etransitivity; [|apply reads_drop_track]. apply (reads_drop_top _ w). }
    destruct r as [[g|]|e|]; intros [= <- <- <-]; (split; [|done]); [exact Hn|exact Hd|exact Hd|exact Hn].
  - pose proof (next_object_spec g (Store.subgroups x)) as Hn. destruct (SubgroupRead.next_turn _ _) as [[r|n] [g' w]]; [|done].
    destruct Hn as [Hn _]. assert (Hd : reads (Store.subgroups x) (Store.subgroups (drop_group g' (Store.with_subgroups w x))))
      by (etransitivity; [exact Hn|apply (reads_drop_group _ w)]).
    destruct r as [[ob|]|e|]; intros [= <- <- <-]; (split; [|done]); [exact Hn|exact Hd|exact Hd|exact Hn].
  - pose proof (read_object_spec ob buf x) as Hr. destruct (read_object_turn ob buf x) as [[[[[ob' buf']|buf']|e|] x1]|]; [| | | |done].
    + destruct Hr as [-> _]. intros [= <- <- <-]. by split.
    + destruct Hr as (_ & Hr & _). intros [= <- <- <-]. by split.
    + intros [= <- <- <-]. split; [|done]. etransitivity; [exact Hr|apply reads_drop_group].
    + intros [= <- <- <-]. by split.
  - cbn [write_all]. intros [= <- <- <-]. by split.
  - done.
Qed.

Lemma good_turn p vs o x p' o' x' : untouched (Store.subgroups x) -> good (Store.subgroups x) (mk_task p vs) ->
  turn None p o x = Some (p', (o', x')) -> good (Store.subgroups x') (mk_task p' (visit p p' vs)).
Proof.
  intros Hu Hgd Ht. destruct (turn_reads _ _ _ _ _ _ Ht) as [Hr _].
  assert (Hg' : good (Store.subgroups x') (mk_task p vs)) by (by eapply good_grows; [apply reads_grows|]).
  destruct Hgd as [Hf Hp], Hg' as [Hf' Hp']. cbn [at_ visits] in *. unfold good. cbn [at_ visits].
  destruct p as [tr|tr gs|tr gs g|tr gs g ob buf|tr gs g buf|r]; cbn [turn] in Ht.
  - destruct (TrackRead.mode_turn tr x) as [[[m|e|]|n] x1]; [| | |done]; [destruct m|..]; injection Ht as <- <- <-; by split.
  - pose proof (next_group_latest gs (Store.subgroups x)) as Hl.
    destruct (SubgroupsReader.next_turn _ _) as [[r|n] [gs' w]]; [|done].
    destruct r as [[g|]|e|]; injection Ht as <- <- <-; cbn [visit placed]; try by split. split.
    + apply Forall_app. split; [done|]. constructor; [|constructor]. intros i b Hi. done.
    + exists vs, []. split; [done|]. destruct Hl as (rd & Hl & ->). by apply (proj1 Hu _ _ Hl).
  - pose proof (next_object_spec g (Store.subgroups x)) as Hn. destruct (SubgroupRead.next_turn _ _) as [[r|n] [g' w]]; [|done].
    destruct Hn as (_ & Hst & Hn). destruct r as [[ob|]|e|]; injection Ht as <- <- <-; cbn [visit]; try by split.
    split; [done|]. cbn [placed] in *. destruct Hp as (vs0 & l & -> & Hix). destruct Hn as (Hix' & o0 & Hl & Ho & Hoi).
    pose proof (proj2 Hu (SubgroupReader.state g)) as Hu0. rewrite Forall_forall in Hu0. pose proof (Hu0 o0 ltac:(by eapply list_elem_of_lookup_2)) as Hz.
    exists vs0, l, o0. rewrite Hst. split; [done|]. split; [lia|]. split.
    + unfold listed. rewrite (proj1 (proj1 (proj2 Hr) (SubgroupReader.state g))). rewrite <- Hl. f_equal. rewrite Hix. unfold lenN. lia.
    + split; [done|]. rewrite Hoi, Hz. split; [lia|done].
  - pose proof (read_object_spec ob buf x) as Hs. destruct (read_object_turn ob buf x) as [[[[[ob' buf']|buf']|e|] x1]|]; [| | | |done];
      injection Ht as <- <- <-; cbn [visit]; try by split.
    + destruct Hs as (-> & Hst & Hix & chunk & Hc & ->). split; [done|]. cbn [placed] in *.
      destruct Hp as (vs0 & l & o0 & -> & Hi & Hl & Ho & Hle & ->). exists vs0, l, o0. split; [done|]. split; [done|]. split; [done|].
      split; [congruence|]. rewrite Hst, Hix. apply lookup_lt_Some in Hc as Hlt. split; [unfold lenN; lia|].
      rewrite N2Nat.inj_add. change (N.to_nat 1) with 1%nat. rewrite Nat.add_1_r, (take_S_r _ _ _ Hc), concat_app. cbn [concat].
      by rewrite app_nil_r.
    + destruct Hs as (-> & _ & Hend & Hdr). split; [done|]. cbn [placed] in *.
      destruct Hp' as (vs0 & l & o0 & -> & Hi & Hl & Ho & Hle & Hb). exists vs0, l, o0. split; [done|]. split; [done|]. split; [done|].
      destruct (proj2 (proj2 Hr) (SubgroupObjectReader.state ob)) as [Hlk Hdk]. unfold complete, object_bytes. rewrite <- Ho. split; [by apply Hdk|].
      rewrite Hb, take_ge; [done|]. rewrite Hlk. by apply lookup_ge_None.
  - cbn [write_all] in Ht. injection Ht as <- <- <-. cbn [visit placed] in *. destruct Hp as (vs0 & l & o0 & -> & Hi & Hl & Hc & Hb).
    unfold PubMedia.extend. rewrite last_snoc, removelast_last. cbn [fst snd]. apply Forall_app in Hf as [Hf1 Hf2].
    apply Forall_cons in Hf2 as [Hf2 _]. split.
    + apply Forall_app. split; [done|]. constructor; [|constructor]. intros i b Hib. cbn [fst snd] in *.
      apply lookup_app_Some in Hib as [Hib|[Hge Hib]]; [by apply Hf2|].
      apply list_lookup_singleton_Some in Hib as [Hz ->]. exists o0. replace i with (length l) by lia. done.
    + exists vs0, (l ++ [buf]). split; [done|]. rewrite lenN_app. change (lenN [buf]) with 1. lia.
  - done.
Qed.

(** *** All tasks *)

Definition of_task (k : nat) (l : list (nat * list byte)) : list (list byte) := (filter (fun p => p.1 = k) l).*2.

Lemma of_task_app k l l' : of_task k (l ++ l') = of_task k l ++ of_task k l'.
Proof. unfold of_task. by rewrite filter_app, fmap_app. Qed.

Lemma of_task_own k (bs : list (list byte)) : of_task k ((fun b => (k, b)) <$> bs) = bs.
Proof. unfold of_task. induction bs as [|b bs IH]; [done|]. rewrite fmap_cons, filter_cons_True by done. rewrite fmap_cons. by f_equal. Qed.

Lemma of_task_other j k (bs : list (list byte)) : j <> k -> of_task j ((fun b => (k, b)) <$> bs) = [].
Proof.
  intros Hne. unfold of_task. induction bs as [|b bs IH]; [done|]. rewrite fmap_cons, filter_cons_False by (cbn; congruence). exact IH.
Qed.

Record inv (o : list byte) (s : t) : Prop := {
  inv_out : out s = o ++ concat (log s).*2;
  inv_untouched : untouched (Store.subgroups (store s));
  inv_good : forall k tk, tasks s !! k = Some tk -> good (Store.subgroups (store s)) tk;
  inv_log : forall k tk, tasks s !! k = Some tk -> of_task k (log s) = concat (visits tk).*2;
}.

Lemma visit_log w p p' vs : placed w p vs -> concat (visit p p' vs).*2 = concat vs.*2 ++ written p.
Proof.
  destruct p as [tr|tr gs|tr gs g|tr gs g ob buf|tr gs g buf|r]; cbn [visit written placed]; rewrite ?app_nil_r; try done.
  - intros _. destruct p'; try done. rewrite fmap_app, concat_app. cbn. by rewrite app_nil_r.
  - intros (vs0 & l & _ & -> & _). unfold PubMedia.extend. rewrite last_snoc, removelast_last. cbn [fst snd].
    rewrite !fmap_app, !concat_app. cbn. by rewrite !app_nil_r, app_assoc.
Qed.

Lemma play_step_inv o s s' : step s s' -> inv o s -> inv o s'.
Proof.
  destruct 1 as [s k tk p o' x Hk Ht|s x Hu Hg]; intros [I1 I2 I3 I4].
  - destruct (turn_reads _ _ _ _ _ _ Ht) as [Hr ->]. pose proof (I3 _ _ Hk) as Hgk.
    assert (Hlt : (k < length (tasks s))%nat) by (by eapply lookup_lt_Some).
    split; cbn [out store tasks log].
    + rewrite I1, fmap_app, concat_app, app_assoc. f_equal. by rewrite <- list_fmap_compose, list_fmap_id.
    + by eapply reads_untouched.
    + intros j tj Hj. destruct (decide (j = k)) as [->|Hne].
      * rewrite list_lookup_insert_eq in Hj by done. injection Hj as <-. destruct tk as [p0 vs]. by eapply good_turn.
      * rewrite list_lookup_insert_ne in Hj by done. eapply good_grows; [by apply reads_grows|by eapply I3].
    + intros j tj Hj. rewrite of_task_app. destruct (decide (j = k)) as [->|Hne].
      * rewrite list_lookup_insert_eq in Hj by done. injection Hj as <-. cbn [visits].
        rewrite (visit_log _ _ _ _ (proj2 Hgk)), of_task_own. f_equal. by apply I4.
      * rewrite list_lookup_insert_ne in Hj by done. rewrite of_task_other, app_nil_r by done. by apply I4.
  - split; cbn [out store tasks log]; try done. intros k tk Hk.
    eapply good_grows; [apply Hg; by eapply list_elem_of_lookup_2|by apply (I3 k)].
Qed.

Lemma play_reach_inv tracks o x s : untouched (Store.subgroups x) -> rtc step (start tracks o x) s -> inv o s.
Proof.
  intros Hu. revert s. apply rtc_ind_r; [|intros y z _ Hs Hi; by eapply play_step_inv].
  assert (Hv : forall k tk, tasks (start tracks o x) !! k = Some tk -> visits tk = [] /\ exists r, at_ tk = Mode r).
  { intros k tk Hk. cbn in Hk. rewrite list_lookup_fmap in Hk. destruct (tracks !! k) as [r|]; [|done].
    cbn in Hk. injection Hk as <-. split; [done|by exists r]. }
  split; cbn [out store log start].
  - cbn. by rewrite app_nil_r.
  - exact Hu.
  - intros k tk Hk. destruct (Hv _ _ Hk) as [Hn [r Hp]]. unfold good. rewrite Hn, Hp. split; [constructor|done].
  - intros k tk Hk. by rewrite (proj1 (Hv _ _ Hk)).
Qed.

(** C37 (safety). What is played. In every interleaving of the tasks of the tracks with each
    other and with a session that goes on writing to the cache, as long as the output takes what it
    is given: the output is what it was followed by the objects of the log, each
    whole; what one task has written is, group by group as it took them, the first objects
    of each group, complete, in order and without a gap. Between the objects of one task any
    number of objects of another may come. *)
Theorem objects_played (tracks : list TrackReader.t) (o : list byte) (x : Store.t) (s : t) :
  untouched (Store.subgroups x) -> rtc step (start tracks o x) s ->
  out s = o ++ concat (log s).*2 /\
  forall k tk, tasks s !! k = Some tk -> of_task k (log s) = concat (visits tk).*2 /\
    forall h l, (h, l) ∈ visits tk -> l `prefix_of` payloads (Store.subgroups (store s)) h.
Proof.
  intros Hu Hr. destruct (play_reach_inv _ _ _ _ Hu Hr) as [I1 _ I3 I4]. split; [done|].
  intros k tk Hk. split; [by apply I4|]. intros h l Hin. destruct (I3 _ _ Hk) as [Hf _].
  rewrite Forall_forall in Hf. specialize (Hf _ Hin). unfold faithful in Hf. cbn [fst snd] in Hf.
  exists (drop (length l) (payloads (Store.subgroups (store s)) h)).
  rewrite <- (take_drop (length l) (payloads (Store.subgroups (store s)) h)) at 1. f_equal.
  apply list_eq_same_length with (n := length l); [done| |].
  - rewrite length_take. unfold payloads. rewrite length_fmap. destruct (decide (length l = 0%nat)) as [E|E]; [lia|].
    destruct (lookup_lt_is_Some_2 l (pred (length l))) as [b Hb]; [lia|].
    destruct (Hf _ _ Hb) as (ob & Ho & _). apply lookup_lt_Some in Ho. lia.
  - intros i a b Hi Ha Hb. destruct (Hf _ _ Hb) as (ob & Ho & _ & Hob).
    rewrite lookup_take_lt in Ha by done. unfold payloads in Ha. rewrite list_lookup_fmap, Ho in Ha. cbn in Ha. congruence.
Qed.
End Sys.
End PlaySys.

(** ** The cache leaves its readers untouched *)

Definition all_cells {T} (P : T -> Prop) (a : Arena T) : Prop := forall h, P (lock (cell_of h a)).

Lemma all_cells_put {T} (P : T -> Prop) l (c : Cell T) a : P (lock c) -> all_cells P a -> all_cells P (put l c a).
Proof.
  intros Hc Ha h. destruct (decide (loc h = l)) as [<-|Hne]; [by rewrite cell_put_eq|by rewrite cell_put_ne].
Qed.

Lemma all_cells_split {T} (P : T -> Prop) (initial : T) a : P initial -> all_cells P a -> all_cells P (snd (default_split initial a)).
Proof.
  intros Hi Ha h. unfold cell_of. cbn. unfold put. cbn. destruct (decide _); [done|]. apply (Ha h).
Qed.

Lemma all_cells_stay {T} (P : T -> Prop) (a a' : Arena T) : all_stay a a' -> all_cells P a -> all_cells P a'.
Proof. intros Hs Ha h. rewrite (proj1 (Hs h)). apply Ha. Qed.

Lemma all_cells_mutate {T} `{Closable T} (P : T -> Prop) h (f : T -> T) a :
  (forall st, P st -> P (f st)) -> all_cells P a -> all_cells P (snd (on_cell h (mutate f) a)).
Proof.
  intros Hf Ha. unfold on_cell. rewrite mutate_spec. destruct (dropped _); cbn [snd]; (apply all_cells_put; [|done]).
  - unfold lock. cbn. apply Hf, Ha.
  - apply Ha.
Qed.

Definition top_untouched (st : SubgroupsState.t) : Prop :=
  forall rd, SubgroupsState.latest st = Some rd -> SubgroupReader.index rd = 0.
Definition group_untouched (st : SubgroupState.t) : Prop :=
  Forall (fun o => SubgroupObjectReader.index o = 0) (SubgroupState.objects st).

Lemma untouched_cells w : PlaySys.untouched w <-> all_cells top_untouched (tops w) /\ all_cells group_untouched (groups w).
Proof. done. Qed.

Lemma reads_drop_object o w : reads w (drop_object_reader o w).
Proof. split; [reflexivity|]. split; [reflexivity|]. apply all_stay_drop. Qed.

(** A writer of a group pushes readers that have read nothing. *)
Lemma write_untouched payload g w : PlaySys.untouched w ->
  PlaySys.untouched (snd (snd (SubgroupWriter.write payload (g, w)))).
Proof.
  rewrite !untouched_cells. intros [H1 H2]. unfold SubgroupWriter.write, bind, SubgroupWriter.create.
  set (object := SubgroupObject.mk _ _ _ _). cbn [default_split state_new split].
  set (rd := SubgroupObjectReader.new _ _). set (w0 := with_objects _ w).
  pose proof (all_cells_mutate group_untouched (SubgroupWriter.state g) (SubgroupState.push rd) (groups w)) as Hm.
  change (groups w) with (groups w0) in Hm. cbn [SubgroupWriter.state].
  destruct (on_cell (SubgroupWriter.state g) (mutate (SubgroupState.push rd)) (groups w0)) as [r a]. cbn [snd] in Hm.
  assert (Ha : all_cells group_untouched a).
  { apply Hm; [|exact H2]. intros st Hst. apply Forall_app. split; [exact Hst|]. by repeat constructor. }
  destruct r as [[]|e|]; cbn [snd].
  - unfold SubgroupWriter.write_object. destruct (SubgroupObjectWriter.write _ _) as [r [o c]]. cbn [snd].
    unfold drop_object_writer. destruct (on_cell _ _ _) as [u b]. by split.
  - unfold drop_object_writer, drop_object_reader. destruct (on_cell _ _ _) as [u b]. by split.
  - by split.
Qed.

Lemma drop_group_untouched h w : PlaySys.untouched w -> PlaySys.untouched (drop_group_handle h w).
Proof. apply PlaySys.reads_untouched, reads_drop_group. Qed.

Lemma append_untouched p groups w : PlaySys.untouched w ->
  PlaySys.untouched (snd (snd (SubgroupsWriter.append p (groups, w)))).
Proof.
  intros Hw. unfold SubgroupsWriter.append, SubgroupsWriter.create. set (info := SubgroupInfo.mk _ _ _ _).
  destruct (SubgroupWriter.produce info w) as [[wr rd] w1] eqn:Ep.
  assert (H1 : PlaySys.untouched w1 /\ SubgroupReader.index rd = 0).
  { unfold SubgroupWriter.produce in Ep. cbn [default_split state_new split] in Ep. injection Ep as <- <- <-. split; [|done].
    destruct Hw as [Ht Hg]. split; [exact Ht|]. apply (all_cells_split group_untouched SubgroupState.default); [constructor|exact Hg]. }
  destruct H1 as [[Ht Hg] Hi].
  assert (Ha : all_cells top_untouched (snd (on_cell (SubgroupsWriter.state groups) (with_mut (SubgroupsWriter.set_latest rd)) (tops w1)))).
  { unfold on_cell, with_mut. destruct (dropped _); [|apply all_cells_put; [exact (Ht _)|exact Ht]].
    destruct (SubgroupsWriter.set_latest rd _) as [pl st] eqn:Es. apply all_cells_put; [|exact Ht]. unfold lock. cbn.
    unfold SubgroupsWriter.set_latest in Es. intros r Hr.
    destruct (match SubgroupsState.latest _ with Some _ => _ | None => _ end); simplify_eq; cbn in Hr;
      [congruence|by apply (Ht (SubgroupsWriter.state groups))..]. }
  destruct (on_cell _ _ _) as [r a]. cbn [snd] in Ha.
  assert (H2 : PlaySys.untouched (with_tops a w1)) by (split; [exact Ha|exact Hg]).
  destruct r as [[[] [o|]]|]; cbn [snd]; try exact H2; unfold drop_group_reader, SubgroupWriter.drop; by repeat apply drop_group_untouched.
Qed.

(** ** Two tracks of two objects each *)

Section Demo.

Definition demo_bytes (b : byte) : list byte := [b].

(** A track with one group of two objects. *)
Definition demo_track (name : String) (a b : byte) (x : Store.t) : TrackReader.t * Store.t :=
  let '((writer, reader), x) := TrackWrite.produce (Track.mk (Tuple.mk []) name) x in
  match TrackWrite.groups writer x with
  | (Ok groups, x) =>
      match SubgroupsWriter.append (bn 127) (groups, Store.subgroups x) with
      | (Ok g, (_, w)) =>
          let '(_, (g, w)) := SubgroupWriter.write [a] (g, w) in
          let '(_, (_, w)) := SubgroupWriter.write [b] (g, w) in
          (reader, Store.with_subgroups w x)
      | (_, (_, w)) => (reader, Store.with_subgroups w x)
      end
  | (_, x) => (reader, x)
  end.

Lemma groups_untouched tw x : PlaySys.untouched (Store.subgroups x) ->
  PlaySys.untouched (Store.subgroups (snd (TrackWrite.groups tw x))).
Proof.
  intros Hw. unfold TrackWrite.groups. destruct (SubgroupsWriter.produce _ _) as [[wr rd] w] eqn:Ep.
  assert (H1 : PlaySys.untouched w).
  { unfold SubgroupsWriter.produce in Ep. cbn [default_split state_new split] in Ep. injection Ep as _ _ <-.
    destruct Hw as [Ht Hg]. split; [|exact Hg]. by apply (all_cells_split top_untouched SubgroupsState.default). }
  unfold TrackWrite.set_mode. destruct (on_cell _ _ _) as [[[]|e|] a]; cbn [snd].
  - eapply PlaySys.reads_untouched; [apply (reads_drop_track (TrackReader.new (TrackWriter.state tw) (TrackWriter.info tw)))|exact H1].
  - eapply PlaySys.reads_untouched; [apply (reads_drop_track (TrackReader.new (TrackWriter.state tw) (TrackWriter.info tw)))|].
    eapply PlaySys.reads_untouched; [apply (reads_drop_top (SubgroupsWriter.state wr))|].
    eapply PlaySys.reads_untouched; [apply (reads_drop_mode (TrackReaderMode.Subgroups rd) (Store.with_tracks a (Store.with_subgroups w x)))|exact H1].
  - exact H1.
Qed.

Lemma demo_track_untouched name a b x : PlaySys.untouched (Store.subgroups x) ->
  PlaySys.untouched (Store.subgroups (snd (demo_track name a b x))).
Proof.
  intros Hw. unfold demo_track. destruct (TrackWrite.produce _ x) as [[tw tr] x0] eqn:Ep.
  assert (H0 : PlaySys.untouched (Store.subgroups x0)).
  { unfold TrackWrite.produce in Ep. destruct (default_split _ _) as [[h1 h2] a0]. injection Ep as _ _ <-. exact Hw. }
  pose proof (groups_untouched tw x0 H0) as H1. destruct (TrackWrite.groups tw x0) as [[gs|e|] x1]; [|exact H1|exact H1].
  cbn [snd] in H1. pose proof (append_untouched (bn 127) gs _ H1) as H2.
  destruct (SubgroupsWriter.append _ _) as [[g|e|] [gs' w]]; cbn [snd] in H2; [|exact H2|exact H2].
  pose proof (write_untouched [a] g w H2) as H3. destruct (SubgroupWriter.write [a] (g, w)) as [r1 [g1 w1]]. cbn [snd] in H3.
  pose proof (write_untouched [b] g1 w1 H3) as H4. destruct (SubgroupWriter.write [b] (g1, w1)) as [r2 [g2 w2]]. exact H4.
Qed.

Definition demo_a := demo_track (m4s 1) x61 x62 Store.new.
Definition demo_b := demo_track (m4s 2) x41 x42 (snd demo_a).

(** Turns of the tasks in the order given. *)
Fixpoint play (ks : list nat) (s : PlaySys.t) : option PlaySys.t :=
  match ks with
  | [] => Some s
  | k :: ks =>
      match PlaySys.tasks s !! k with
      | Some tk =>
          match Player.turn None (PlaySys.at_ tk) (PlaySys.out s) (PlaySys.store s) with
          | Some (p, (o, x)) =>
              play ks (PlaySys.mk (<[k := PlaySys.mk_task p (PlaySys.visit (PlaySys.at_ tk) p (PlaySys.visits tk))]> (PlaySys.tasks s)) o x
                (PlaySys.log s ++ ((fun b => (k, b)) <$> PlaySys.written (PlaySys.at_ tk))))
          | None => None
          end
      | None => None
      end
  end.

Lemma play_steps ks : forall s s', play ks s = Some s' -> rtc PlaySys.step s s'.
Proof.
  induction ks as [|k ks IH]; intros s s'; cbn [play]; [by intros [= ->]|].
  destruct (PlaySys.tasks s !! k) as [tk|] eqn:Hk; [|done]. destruct (Player.turn _ _ _ _) as [[p [o x]]|] eqn:Ht; [|done].
  intros H. eapply rtc_l; [apply (PlaySys.do_turn s k tk p o x Hk Ht)|]. by apply IH.
Qed.

Definition demo_start : PlaySys.t := PlaySys.start [fst demo_a; fst demo_b] [] (snd demo_b).
Definition demo_order : list nat := [0; 0; 1; 1; 0; 0; 0; 0; 1; 1; 1; 1; 0; 0; 0; 0; 1; 1; 1; 1]%nat.

(** The two objects of a fragment come apart when two tracks play. *)
Lemma objects_played_witness : exists s, play demo_order demo_start = Some s /\
  PlaySys.out s = [x61; x41; x62; x42] /\ PlaySys.out s = [] ++ concat (PlaySys.log s).*2.
Proof.
  destruct (play demo_order demo_start) as [s|] eqn:E.
  2: { assert (F : match play demo_order demo_start with Some _ => true | None => false end = true) by (vm_compute; reflexivity).
       by rewrite E in F. }
  exists s. split; [reflexivity|]. split.
  - assert (F : PlaySys.out <$> play demo_order demo_start = Some [x61; x41; x62; x42]) by (vm_compute; reflexivity).
    rewrite E in F. cbn in F. congruence.
  - apply (PlaySys.objects_played [fst demo_a; fst demo_b] [] (snd demo_b) s); [|exact (play_steps _ _ _ E)].
    apply demo_track_untouched, demo_track_untouched. split; [done|constructor].
Defined.
End Demo.

(** A reader of boxes that knows extended sizes, as the publisher does. *)
Definition demo_header (atom : list byte) : option (BoxType.t * N * list byte) :=
  if extended atom then
    if lenN atom <? 16 then None
    else Some (PubMedia.demo_name atom, from_be (take 8 (skipn 8 atom)) - 8, skipn 16 atom)
  else PubMedia.demo_header atom.

#[local] Instance demo_mp4 : Mp4.
Proof.
  refine {| read_header := demo_header;
    read_moov := fun body _ => if decide (body = [x00; x01]) then Some (Moov.mk [PubMedia.demo_trak]) else None;
    read_moof := fun _ _ => Some PubMedia.demo_moof; track_type := fun _ => Some TrackType.Video;
    codec_avc1 := fun _ _ _ => str "avc1"; to_string_pretty := fun _ => Some [] |};
    intros atom size rest; unfold demo_header, PubMedia.demo_header, PubMedia.demo_name;
    destruct (extended atom); destruct (_ <? _); try done; intros H; by repeat case_decide.
Defined.

(** The same film with a plain and with an extended size of its [moov]. *)
Lemma init_understood_witness :
  let ftyp := PubMedia.demo_box "ftyp" [x69] in
  let moov := PubMedia.demo_box "moov" [x00; x01] in
  let moov64 := to_be 4 1 ++ text "moov" ++ to_be 8 18 ++ [x00; x01] in
  Player.parse_init (ftyp ++ moov) = Ok (Moov.mk [PubMedia.demo_trak]) /\
  Player.parse_init (ftyp ++ moov64) = Err Mp4Error.
Proof.
  intros ftyp moov moov64. split.
  - apply (init_understood ftyp moov 10 [x00; x01] 9 [x69]); vm_compute; reflexivity.
  - etransitivity; [apply (init_understood ftyp moov64 10 [x00; x01] 9 [x69] (Moov.mk [PubMedia.demo_trak]));
      vm_compute; reflexivity|]. vm_compute. reflexivity.
Defined.
