(* ===== verification/Origins.v ===== *)
(** * Origins of broadcasts

    [moq-api]: an HTTP server that keeps, in a Redis database, which relay a
    broadcast is at ([server.rs]), its client ([client.rs]), and what a relay does
    with it ([moq-relay-ietf/src/api.rs]). A handler awaits each of its commands, so
    handlers interleave command by command. *)
From Stdlib Require Import Strings.String NArith Lia Bool.
From stdpp Require Import base list gmap option numbers relations.
From S2P Require Import Prelude Utf8.

(** ** The database and the other crates

    The commands used of Redis, at a time in seconds: what a key holds, a claim of
    a key nobody holds that expires, a deletion, a new deadline. With them the JSON of an
    origin ([serde_json]) and the texts of errors. *)
Class Redis := {
  Url : Type;
  url_eq_dec :: EqDecision Url;
  RedisError : Type;
  redis_display : RedisError -> String;
  JsonError : Type;
  json_display : JsonError -> String;
  to_string : Url -> String;
  from_str : String -> JsonError + Url;
  db : Type;
  get : N -> String -> db -> option String;
  set_nx_ex : N -> String -> String -> N -> db -> bool * db;
  del : N -> String -> db -> N * db;
  expire : N -> String -> N -> db -> N * db;
  (** JSON: what was written is read back, and no text of it starts with a letter, as
      the texts of errors do, or is empty. *)
  from_to_string : forall u, from_str (to_string u) = inr u;
  from_str_text : forall b l s, as_bytes s = b :: l -> b = x72 \/ b = x6a -> exists e, from_str s = inl e;
  from_str_empty : forall s, as_bytes s = [] -> exists e, from_str s = inl e;
  (** A value stays until it expires. *)
  get_later : forall t t' k d, t <= t' -> get t' k d = get t k d \/ get t' k d = None;
  (** [SET NX EX] *)
  set_taken : forall t k v ex d w, get t k d = Some w -> set_nx_ex t k v ex d = (false, d);
  set_free : forall t k v ex d, get t k d = None -> exists d', set_nx_ex t k v ex d = (true, d') /\
    forall t' k', t <= t' -> get t' k' d' = if decide (k' = k) then (if t' <? t + ex then Some v else None) else get t' k' d;
  (** [DEL] *)
  del_spec : forall t k d, exists d', del t k d = ((if decide (is_Some (get t k d)) then 1 else 0), d') /\
    forall t' k', t <= t' -> get t' k' d' = if decide (k' = k) then None else get t' k' d;
  (** [EXPIRE] *)
  expire_spec : forall t k ex d, exists d', expire t k ex d = ((if decide (is_Some (get t k d)) then 1 else 0), d') /\
    forall t' k', t <= t' -> get t' k' d' = if decide (k' = k) then (if t' <? t + ex then get t k d else None) else get t' k' d;
}.

(** [model.rs] *)
Module Origin.
Section Origin.
Context `{Redis}.

Record t := mk { url : Url }.

#[export] Instance eq_dec : EqDecision t.
Proof. solve_decision. Defined.
End Origin.
Arguments t {_}.
Arguments mk {_}.
Arguments url {_}.
End Origin.
Export (hints) Origin.

(** ** The server *)

Module Server.
Section Server.
Context `{Redis}.

Inductive AppError :=
  | Redis_ (e : RedisError)
  | Json (e : JsonError)
  | NotFound
  | Duplicate.

Definition origin_key (namespace : String) : String := push_str (str "origin.") namespace.

Definition to_json (origin : Origin.t) : String := to_string (Origin.url origin).
Definition from_json (s : String) : JsonError + Origin.t :=
  match from_str s with inl e => inl e | inr u => inr (Origin.mk u) end.

(** The routes, with what they take from path and body. *)
Inductive request :=
  | GetOrigin (namespace : String)
  | SetOrigin (namespace : String) (origin : Origin.t)
  | DeleteOrigin (namespace : String)
  | PatchOrigin (namespace : String) (origin : Origin.t).

Definition namespace_of (r : request) : String :=
  match r with
  | GetOrigin ns | SetOrigin ns _ | DeleteOrigin ns | PatchOrigin ns _ => ns
  end.

Definition key (r : request) : String := origin_key (namespace_of r).

(** What a handler returns; the origin is there in an answer to [GetOrigin]. *)
Definition answer : Type := AppError + option Origin.t.

(** Before its first command, between its commands, or answered. *)
Inductive point :=
  | Begin
  | Claim (payload : String)
  | Extend
  | Answered (r : answer).

(** One command of a handler and what follows it. *)
Definition get_origin (now : N) (namespace : String) (d : db) : point * db :=
  match get now (origin_key namespace) d with
  | None => (Answered (inl NotFound), d)
  | Some payload =>
      match from_json payload with
      | inr origin => (Answered (inr (Some origin)), d)
      | inl e => (Answered (inl (Json e)), d)
      end
  end.

Definition set_origin (now : N) (namespace : String) (origin : Origin.t) (d : db) : point * db :=
  let payload := to_json origin in
  match get now (origin_key namespace) d with
  | Some current =>
      if decide (current = payload) then (Answered (inr None), d) else (Answered (inl Duplicate), d)
  | None => (Claim payload, d)
  end.

Definition set_origin_claim (now : N) (namespace payload : String) (d : db) : point * db :=
  let (res, d) := set_nx_ex now (origin_key namespace) payload 600 d in
  (Answered (if res then inr None else inl Duplicate), d).

Definition delete_origin (now : N) (namespace : String) (d : db) : point * db :=
  let (n, d) := del now (origin_key namespace) d in
  (Answered (if n =? 0 then inl NotFound else inr None), d).

Definition patch_origin (now : N) (namespace : String) (origin : Origin.t) (d : db) : point * db :=
  match get now (origin_key namespace) d with
  | None => (Answered (inl NotFound), d)
  | Some payload =>
      match from_json payload with
      | inl e => (Answered (inl (Json e)), d)
      | inr expected => if decide (expected = origin) then (Extend, d) else (Answered (inl Duplicate), d)
      end
  end.

Definition patch_origin_extend (now : N) (namespace : String) (d : db) : point * db :=
  let (n, d) := expire now (origin_key namespace) 600 d in
  (Answered (if n =? 0 then inl NotFound else inr None), d).

(** The next command of the handler of a request. *)
Definition turn (now : N) (r : request) (p : point) (d : db) : option (point * db) :=
  match r, p with
  | GetOrigin ns, Begin => Some (get_origin now ns d)
  | SetOrigin ns origin, Begin => Some (set_origin now ns origin d)
  | SetOrigin ns _, Claim payload => Some (set_origin_claim now ns payload d)
  | DeleteOrigin ns, Begin => Some (delete_origin now ns d)
  | PatchOrigin ns origin, Begin => Some (patch_origin now ns origin d)
  | PatchOrigin ns _, Extend => Some (patch_origin_extend now ns d)
  | _, _ => None
  end.

(** [?] on a command that failed. *)
Definition failed (e : RedisError) : point := Answered (inl (Redis_ e)).

(** A handler on its own: at most two commands, at one time. *)
Definition alone (now : N) (r : request) (d : db) : answer * db :=
  match turn now r Begin d with
  | Some (Answered a, d) => (a, d)
  | Some (p, d) => match turn now r p d with Some (Answered a, d) => (a, d) | _ => (inl NotFound, d) end
  | None => (inl NotFound, d)
  end.

(** [IntoResponse]: a status and a body. *)
Record response := mk_response { status : N; body : String }.

Definition into_response (r : answer) : response :=
  match r with
  | inr (Some origin) => mk_response 200 (to_json origin)
  | inr None => mk_response 200 (str "")
  | inl (Redis_ e) => mk_response 500 (push_str (str "redis error: ") (redis_display e))
  | inl (Json e) => mk_response 500 (push_str (str "json error: ") (json_display e))
  | inl NotFound => mk_response 404 (str "")
  | inl Duplicate => mk_response 409 (str "")
  end.
End Server.
End Server.

(** ** The client

    [reqwest] gives an error ([inl]) for a status of 400 or more, when asked, and for
    a body that is not the JSON it is to be. *)
Module Client.
Section Client.
Context `{Redis}.
Import Server.

Definition get_origin (resp : response) : unit + option Origin.t :=
  if status resp =? 404 then inr None
  else match from_json (body resp) with inr origin => inr (Some origin) | inl _ => inl tt end.

Definition error_for_status (resp : response) : unit + unit :=
  if (400 <=? status resp) && (status resp <? 600) then inl tt else inr tt.

Definition set_origin (resp : response) : unit + unit := error_for_status resp.
Definition delete_origin (resp : response) : unit + unit := error_for_status resp.
Definition patch_origin (resp : response) : unit + unit := error_for_status resp.
End Client.
End Client.

(** ** The relay's registration ([api.rs])

    The answers of the server are arguments: what the client made of them. *)
Module Refresh.
Section Refresh.
Context `{Redis}.
Import Server.

(** [refresh]: when the interval ticks next. *)
Record t := mk { origin : Origin.t; namespace : String; refresh : N }.

Definition new (now : N) (origin : Origin.t) (namespace : String) : t := mk origin namespace (now + 300).

(** The request of [update], and of the task [drop] spawns. *)
Definition update (self : t) : request := SetOrigin (namespace self) (origin self).
Definition drop (self : t) : request := DeleteOrigin (namespace self).

(** [tick]: ready from the deadline on, which moves by a period (also when it is
    late). *)
Definition tick (now : N) (self : t) : option t :=
  if now <? refresh self then None else Some (mk (origin self) (namespace self) (refresh self + 300)).

(** One pass of the loop of [run] against a server nobody else uses at that moment. *)
Definition run_turn (now : N) (self : t) (d : db) : option ((unit + t) * db) :=
  match tick now self with
  | None => None
  | Some self =>
      let (a, d) := alone now (update self) d in
      Some (match Client.set_origin (into_response a) with inl e => inl e | inr _ => inr self end, d)
  end.

(** [Api::set_origin] *)
Definition set_origin (now : N) (node : Origin.t) (namespace : String) (d : db) : (unit + t) * db :=
  let refresh := new now node namespace in
  let (a, d) := alone now (update refresh) d in
  (match Client.set_origin (into_response a) with inl e => inl e | inr _ => inr refresh end, d).

(** The passes of [run] at the given times, until an error ends it. *)
Fixpoint run (times : list N) (self : t) (d : db) : option ((unit + t) * db) :=
  match times with
  | [] => Some (inr self, d)
  | now :: times =>
      match run_turn now self d with
      | Some (inr self, d) => run times self d
      | r => r
      end
  end.
End Refresh.
Arguments t {_}.
End Refresh.

(** ** The operations on their own *)
Section Alone.
Context `{Redis}.
Import Server.

(** What two states of the database will ever show. *)
Definition same_view (now : N) (d d' : db) : Prop := forall t k, now <= t -> get t k d = get t k d'.

Lemma get_none t t' k d : get t k d = None -> t <= t' -> get t' k d = None.
Proof. intros E Ht. by destruct (get_later t t' k d Ht) as [->|]. Qed.

Lemma from_to_json o : from_json (to_json o) = inr o.
Proof. unfold from_json, to_json. rewrite from_to_string. by destruct o. Qed.

Lemma to_json_inj o o' : to_json o = to_json o' -> o = o'.
Proof. intros E. pose proof (from_to_json o) as Ho. rewrite E, from_to_json in Ho. by injection Ho. Qed.

Lemma origin_key_inj ns ns' : origin_key ns = origin_key ns' -> ns = ns'.
Proof.
  intros E. apply String_eq. apply (f_equal as_bytes) in E. unfold origin_key, push_str in E.
  cbn [as_bytes] in E. by apply app_inv_head in E.
Qed.

(** A set of a key nobody holds, of one held with the same value, and of any other. *)
Lemma alone_set now ns o d :
  match get now (origin_key ns) d with
  | None => exists d', set_nx_ex now (origin_key ns) (to_json o) 600 d = (true, d') /\ alone now (SetOrigin ns o) d = (inr None, d')
  | Some v => alone now (SetOrigin ns o) d = (if decide (v = to_json o) then inr None else inl Duplicate, d)
  end.
Proof.
  unfold alone. cbn [turn]. unfold set_origin. destruct (get now (origin_key ns) d) as [v|] eqn:E.
  - by destruct (decide _).
  - destruct (set_free now (origin_key ns) (to_json o) 600 d E) as (d' & Es & _).
    exists d'. split; [done|]. cbn [turn]. unfold set_origin_claim. by rewrite Es.
Qed.

Lemma alone_get now ns d :
  alone now (GetOrigin ns) d =
    (match get now (origin_key ns) d with
     | None => inl NotFound
     | Some v => match from_json v with inr o => inr (Some o) | inl e => inl (Json e) end
     end, d).
Proof.
  unfold alone. cbn [turn]. unfold get_origin. destruct (get _ _ _) as [v|]; [|done]. by destruct (from_json v).
Qed.

(** The client's reading of an answer. *)
Lemma not_json b l s : as_bytes s = b :: l -> b = x72 \/ b = x6a -> exists e, from_json s = inl e.
Proof. intros E Hb. destruct (from_str_text b l s E Hb) as [e He]. exists e. unfold from_json. by rewrite He. Qed.

Lemma client_get a : Client.get_origin (into_response a) =
  match a with inr (Some o) => inr (Some o) | inl NotFound => inr None | _ => inl tt end.
Proof.
  destruct a as [[e|e| |]|[o|]]; unfold Client.get_origin; cbn [into_response status body]; try done.
  - destruct (not_json x72 (Strings.String.list_byte_of_string "edis error: " ++ as_bytes (redis_display e))
      (push_str (str "redis error: ") (redis_display e)) eq_refl (or_introl eq_refl)) as [? ->]. done.
  - destruct (not_json x6a (Strings.String.list_byte_of_string "son error: " ++ as_bytes (json_display e))
      (push_str (str "json error: ") (json_display e)) eq_refl (or_intror eq_refl)) as [? ->]. done.
  - change (409 =? 404) with false. cbv iota. unfold from_json.
    by destruct (from_str_empty (str "") eq_refl) as [? ->].
  - change (200 =? 404) with false. cbv iota. by rewrite from_to_json.
  - change (200 =? 404) with false. cbv iota. unfold from_json.
    by destruct (from_str_empty (str "") eq_refl) as [? ->].
Qed.

Lemma client_status a : Client.error_for_status (into_response a) = match a with inr _ => inr tt | inl _ => inl tt end.
Proof. by destruct a as [[e|e| |]|[o|]]. Qed.
End Alone.

(** ** The server among its clients *)

Module ApiSys.
Section ApiSys.
Context `{Redis}.
Import Server.

(** [tasks]: one per request that arrived. *)
Record t := mk { now : N; store : db; tasks : list (request * point) }.

(** Time passes; a request arrives; a handler's next command is carried out, or fails
    after it was carried out or before. *)
Inductive label :=
  | Time
  | Arrive
  | Command (i : nat) (r : request)
  | Fails (i : nat) (r : request).

Inductive step : label -> t -> t -> Prop :=
  | do_time s time : now s <= time -> step Time s (mk time (store s) (tasks s))
  | do_arrive s r : step Arrive s (mk (now s) (store s) (tasks s ++ [(r, Begin)]))
  | do_command s i r p p' d' : tasks s !! i = Some (r, p) -> turn (now s) r p (store s) = Some (p', d') ->
      step (Command i r) s (mk (now s) d' (<[i := (r, p')]> (tasks s)))
  | do_fail s i r p p' d' e (carried_out : bool) :
      tasks s !! i = Some (r, p) -> turn (now s) r p (store s) = Some (p', d') ->
      step (Fails i r) s (mk (now s) (if carried_out then d' else store s) (<[i := (r, failed e)]> (tasks s))).

Definition any (s s' : t) : Prop := exists l, step l s s'.

Definition start (time : N) (d : db) : t := mk time d [].

(** What a key shows now. *)
Definition shown (s : t) (k : String) : option String := get (now s) k (store s).

(** The payload a handler claims with is that of its request. *)
Definition inv (s : t) : Prop := forall i r payload, tasks s !! i = Some (r, Claim payload) ->
  exists ns o, r = SetOrigin ns o /\ payload = to_json o.

Lemma turn_claim time r p d payload d' : turn time r p d = Some (Claim payload, d') ->
  exists ns o, r = SetOrigin ns o /\ payload = to_json o /\ d' = d.
Proof.
  destruct r, p; intros E; try discriminate E; cbn [turn] in E; injection E as E; revert E.
  - unfold get_origin. destruct (get _ _ _) as [v|]; [destruct (from_json v)|]; discriminate.
  - unfold set_origin. destruct (get _ _ _); [destruct (decide _); discriminate|].
    intros [= <- <-]. by eexists _, _.
  - unfold set_origin_claim. destruct (set_nx_ex _ _ _ _ _). discriminate.
  - unfold delete_origin. destruct (del _ _ _). discriminate.
  - unfold patch_origin. destruct (get _ _ _) as [v|]; [destruct (from_json v); [|destruct (decide _)]|]; discriminate.
  - unfold patch_origin_extend. destruct (expire _ _ _ _). discriminate.
Qed.

Lemma api_step_inv l s s' : step l s s' -> inv s -> inv s'.
Proof.
  intros Hs Hi. destruct Hs as [s time Ht|s r|s i r p p' d' Hl Et|s i r p p' d' e b Hl Et];
    intros j r0 payload; cbn [tasks].
  - apply Hi.
  - rewrite lookup_app_Some. intros [Hj|[_ Hj]]; [by eapply Hi|].
    destruct (j - length (tasks s))%nat; [discriminate Hj|done].
  - rewrite list_lookup_insert_Some. intros [(-> & [= -> ->] & _)|[_ Hj]]; [|by eapply Hi].
    apply turn_claim in Et as (ns & o & ? & ? & _). eauto.
  - rewrite list_lookup_insert_Some. intros [(-> & [=] & _)|[_ Hj]]. by eapply Hi.
Qed.

Lemma api_reach_inv time d s : star any (start time d) s -> inv s.
Proof.
  apply star_invariant; [intros x y Hi [l Hl]; by eapply api_step_inv|]. intros i r payload Hl. discriminate Hl.
Qed.

(** One command leaves every key as it was, or takes away or puts in the value of its own. *)
Definition removes (l : label) (k : String) : Prop := exists i ns, origin_key ns = k /\
  (l = Command i (DeleteOrigin ns) \/ l = Fails i (DeleteOrigin ns)).
Definition claims (l : label) (k v : String) : Prop := exists i ns o, origin_key ns = k /\ v = to_json o /\
  (l = Command i (SetOrigin ns o) \/ l = Fails i (SetOrigin ns o)).

Lemma turn_shown time r p p' d d' k : turn time r p d = Some (p', d') ->
  (forall payload, p = Claim payload -> exists ns o, r = SetOrigin ns o /\ payload = to_json o) ->
  get time k d' = get time k d \/
  (get time k d' = None /\ exists ns, r = DeleteOrigin ns /\ origin_key ns = k) \/
  (get time k d = None /\ exists ns o, r = SetOrigin ns o /\ origin_key ns = k /\ get time k d' = Some (to_json o)).
Proof.
  intros E Hp. destruct r, p; try discriminate E; cbn [turn] in E; injection E as E; revert E.
  - unfold get_origin. destruct (get time (origin_key _) _) as [v|]; [destruct (from_json v)|]; intros [= <- <-]; by left.
  - unfold set_origin. destruct (get time (origin_key _) _); [destruct (decide _)|]; intros [= <- <-]; by left.
  - destruct (Hp payload eq_refl) as (ns & o & [= <- <-] & ->). unfold set_origin_claim.
    destruct (get time (origin_key namespace) d) as [w|] eqn:Eg.
    + rewrite (set_taken _ _ _ _ _ _ Eg). intros [= <- <-]. by left.
    + destruct (set_free _ _ (to_json origin) 600 _ Eg) as (d1 & -> & Hd). intros [= <- <-].
      specialize (Hd time k ltac:(lia)). destruct (decide (k = _)) as [->|]; [|by left].
      right. right. split; [done|]. exists namespace, origin. split_and!; [done|done|].
      by rewrite Hd, (proj2 (N.ltb_lt time (time + 600))) by lia.
  - unfold delete_origin. destruct (del_spec time (origin_key namespace) d) as (d1 & -> & Hd). intros [= <- <-].
    specialize (Hd time k ltac:(lia)). destruct (decide (k = _)) as [->|]; [|by left].
    right. left. eauto.
  - unfold patch_origin. destruct (get time (origin_key _) _) as [v|]; [destruct (from_json v); [|destruct (decide _)]|];
      intros [= <- <-]; by left.
  - unfold patch_origin_extend. destruct (expire_spec time (origin_key namespace) 600 d) as (d1 & -> & Hd).
    intros [= <- <-]. specialize (Hd time k ltac:(lia)). left. destruct (decide (k = _)) as [->|]; [|done].
    by rewrite Hd, (proj2 (N.ltb_lt time (time + 600))) by lia.
Qed.

Lemma step_shown l s s' k : inv s -> step l s s' ->
  shown s' k = shown s k \/
  (shown s' k = None /\ (l = Time \/ removes l k)) \/
  (shown s k = None /\ exists v, shown s' k = Some v /\ claims l k v).
Proof.
  intros Hi Hs. destruct Hs as [s time Ht|s r|s i r p p' d' Hl Et|s i r p p' d' e b Hl Et].
  - unfold shown. cbn [now store]. destruct (get_later _ _ k (store s) Ht); eauto.
  - by left.
  - destruct (turn_shown _ _ _ _ _ _ k Et) as [E|[(E & ns & -> & <-)|(E & ns & o & -> & <- & E')]].
    { intros payload ->. by eapply Hi. }
    + by left.
    + right. left. split; [done|]. right. exists i, ns. auto.
    + right. right. split; [done|]. exists (to_json o). split; [done|]. exists i, ns, o. auto.
  - destruct b; [|by left].
    destruct (turn_shown _ _ _ _ _ _ k Et) as [E|[(E & ns & -> & <-)|(E & ns & o & -> & <- & E')]].
    { intros payload ->. by eapply Hi. }
    + by left.
    + right. left. split; [done|]. right. exists i, ns. auto.
    + right. right. split; [done|]. exists (to_json o). split; [done|]. exists i, ns, o. auto.
Qed.

(** A value that is no longer shown went away by a deletion or by time ... *)
Lemma leaves x y k v : inv x -> star any x y -> shown x k = Some v -> shown y k <> Some v ->
  exists z l z', star any x z /\ step l z z' /\ star any z' y /\ shown z k = Some v /\ shown z' k = None /\
    (l = Time \/ removes l k).
Proof.
  intros Hi Hxy Hx. induction Hxy as [|x z y Hxz IH [l Hl]]; [done|]. intros Hy.
  destruct (decide (shown z k = Some v)) as [Hz|Hz].
  - destruct (step_shown l z y k) as [E|[[E Hc]|[E _]]]; [|done|congruence| |congruence].
    + eapply star_invariant; [|exact Hi|exact Hxz]. intros a b ? [? ?]. by eapply api_step_inv.
    + exists z, l, y. split_and!; [done|done|constructor|done|done|done].
  - destruct (IH Hi Hx Hz) as (z0 & l0 & z1 & ? & ? & ? & ?). exists z0, l0, z1. split_and!; try tauto.
    eapply star_step; [eassumption|by exists l].
Qed.

(** ... and one that is new was claimed while the key was free. *)
Lemma enters x y k w : inv x -> star any x y -> shown x k = None -> shown y k = Some w ->
  exists u l u', star any x u /\ step l u u' /\ star any u' y /\ shown u k = None /\ shown u' k = Some w /\ claims l k w.
Proof.
  intros Hi Hxy Hx. induction Hxy as [|x z y Hxz IH [l Hl]]; [congruence|]. intros Hy.
  destruct (decide (shown z k = Some w)) as [Hz|Hz].
  - destruct (IH Hi Hx Hz) as (z0 & l0 & z1 & ? & ? & ? & ?). exists z0, l0, z1. split_and!; try tauto.
    eapply star_step; [eassumption|by exists l].
  - destruct (step_shown l z y k) as [E|[[E Hc]|(E & v & E' & Hc)]]; [|done|congruence|congruence|].
    + eapply star_invariant; [|exact Hi|exact Hxz]. intros a b ? [? ?]. by eapply api_step_inv.
    + assert (v = w) as -> by congruence. exists z, l, y. split_and!; [done|done|constructor|done|done|done].
Qed.

(** C28 (safety). An origin is never displaced: if a key holds one value and later, in any
    interleaving of any handlers with failing commands, another, then in between it was
    deleted or expired, and after that a [POST] of the new origin put it in while the key
    was free. *)
Theorem origin_owned (time : N) (d : db) (x y : t) (k v w : String) :
  star any (start time d) x -> star any x y -> shown x k = Some v -> shown y k = Some w -> v <> w ->
  exists z l z' u l' u', star any x z /\ step l z z' /\ star any z' u /\ step l' u u' /\ star any u' y /\
    shown z k = Some v /\ shown z' k = None /\ (l = Time \/ removes l k) /\
    shown u k = None /\ shown u' k = Some w /\ claims l' k w.
Proof.
  intros Hx Hxy Ev Ew Hvw. pose proof (api_reach_inv _ _ _ Hx) as Hi.
  destruct (leaves x y k v Hi Hxy Ev) as (z & l & z' & Hxz & Hl & Hzy & E1 & E2 & Hc); [congruence|].
  assert (Hi' : inv z').
  { eapply api_step_inv; [exact Hl|]. eapply star_invariant; [|exact Hi|exact Hxz].
    intros a b ? [? ?]. by eapply api_step_inv. }
  destruct (enters z' y k w Hi' Hzy E2 Ew) as (u & l' & u' & ? & ? & ? & ? & ? & ?).
  exists z, l, z', u, l', u'. by split_and!.
Qed.

(** A handler is at most two commands from its answer. *)
Definition commands_left (p : point) : nat :=
  match p with Begin => 2 | Claim _ | Extend => 1 | Answered _ => 0 end.

Definition fits (r : request) (p : point) : Prop :=
  match p with
  | Claim payload => exists ns o, r = SetOrigin ns o /\ payload = to_json o
  | Extend => exists ns o, r = PatchOrigin ns o
  | _ => True
  end.

Lemma turn_fits time r p d : fits r p -> commands_left p <> 0%nat ->
  exists p' d', turn time r p d = Some (p', d') /\ fits r p' /\ (commands_left p' < commands_left p)%nat.
Proof.
  intros Hf Hp. destruct p as [|payload| |]; [..|done].
  - destruct r as [ns|ns o|ns|ns o]; cbn [turn].
    + unfold get_origin. destruct (get _ _ _) as [v|]; [destruct (from_json v)|]; eexists _, _;
        (split_and!; [done|done|cbn; lia]).
    + unfold set_origin. destruct (get _ _ _); [destruct (decide _)|]; eexists _, _;
        (split_and!; [done|cbn; eauto|cbn; lia]).
    + unfold delete_origin. destruct (del _ _ _). eexists _, _. split_and!; [done|done|cbn; lia].
    + unfold patch_origin. destruct (get _ _ _) as [v|]; [destruct (from_json v); [|destruct (decide _)]|];
        eexists _, _; (split_and!; [done|cbn; eauto|cbn; lia]).
  - destruct Hf as (ns & o & -> & ->). cbn [turn]. unfold set_origin_claim. destruct (set_nx_ex _ _ _ _ _).
    eexists _, _. split_and!; [done|done|cbn; lia].
  - destruct Hf as (ns & o & ->). cbn [turn]. unfold patch_origin_extend. destruct (expire _ _ _ _).
    eexists _, _. split_and!; [done|done|cbn; lia].
Qed.

Lemma step_fits l s s' : step l s s' -> (forall i r p, tasks s !! i = Some (r, p) -> fits r p) ->
  forall i r p, tasks s' !! i = Some (r, p) -> fits r p.
Proof.
  intros Hs Hi. destruct Hs as [s time Ht|s r|s i r p p' d' Hl Et|s i r p p' d' e b Hl Et];
    intros j r0 p0; cbn [tasks].
  - apply Hi.
  - rewrite lookup_app_Some. intros [Hj|[_ Hj]]; [by eapply Hi|].
    destruct (j - length (tasks s))%nat as [|n]; [by injection Hj as <- <-|by destruct n].
  - rewrite list_lookup_insert_Some. intros [(-> & [= <- <-] & _)|[_ Hj]]; [|by eapply Hi].
    assert (Hp : commands_left p <> 0%nat) by (destruct p; [done|done|done|by destruct r]).
    destruct (turn_fits (now s) r p (store s) (Hi _ _ _ Hl) Hp) as (p1 & d1 & E1 & ? & _). congruence.
  - rewrite list_lookup_insert_Some. intros [(-> & [= <- <-] & _)|[_ Hj]]; [done|by eapply Hi].
Qed.

Lemma api_reach_fits time d s : star any (start time d) s -> forall i r p, tasks s !! i = Some (r, p) -> fits r p.
Proof.
  apply (star_invariant any (fun s => forall i r p, tasks s !! i = Some (r, p) -> fits r p)).
  - intros x y Hi [l Hl]. by eapply step_fits.
  - intros i r p Hl. discriminate Hl.
Qed.

(** What the last command of a handler does, against the whole handler at that moment. *)
Definition atomic (time : N) (r : request) (d d' : db) (a : answer) : Prop :=
  let (a0, d0) := alone time r d in
  (a = a0 /\ same_view time d' d0) \/
  (exists ns o, r = SetOrigin ns o /\ get time (key r) d = Some (to_json o) /\
     a = inl Duplicate /\ a0 = inr None /\ d' = d /\ d0 = d) \/
  (exists ns o v, r = PatchOrigin ns o /\ get time (key r) d = Some v /\ from_json v <> inr o /\
     a = inr None /\ (exists e, a0 = inl e) /\ d0 = d /\
     forall t, time <= t -> get t (key r) d' = if t <? time + 600 then Some v else None).

Lemma same_view_refl time d : same_view time d d.
Proof. by intros t k _. Qed.

Lemma claim_atomic time ns o d p d' : turn time (SetOrigin ns o) (Claim (to_json o)) d = Some (p, d') ->
  exists a, p = Answered a /\ atomic time (SetOrigin ns o) d d' a.
Proof.
  cbn [turn]. intros [= E]. unfold set_origin_claim in E. unfold atomic. pose proof (alone_set time ns o d) as Ha.
  destruct (get time (origin_key ns) d) as [v|] eqn:Eg.
  - rewrite (set_taken _ _ _ _ _ _ Eg) in E. injection E as <- <-. rewrite Ha. eexists. split; [done|].
    destruct (decide (v = to_json o)) as [->|].
    + right. left. exists ns, o. by split_and!.
    + left. split; [done|apply same_view_refl].
  - destruct Ha as (d1 & Es & ->). rewrite Es in E. injection E as <- <-. eexists. split; [done|].
    left. split; [done|apply same_view_refl].
Qed.

Lemma extend_atomic time ns o d p d' : turn time (PatchOrigin ns o) Extend d = Some (p, d') ->
  exists a, p = Answered a /\ atomic time (PatchOrigin ns o) d d' a.
Proof.
  cbn [turn]. intros [= E]. unfold patch_origin_extend in E.
  destruct (expire_spec time (origin_key ns) 600 d) as (d1 & Ee & Hd). rewrite Ee in E. injection E as <- <-.
  eexists. split; [done|]. unfold atomic, alone. cbn [turn]. unfold patch_origin.
  destruct (get time (origin_key ns) d) as [v|] eqn:Eg.
  - rewrite decide_True by done. change (1 =? 0) with false. cbv iota.
    assert (Hv : forall t, time <= t -> get t (origin_key ns) d1 = if t <? time + 600 then Some v else None).
    { intros t Ht. by rewrite (Hd t (origin_key ns) Ht), decide_True. }
    destruct (from_json v) as [e|o'] eqn:Ej; [|destruct (decide (o' = o)) as [->|Hne]].
    + right. right. exists ns, o, v. split_and!; [done|done|congruence|done|eauto|done|done].
    + unfold patch_origin_extend. rewrite Ee, decide_True by done. left. split; [done|apply same_view_refl].
    + right. right. exists ns, o, v. split_and!; [done|done|congruence|done|eauto|done|done].
  - rewrite decide_False by (intros [? ?]; done). left. split; [done|]. intros t k Ht. rewrite (Hd t k Ht).
    destruct (decide (k = _)) as [->|]; [|done]. rewrite (get_none _ _ _ _ Eg Ht). by destruct (t <? _).
Qed.

Lemma begin_atomic time r d p d' : turn time r Begin d = Some (p, d') ->
  (exists a, p = Answered a /\ atomic time r d d' a) \/ commands_left p = 1%nat /\ d' = d.
Proof.
  intros E. destruct p as [|payload| |a].
  - exfalso. destruct (turn_fits time r Begin d I ltac:(done)) as (p1 & d1 & E1 & _ & Hc). rewrite E in E1.
    injection E1 as <- <-. cbn in Hc. lia.
  - right. by apply turn_claim in E as (? & ? & _ & _ & ->).
  - right. split; [done|]. destruct r; try discriminate E; cbn [turn] in E; injection E as E; revert E.
    + unfold get_origin. destruct (get _ _ _) as [v|]; [destruct (from_json v)|]; discriminate.
    + unfold set_origin. destruct (get _ _ _); [destruct (decide _)|]; discriminate.
    + unfold delete_origin. destruct (del _ _ _). discriminate.
    + unfold patch_origin. destruct (get _ _ _) as [v|]; [destruct (from_json v); [|destruct (decide _)]|];
        try discriminate; by intros [= <-].
  - left. exists a. split; [done|]. unfold atomic, alone. rewrite E. left. split; [done|apply same_view_refl].
Qed.

(** C27 (refinement). Handlers that interleave command by command act as if each ran on
    its own at its last command, the commands before it changing nothing: the answer is
    that of the whole handler at that moment, and so is what the database shows from then on. There
    are two exceptions: a [POST] that loses to an equal one is told [Duplicate],
    and a [PATCH] whose entry was replaced after it looked renews the entry of another. No
    handler needs more than two commands. *)
Theorem api_linearizes (time : N) (d : db) (s s' : t) (i : nat) (r : request) :
  star any (start time d) s -> step (Command i r) s s' ->
  exists p p', tasks s !! i = Some (r, p) /\ tasks s' = <[i := (r, p')]> (tasks s) /\
    (commands_left p' < commands_left p <= 2)%nat /\
    match p' with
    | Answered a => atomic (now s) r (store s) (store s') a
    | _ => store s' = store s
    end.
Proof.
  intros Hr Hs. pose proof (api_reach_fits _ _ _ Hr) as Hf. inversion Hs as [| |? ? ? p p' d' Hl Et|]; subst.
  exists p, p'. specialize (Hf _ _ _ Hl).
  assert (Hp : commands_left p <> 0%nat) by (destruct p; [done|done|done|by destruct r]).
  destruct (turn_fits (now s) r p (store s) Hf Hp) as (p1 & d1 & E1 & _ & Hc).
  rewrite Et in E1. injection E1 as <- <-. split_and!; [done|done|done|by destruct p; cbn; lia|]. cbn [store].
  destruct p as [|payload| |]; [..|done].
  - destruct (begin_atomic _ _ _ _ _ Et) as [(a & -> & Ha)|[Hc' ->]]; [done|]. by destruct p'.
  - destruct Hf as (ns & o & -> & ->). by apply claim_atomic in Et as (a & -> & Ha).
  - destruct Hf as (ns & o & ->). by apply extend_atomic in Et as (a & -> & Ha).
Qed.
End ApiSys.
End ApiSys.

(** ** What the relay's registration comes to *)
Section Lapse.
Context `{Redis}.
Import Server.

(** A refresh while the entry is there changes nothing. *)
Lemma refresh_keeps now self d v res :
  get now (origin_key (Refresh.namespace self)) d = Some v -> v = to_json (Refresh.origin self) ->
  Refresh.run_turn now self d = Some res ->
  res = (inr (Refresh.mk (Refresh.origin self) (Refresh.namespace self) (Refresh.refresh self + 300)), d) /\
  Refresh.refresh self <= now.
Proof.
  intros Eg -> E. unfold Refresh.run_turn, Refresh.tick in E. destruct (N.ltb_spec now (Refresh.refresh self)); [done|].
  unfold Refresh.update in E. cbn [Refresh.namespace Refresh.origin] in E.
  pose proof (alone_set now (Refresh.namespace self) (Refresh.origin self) d) as Ha. rewrite Eg in Ha.
  rewrite decide_True in Ha by done. rewrite Ha in E. cbn in E. by injection E as <-.
Qed.

(** An update against an entry of another origin fails. *)
Lemma refresh_refused now self d v res :
  get now (origin_key (Refresh.namespace self)) d = Some v -> v <> to_json (Refresh.origin self) ->
  Refresh.run_turn now self d = Some res -> res = (inl tt, d).
Proof.
  intros Eg Hv E. unfold Refresh.run_turn, Refresh.tick in E. destruct (now <? _); [done|].
  unfold Refresh.update in E. cbn [Refresh.namespace Refresh.origin] in E.
  pose proof (alone_set now (Refresh.namespace self) (Refresh.origin self) d) as Ha. rewrite Eg in Ha.
  rewrite decide_False in Ha by done. rewrite Ha in E. cbn in E. by injection E as <-.
Qed.

Lemma refresh_run_keeps s node ns d times self res :
  (forall t, s <= t < s + 600 -> get t (origin_key ns) d = Some (to_json node)) ->
  Forall (fun t => t < s + 600) times -> s <= Refresh.refresh self ->
  Refresh.origin self = node -> Refresh.namespace self = ns ->
  Refresh.run times self d = Some res ->
  exists self', res = (inr self', d) /\ Refresh.origin self' = node /\ Refresh.namespace self' = ns.
Proof.
  intros Hd. revert self. induction times as [|now times IH]; intros self Ht Hs Eo En E; cbn [Refresh.run] in E.
  - injection E as <-. eauto.
  - inversion Ht as [|? ? Hn Ht']; subst. destruct (Refresh.run_turn now self d) as [res0|] eqn:Er; [|done].
    assert (Hge : s <= now).
    { unfold Refresh.run_turn, Refresh.tick in Er. destruct (N.ltb_spec now (Refresh.refresh self)); [done|lia]. }
    destruct (refresh_keeps now self d _ res0 (Hd now ltac:(lia)) eq_refl Er) as [-> _].
    apply (IH _ Ht') in E; [done| |done|done]. cbn [Refresh.refresh]. lia.
Qed.

(** C29 (functional). A relay's registration lapses however often it is refreshed:
    [set_origin] of the API returns early when the value is there already, so the ticks
    of the first ten minutes all succeed and renew nothing, and ten minutes after the claim nobody is
    told of the relay until its next tick. A relay that claims the
    name in that time gets it, and the refresh of the first fails then. *)
Theorem refresh_lapses (s : N) (node other : Origin.t) (ns : String) (d : db) :
  get s (origin_key ns) d = None ->
  exists self d1, Refresh.set_origin s node ns d = (inr self, d1) /\
    (forall t, s <= t < s + 600 -> Client.get_origin (into_response (fst (alone t (GetOrigin ns) d1))) = inr (Some node)) /\
    forall times res, Forall (fun t => t < s + 600) times -> Refresh.run times self d1 = Some res ->
      exists self', res = (inr self', d1) /\
      forall t, s + 600 <= t ->
        Client.get_origin (into_response (fst (alone t (GetOrigin ns) d1))) = inr None /\
        exists d2, alone t (SetOrigin ns other) d1 = (inr None, d2) /\
          (other <> node -> forall t' res', t <= t' < t + 600 -> Refresh.run_turn t' self' d2 = Some res' -> res' = (inl tt, d2)).
Proof.
  intros Eg. pose proof (alone_set s ns node d) as Ha. rewrite Eg in Ha. destruct Ha as (d1 & Es & Ea).
  destruct (set_free s (origin_key ns) (to_json node) 600 d Eg) as (d1' & Es' & Hd).
  rewrite Es in Es'. injection Es' as <-.
  assert (Hk : forall t, s <= t -> get t (origin_key ns) d1 = if t <? s + 600 then Some (to_json node) else None).
  { intros t Ht. by rewrite (Hd t _ Ht), decide_True. }
  exists (Refresh.new s node ns), d1. split_and!.
  - unfold Refresh.set_origin, Refresh.update. cbn [Refresh.new Refresh.namespace Refresh.origin]. by rewrite Ea.
  - intros t Ht. rewrite alone_get, Hk, (proj2 (N.ltb_lt t (s + 600))) by lia. cbn [fst].
    rewrite from_to_json. by rewrite client_get.
  - intros times res Ht Er.
    destruct (refresh_run_keeps s node ns d1 times (Refresh.new s node ns) res) as (self' & -> & Eo & En);
      [|done|cbn; lia|done|done|done|].
    { intros t Ht'. by rewrite Hk, (proj2 (N.ltb_lt t (s + 600))) by lia. }
    exists self'. split; [done|]. intros t Ht'.
    assert (E0 : get t (origin_key ns) d1 = None) by (rewrite Hk, (proj2 (N.ltb_ge t (s + 600))) by lia; done).
    split; [by rewrite alone_get, E0; cbn [fst]; rewrite client_get|].
    pose proof (alone_set t ns other d1) as Hb. rewrite E0 in Hb. destruct Hb as (d2 & Es2 & Eb).
    exists d2. split; [done|]. intros Hne t' res' Ht2 Er'.
    destruct (set_free t (origin_key ns) (to_json other) 600 d1 E0) as (d2' & Es2' & Hd2).
    rewrite Es2 in Es2'. injection Es2' as <-.
    apply (refresh_refused t' self' d2 (to_json other)); [|rewrite Eo; by intros ?%to_json_inj|done].
    rewrite En, (Hd2 t' _ ltac:(lia)), decide_True by done. by rewrite (proj2 (N.ltb_lt t' (t + 600))) by lia.
Qed.

(** What one client set another reads, on every path: after a [POST]
    that was answered with success, a [GET] at any later time yields that origin, or
    nothing once the entry has lapsed, and just as long as the entry lives if the key was
    free; the names of other broadcasts are untouched. *)
Theorem origin_round_trip (now : N) (ns : String) (o : Origin.t) (d d' : db) :
  alone now (SetOrigin ns o) d = (inr None, d') ->
  (forall t, now <= t ->
     Client.get_origin (into_response (fst (alone t (GetOrigin ns) d'))) ∈ [inr (Some o); inr None]) /\
  Client.get_origin (into_response (fst (alone now (GetOrigin ns) d'))) = inr (Some o) /\
  (get now (origin_key ns) d = None -> forall t, now <= t ->
     Client.get_origin (into_response (fst (alone t (GetOrigin ns) d'))) = inr (if t <? now + 600 then Some o else None)) /\
  forall ns' t, ns' <> ns -> now <= t -> alone t (GetOrigin ns') d' = (fst (alone t (GetOrigin ns') d), d').
Proof.
  intros E.
  assert (Hread : forall t v, get t (origin_key ns) d' = v -> v = Some (to_json o) \/ v = None ->
    Client.get_origin (into_response (fst (alone t (GetOrigin ns) d'))) = inr (if v is Some _ then Some o else None)).
  { intros t v Ev Hv. rewrite alone_get, Ev. cbn [fst]. rewrite client_get.
    destruct Hv as [->| ->]; [by rewrite from_to_json|done]. }
  assert (Hnow : get now (origin_key ns) d' = Some (to_json o)).
  { pose proof (alone_set now ns o d) as Ha. destruct (get now (origin_key ns) d) as [v|] eqn:Eg.
    - rewrite E in Ha. destruct (decide (v = _)) as [->|]; [|done]. by injection Ha as ->.
    - destruct Ha as (d1 & Es & E'). rewrite E in E'. injection E' as <-.
      destruct (set_free now (origin_key ns) (to_json o) 600 d Eg) as (d2 & Es' & Hd). rewrite Es in Es'. injection Es' as <-.
      by rewrite (Hd now _ ltac:(lia)), decide_True, (proj2 (N.ltb_lt now (now + 600))) by (done || lia). }
  split_and!.
  - intros t Ht. rewrite (Hread t _ eq_refl).
    + destruct (get t (origin_key ns) d'); [left|right; left].
    + rewrite <- Hnow. by apply get_later.
  - rewrite (Hread now _ Hnow) by auto. done.
  - intros Eg t Ht. pose proof (alone_set now ns o d) as Ha. rewrite Eg, E in Ha.
    destruct Ha as (d1 & Es & [= <-]).
    destruct (set_free now (origin_key ns) (to_json o) 600 d Eg) as (d2 & Es' & Hd). rewrite Es in Es'. injection Es' as <-.
    specialize (Hd t (origin_key ns) Ht). rewrite decide_True in Hd by done.
    rewrite (Hread t _ Hd) by (destruct (t <? _); auto). by destruct (t <? _).
  - intros ns' t Hne Ht. rewrite !alone_get. cbn [fst]. f_equal.
    assert (Ek : get t (origin_key ns') d' = get t (origin_key ns') d); [|by rewrite Ek].
    pose proof (alone_set now ns o d) as Ha. rewrite E in Ha.
    destruct (get now (origin_key ns) d) as [v|] eqn:Eg; [by injection Ha as _ <-|].
    destruct Ha as (d1 & Es & [= <-]).
    destruct (set_free now (origin_key ns) (to_json o) 600 d Eg) as (d2 & Es' & Hd). rewrite Es in Es'. injection Es' as <-.
    rewrite (Hd t _ Ht), decide_False; [done|]. by intros ?%origin_key_inj.
Qed.
End Lapse.

(** ** A database for examples: per key a value and its deadline *)
Definition demo_db : Type := String -> option (String * N).

Definition demo_get (t : N) (k : String) (d : demo_db) : option String :=
  match d k with Some (v, e) => if t <? e then Some v else None | None => None end.

Definition demo_put (k : String) (e : option (String * N)) (d : demo_db) : demo_db :=
  fun k' => if decide (k' = k) then e else d k'.

Lemma demo_get_put t k k' e d : demo_get t k' (demo_put k e d) =
  if decide (k' = k) then match e with Some (v, e) => if t <? e then Some v else None | None => None end else demo_get t k' d.
Proof. unfold demo_get, demo_put. by destruct (decide (k' = k)). Qed.

(** Two addresses of relays. *)
Definition demo_json (u : bool) : String := if u then str "{'url':'https://a/'}" else str "{'url':'https://b/'}".

Definition demo_from (s : String) : unit + bool :=
  if decide (s = demo_json true) then inr true else if decide (s = demo_json false) then inr false else inl tt.

Definition demo_claim (t : N) (k v : String) (ex : N) (d : demo_db) : bool * demo_db :=
  match demo_get t k d with Some _ => (false, d) | None => (true, demo_put k (Some (v, t + ex)) d) end.

Definition demo_renew (t : N) (k : String) (ex : N) (d : demo_db) : demo_db :=
  demo_put k (match demo_get t k d with Some v => Some (v, t + ex) | None => None end) d.

#[global] Program Instance demo_redis : Redis := {|
  Url := bool; RedisError := unit; redis_display _ := str "broken pipe"; JsonError := unit; json_display _ := str "expected value";
  to_string := demo_json;
  from_str := demo_from;
  db := demo_db;
  get := demo_get;
  set_nx_ex := demo_claim;
  del t k d := (if decide (is_Some (demo_get t k d)) then 1 else 0, demo_put k None d);
  expire t k ex d := (if decide (is_Some (demo_get t k d)) then 1 else 0, demo_renew t k ex d)
|}.
Next Obligation. intros u. destruct (u : bool); vm_compute; reflexivity. Qed.
Next Obligation.
  intros b l s E Hb. exists tt. unfold demo_from.
  rewrite !decide_False; [done|intros ->; vm_compute in E; injection E as <- _; by destruct Hb..].
Qed.
Next Obligation. intros s E. exists tt. unfold demo_from. rewrite !decide_False; [done|intros ->; discriminate E..]. Qed.
Next Obligation.
  intros t t' k d Ht. unfold demo_get. destruct (d k) as [[v e]|]; [|by left].
  destruct (N.ltb_spec t e), (N.ltb_spec t' e); auto; lia.
Qed.
Next Obligation. intros t k v ex d w E. unfold demo_claim. by rewrite E. Qed.
Next Obligation.
  intros t k v ex d E. unfold demo_claim. rewrite E. eexists. split; [done|]. intros t' k' _. by rewrite demo_get_put.
Qed.
Next Obligation. intros t k d. eexists. split; [done|]. intros t' k' _. by rewrite demo_get_put. Qed.
Next Obligation.
  intros t k ex d. eexists. split; [done|]. intros t' k' _. unfold demo_renew. rewrite demo_get_put.
  destruct (decide (k' = k)); [|done]. destruct (demo_get t k d); [done|by destruct (t' <? _)].
Qed.

Definition demo_ns : String := str "room".
Definition node_a : Origin.t := Origin.mk (true : Url).
Definition node_b : Origin.t := Origin.mk (false : Url).
Definition empty_db : db := fun _ => None.

(** Two relays claim a name at once: both look, the second claims, its entry lapses, and the first,
    which looked again, gets the name. *)
Import ApiSys.
Definition demo_t (s : t) (i : nat) : t :=
  match tasks s !! i with
  | Some (r, p) => match Server.turn (now s) r p (store s) with
                   | Some (p', d') => mk (now s) d' (<[i := (r, p')]> (tasks s))
                   | None => s
                   end
  | None => s
  end.

Lemma demo_command s i r p p' d' : tasks s !! i = Some (r, p) -> Server.turn (now s) r p (store s) = Some (p', d') ->
  step (Command i r) s (demo_t s i).
Proof. intros El Et. unfold demo_t. rewrite El, Et. by eapply do_command. Qed.

Definition demo_0 : t := mk 5 empty_db
  [(Server.SetOrigin demo_ns node_a, Server.Begin); (Server.SetOrigin demo_ns node_b, Server.Begin)].
Definition demo_1 : t := demo_t demo_0 0.
Definition demo_2 : t := demo_t demo_1 1.
Definition demo_3 : t := demo_t demo_2 1.
Definition demo_4 : t := mk 605 (store demo_3) (tasks demo_3).
Definition demo_5 : t := demo_t demo_4 0.

Lemma demo_arrive : star any (start 5 empty_db) demo_0.
Proof.
  eapply star_step; [eapply star_step; [apply star_refl|exists Arrive; apply (do_arrive _ (Server.SetOrigin demo_ns node_a))]|].
  exists Arrive. apply (do_arrive (mk 5 empty_db [(Server.SetOrigin demo_ns node_a, Server.Begin)]) (Server.SetOrigin demo_ns node_b)).
Qed.

Lemma demo_claimed : star any (start 5 empty_db) demo_3.
Proof.
  eapply star_step; [eapply star_step; [eapply star_step; [apply demo_arrive|]|]|].
  - eexists. eapply (demo_command demo_0 0); reflexivity.
  - eexists. eapply (demo_command demo_1 1); reflexivity.
  - eexists. eapply (demo_command demo_2 1); reflexivity.
Qed.

Lemma demo_lapsed : star any demo_3 demo_5.
Proof.
  eapply star_step; [eapply star_step; [apply star_refl|exists Time; apply (do_time demo_3 605); by apply N.leb_le]|].
  eexists. eapply (demo_command demo_4 0); reflexivity.
Qed.

Lemma origin_owned_witness :
  exists z l z' u l' u', star any demo_3 z /\ step l z z' /\ star any z' u /\ step l' u u' /\ star any u' demo_5 /\
    shown z (Server.origin_key demo_ns) = Some (demo_json false) /\ shown z' (Server.origin_key demo_ns) = None /\
    (l = Time \/ removes l (Server.origin_key demo_ns)) /\
    shown u (Server.origin_key demo_ns) = None /\ shown u' (Server.origin_key demo_ns) = Some (demo_json true) /\
    claims l' (Server.origin_key demo_ns) (demo_json true).
Proof.
  apply (origin_owned 5 empty_db); [apply demo_claimed|apply demo_lapsed|vm_compute; reflexivity|
    vm_compute; reflexivity|intros E; apply (f_equal as_bytes) in E; vm_compute in E; discriminate E].
Defined.

(** The claim of the second relay while the first is between its commands. *)
Lemma api_linearizes_witness : exists p p',
  tasks demo_2 !! 1%nat = Some (Server.SetOrigin demo_ns node_b, p) /\
  tasks demo_3 = <[1%nat := (Server.SetOrigin demo_ns node_b, p')]> (tasks demo_2) /\
  (commands_left p' < commands_left p <= 2)%nat /\
  match p' with
  | Server.Answered a => atomic (now demo_2) (Server.SetOrigin demo_ns node_b) (store demo_2) (store demo_3) a
  | _ => store demo_3 = store demo_2
  end.
Proof.
  apply (api_linearizes 5 empty_db).
  - eapply star_step; [eapply star_step; [apply demo_arrive|]|].
    + eexists. eapply (demo_command demo_0 0); reflexivity.
    + eexists. eapply (demo_command demo_1 1); reflexivity.
  - eapply (demo_command demo_2 1); reflexivity.
Defined.

Lemma refresh_lapses_witness :
  exists self d1, Refresh.set_origin 5 node_a demo_ns empty_db = (inr self, d1) /\
    (forall t, 5 <= t < 5 + 600 ->
       Client.get_origin (Server.into_response (fst (Server.alone t (Server.GetOrigin demo_ns) d1))) = inr (Some node_a)) /\
    forall times res, Forall (fun t => t < 5 + 600) times -> Refresh.run times self d1 = Some res ->
      exists self', res = (inr self', d1) /\
      forall t, 5 + 600 <= t ->
        Client.get_origin (Server.into_response (fst (Server.alone t (Server.GetOrigin demo_ns) d1))) = inr None /\
        exists d2, Server.alone t (Server.SetOrigin demo_ns node_b) d1 = (inr None, d2) /\
          (node_b <> node_a -> forall t' res', t <= t' < t + 600 -> Refresh.run_turn t' self' d2 = Some res' -> res' = (inl tt, d2)).
Proof. apply (refresh_lapses 5 node_a node_b demo_ns empty_db). reflexivity. Defined.

(** The first ticks of a relay that claimed at 5. *)
Lemma refresh_ticks : exists self d1 self', Refresh.set_origin 5 node_a demo_ns empty_db = (inr self, d1) /\
  Refresh.run [305] self d1 = Some (inr self', d1) /\ Refresh.refresh self' = 605.
Proof. eexists _, _, _. split; [reflexivity|split; reflexivity]. Qed.

Lemma origin_round_trip_witness : exists d',
  Server.alone 5 (Server.SetOrigin demo_ns node_a) empty_db = (inr None, d') /\
  Client.get_origin (Server.into_response (fst (Server.alone 5 (Server.GetOrigin demo_ns) d'))) = inr (Some node_a).
Proof.
  eexists. split; [reflexivity|].
  exact (proj1 (proj2 (origin_round_trip 5 demo_ns node_a empty_db _ eq_refl))).
Defined.
